(* ===== verification/_CoqProject ===== *)
-Q . S2P
Prelude.v
GoNet.v
Protocol.v
ProtocolFacts.v
GoStrings.v
Http.v
Observability.v
Rewrite.v
Kmsg.v
Debug.v
RewriteMsg.v
RewriteFacts.v
RewriteTheorems.v
Auth.v
AuthFacts.v
Resolver.v
ResolverFacts.v
Store.v
Admin.v
Upstream.v
UpstreamFacts.v
UpstreamTheorems.v
Completion.v
Listener.v
ProxyConn.v
Config.v
Handlers.v
Serve.v
Messages.v
Writes.v
ProxyFacts.v
Answers.v
ProxyDemo.v
Lifecycle.v
ProxyTheorems.v
ScramLogin.v
Lookups.v
System.v
ClientTraffic.v
Session.v
Confinement.v
Crashes.v
Process.v
Deployment.v
Command.v
