(* ===== verification/Prelude.v ===== *)
(** * kroxy, a multi-tenant Kafka proxy: a verification development

    ** The program

    kroxy (Go) accepts Kafka clients, terminates their SASL exchange, looks the
    user name up in a store of tenants, and forwards requests over one connection
    to the tenant's broker, prefixing topic, group and transactional names (all but
    the transactional id of Produce and the forgotten topics of Fetch) with the
    tenant's prefix on the way in and stripping (or filtering by) it on the way out.  Its parts, and how they call each other:

    - src/protocol: frames, request headers, response headers, API keys;
    - src/rewrite: the rewrite of each Kafka message;
    - src/auth: parsers of the SASL PLAIN and SCRAM client messages;
    - src/resolver: the tenant store (interface and in-memory implementation);
    - src/upstream: the connection to a broker, its SASL login and round trips;
    - src/proxy: the connection state machine ([conn.go]), the handlers
      ([rewrite*.go]) and the accept loop ([listener.go]);
    - src/observability: metrics and logging;
    - src/config, src/cmd/kroxy: configuration and process start;
    - src/admin: JSON-RPC administration of the store, and its client.

    ** How it is modelled

    Go code becomes a function in the state-and-error monad [M] of this file
    ([let!]); a call that cannot change state returns [res] ([let?]).  Outcomes
    are a value, an error or a panic (out-of-range slices, nil dereferences).
    Errors keep their wrapping, and [Is] is [errors.Is].  Integers are [Z] with
    their width written out ([int16], [int32], [uint32], [uint64]); bytes are
    [Byte.byte], slicing is [slice]/[slice_from].  A socket is a [NetConn]
    (GoNet.v): the bytes the peer will send, the failures of coming writes, and a
    record of what was written and under which deadline each read was made.
    Quantifying over those scripts covers every behaviour of the peer.

    What is not in the repository is a parameter: the kmsg codecs (records
    [Codec], [Blob], [Codecs]), the request formatter, the SCRAM session, go-rpc,
    HTTP transport, JSON, YAML and X.509.  What is relied on of them is stated as classes
    ([BlobLaws], [Appends], [ResponsesAppend], [GoRPC], [Transport]), each with an
    instance.  Of JSON and go-rpc only that strings of valid UTF-8 ([ValidString]) in
    bodies within the read limit arrive as they were sent.

    ** Files

    - Prelude.v: errors, [res] and [M]; judgements on computations: invariants
      ([preserves]), triples, runs that return ([runs]), pairs of runs ([agree]),
      runs that do not panic ([safely]); machine integers, big-endian bytes,
      slices, loops.
    - GoNet.v, GoStrings.v, Http.v: the parts of [net], [io], [strings], [strconv] and
      [net/http] (the request multiplexer) used.
    - Protocol.v, ProtocolFacts.v: src/protocol.  Header and frame round trips,
      bounds; the two ways a hostile flexible header breaks the parser.
    - Rewrite.v: rewrite.go.  Kmsg.v: the fields of the kmsg structs kroxy touches,
      the rest of each struct an arbitrary value.  RewriteMsg.v: every [...In] and
      [...Out].  RewriteFacts.v, RewriteTheorems.v: requests and responses as sums
      ([KRequest], [KResponse]) with their [names] (the fields kroxy prefixes), their
      [bare] names (those it does not) and [blob_names] (those inside consumer blobs,
      which must fit a 16-bit length); isolation, losslessness, filtering, echo,
      consumer blobs; overlapping prefixes leak.
    - Auth.v, AuthFacts.v: src/auth, against the grammar of RFC 4616 and the part of
      RFC 5802 the parser looks at.
    - Resolver.v, ResolverFacts.v: src/resolver.  The contract [ResolverLaws] (a
      finite map of valid tenants), which clients are verified against, and that
      the in-memory store meets it.  Store.v: the methods of memory.go one lock
      operation and one map access at a time, run by any number of goroutines;
      what ResolverFacts.v proves of whole calls holds of their interleavings.
    - Debug.v: debug.go, the summaries of messages for the log.
    - Upstream.v, UpstreamFacts.v, UpstreamTheorems.v: src/upstream.  Deadlines,
      login, round trips, correlation ids, termination of the SCRAM loop.
      Completion.v: with a broker that accepts and answers, every operation
      returns, with the exact bytes on the wire.
    - Observability.v: the metrics the proxy updates; the routes of their server;
      the choice of the logger, and the part of slog the proxy uses (levels,
      attributes, records).
    - ProxyConn.v (state, SASL phase, dialling), Handlers.v (23 handlers over the
      common shape [cycle]), Serve.v ([dispatch], [serve], [handle]): src/proxy.
      Messages.v: the request and response of each handler as values of the sums of
      RewriteFacts.v ([with_request], [with_response]), so that a frame, its API key and
      the codec used on it are tied together ([handles]).
      Writes.v: what reaches a broker, operation by operation.  ProxyFacts.v: the
      invariant of a connection, with the frames that may be forwarded and the rounds
      a broker accepted ([scram_rounds]).  Answers.v: what the client gets.  Lifecycle.v:
      sockets and counters.  ProxyDemo.v: a concrete deployment and run.
      ProxyTheorems.v: the theorems on whole runs and on pairs of them.
      ClientTraffic.v: what an iteration sends the client, tied to what
      the broker sent in it.  ScramLogin.v: the SCRAM relay.
      Session.v: whole sessions against a reference session.  Confinement.v: pairs
      of runs that differ in a password.  Crashes.v: the causes of a panic.
    - Listener.v: [Run] as a labelled transition system, interleaved with the
      handlers and the shutdown.
    - Config.v: src/config and the start of src/cmd/kroxy.
    - Process.v: the rest of src/cmd/kroxy: the goroutines and channels of [run],
      its select, [Server.Wait], [admin.Serve] and [ServeMetrics], composed with
      the accept loop into one transition system.
      Command.v: the flags, the version, and how [main] starts or exits.
    - Admin.v: src/admin; the client refines the store's contract over the wire; the
      server behind its routes is that wire.
    - Lookups.v, System.v: any number of connections and RPCs, interleaved over the
      store they share.  Lookups.v: what a connection depends on of the store.
      System.v: an iteration of [serve] as two events, its lookup and its completion;
      each connection of the system is a connection of the theorems above; what the administration does to clients and to the log.
    - Deployment.v: the process of Process.v and the system of System.v as one
      program, from the start of the servers to the exit.

    ** What the theorems show

    On a connection (ProxyTheorems.v, ClientTraffic.v, ScramLogin.v, Lifecycle.v),
    for every client, broker and schedule of changes to the store: what reaches a
    broker is kroxy's own login or, after authentication as a registered tenant,
    requests this client sent, with the names kroxy prefixes in the tenant's name
    space (or frames of an API without rewrite); what reaches the client answers the
    request just read and is kroxy's own, or the response the broker gave to that
    request, rewritten for the tenant (or passed through), in which a listing has
    exactly the tenant's names; two connections of tenants with incomparable
    prefixes, keeping to the rewritten APIs, name one object only by the empty name
    or in a field kroxy does not prefix; both kinds of login are described on every
    branch, with the SCRAM rounds the broker accepted; the SASL state machine reaches the
    authenticated state only as documented and never leaves it; each request gets
    one response, in order, under its correlation id; reads have deadlines; the
    loop terminates; no socket is left open.  A client that logs in (PLAIN, PLAIN
    translated to SCRAM, or SCRAM) and sends requests its broker answers is served
    to the end of its stream, and both sockets carry exactly the bytes of the
    reference session (Session.v); without translation to SCRAM and for a client
    that asks for no SCRAM exchange, a PLAIN password influences nothing but the
    login sent to the broker, in particular no log record (Confinement.v); a panic,
    which would end the process for all tenants, has two causes only, both known
    (Crashes.v).  On the messages (RewriteTheorems.v):
    non-empty names in the fields kroxy prefixes are isolated, nothing but those
    changes, and clients get their own names back.  On the store, the configuration and the administration: refinement of
    one contract, for the store also under every interleaving of concurrent calls
    (linearizability), without data races or deadlock.  On the whole of them
    (System.v): connections that run beside each other and beside the administration
    are the connections of the theorems above; a deleted tenant cannot log in any
    more, except by a login that had looked it up before, and its connections are not
    disturbed; the log accounts for every tenant;
    a clean exit of the program (Deployment.v) leaves no connection unserved and no
    socket open, and can always be reached after a signal unless a handler panics.  On the
    listener: transient errors never stop it, and it returns exactly when everything
    it accepted has ended.  On the process: what each exit status means, that no goroutine blocks
    on a result channel, and that a signal can always be followed by an orderly
    exit.  On the debug log: every summary is the plain text it abbreviates.
    Theorems that hold only with a restriction, or that exhibit a defect, say so in their comment.

    ** Bounds and fuel

    The tagged-field loop of a request header runs by its 64-bit count ([loopN],
    by binary recursion, with no bound added).  [scramLoop] and [serveLoop] take
    fuel; their callers give one more than the bytes the peer will still deliver,
    every iteration that goes on consumes at least one, and [scram_terminates] and
    [serve_terminates] prove that more fuel changes nothing.  The index loops
    [decodeSASLname_loop] and [compact_loop] take the length of what they walk
    over, their index growing in every iteration; the theorems on them
    ([ParseSCRAM_grammar], [compact_correct]) give their exact results.  [trimLeft]
    (in [TrimSpace]) takes the length of its string, every space it cuts being at
    least one byte.  The transition systems of Store.v, Listener.v, Process.v,
    System.v and Deployment.v run any finite sequence of events; in System.v an iteration of [serve]
    is two events, its lookup (at most one, [serveStep_once]) and its completion, and
    a method of the administration is two, its call of the store and its log record.

    ** Order

    The components were modelled in the order: protocol, rewrite, auth, resolver,
    upstream, connection, listener, configuration, administration, then the lock
    of the store, the process and the debug summaries, then the log of a
    connection and the theorems on whole sessions, last the HTTP routes, the log of
    the administration, the command line and the system and program as a whole.

    ** Left out

    The log records of the listeners (that they listen, that an accept is retried) and
    of the shutdown, and the rendering of records (JSON or text, the time stamp);
    usage messages and what is printed to the standard error; what the libraries
    render or transport (the Prometheus exposition, go-rpc, HTTP beyond the
    choice of the handler); TLS records (a TLS connection is a
    [NetConn]); time passing (deadlines are recorded, not fired: a fired deadline
    is an error at the end of the script, and a timer of the transition systems
    may fire at any moment). *)
From Stdlib Require Import ZArith Lia Strings.Byte.
From stdpp Require Import base list strings tactics numbers.

Create HintDb kroxy.
Create Rewrite HintDb kroxyrw.

Declare Scope go_scope.
Delimit Scope go_scope with go.

(** * Errors

    Package-level [errors.New] values are compared by identity
    ([errors.Is]), so each of them is a constructor; [Err_env] stands for an
    error value the environment hands back (a timeout, a reset, a decoding
    error of kmsg).  [errors.New] and [errors.Errorf] at a call site build an
    error equal to no sentinel ([ErrNew], the arguments kept unrendered);
    [errors.Wrap] and [errors.Wrapf] keep the cause ([ErrWrap]). *)
Inductive sentinel : Set :=
| EOF | ErrUnexpectedEOF | ErrClosed | ErrServerClosed
| ErrUnauthorized | ErrDuplicate | ErrNotFound | ErrInvalidTenant
| errClientClosed
| Err_env (code : Z).

#[global] Instance sentinel_eq_dec : EqDecision sentinel.
Proof. solve_decision. Defined.

Inductive fmtarg : Set :=
| FStr (s : string)
| FInt (z : Z).

#[global] Instance fmtarg_eq_dec : EqDecision fmtarg.
Proof. solve_decision. Defined.

Inductive error : Set :=
| ErrSent (s : sentinel)
| ErrNew (msg : string) (args : list fmtarg)
| ErrWrap (cause : error) (msg : string) (args : list fmtarg).

#[global] Instance error_eq_dec : EqDecision error.
Proof. solve_decision. Defined.

Abbreviation Wrap e msg := (ErrWrap e msg []) (only parsing).

(** [errors.Is(err, target)] for a sentinel target. *)
Fixpoint Is (err : error) (target : sentinel) : bool :=
  match err with
  | ErrSent s => bool_decide (s = target)
  | ErrNew _ _ => false
  | ErrWrap cause _ _ => Is cause target
  end.

(** * Results and the state monad

    A Go call returns, fails with an error, or panics (out-of-range slice). *)
Inductive res (A : Type) : Type :=
| Ok (a : A)
| Err (e : error)
| Panic.
Arguments Ok {A} a.
Arguments Err {A} e.
Arguments Panic {A}.

#[global] Instance res_eq_dec {A} `{EqDecision A} : EqDecision (res A).
Proof. solve_decision. Defined.

Definition rbind {A B} (m : res A) (k : A -> res B) : res B :=
  match m with
  | Ok a => k a
  | Err e => Err e
  | Panic => Panic
  end.

(** [if err != nil { return errors.Wrap(err, msg) }]. *)
Definition rwrap {A} (msg : string) (m : res A) : res A :=
  match m with
  | Err e => Err (Wrap e msg)
  | r => r
  end.

Definition M (S A : Type) : Type := S -> res A * S.

Definition ret {S A} (a : A) : M S A := fun s => (Ok a, s).
Definition fail {S A} (e : error) : M S A := fun s => (Err e, s).
Definition panic {S A} : M S A := fun s => (Panic, s).
Definition bind {S A B} (m : M S A) (k : A -> M S B) : M S B :=
  fun s => match m s with
           | (Ok a, s') => k a s'
           | (Err e, s') => (Err e, s')
           | (Panic, s') => (Panic, s')
           end.
Definition get {S} : M S S := fun s => (Ok s, s).
Definition modify {S} (f : S -> S) : M S unit := fun s => (Ok tt, f s).
Definition lift {S A} (r : res A) : M S A := fun s => (r, s).
Definition wrap {S A} (msg : string) (m : M S A) : M S A :=
  fun s => let '(r, s') := m s in (rwrap msg r, s').
(** The Go idiom [v, err := m()] followed by a test of [err]. *)
Definition attempt {S A} (m : M S A) : M S (error + A) :=
  fun s => match m s with
           | (Ok a, s') => (Ok (inr a), s')
           | (Err e, s') => (Ok (inl e), s')
           | (Panic, s') => (Panic, s')
           end.
(** Run [m]; on an error run [cleanup] and return that error. *)
Definition on_err {S A} (m : M S A) (cleanup : S -> S) : M S A :=
  fun s => match m s with
           | (Err e, s') => (Err e, cleanup s')
           | r => r
           end.
(** Run a computation on a component of the state. *)
Definition zoom {S T A} (getter : S -> T) (setter : T -> S -> S) (m : M T A) : M S A :=
  fun s => let '(r, t) := m (getter s) in (r, setter t s).

Notation "'let?' x ':=' m 'in' k" := (rbind m (fun x => k))
  (at level 10, x pattern, m at level 100, k at level 200) : go_scope.
Notation "'let!' x ':=' m 'in' k" := (bind m (fun x => k))
  (at level 10, x pattern, m at level 100, k at level 200) : go_scope.
Open Scope go_scope.

Section MonadLemmas.
Context {S A B : Type}.

Lemma rbind_Ok (m : res A) (k : A -> res B) b :
  rbind m k = Ok b <-> exists a, m = Ok a /\ k a = Ok b.
Proof. destruct m; simpl; naive_solver. Qed.

Lemma bind_Ok (m : M S A) (k : A -> M S B) s b s' :
  bind m k s = (Ok b, s') <-> exists a s1, m s = (Ok a, s1) /\ k a s1 = (Ok b, s').
Proof. unfold bind. destruct (m s) as [[] ]; naive_solver. Qed.

Lemma bind_Err (m : M S A) (k : A -> M S B) s e s' :
  bind m k s = (Err e, s') <->
  m s = (Err e, s') \/ exists a s1, m s = (Ok a, s1) /\ k a s1 = (Err e, s').
Proof. unfold bind. destruct (m s) as [[] ]; naive_solver. Qed.

Lemma wrap_Err (msg : string) (m : M S A) s e s' :
  wrap msg m s = (Err e, s') <-> exists e0, e = Wrap e0 msg /\ m s = (Err e0, s').
Proof. unfold wrap. destruct (m s) as [[] ]; simpl; naive_solver. Qed.

Lemma wrap_Ok (msg : string) (m : M S A) s a s' :
  wrap msg m s = (Ok a, s') <-> m s = (Ok a, s').
Proof. unfold wrap. destruct (m s) as [[] ]; simpl; naive_solver. Qed.

Lemma wrap_state (msg : string) (m : M S A) s : (wrap msg m s).2 = (m s).2.
Proof. unfold wrap. by destruct (m s). Qed.

Lemma attempt_state (m : M S A) s : (attempt m s).2 = (m s).2.
Proof. unfold attempt. by destruct (m s) as [[] ]. Qed.
End MonadLemmas.

(** A state predicate (or a relation to the initial state) that survives a
    computation whatever its outcome: the loop invariants of the connection
    and the accounting of what was written are stated with it. *)
Definition preserves {S A} (R : S -> S -> Prop) (m : M S A) : Prop :=
  forall s, R s (m s).2.

Section Preserves.
Context {S : Type} (R : S -> S -> Prop) `{!PreOrder R}.

Lemma preserves_ret {A} (a : A) : preserves R (ret a).
Proof. intros s. simpl. reflexivity. Qed.
Lemma preserves_fail {A} e : preserves R (fail (A := A) e).
Proof. intros s. simpl. reflexivity. Qed.
Lemma preserves_panic {A} : preserves R (panic (A := A)).
Proof. intros s. simpl. reflexivity. Qed.
Lemma preserves_lift {A} (r : res A) : preserves R (lift r).
Proof. intros s. simpl. reflexivity. Qed.
Lemma preserves_get : preserves R get.
Proof. intros s. simpl. reflexivity. Qed.
Lemma preserves_modify f : (forall s, R s (f s)) -> preserves R (modify f).
Proof. intros Hf s. apply Hf. Qed.

Lemma preserves_bind {A B} (m : M S A) (k : A -> M S B) :
  preserves R m -> (forall a, preserves R (k a)) -> preserves R (bind m k).
Proof.
  intros Hm Hk s. unfold bind. specialize (Hm s).
  destruct (m s) as [[a|e|] s']; simpl in *; try done.
  etrans; [done|apply Hk].
Qed.

Lemma preserves_wrap {A} msg (m : M S A) : preserves R m -> preserves R (wrap msg m).
Proof. intros Hm s. rewrite wrap_state. apply Hm. Qed.
Lemma preserves_attempt {A} (m : M S A) : preserves R m -> preserves R (attempt m).
Proof. intros Hm s. rewrite attempt_state. apply Hm. Qed.
Lemma preserves_on_err {A} (m : M S A) f :
  preserves R m -> (forall s, R s (f s)) -> preserves R (on_err m f).
Proof.
  intros Hm Hf s. unfold on_err. specialize (Hm s).
  destruct (m s) as [[a|e|] s']; simpl in *; try done. etrans; [done|apply Hf].
Qed.
End Preserves.

#[export] Hint Resolve preserves_ret preserves_fail preserves_panic preserves_lift
  preserves_get preserves_bind preserves_wrap preserves_attempt : kroxy.

(** Walk through a computation by its shape; [leaf] proves the operations. *)
Tactic Notation "walk_with" tactic3(leaf) := repeat match goal with
  | |- preserves _ (bind _ _) => apply preserves_bind; [typeclasses eauto| |intros ?]
  | |- preserves _ (wrap _ _) => apply preserves_wrap
  | |- preserves _ (attempt _) => apply preserves_attempt
  | |- preserves _ get => apply preserves_get; typeclasses eauto
  | |- preserves _ (ret _) => apply preserves_ret; typeclasses eauto
  | |- preserves _ (fail _) => apply preserves_fail; typeclasses eauto
  | |- preserves _ (lift _) => apply preserves_lift; typeclasses eauto
  | |- preserves _ _ => first [leaf | progress case_match]
  end.

(** Triples: from a state satisfying [P], a computation that returns [a] ends in
    a state satisfying [Q a]; one that fails or panics ends in one satisfying
    [E]. *)
Definition triple {S A} (P : S -> Prop) (m : M S A) (Q : A -> S -> Prop) (E : S -> Prop) : Prop :=
  forall s, P s -> match m s with (Ok a, s') => Q a s' | (_, s') => E s' end.

Section Triples.
Context {S : Type}.
Implicit Types P E : S -> Prop.

Lemma triple_conseq {A} P P' (m : M S A) (Q Q' : A -> S -> Prop) E E' :
  triple P' m Q' E' -> (forall s, P s -> P' s) -> (forall a s, Q' a s -> Q a s) ->
  (forall s, E' s -> E s) -> triple P m Q E.
Proof.
  intros H HP HQ HE s Hs. specialize (H s (HP s Hs)). destruct (m s) as [[a|e|] s']; auto.
Qed.
Lemma triple_ret {A} P (a : A) (Q : A -> S -> Prop) E :
  (forall s, P s -> Q a s) -> triple P (ret a) Q E.
Proof. intros H s Hs. by apply H. Qed.
Lemma triple_fail {A} P e (Q : A -> S -> Prop) E :
  (forall s, P s -> E s) -> triple P (fail e) Q E.
Proof. intros H s Hs. by apply H. Qed.
Lemma triple_lift {A} P (r : res A) (Q : A -> S -> Prop) E :
  (forall s, P s -> match r with Ok a => Q a s | _ => E s end) -> triple P (lift r) Q E.
Proof. intros H s Hs. unfold lift. specialize (H s Hs). by destruct r. Qed.
Lemma triple_modify P f (Q : unit -> S -> Prop) E :
  (forall s, P s -> Q tt (f s)) -> triple P (modify f) Q E.
Proof. intros H s Hs. by apply H. Qed.
Lemma triple_get P (Q : S -> S -> Prop) E : (forall s, P s -> Q s s) -> triple P get Q E.
Proof. intros H s Hs. by apply H. Qed.
Lemma triple_bind {A B} P (m : M S A) (k : A -> M S B) (R : A -> S -> Prop) Q E :
  triple P m R E -> (forall a, triple (R a) (k a) Q E) -> triple P (bind m k) Q E.
Proof.
  intros Hm Hk s Hs. unfold bind. specialize (Hm s Hs).
  destruct (m s) as [[a|e|] s'] eqn:Em; [by apply Hk|done..].
Qed.
Lemma triple_wrap {A} P msg (m : M S A) Q E : triple P m Q E -> triple P (wrap msg m) Q E.
Proof.
  intros Hm s Hs. unfold wrap. specialize (Hm s Hs). by destruct (m s) as [[a|e|] s'].
Qed.
Lemma triple_attempt {A} P (m : M S A) (Q : A -> S -> Prop) E :
  triple P m Q E ->
  triple P (attempt m) (fun r s => match r with inl _ => E s | inr a => Q a s end) E.
Proof.
  intros Hm s Hs. unfold attempt. specialize (Hm s Hs). by destruct (m s) as [[a|e|] s'].
Qed.
Lemma triple_on_err {A} P (m : M S A) f Q E :
  triple P m Q E -> (forall s, E s -> E (f s)) -> triple P (on_err m f) Q E.
Proof.
  intros Hm Hf s Hs. unfold on_err. specialize (Hm s Hs). destruct (m s) as [[a|e|] s']; auto.
Qed.
Lemma triple_zoom {T A} (getter : S -> T) (setter : T -> S -> S) (P : T -> Prop)
    (m : M T A) (Q : A -> T -> Prop) (E : T -> Prop) (s0 : S) :
  triple P m Q E ->
  triple (fun s => P (getter s) /\ s = s0) (zoom getter setter m)
    (fun a s => exists t, Q a t /\ s = setter t s0) (fun s => exists t, E t /\ s = setter t s0).
Proof.
  intros Hm s [Hs ->]. unfold zoom. specialize (Hm _ Hs).
  destruct (m (getter s0)) as [[a|e|] t]; eauto.
Qed.
(** A relation kept by every outcome is a triple for each initial state. *)
Lemma preserves_triple {A} (R : S -> S -> Prop) (m : M S A) s0 :
  preserves R m -> triple (fun s => s = s0) m (fun _ => R s0) (R s0).
Proof. intros H s ->. specialize (H s0). by destruct (m s0) as [[a|e|] s']. Qed.
End Triples.

(** Runs that return: from every state satisfying [P], [m] returns [a] (it neither
    fails nor panics) in a state satisfying [Q]. *)
Definition runs {S A} (P : S -> Prop) (m : M S A) (a : A) (Q : S -> Prop) : Prop :=
  forall s, P s -> exists s', m s = (Ok a, s') /\ Q s'.

Section Runs.
Context {S : Type}.
Implicit Types P Q : S -> Prop.

Lemma runs_ret {A} P (a : A) : runs P (ret a) a P.
Proof. intros s Hs. by exists s. Qed.
Lemma runs_lift {A} P (r : res A) a : r = Ok a -> runs P (lift r) a P.
Proof. intros -> s Hs. by exists s. Qed.
Lemma runs_modify P f Q : (forall s, P s -> Q (f s)) -> runs P (modify f) tt Q.
Proof. intros H s Hs. eexists. split; [done|auto]. Qed.
Lemma runs_bind {A B} P (m : M S A) (k : A -> M S B) a b R Q :
  runs P m a R -> runs R (k a) b Q -> runs P (bind m k) b Q.
Proof.
  intros Hm Hk s Hs. destruct (Hm s Hs) as (s1 & E & H1). unfold bind. rewrite E. by apply Hk.
Qed.
(** A computation that reads the state is run from each state of [P]. *)
Lemma runs_get {B} P (k : S -> M S B) b Q :
  (forall s, P s -> runs (eq s) (k s) b Q) -> runs P (bind get k) b Q.
Proof. intros H s Hs. by apply (H s Hs). Qed.
Lemma runs_wrap {A} msg P (m : M S A) a Q : runs P m a Q -> runs P (wrap msg m) a Q.
Proof. intros H s Hs. destruct (H s Hs) as (s' & E & ?). exists s'. by rewrite wrap_Ok. Qed.
Lemma runs_attempt {A} P (m : M S A) a Q : runs P m a Q -> runs P (attempt m) (inr a) Q.
Proof. intros H s Hs. destruct (H s Hs) as (s' & E & ?). exists s'. unfold attempt. by rewrite E. Qed.
Lemma runs_on_err {A} P (m : M S A) f a Q : runs P m a Q -> runs P (on_err m f) a Q.
Proof. intros H s Hs. destruct (H s Hs) as (s' & E & ?). exists s'. unfold on_err. by rewrite E. Qed.
Lemma runs_conseq {A} P P' (m : M S A) a Q Q' :
  runs P' m a Q' -> (forall s, P s -> P' s) -> (forall s, Q' s -> Q s) -> runs P m a Q.
Proof. intros H HP HQ s Hs. destruct (H s (HP s Hs)) as (s' & E & ?). eauto. Qed.
Lemma runs_zoom {T A} (getter : S -> T) setter (P : T -> Prop) (m : M T A) a (Q : T -> Prop) (PS QS : S -> Prop) :
  runs P m a Q -> (forall s, PS s -> P (getter s) /\ forall t, Q t -> QS (setter t s)) ->
  runs PS (zoom getter setter m) a QS.
Proof.
  intros H HS s Hs. destruct (HS s Hs) as [Hp Hq]. destruct (H _ Hp) as (t & E & Ht).
  exists (setter t s). unfold zoom. rewrite E. auto.
Qed.
End Runs.

(** Pairs of runs: from states related by [R] the two computations have the same
    outcome and end in states related by [R]. *)
Definition agree {S A} (R : S -> S -> Prop) (m m' : M S A) : Prop :=
  forall s s', R s s' -> (m s).1 = (m' s').1 /\ R (m s).2 (m' s').2.

Section Agree.
Context {S : Type} (R : S -> S -> Prop).

Lemma agree_ret {A} (a : A) : agree R (ret a) (ret a).
Proof. intros s s' Hs. by split. Qed.
Lemma agree_fail {A} e : agree R (fail (A:=A) e) (fail e).
Proof. intros s s' Hs. by split. Qed.
Lemma agree_panic {A} : agree R (panic (A:=A)) panic.
Proof. intros s s' Hs. by split. Qed.
Lemma agree_lift {A} (r : res A) : agree R (lift r) (lift r).
Proof. intros s s' Hs. by split. Qed.
Lemma agree_modify f f' : (forall s s', R s s' -> R (f s) (f' s')) -> agree R (modify f) (modify f').
Proof. intros Hf s s' Hs. split; [done|]. by apply Hf. Qed.
Lemma agree_bind {A B} (m m' : M S A) (k k' : A -> M S B) :
  agree R m m' -> (forall a, agree R (k a) (k' a)) -> agree R (bind m k) (bind m' k').
Proof.
  intros Hm Hk s s' Hs. destruct (Hm s s' Hs) as [Er Hr]. unfold bind.
  destruct (m s) as [r s1], (m' s') as [r' s1']. simpl in *. subst r'. destruct r; [by apply Hk|done..].
Qed.
(** A computation that reads the state goes on from each pair of states. *)
Lemma agree_get {B} (k k' : S -> M S B) :
  (forall s s', R s s' -> agree R (k s) (k' s')) -> agree R (bind get k) (bind get k').
Proof. intros H s s' Hs. by apply (H s s' Hs). Qed.
Lemma agree_wrap {A} msg (m m' : M S A) : agree R m m' -> agree R (wrap msg m) (wrap msg m').
Proof.
  intros Hm s s' Hs. destruct (Hm s s' Hs) as [Er Hr]. unfold wrap.
  destruct (m s), (m' s'). simpl in *. by subst.
Qed.
Lemma agree_attempt {A} (m m' : M S A) : agree R m m' -> agree R (attempt m) (attempt m').
Proof.
  intros Hm s s' Hs. destruct (Hm s s' Hs) as [Er Hr]. unfold attempt.
  destruct (m s) as [[] ?], (m' s') as [[] ?]; by simplify_eq/=.
Qed.
Lemma agree_on_err {A} (m m' : M S A) f :
  agree R m m' -> (forall s s', R s s' -> R (f s) (f s')) -> agree R (on_err m f) (on_err m' f).
Proof.
  intros Hm Hf s s' Hs. destruct (Hm s s' Hs) as [Er Hr]. unfold on_err.
  destruct (m s) as [[] ?], (m' s') as [[] ?]; simplify_eq/=; auto.
Qed.
Lemma agree_zoom {T A} (RT : T -> T -> Prop) (getter : S -> T) setter (m m' : M T A) :
  agree RT m m' ->
  (forall s s', R s s' -> RT (getter s) (getter s') /\
     forall t t', RT t t' -> R (setter t s) (setter t' s')) ->
  agree R (zoom getter setter m) (zoom getter setter m').
Proof.
  intros Hm HR s s' Hs. destruct (HR s s' Hs) as [Hg Hset]. destruct (Hm _ _ Hg) as [Er Hr]. unfold zoom.
  destruct (m _), (m' _). simpl in *. auto.
Qed.
End Agree.

(** Walk through two computations of the same shape; [leaf] proves the operations. *)
Tactic Notation "pair_with" tactic3(leaf) := repeat match goal with
  | |- agree _ (bind get _) _ => apply agree_get; intros ? ? ?
  | |- agree _ (bind _ _) _ => apply agree_bind; [|intros ?]
  | |- agree _ (wrap _ _) _ => apply agree_wrap
  | |- agree _ (attempt _) _ => apply agree_attempt
  | |- agree _ (ret _) _ => apply agree_ret
  | |- agree _ (fail _) _ => apply agree_fail
  | |- agree _ panic _ => apply agree_panic
  | |- agree _ (lift _) _ => apply agree_lift
  | |- agree _ _ _ => first [leaf | progress case_match]
  end.

(** Runs that do not panic: from a state satisfying [P], [m] returns in a state
    satisfying [Q] of its result, or fails in one satisfying [F]. *)
Definition safely {S A} (P : S -> Prop) (m : M S A) (Q : A -> S -> Prop) (F : S -> Prop) : Prop :=
  forall s, P s -> match m s with (Ok a, s') => Q a s' | (Err _, s') => F s' | (Panic, _) => False end.

Section Safely.
Context {S : Type}.
Implicit Types P F : S -> Prop.

Lemma safely_conseq {A} P P' (m : M S A) (Q Q' : A -> S -> Prop) F F' :
  safely P' m Q' F' -> (forall s, P s -> P' s) -> (forall a s, Q' a s -> Q a s) ->
  (forall s, F' s -> F s) -> safely P m Q F.
Proof.
  intros H HP HQ HF s Hs. specialize (H s (HP s Hs)). destruct (m s) as [[a|e|] s']; auto.
Qed.
Lemma safely_ret {A} P (a : A) (Q : A -> S -> Prop) F : (forall s, P s -> Q a s) -> safely P (ret a) Q F.
Proof. intros H s Hs. by apply H. Qed.
Lemma safely_fail {A} P e (Q : A -> S -> Prop) F : (forall s, P s -> F s) -> safely P (fail e) Q F.
Proof. intros H s Hs. by apply H. Qed.
Lemma safely_lift {A} P (r : res A) (Q : A -> S -> Prop) F :
  r <> Panic -> (forall a s, r = Ok a -> P s -> Q a s) -> (forall s, P s -> F s) -> safely P (lift r) Q F.
Proof. intros Hr HQ HF s Hs. unfold lift. destruct r; auto. Qed.
Lemma safely_modify P f (Q : unit -> S -> Prop) F :
  (forall s, P s -> Q tt (f s)) -> safely P (modify f) Q F.
Proof. intros H s Hs. by apply H. Qed.
Lemma safely_bind {A B} P (m : M S A) (k : A -> M S B) (R : A -> S -> Prop) Q F :
  safely P m R F -> (forall a, safely (R a) (k a) Q F) -> safely P (bind m k) Q F.
Proof.
  intros Hm Hk s Hs. unfold bind. specialize (Hm s Hs). destruct (m s) as [[a|e|] s']; [by apply Hk|done..].
Qed.
Lemma safely_get {B} P (k : S -> M S B) Q F :
  (forall s, P s -> safely (fun s' => s' = s) (k s) Q F) -> safely P (bind get k) Q F.
Proof. intros H s Hs. by apply (H s Hs s). Qed.
Lemma safely_get_inv {B} P (k : S -> M S B) Q F :
  (forall s, P s -> safely P (k s) Q F) -> safely P (bind get k) Q F.
Proof. intros H s Hs. by apply (H s Hs). Qed.
Lemma safely_wrap {A} P msg (m : M S A) Q F : safely P m Q F -> safely P (wrap msg m) Q F.
Proof. intros Hm s Hs. unfold wrap. specialize (Hm s Hs). by destruct (m s) as [[a|e|] s']. Qed.
Lemma safely_attempt {A} P (m : M S A) (Q : A -> S -> Prop) F F' :
  safely P m Q F -> safely P (attempt m) (fun r s => match r with inl _ => F s | inr a => Q a s end) F'.
Proof. intros Hm s Hs. unfold attempt. specialize (Hm s Hs). by destruct (m s) as [[a|e|] s']. Qed.
Lemma safely_on_err {A} P (m : M S A) f Q F :
  safely P m Q F -> (forall s, F s -> F (f s)) -> safely P (on_err m f) Q F.
Proof. intros Hm Hf s Hs. unfold on_err. specialize (Hm s Hs). destruct (m s) as [[a|e|] s']; auto. Qed.
End Safely.

(** * Machine integers

    Fixed-width integers are [Z] values in range; conversions wrap. *)
Definition uwrap (w z : Z) : Z := (z mod 2 ^ w)%Z.
Definition swrap (w z : Z) : Z := ((z + 2 ^ (w - 1)) mod 2 ^ w - 2 ^ (w - 1))%Z.
Abbreviation uint32 := (uwrap 32) (only parsing).
Abbreviation uint64 := (uwrap 64) (only parsing).
Abbreviation int8 := (swrap 8) (only parsing).
Abbreviation int16 := (swrap 16) (only parsing).
Abbreviation int32 := (swrap 32) (only parsing).
(** Go's [int] on the 64-bit targets kroxy is built for. *)
Abbreviation int := (swrap 64) (only parsing).

Section Ints.
Local Open Scope Z_scope.

Lemma uwrap_range w z : 0 <= w -> 0 <= uwrap w z < 2 ^ w.
Proof. intros. apply Z.mod_pos_bound. lia. Qed.
Lemma uwrap_id w z : 0 <= z < 2 ^ w -> uwrap w z = z.
Proof. intros. by apply Z.mod_small. Qed.

Lemma pow2_split w : 0 < w -> 2 ^ w = 2 ^ (w - 1) + 2 ^ (w - 1).
Proof. intros. replace w with (Z.succ (w - 1)) at 1 by lia. rewrite Z.pow_succ_r; lia. Qed.

Lemma swrap_range w z : 0 < w -> - 2 ^ (w - 1) <= swrap w z < 2 ^ (w - 1).
Proof.
  intros. unfold swrap. pose proof (pow2_split w).
  pose proof (Z.mod_pos_bound (z + 2 ^ (w - 1)) (2 ^ w)). lia.
Qed.
Lemma swrap_id w z : 0 < w -> - 2 ^ (w - 1) <= z < 2 ^ (w - 1) -> swrap w z = z.
Proof.
  intros. unfold swrap. pose proof (pow2_split w).
  rewrite Z.mod_small; lia.
Qed.
Lemma swrap_mod w z : swrap w (z mod 2 ^ w) = swrap w z.
Proof. unfold swrap. by rewrite Zplus_mod_idemp_l. Qed.
Lemma uwrap_swrap w z : uwrap w (swrap w z) = uwrap w z.
Proof.
  unfold uwrap, swrap. rewrite Zminus_mod_idemp_l. f_equal. lia.
Qed.
End Ints.

(** Remove the conversions whose operand is in range, innermost first. *)
Ltac unwrap_ints :=
  repeat match goal with
  | |- context [swrap ?w ?z] =>
      lazymatch z with
      | context [swrap _ _] => fail
      | _ => rewrite (swrap_id w z) by lia
      end
  end.

(** * Bytes and big-endian fields *)
Abbreviation byte := Byte.byte (only parsing).
#[global] Instance byte_eq_dec : EqDecision byte := Byte.byte_eq_dec.

Definition Z_of_byte (b : byte) : Z := Z.of_N (Byte.to_N b).
(** Conversion to [byte] keeps the low eight bits. *)
Definition byte_of_Z (z : Z) : byte := default Byte.x00 (Byte.of_N (Z.to_N (z mod 256))).

(** [len(s)] *)
Definition len {A} (l : list A) : Z := Z.of_nat (length l).

(** Value of a big-endian byte string ([binary.BigEndian.Uint16/Uint32]). *)
Definition be_decode (bs : list byte) : Z :=
  foldl (fun acc b => acc * 256 + Z_of_byte b)%Z 0%Z bs.
(** [n]-byte big-endian form ([binary.BigEndian.PutUint32] for [n = 4]). *)
Fixpoint be_encode (n : nat) (z : Z) : list byte :=
  match n with
  | O => []
  | S n => be_encode n (z / 256) ++ [byte_of_Z z]
  end.

Section Bytes.
Local Open Scope Z_scope.

Lemma Z_of_byte_range b : 0 <= Z_of_byte b < 256.
Proof. unfold Z_of_byte. pose proof (Byte.to_N_bounded b). lia. Qed.

Lemma Z_of_byte_of_Z z : Z_of_byte (byte_of_Z z) = z mod 256.
Proof.
  unfold Z_of_byte, byte_of_Z. pose proof (Z.mod_pos_bound z 256).
  destruct (Byte.of_N _) eqn:E; simpl.
  - apply Byte.to_of_N in E. rewrite E. lia.
  - apply Byte.of_N_None_iff in E. lia.
Qed.
Lemma byte_of_Z_of_byte b : byte_of_Z (Z_of_byte b) = b.
Proof.
  unfold byte_of_Z. pose proof (Z_of_byte_range b). rewrite Z.mod_small by lia.
  unfold Z_of_byte. rewrite N2Z.id, Byte.of_to_N. done.
Qed.
Lemma Z_of_byte_inj b c : Z_of_byte b = Z_of_byte c -> b = c.
Proof. intros E. by rewrite <-(byte_of_Z_of_byte b), E, byte_of_Z_of_byte. Qed.

Lemma be_decode_snoc bs b : be_decode (bs ++ [b]) = be_decode bs * 256 + Z_of_byte b.
Proof. unfold be_decode. by rewrite foldl_app. Qed.

Lemma be_encode_length n z : length (be_encode n z) = n.
Proof.
  revert z. induction n as [|n IH]; intros z; simpl; [done|].
  rewrite length_app, IH. simpl. lia.
Qed.

Lemma be_decode_encode n z : be_decode (be_encode n z) = z mod 2 ^ (8 * Z.of_nat n).
Proof.
  revert z. induction n as [|n IH]; intros z; [by rewrite Z.mod_1_r|].
  cbn [be_encode]. rewrite be_decode_snoc, IH, Z_of_byte_of_Z.
  replace (2 ^ (8 * Z.of_nat (S n))) with (256 * 2 ^ (8 * Z.of_nat n)).
  - rewrite Z.rem_mul_r; lia.
  - replace (8 * Z.of_nat (S n)) with (8 + 8 * Z.of_nat n) by lia.
    rewrite Z.pow_add_r; lia.
Qed.

Lemma be_decode_range bs : 0 <= be_decode bs < 2 ^ (8 * len bs).
Proof.
  unfold len. induction bs as [|b bs IH] using rev_ind; [done|].
  rewrite be_decode_snoc, length_app. simpl.
  pose proof (Z_of_byte_range b).
  replace (8 * Z.of_nat (length bs + 1)) with (8 * Z.of_nat (length bs) + 8) by lia.
  rewrite Z.pow_add_r by lia. lia.
Qed.

Lemma be_encode_decode bs : be_encode (length bs) (be_decode bs) = bs.
Proof.
  induction bs as [|b bs IH] using rev_ind; [done|].
  rewrite length_app, be_decode_snoc. simpl. rewrite Nat.add_1_r. simpl.
  pose proof (Z_of_byte_range b). f_equal.
  - rewrite Z.div_add_l, Z.div_small, Z.add_0_r by lia. done.
  - f_equal. apply Z_of_byte_inj. rewrite Z_of_byte_of_Z.
    rewrite Z.add_comm, Z.mod_add, Z.mod_small; lia.
Qed.
End Bytes.

Arguments be_encode : simpl never.

(** * Slices

    [s[lo:hi]] and [s[lo:]] panic out of range.  Every slice kroxy cuts is
    freshly made with its exact size, so its capacity is its length. *)
Definition slice {A} (l : list A) (lo hi : Z) : res (list A) :=
  if (0 <=? lo)%Z && (lo <=? hi)%Z && (hi <=? len l)%Z
  then Ok (take (Z.to_nat (hi - lo)) (drop (Z.to_nat lo) l))
  else Panic.
Definition slice_from {A} (l : list A) (lo : Z) : res (list A) :=
  slice l lo (len l).

Section Slices.
Context {A : Type}.
Implicit Types l : list A.
Local Open Scope Z_scope.

Lemma len_nonneg l : 0 <= len l.
Proof. unfold len. lia. Qed.
Lemma len_app l k : len (l ++ k) = len l + len k.
Proof. unfold len. rewrite length_app. lia. Qed.
Lemma len_cons a l : len (a :: l) = 1 + len l.
Proof. unfold len. simpl. lia. Qed.

Lemma slice_Ok l lo hi :
  0 <= lo <= hi -> hi <= len l ->
  slice l lo hi = Ok (take (Z.to_nat (hi - lo)) (drop (Z.to_nat lo) l)).
Proof.
  intros. unfold slice.
  by rewrite !(proj2 (Z.leb_le _ _)) by lia.
Qed.
Lemma slice_from_Ok l lo :
  0 <= lo <= len l -> slice_from l lo = Ok (drop (Z.to_nat lo) l).
Proof.
  intros. unfold slice_from. rewrite slice_Ok by lia. f_equal.
  apply take_ge. rewrite length_drop. unfold len in *. lia.
Qed.
Lemma slice_from_Panic l lo : ~ (0 <= lo <= len l) -> slice_from l lo = Panic.
Proof.
  intros. unfold slice_from, slice.
  destruct (Z.leb_spec 0 lo), (Z.leb_spec lo (len l)); simpl; done || lia.
Qed.
Lemma slice_from_inv l lo k :
  slice_from l lo = Ok k -> 0 <= lo <= len l /\ k = drop (Z.to_nat lo) l.
Proof.
  intros E. destruct (decide (0 <= lo <= len l)).
  - rewrite slice_from_Ok in E by done. naive_solver.
  - rewrite slice_from_Panic in E; done.
Qed.
Lemma slice_app l1 l2 l3 lo hi :
  lo = len l1 -> hi = len l1 + len l2 -> slice (l1 ++ l2 ++ l3) lo hi = Ok l2.
Proof.
  intros -> ->. pose proof (len_nonneg l1). pose proof (len_nonneg l2).
  pose proof (len_nonneg l3). rewrite slice_Ok; rewrite ?len_app; try lia. f_equal.
  unfold len. rewrite Nat2Z.id, drop_app_length.
  replace (Z.to_nat _) with (length l2) by lia. by rewrite take_app_length.
Qed.
Lemma slice_from_app l1 l2 lo : lo = len l1 -> slice_from (l1 ++ l2) lo = Ok l2.
Proof.
  intros ->. pose proof (len_nonneg l1). pose proof (len_nonneg l2).
  rewrite slice_from_Ok by (rewrite len_app; lia).
  unfold len. by rewrite Nat2Z.id, drop_app_length.
Qed.
End Slices.
#[export] Hint Resolve len_nonneg : kroxy.

(** * Counted loops

    [for i := uint64(0); i < n; i++ { s, err = body(s) }] for a 64-bit [n],
    leaving at the first error: the recursion is on the binary numeral, so a
    loop that leaves early computes even when [n] is astronomically large.
    [loop_nat] is the textbook definition it is proved equal to. *)
Fixpoint loop_pos {S} (p : positive) (body : S -> res S) (s : S) : res S :=
  match p with
  | xH => body s
  | xO p => let? s1 := loop_pos p body s in loop_pos p body s1
  | xI p => let? s0 := body s in let? s1 := loop_pos p body s0 in loop_pos p body s1
  end.
Definition loopN {S} (n : Z) (body : S -> res S) (s : S) : res S :=
  match n with
  | Zpos p => loop_pos p body s
  | _ => Ok s
  end.
Fixpoint loop_nat {S} (n : nat) (body : S -> res S) (s : S) : res S :=
  match n with
  | O => Ok s
  | S n => let? s1 := body s in loop_nat n body s1
  end.

Section Loops.
Context {S : Type} (body : S -> res S).

Lemma loop_nat_add n m s :
  loop_nat (n + m) body s = rbind (loop_nat n body s) (loop_nat m body).
Proof.
  revert s. induction n as [|n IH]; intros s; simpl; [done|].
  destruct (body s); simpl; auto.
Qed.

Lemma loop_pos_nat p s : loop_pos p body s = loop_nat (Pos.to_nat p) body s.
Proof.
  revert s. induction p as [p IH|p IH|]; intros s; cbn [loop_pos].
  - rewrite Pos2Nat.inj_xI. simpl. destruct (body s) as [s0| |]; simpl; try done.
    rewrite Nat.add_0_r, loop_nat_add, IH.
    destruct (loop_nat _ _ _); simpl; auto.
  - rewrite Pos2Nat.inj_xO. simpl. rewrite Nat.add_0_r, loop_nat_add, IH.
    destruct (loop_nat _ _ _); simpl; auto.
  - simpl. by destruct (body s).
Qed.

Lemma loopN_nat n s : loopN n body s = loop_nat (Z.to_nat n) body s.
Proof. destruct n; simpl; [done|apply loop_pos_nat|done]. Qed.

(** A state the body maps to itself is returned whatever the count. *)
Lemma loopN_fixpoint n s : body s = Ok s -> loopN n body s = Ok s.
Proof.
  intros E. rewrite loopN_nat. induction (Z.to_nat n); simpl; [done|]. by rewrite E.
Qed.

Lemma loop_nat_invariant (I : S -> Prop) n s s' :
  (forall s s', I s -> body s = Ok s' -> I s') ->
  I s -> loop_nat n body s = Ok s' -> I s'.
Proof.
  intros Hstep. revert s. induction n as [|n IH]; intros s Hs; simpl; [naive_solver|].
  intros (s1 & E & ?)%rbind_Ok. eauto.
Qed.
End Loops.

(** * Strings

    A Go string is a byte string; conversions to and from byte slices copy. *)
Definition string_of_bytes : list byte -> string := String.string_of_list_byte.
Definition bytes_of_string : string -> list byte := String.list_byte_of_string.

Lemma string_of_bytes_of_string s : string_of_bytes (bytes_of_string s) = s.
Proof. apply String.string_of_list_byte_of_string. Qed.
Lemma bytes_of_string_of_bytes l : bytes_of_string (string_of_bytes l) = l.
Proof. apply String.list_byte_of_string_of_list_byte. Qed.
Lemma bytes_of_string_inj s t : bytes_of_string s = bytes_of_string t -> s = t.
Proof. intros E. by rewrite <-(string_of_bytes_of_string s), E, string_of_bytes_of_string. Qed.
Lemma bytes_of_string_app s t :
  bytes_of_string (s +:+ t) = bytes_of_string s ++ bytes_of_string t.
Proof.
  induction s as [|a s IH]; [done|].
  change (Ascii.byte_of_ascii a :: bytes_of_string (s +:+ t)
          = Ascii.byte_of_ascii a :: bytes_of_string s ++ bytes_of_string t).
  by rewrite IH.
Qed.

Lemma len_bytes_of_string_0 s : (len (bytes_of_string s) <= 0)%Z -> s = EmptyString.
Proof.
  intros H. apply bytes_of_string_inj, nil_length_inv. unfold len in H. simpl. lia.
Qed.

#[export] Hint Rewrite string_of_bytes_of_string bytes_of_string_of_bytes bytes_of_string_app
  : kroxyrw.
