(* ===== verification/GoNet.v ===== *)
(** The part of Go's [io], [net] and [time] packages kroxy uses: one TCP
    connection seen from kroxy's side.

    A [NetConn] carries the bytes its peer is still going to deliver ([rx]),
    the error a read returns after them ([rx_end]), the writes made so far
    ([tx], one entry per [Write]), the scripted failures of the coming
    [Write]/[SetDeadline] calls ([faults], a failed write having put a prefix
    of its bytes on the wire), the deadline armed at the moment ([deadline],
    nanoseconds from the call that armed it, [None] for none) and, for the
    timeout properties, the deadline that was armed at each read ([reads]).
    A run of kroxy is deterministic once these are fixed, so quantifying over
    them quantifies over every behaviour of the peer, adaptive ones included. *)
From Stdlib Require Import ZArith Lia.
From stdpp Require Import base list strings tactics numbers.
From S2P Require Import Prelude.

Record NetConn : Type := MkNetConn {
  rx : list byte;
  rx_end : error;
  tx : list (list byte);
  faults : list (option (nat * error));
  deadline : option Z;
  reads : list (option Z);
  closed : bool
}.

Definition set_rx (v : list byte) (c : NetConn) : NetConn :=
  MkNetConn v (rx_end c) (tx c) (faults c) (deadline c) (reads c) (closed c).
Definition set_tx (v : list (list byte)) (c : NetConn) : NetConn :=
  MkNetConn (rx c) (rx_end c) v (faults c) (deadline c) (reads c) (closed c).
Definition set_faults (v : list (option (nat * error))) (c : NetConn) : NetConn :=
  MkNetConn (rx c) (rx_end c) (tx c) v (deadline c) (reads c) (closed c).
Definition set_deadline (v : option Z) (c : NetConn) : NetConn :=
  MkNetConn (rx c) (rx_end c) (tx c) (faults c) v (reads c) (closed c).
Definition set_reads (v : list (option Z)) (c : NetConn) : NetConn :=
  MkNetConn (rx c) (rx_end c) (tx c) (faults c) (deadline c) v (closed c).
Definition set_closed (v : bool) (c : NetConn) : NetConn :=
  MkNetConn (rx c) (rx_end c) (tx c) (faults c) (deadline c) (reads c) v.

(** The bytes put on the wire so far. *)
Definition wire (c : NetConn) : list byte := concat (tx c).

(** The next scripted failure, if any. *)
Definition next_fault : M NetConn (option (nat * error)) := fun c =>
  if closed c then (Ok (Some (0, ErrSent ErrClosed)), c)
  else match faults c with
       | [] => (Ok None, c)
       | f :: fs => (Ok f, set_faults fs c)
       end.

(** [nc.Write(b)] *)
Definition Write (b : list byte) : M NetConn unit :=
  let! f := next_fault in
  match f with
  | None => modify (fun c => set_tx (tx c ++ [b]) c)
  | Some (n, e) =>
      let! _ := modify (fun c => set_tx (tx c ++ [take n b]) c) in fail e
  end.

(** [nc.SetDeadline] / [nc.SetReadDeadline]; [None] is the zero [time.Time]. *)
Definition SetDeadline (d : option Z) : M NetConn unit :=
  let! f := next_fault in
  match f with
  | None => modify (set_deadline d)
  | Some (_, e) => fail e
  end.

(** [nc.Close()], its error dropped. *)
Definition Close (c : NetConn) : NetConn := set_closed true c.

(** [io.ReadFull(nc, buf)] for [len(buf) = n > 0]: [EOF] when the stream ends
    before the first byte, [ErrUnexpectedEOF] when it ends inside. *)
Definition ReadFull (n : nat) : M NetConn (list byte) := fun c =>
  let c := set_reads (reads c ++ [deadline c]) c in
  if closed c then (Err (ErrSent ErrClosed), c)
  else if decide (n <= length (rx c))
  then (Ok (take n (rx c)), set_rx (drop n (rx c)) c)
  else (Err (match rx c, rx_end c with
             | _ :: _, ErrSent EOF => ErrSent ErrUnexpectedEOF
             | _, e => e
             end), set_rx [] c).

Section Facts.
Implicit Types c : NetConn.

Lemma next_fault_tx c : tx (next_fault c).2 = tx c.
Proof. unfold next_fault. by destruct (closed c), (faults c). Qed.
Lemma next_fault_rx c : rx (next_fault c).2 = rx c.
Proof. unfold next_fault. by destruct (closed c), (faults c). Qed.

(** A write puts a prefix of its bytes on the wire, all of them on success. *)
Lemma Write_spec b c :
  exists n, tx (Write b c).2 = tx c ++ [take n b] /\
    ((Write b c).1 = Ok tt -> tx (Write b c).2 = tx c ++ [b]) /\
    (Write b c).1 <> Panic /\ rx (Write b c).2 = rx c /\ reads (Write b c).2 = reads c
    /\ deadline (Write b c).2 = deadline c /\ rx_end (Write b c).2 = rx_end c.
Proof.
  unfold Write, bind, next_fault, modify, fail.
  destruct (closed c); [by exists 0|].
  destruct (faults c) as [|[[n e]|] fs]; simpl.
  - exists (length b). by rewrite take_ge by lia.
  - by exists n.
  - exists (length b). by rewrite take_ge by lia.
Qed.

Lemma SetDeadline_spec d c :
  tx (SetDeadline d c).2 = tx c /\ rx (SetDeadline d c).2 = rx c /\
  reads (SetDeadline d c).2 = reads c /\ rx_end (SetDeadline d c).2 = rx_end c /\
  ((SetDeadline d c).1 = Ok tt -> deadline (SetDeadline d c).2 = d) /\
  (SetDeadline d c).1 <> Panic.
Proof.
  unfold SetDeadline, bind, next_fault, modify, fail.
  destruct (closed c); [done|]. by destruct (faults c) as [|[[n e]|] fs].
Qed.

Lemma ReadFull_spec n c :
  tx (ReadFull n c).2 = tx c /\ reads (ReadFull n c).2 = reads c ++ [deadline c] /\
  deadline (ReadFull n c).2 = deadline c /\ rx_end (ReadFull n c).2 = rx_end c /\
  length (rx (ReadFull n c).2) <= length (rx c) /\
  (ReadFull n c).1 <> Panic /\
  (forall bs, (ReadFull n c).1 = Ok bs -> length bs = n /\ rx c = bs ++ rx (ReadFull n c).2).
Proof.
  unfold ReadFull. simpl. destruct (closed c); [naive_solver|].
  case_decide; simpl; split_and!; try done.
  - rewrite length_drop. lia.
  - intros bs [= <-]. rewrite length_take, take_drop. split; [lia|done].
  - lia.
Qed.

(** Reading from a peer that has delivered enough. *)
Lemma ReadFull_app bs r c :
  closed c = false -> rx c = bs ++ r ->
  ReadFull (length bs) c = (Ok bs, set_rx r (set_reads (reads c ++ [deadline c]) c)).
Proof.
  intros Hc Hrx. unfold ReadFull. simpl. rewrite Hc, Hrx.
  rewrite decide_True by (rewrite length_app; lia).
  by rewrite take_app_length, drop_app_length.
Qed.

(** What no operation undoes: the wire and the log of reads only grow, bytes are
    only taken from the front of the stream, a closed connection stays closed. *)
Definition evolves c c' : Prop :=
  (exists w, tx c' = tx c ++ w) /\ (exists k, rx c = k ++ rx c') /\
  (exists rs, reads c' = reads c ++ rs) /\ rx_end c' = rx_end c /\
  (closed c = true -> closed c' = true).

#[global] Instance evolves_preorder : PreOrder evolves.
Proof.
  split.
  - intros c. split_and!; [exists []; by rewrite app_nil_r|by exists []|
      exists []; by rewrite app_nil_r|done|done].
  - intros c1 c2 c3 ([w1 Hw1] & [k1 Hk1] & [r1 Hr1] & He1 & Hc1)
      ([w2 Hw2] & [k2 Hk2] & [r2 Hr2] & He2 & Hc2).
    split_and!.
    + exists (w1 ++ w2). by rewrite Hw2, Hw1, app_assoc.
    + exists (k1 ++ k2). by rewrite Hk1, Hk2, app_assoc.
    + exists (r1 ++ r2). by rewrite Hr2, Hr1, app_assoc.
    + congruence.
    + auto.
Qed.

(** Reads happen under the deadline in force, which does not change. *)
Definition reads_under c c' : Prop :=
  deadline c' = deadline c /\ exists k, reads c' = reads c ++ replicate k (deadline c).

#[global] Instance reads_under_preorder : PreOrder reads_under.
Proof.
  split.
  - intros c. split; [done|]. exists 0. by rewrite app_nil_r.
  - intros c1 c2 c3 [Hd1 [k1 Hr1]] [Hd2 [k2 Hr2]]. split; [congruence|].
    exists (k1 + k2). by rewrite Hr2, Hr1, Hd1, replicate_add, app_assoc.
Qed.

Lemma Write_evolves b : preserves evolves (Write b).
Proof.
  intros c. destruct (Write_spec b c) as (n & Ht & _ & _ & Hr & Hrs & _ & He).
  split_and!; [by eexists|by exists []; rewrite Hr|exists []; by rewrite app_nil_r|done|].
  unfold Write, bind, next_fault, modify, fail. intros Hc. by rewrite Hc.
Qed.
Lemma Write_reads_under b : preserves reads_under (Write b).
Proof.
  intros c. destruct (Write_spec b c) as (n & _ & _ & _ & _ & Hrs & Hd & _).
  split; [done|]. exists 0. by rewrite app_nil_r.
Qed.
Lemma SetDeadline_evolves d : preserves evolves (SetDeadline d).
Proof.
  intros c. destruct (SetDeadline_spec d c) as (Ht & Hr & Hrs & He & _).
  split_and!; [exists []; by rewrite app_nil_r|by exists []; rewrite Hr|
    exists []; by rewrite app_nil_r|done|].
  unfold SetDeadline, bind, next_fault, modify, fail. intros Hc. by rewrite Hc.
Qed.
Lemma ReadFull_evolves n : preserves evolves (ReadFull n).
Proof.
  intros c. unfold ReadFull. simpl. destruct (closed c) eqn:Hc.
  - split_and!; simpl; [exists []; by rewrite app_nil_r|by exists []|by eexists|done|done].
  - case_decide; split_and!; simpl;
      try (exists []; by rewrite app_nil_r); try (by eexists); try done.
    + exists (take n (rx c)). by rewrite take_drop.
    + exists (rx c). by rewrite app_nil_r.
Qed.
Lemma ReadFull_reads_under n : preserves reads_under (ReadFull n).
Proof.
  intros c. destruct (ReadFull_spec n c) as (_ & Hrs & Hd & _). split; [done|]. by exists 1.
Qed.
Lemma Close_evolves c : evolves c (Close c).
Proof.
  split_and!; simpl; [exists []; by rewrite app_nil_r|by exists []|
    exists []; by rewrite app_nil_r|done|done].
Qed.
End Facts.
#[export] Hint Resolve Write_evolves Write_reads_under SetDeadline_evolves ReadFull_evolves
  ReadFull_reads_under Close_evolves : kroxy.
