(* ===== verification/Protocol.v ===== *)
(** Package [protocol]: API keys and flexibility table (keys.go), request
    header parsing (header.go), framing (framing.go) and response encoding
    (response.go).  Frames are byte lists, header fields are integers at their
    Go width, and an out-of-range slice expression is a [Panic]. *)
From Stdlib Require Import ZArith Lia.
From stdpp Require Import base list strings tactics numbers.
From S2P Require Import Prelude GoNet.
Local Open Scope Z_scope.

(** * keys.go *)
Definition ProduceKey : Z := 0.
Definition FetchKey : Z := 1.
Definition ListOffsetsKey : Z := 2.
Definition MetadataKey : Z := 3.
Definition OffsetCommitKey : Z := 8.
Definition OffsetFetchKey : Z := 9.
Definition FindCoordinatorKey : Z := 10.
Definition JoinGroupKey : Z := 11.
Definition HeartbeatKey : Z := 12.
Definition LeaveGroupKey : Z := 13.
Definition SyncGroupKey : Z := 14.
Definition DescribeGroupsKey : Z := 15.
Definition ListGroupsKey : Z := 16.
Definition SaslHandshakeKey : Z := 17.
Definition ApiVersionsKey : Z := 18.
Definition CreateTopicsKey : Z := 19.
Definition DeleteTopicsKey : Z := 20.
Definition InitProducerIDKey : Z := 22.
Definition OffsetForLeaderEpoch : Z := 23.
Definition AddPartitionsToTxnKey : Z := 24.
Definition AddOffsetsToTxnKey : Z := 25.
Definition EndTxnKey : Z := 26.
Definition TxnOffsetCommitKey : Z := 28.
Definition DescribeConfigsKey : Z := 32.
Definition SaslAuthenticateKey : Z := 36.
Definition DeleteGroupsKey : Z := 42.
Definition OffsetDeleteKey : Z := 47.

Definition isFlexibleRequest (apiKey apiVersion : Z) : bool :=
  if apiKey =? ProduceKey then 9 <=? apiVersion
  else if apiKey =? FetchKey then 12 <=? apiVersion
  else if apiKey =? ListOffsetsKey then 6 <=? apiVersion
  else if apiKey =? MetadataKey then 9 <=? apiVersion
  else if apiKey =? OffsetCommitKey then 8 <=? apiVersion
  else if apiKey =? OffsetFetchKey then 6 <=? apiVersion
  else if apiKey =? FindCoordinatorKey then 3 <=? apiVersion
  else if apiKey =? JoinGroupKey then 6 <=? apiVersion
  else if apiKey =? HeartbeatKey then 4 <=? apiVersion
  else if apiKey =? LeaveGroupKey then 4 <=? apiVersion
  else if apiKey =? SyncGroupKey then 4 <=? apiVersion
  else if apiKey =? DescribeGroupsKey then 5 <=? apiVersion
  else if apiKey =? ListGroupsKey then 3 <=? apiVersion
  else if apiKey =? SaslHandshakeKey then false
  else if apiKey =? ApiVersionsKey then 3 <=? apiVersion
  else if apiKey =? CreateTopicsKey then 5 <=? apiVersion
  else if apiKey =? DeleteTopicsKey then 4 <=? apiVersion
  else if apiKey =? InitProducerIDKey then 2 <=? apiVersion
  else if apiKey =? AddPartitionsToTxnKey then 3 <=? apiVersion
  else if apiKey =? AddOffsetsToTxnKey then 3 <=? apiVersion
  else if apiKey =? EndTxnKey then 3 <=? apiVersion
  else if apiKey =? TxnOffsetCommitKey then 3 <=? apiVersion
  else if apiKey =? DescribeConfigsKey then false
  else if apiKey =? SaslAuthenticateKey then 2 <=? apiVersion
  else if apiKey =? DeleteGroupsKey then 2 <=? apiVersion
  else if apiKey =? OffsetDeleteKey then false
  else false.

(** * header.go *)
Record RequestHeader : Type := MkHeader {
  APIKey : Z;          (* int16 *)
  APIVersion : Z;      (* int16 *)
  CorrelationID : Z;   (* int32 *)
  ClientID : string;
  HeaderVersion : Z;   (* int8 *)
  HeaderSize : Z       (* int *)
}.

#[global] Instance RequestHeader_eq_dec : EqDecision RequestHeader.
Proof. solve_decision. Defined.

Definition RequestHeaderVersion (apiKey apiVersion : Z) : Z :=
  if apiKey =? ApiVersionsKey then (if 3 <=? apiVersion then 2 else 1)
  else if isFlexibleRequest apiKey apiVersion then 2 else 1.

Definition ResponseHeaderVersion (apiKey apiVersion : Z) : Z :=
  if apiKey =? ApiVersionsKey then 0
  else if isFlexibleRequest apiKey apiVersion then 1 else 0.

(** The [for i, b := range buf] loop of [readUvarint]: [x] and [s] are the
    accumulator and the shift, [i] the index; [uint64(b)<<s] drops the bits
    above 64. *)
Fixpoint readUvarint_loop (i : Z) (x s : Z) (buf : list byte) : res (Z * Z) :=
  match buf with
  | [] => Err (ErrNew "uvarint truncated" [])
  | b :: buf =>
      if 10 <=? i then Err (ErrNew "uvarint overflow" [])
      else if Z_of_byte b <? 128
      then Ok (Z.lor x (uint64 (Z.shiftl (Z_of_byte b) s)), i + 1)
      else readUvarint_loop (i + 1)
             (Z.lor x (uint64 (Z.shiftl (Z.land (Z_of_byte b) 127) s))) (s + 7) buf
  end.
Definition readUvarint (buf : list byte) : res (Z * Z) := readUvarint_loop 0 0 0 buf.

(** One iteration of the tagged-field loop of [ParseRequestHeader]: skip the
    tag number, read the length, skip that many bytes.  [int(length)] and the
    additions to [off] are 64-bit signed. *)
Definition skipTag (frame : list byte) (off : Z) : res Z :=
  let? rest := slice_from frame off in
  let? (_, c1) := rwrap "ParseRequestHeader" (readUvarint rest) in
  let off := int (off + c1) in
  let? rest := slice_from frame off in
  let? (length, c2) := rwrap "ParseRequestHeader" (readUvarint rest) in
  let off := int (off + c2) in
  if len frame <? int (off + int length)
  then Err (ErrNew "ParseRequestHeader: truncated tagged field" [])
  else Ok (int (off + int length)).

Definition ParseRequestHeader (frame : list byte) : res RequestHeader :=
  if len frame <? 8 then Err (ErrNew "ParseRequestHeader: frame shorter than header" [])
  else
  let? k := slice frame 0 2 in
  let? v := slice frame 2 4 in
  let? c := slice frame 4 8 in
  let apiKey := int16 (be_decode k) in
  let apiVersion := int16 (be_decode v) in
  let correlationID := int32 (be_decode c) in
  let headerVersion := RequestHeaderVersion apiKey apiVersion in
  let off := 8 in
  let? (clientID, off) :=
    if 1 <=? headerVersion then
      if len frame <? off + 2
      then Err (ErrNew "ParseRequestHeader: truncated client_id length" [])
      else
      let? l := slice frame off (off + 2) in
      let clen := int16 (be_decode l) in
      let off := off + 2 in
      if 0 <? clen then
        if len frame <? off + clen
        then Err (ErrNew "ParseRequestHeader: truncated client_id" [])
        else let? id := slice frame off (off + clen) in
             Ok (string_of_bytes id, off + clen)
      else Ok (EmptyString, off)
    else Ok (EmptyString, off) in
  let? off :=
    if 2 <=? headerVersion then
      let? rest := slice_from frame off in
      let? (n, consumed) := rwrap "ParseRequestHeader" (readUvarint rest) in
      loopN n (skipTag frame) (int (off + consumed))
    else Ok off in
  Ok (MkHeader apiKey apiVersion correlationID clientID headerVersion off).

(** * framing.go *)
Definition MaxFrameSize : Z := 100 * 1024 * 1024.

Definition ReadFrame : M NetConn (list byte) :=
  let! h := attempt (ReadFull 4) in
  match h with
  | inl err => if Is err ErrUnexpectedEOF then fail (Wrap err "ReadFrame") else fail err
  | inr hdr =>
      let size := be_decode hdr in
      if size =? 0 then fail (ErrNew "ReadFrame: zero-length frame" [])
      else if MaxFrameSize <? size
      then fail (ErrNew "ReadFrame: frame too large: %d" [FInt size])
      else wrap "ReadFrame" (ReadFull (Z.to_nat size))
  end.

Definition WriteFrame (body : list byte) : M NetConn unit :=
  let! _ := wrap "WriteFrame" (Write (be_encode 4 (uint32 (len body)))) in
  wrap "WriteFrame" (Write body).

(** * response.go *)
Definition AppendResponseHeader (dst : list byte) (correlationID headerVersion : Z) : list byte :=
  let dst := dst ++ be_encode 4 (uint32 correlationID) in
  if 1 <=? headerVersion then dst ++ [Byte.x00] else dst.

(** [EncodeResponse]; the response is its [AppendTo] method. *)
Definition EncodeResponse (AppendTo : list byte -> list byte)
    (correlationID apiKey apiVersion : Z) : list byte :=
  let hv := ResponseHeaderVersion apiKey apiVersion in
  let out := AppendResponseHeader [] correlationID hv in
  AppendTo out.
