(* ===== verification/ProtocolFacts.v ===== *)
(** Theorems about package [protocol]: varint and header round trips, the
    bounds of the parsed header, the frames that make the header parser slice
    out of range or spin, and the framing layer. *)
From Stdlib Require Import ZArith Lia.
From stdpp Require Import base list strings tactics numbers.
From S2P Require Import Prelude GoNet Protocol.
Local Open Scope Z_scope.

(** * Varints *)

(** Reference encoder of an unsigned varint (at most ten groups). *)
Fixpoint putUvarint (fuel : nat) (v : Z) : list byte :=
  match fuel with
  | O => [byte_of_Z v]
  | S fuel => if v <? 128 then [byte_of_Z v]
              else byte_of_Z (v mod 128 + 128) :: putUvarint fuel (v / 128)
  end.
Definition uvarint (v : Z) : list byte := putUvarint 9 v.

Lemma lor_shiftl_disjoint x b s :
  0 <= s -> 0 <= x < 2 ^ s -> Z.lor x (Z.shiftl b s) = x + b * 2 ^ s.
Proof.
  intros Hs Hx. rewrite <-Z.add_lor_land, <-Z.shiftl_mul_pow2 by done.
  enough (Z.land x (Z.shiftl b s) = 0) by lia.
  destruct (decide (x = 0)) as [->|Hx0]; [by rewrite Z.land_0_l|].
  apply Z.bits_inj'. intros n Hn. rewrite Z.land_spec, Z.bits_0.
  destruct (Z.lt_ge_cases n s).
  - by rewrite Z.shiftl_spec_low, andb_false_r.
  - rewrite (Z.bits_above_log2 x n), andb_false_l; [done|lia|].
    apply Z.log2_lt_pow2; [lia|]. eapply Z.lt_le_trans; [apply Hx|].
    apply Z.pow_le_mono_r; lia.
Qed.

Lemma readUvarint_loop_bounds i x s buf v n :
  0 <= i <= 10 -> readUvarint_loop i x s buf = Ok (v, n) ->
  i < n <= 10 /\ n - i <= len buf.
Proof.
  revert i x s. induction buf as [|b buf IH]; intros i x s Hi; simpl; [done|].
  rewrite len_cons. pose proof (len_nonneg buf).
  destruct (Z.leb_spec 10 i); [done|].
  destruct (Z.ltb_spec (Z_of_byte b) 128); [intros [= <- <-]; lia|].
  intros E. apply IH in E; lia.
Qed.

Lemma readUvarint_bounds buf v n :
  readUvarint buf = Ok (v, n) -> 1 <= n <= 10 /\ n <= len buf.
Proof. intros E. apply readUvarint_loop_bounds in E; lia. Qed.

Lemma readUvarint_loop_no_panic i x s buf : readUvarint_loop i x s buf <> Panic.
Proof.
  revert i x s. induction buf as [|b buf IH]; intros i x s; simpl; [done|].
  by repeat case_match.
Qed.
Lemma readUvarint_no_panic buf : readUvarint buf <> Panic.
Proof. apply readUvarint_loop_no_panic. Qed.

Lemma readUvarint_loop_put fuel i x s v rest :
  s = 7 * i -> 0 <= i -> i + Z.of_nat fuel = 9 ->
  0 <= x < 2 ^ s -> 0 <= v < 2 ^ (64 - s) ->
  readUvarint_loop i x s (putUvarint fuel v ++ rest)
  = Ok (x + v * 2 ^ s, i + len (putUvarint fuel v)).
Proof.
  revert i x s v. induction fuel as [|fuel IH]; intros i x s v -> Hi Hf Hx Hv.
  - assert (i = 9) as -> by lia. assert (v < 128) by lia.
    cbn [putUvarint app readUvarint_loop]. rewrite Z_of_byte_of_Z, Z.mod_small by lia.
    replace (v <? 128) with true by lia. change (10 <=? 9) with false. cbv iota.
    unfold uwrap. rewrite Z.mod_small by (rewrite Z.shiftl_mul_pow2 by lia; lia).
    rewrite lor_shiftl_disjoint by lia. done.
  - cbn [putUvarint]. destruct (Z.ltb_spec v 128) as [Hlt|Hge].
    + cbn [app readUvarint_loop]. rewrite Z_of_byte_of_Z, Z.mod_small by lia.
      replace (10 <=? i) with false by lia. replace (v <? 128) with true by lia.
      unfold uwrap. rewrite Z.mod_small.
      * rewrite lor_shiftl_disjoint by lia. done.
      * rewrite Z.shiftl_mul_pow2 by lia. split; [lia|].
        replace (2 ^ 64) with (2 ^ (64 - 7 * i) * 2 ^ (7 * i)); [nia|].
        rewrite <-Z.pow_add_r by lia. f_equal. lia.
    + cbn [app readUvarint_loop]. pose proof (Z.mod_pos_bound v 128 ltac:(lia)).
      rewrite Z_of_byte_of_Z, (Z.mod_small (_ + 128) 256) by lia.
      replace (10 <=? i) with false by lia. replace (_ <? 128) with false by lia.
      cbv iota.
      replace (Z.land (v mod 128 + 128) 127) with (v mod 128); cycle 1.
      { change 127 with (Z.ones 7). rewrite Z.land_ones by lia.
        change (2 ^ 7) with 128. rewrite Z.add_mod_idemp_l by lia.
        rewrite <-(Z.mul_1_l 128) at 2. by rewrite Z.mod_add. }
      assert (2 ^ (7 * (i + 1)) = 128 * 2 ^ (7 * i)) as Hp.
      { replace (7 * (i + 1)) with (7 + 7 * i) by lia. rewrite Z.pow_add_r; lia. }
      assert (2 ^ (64 - 7 * i) = 128 * 2 ^ (64 - 7 * (i + 1))) as Hq.
      { replace (64 - 7 * i) with (7 + (64 - 7 * (i + 1))) by lia.
        rewrite Z.pow_add_r; lia. }
      assert (2 ^ (64 - 7 * i) * 2 ^ (7 * i) = 2 ^ 64) as Hr.
      { rewrite <-Z.pow_add_r by lia. f_equal. lia. }
      unfold uwrap. rewrite Z.mod_small; cycle 1.
      { rewrite Z.shiftl_mul_pow2 by lia. nia. }
      rewrite lor_shiftl_disjoint by lia.
      replace (7 * i + 7) with (7 * (i + 1)) by lia.
      rewrite IH; [| lia | lia | lia | nia | ].
      * rewrite len_cons. f_equal. f_equal; [|lia].
        rewrite Hp. pose proof (Z.div_mod v 128). nia.
      * split; [apply Z.div_pos; lia|]. apply Z.div_lt_upper_bound; lia.
Qed.

Lemma readUvarint_uvarint v rest :
  0 <= v < 2 ^ 64 -> readUvarint (uvarint v ++ rest) = Ok (v, len (uvarint v)).
Proof.
  intros Hv. unfold readUvarint, uvarint.
  rewrite readUvarint_loop_put; [|lia|lia|lia|simpl; lia|simpl; lia].
  f_equal. f_equal. simpl. lia.
Qed.

(** * Request headers *)

(** Reference encoder of a request header: fixed fields, the non-compact
    nullable client id, and for header version 2 the tagged fields. *)
Definition encodeTag (t : Z * list byte) : list byte :=
  uvarint t.1 ++ uvarint (len t.2) ++ t.2.
Definition encodeTags (ts : list (Z * list byte)) : list byte :=
  uvarint (len ts) ++ concat (map encodeTag ts).
Definition encodeFixed (apiKey apiVersion correlationID : Z) (clientID : string) : list byte :=
  be_encode 2 apiKey ++ be_encode 2 apiVersion ++ be_encode 4 correlationID ++
  be_encode 2 (len (bytes_of_string clientID)) ++ bytes_of_string clientID.
Definition encodeHeader (apiKey apiVersion correlationID : Z) (clientID : string)
    (tags : list (Z * list byte)) : list byte :=
  encodeFixed apiKey apiVersion correlationID clientID ++
  (if 2 <=? RequestHeaderVersion apiKey apiVersion then encodeTags tags else []).

Definition is_int16 (z : Z) : Prop := - 2 ^ 15 <= z < 2 ^ 15.
Definition is_int32 (z : Z) : Prop := - 2 ^ 31 <= z < 2 ^ 31.

Lemma be_roundtrip_int16 z : is_int16 z -> int16 (be_decode (be_encode 2 z)) = z.
Proof.
  intros. rewrite be_decode_encode. change (8 * Z.of_nat 2) with 16.
  rewrite swrap_mod. by apply swrap_id.
Qed.
Lemma be_roundtrip_int32 z : is_int32 z -> int32 (be_decode (be_encode 4 z)) = z.
Proof.
  intros. rewrite be_decode_encode. change (8 * Z.of_nat 4) with 32.
  rewrite swrap_mod. by apply swrap_id.
Qed.

Lemma len_be_encode n z : len (be_encode n z) = Z.of_nat n.
Proof. unfold len. by rewrite be_encode_length. Qed.
#[export] Hint Rewrite @len_app @len_cons @len_be_encode : kroxyrw.

Lemma len_uvarint v : 0 <= v < 2 ^ 64 -> 1 <= len (uvarint v) <= 10.
Proof.
  intros Hv. pose proof (readUvarint_uvarint v [] Hv) as E.
  apply readUvarint_bounds in E. lia.
Qed.

Lemma len_putUvarint_pos fuel v : 1 <= len (putUvarint fuel v).
Proof.
  destruct fuel; simpl; [done|]. case_match; [done|]. rewrite len_cons.
  pose proof (len_nonneg (putUvarint fuel (v / 128))). lia.
Qed.
Lemma len_tags ts : len ts <= len (concat (map encodeTag ts)).
Proof.
  induction ts as [|[k d] ts IH]; [done|]. simpl. unfold encodeTag at 1.
  autorewrite with kroxyrw. pose proof (len_putUvarint_pos 9 k) as Hk. simpl.
  pose proof (len_nonneg (uvarint (len d))). pose proof (len_nonneg d).
  unfold uvarint in *. lia.
Qed.

Lemma skipTag_encoded pre t post :
  0 <= t.1 < 2 ^ 64 -> len (pre ++ encodeTag t ++ post) < 2 ^ 62 ->
  skipTag (pre ++ encodeTag t ++ post) (len pre) = Ok (len (pre ++ encodeTag t)).
Proof.
  destruct t as [k d]; unfold encodeTag; simpl. intros Hk.
  autorewrite with kroxyrw. intros Hlen.
  pose proof (len_nonneg pre). pose proof (len_nonneg d). pose proof (len_nonneg post).
  pose proof (len_uvarint k Hk). pose proof (len_nonneg (uvarint (len d))).
  pose proof (len_uvarint (len d) ltac:(lia)).
  unfold skipTag. rewrite slice_from_app by done. cbn [rbind].
  rewrite <-!app_assoc, readUvarint_uvarint by done. cbn [rwrap rbind].
  unwrap_ints.
  rewrite (app_assoc pre), slice_from_app by (by rewrite len_app). cbn [rbind].
  rewrite readUvarint_uvarint by lia. cbn [rwrap rbind].
  unwrap_ints.
  destruct (Z.ltb_spec (len ((pre ++ uvarint k) ++ uvarint (len d) ++ d ++ post)) (len pre + len (uvarint k) + len (uvarint (len d)) + len d)).
  - autorewrite with kroxyrw in *. lia.
  - f_equal. lia.
Qed.

Lemma skipTags_encoded ts pre post :
  Forall (fun t => 0 <= t.1 < 2 ^ 64) ts ->
  len (pre ++ concat (map encodeTag ts) ++ post) < 2 ^ 62 ->
  loop_nat (length ts) (skipTag (pre ++ concat (map encodeTag ts) ++ post)) (len pre)
  = Ok (len (pre ++ concat (map encodeTag ts))).
Proof.
  intros Hts. revert pre. induction Hts as [|t ts Ht Hts IH]; intros pre Hlen; simpl.
  - by rewrite app_nil_r.
  - simpl in Hlen. rewrite <-app_assoc in *. rewrite skipTag_encoded by done.
    cbn [rbind]. rewrite (app_assoc pre (encodeTag t)). rewrite IH.
    + by rewrite <-!app_assoc.
    + by rewrite <-!app_assoc.
Qed.

Section Parse.
Context (k v c : Z) (id : string).
Context (Hk : is_int16 k) (Hv : is_int16 v) (Hc : is_int32 c)
        (Hid : len (bytes_of_string id) <= 32767).

Lemma len_encodeFixed : len (encodeFixed k v c id) = 10 + len (bytes_of_string id).
Proof. unfold encodeFixed. autorewrite with kroxyrw. lia. Qed.

(** The fixed fields and the client id are read back, and the rest of the
    parse is the tagged-field loop. *)
Lemma parse_fixed rest :
  let frame := encodeFixed k v c id ++ rest in
  let off := len (encodeFixed k v c id) in
  ParseRequestHeader frame =
  let? off :=
    if 2 <=? RequestHeaderVersion k v then
      let? (n, consumed) := rwrap "ParseRequestHeader" (readUvarint rest) in
      loopN n (skipTag frame) (int (off + consumed))
    else Ok off in
  Ok (MkHeader k v c id (RequestHeaderVersion k v) off).
Proof.
  intros frame off.
  pose proof (len_nonneg rest). pose proof (len_nonneg (bytes_of_string id)).
  assert (frame = be_encode 2 k ++ be_encode 2 v ++ be_encode 4 c ++
    be_encode 2 (len (bytes_of_string id)) ++ bytes_of_string id ++ rest) as Hf.
  { unfold frame, encodeFixed. by rewrite <-!app_assoc. }
  assert (len frame = 10 + len (bytes_of_string id) + len rest) as Hlen.
  { unfold frame. rewrite len_app, len_encodeFixed. lia. }
  unfold ParseRequestHeader. rewrite Hlen, (proj2 (Z.ltb_ge _ 8)) by lia.
  assert (slice frame 0 2 = Ok (be_encode 2 k)) as ->.
  { rewrite Hf. by apply (slice_app []); rewrite ?len_be_encode. }
  assert (slice frame 2 4 = Ok (be_encode 2 v)) as ->.
  { rewrite Hf. by apply slice_app; rewrite ?len_be_encode. }
  assert (slice frame 4 8 = Ok (be_encode 4 c)) as ->.
  { rewrite Hf, (app_assoc (be_encode 2 k)).
    by apply slice_app; rewrite ?len_app, ?len_be_encode. }
  cbn [rbind]. rewrite !be_roundtrip_int16, be_roundtrip_int32 by done.
  assert ((1 <=? RequestHeaderVersion k v) = true) as ->.
  { unfold RequestHeaderVersion. by repeat case_match. }
  rewrite (proj2 (Z.ltb_ge _ (8 + 2))) by lia.
  assert (slice frame 8 (8 + 2) = Ok (be_encode 2 (len (bytes_of_string id)))) as ->.
  { rewrite Hf, (app_assoc (be_encode 2 k)), (app_assoc (_ ++ be_encode 2 v)).
    by apply slice_app; rewrite ?len_app, ?len_be_encode. }
  cbn [rbind]. rewrite be_roundtrip_int16 by (unfold is_int16; lia).
  unfold off. rewrite len_encodeFixed.
  destruct (Z.ltb_spec 0 (len (bytes_of_string id))) as [Hpos|Hzero].
  - rewrite (proj2 (Z.ltb_ge _ _)) by lia.
    assert (slice frame (8 + 2) (8 + 2 + len (bytes_of_string id))
      = Ok (bytes_of_string id)) as ->.
    { rewrite Hf, (app_assoc (be_encode 2 k)), (app_assoc (_ ++ be_encode 2 v)),
        (app_assoc (_ ++ be_encode 4 c)).
      by apply slice_app; rewrite ?len_app, ?len_be_encode. }
    cbn [rbind]. rewrite string_of_bytes_of_string.
    unfold frame. by rewrite slice_from_app by (rewrite len_encodeFixed; lia).
  - pose proof (len_bytes_of_string_0 id Hzero) as Hempty. rewrite Hempty in *.
    cbn [rbind]. unfold frame. by rewrite slice_from_app by (rewrite len_encodeFixed, Hempty; done).
Qed.

Lemma parse_header_encoded tags body :
  Forall (fun t => 0 <= t.1 < 2 ^ 64) tags ->
  len (encodeHeader k v c id tags ++ body) < 2 ^ 62 ->
  ParseRequestHeader (encodeHeader k v c id tags ++ body)
  = Ok (MkHeader k v c id (RequestHeaderVersion k v) (len (encodeHeader k v c id tags))).
Proof.
  intros Htags. unfold encodeHeader. rewrite <-app_assoc. intros Hlen.
  rewrite parse_fixed. case_match; cbn [rbind]; [|by rewrite app_nil_r].
  unfold encodeTags in *. rewrite <-!app_assoc in *.
  assert (0 <= len tags < 2 ^ 64) as Ht.
  { split; [apply len_nonneg|]. revert Hlen. autorewrite with kroxyrw.
    pose proof (len_tags tags). pose proof (len_nonneg body).
    pose proof (len_nonneg (encodeFixed k v c id)).
    pose proof (len_nonneg (uvarint (len tags))). lia. }
  rewrite readUvarint_uvarint by done. cbn [rwrap rbind].
  pose proof (len_uvarint _ Ht).
  assert (len (encodeFixed k v c id ++ uvarint (len tags)) < 2 ^ 62) as Hb.
  { revert Hlen. rewrite (app_assoc (encodeFixed k v c id)), len_app.
    pose proof (len_nonneg (concat (map encodeTag tags) ++ body)). lia. }
  rewrite len_app in Hb. pose proof (len_nonneg (encodeFixed k v c id)). unwrap_ints.
  rewrite loopN_nat, <-len_app. unfold len at 1. rewrite Nat2Z.id.
  rewrite (app_assoc (encodeFixed k v c id)) in Hlen |- *.
  rewrite skipTags_encoded by done. cbn [rbind]. by rewrite <-app_assoc.
Qed.
End Parse.

Lemma parse_cases (frame : list byte) :
  8 <= len frame ->
  exists k v c, slice frame 0 2 = Ok k /\ slice frame 2 4 = Ok v /\ slice frame 4 8 = Ok c /\
    k = take 2 frame /\ v = take 2 (drop 2 frame).
Proof.
  intros H. rewrite !slice_Ok by lia. eauto 10.
Qed.

(** ** Properties *)

(** C25: Request headers survive the wire: a header built from any API key,
    version, correlation id, client id (up to 32767 bytes) and, when the
    version is flexible, any list of tagged fields, followed by any body, is
    parsed back exactly, and [HeaderSize] is the length of the encoded
    header, so the body handed on starts at the first body byte. *)
Theorem request_header_roundtrip k v c id tags body :
  is_int16 k -> is_int16 v -> is_int32 c -> len (bytes_of_string id) <= 32767 ->
  Forall (fun t => 0 <= t.1 < 2 ^ 64) tags ->
  len (encodeHeader k v c id tags ++ body) < 2 ^ 62 ->
  ParseRequestHeader (encodeHeader k v c id tags ++ body)
    = Ok (MkHeader k v c id (RequestHeaderVersion k v) (len (encodeHeader k v c id tags)))
  /\ slice_from (encodeHeader k v c id tags ++ body) (len (encodeHeader k v c id tags))
    = Ok body.
Proof.
  intros. split; [by apply parse_header_encoded|by apply slice_from_app].
Qed.

Lemma request_header_roundtrip_witness :
  ParseRequestHeader (encodeHeader ApiVersionsKey 3 7 "cli" [(0, [Byte.x01])] ++ [Byte.x02])
  = Ok (MkHeader ApiVersionsKey 3 7 "cli" 2 17).
Proof.
  refine (proj1 (request_header_roundtrip ApiVersionsKey 3 7 "cli" [(0, [Byte.x01])]
            [Byte.x02] _ _ _ _ _ _)).
  - split; [discriminate|reflexivity].
  - split; [discriminate|reflexivity].
  - split; [discriminate|reflexivity].
  - vm_compute. discriminate.
  - constructor; [split; [discriminate|reflexivity]|constructor].
  - vm_compute. reflexivity.
Defined.

(** For every key and version with the non-flexible header (version 1) the
    parser is memory safe on arbitrary bytes: it never slices out of range,
    and on success the header ends inside the frame and covers at least the
    ten fixed bytes, so [frame[hdr.HeaderSize:]] in [serve] is in range. *)
Theorem parse_v1_safe (frame : list byte) :
  RequestHeaderVersion (int16 (be_decode (take 2 frame)))
    (int16 (be_decode (take 2 (drop 2 frame)))) = 1 ->
  ParseRequestHeader frame <> Panic /\
  forall h, ParseRequestHeader frame = Ok h ->
    10 <= HeaderSize h <= len frame /\ exists body, slice_from frame (HeaderSize h) = Ok body.
Proof.
  intros Hhv. unfold ParseRequestHeader.
  destruct (Z.ltb_spec (len frame) 8) as [|Hlen]; [done|].
  destruct (parse_cases frame Hlen) as (k & v & c & -> & -> & -> & -> & ->).
  cbn [rbind]. rewrite Hhv. cbn [Z.leb Z.compare Pos.compare Pos.compare_cont].
  destruct (Z.ltb_spec (len frame) (8 + 2)); [done|].
  rewrite slice_Ok by lia. cbn [rbind].
  destruct (Z.ltb_spec 0 (int16 (be_decode (take (Z.to_nat (8 + 2 - 8)) (drop (Z.to_nat 8) frame)))))
    as [Hpos|]; cbn [rbind].
  - destruct (Z.ltb_spec (len frame)
      (8 + 2 + int16 (be_decode (take (Z.to_nat (8 + 2 - 8)) (drop (Z.to_nat 8) frame))))); [done|].
    rewrite slice_Ok by lia. cbn [rbind]. split; [done|]. intros h [= <-]. simpl HeaderSize.
    split; [lia|]. rewrite slice_from_Ok by lia. eauto.
  - split; [done|]. intros h [= <-]. simpl HeaderSize.
    split; [lia|]. rewrite slice_from_Ok by lia. eauto.
Qed.

Lemma parse_v1_safe_witness :
  ParseRequestHeader (encodeHeader MetadataKey 1 7 "cli" []) <> Panic.
Proof.
  exact (proj1 (parse_v1_safe (encodeHeader MetadataKey 1 7 "cli" []) eq_refl)).
Defined.

(** The key and the version at the start of a frame. *)
Definition frameKey (frame : list byte) : Z := int16 (be_decode (take 2 frame)).
Definition frameVersion (frame : list byte) : Z := int16 (be_decode (take 2 (drop 2 frame))).

Lemma RequestHeaderVersion_cases k v : RequestHeaderVersion k v = 1 \/ RequestHeaderVersion k v = 2.
Proof. unfold RequestHeaderVersion. repeat case_match; auto. Qed.

Lemma uvarint_huge L : 2 ^ 63 <= L < 2 ^ 64 -> len (uvarint L) = 10.
Proof.
  intros HL. unfold uvarint, putUvarint.
  repeat (rewrite (proj2 (Z.ltb_ge _ 128));
          [|repeat (apply Z.div_le_lower_bound; [lia|]); lia]).
  done.
Qed.

(** One tagged field whose 64-bit length is [L >= 2^63]: [int(length)] is
    negative, the truncation test passes and the offset moves backwards. *)
Lemma skipTag_backwards (pre : list byte) L post :
  2 ^ 63 <= L < 2 ^ 64 -> len (pre ++ uvarint 0 ++ uvarint L ++ post) < 2 ^ 62 ->
  skipTag (pre ++ uvarint 0 ++ uvarint L ++ post) (len pre)
  = Ok (len pre + 11 + L - 2 ^ 64).
Proof.
  intros HL. autorewrite with kroxyrw. rewrite (uvarint_huge L) by done.
  change (len (uvarint 0)) with 1. intros Hlen.
  pose proof (len_nonneg pre). pose proof (len_nonneg post).
  unfold skipTag. rewrite slice_from_app by done. cbn [rbind].
  rewrite readUvarint_uvarint by lia. cbn [rwrap rbind].
  change (len (uvarint 0)) with 1. unwrap_ints.
  rewrite (app_assoc pre), slice_from_app by (by rewrite len_app). cbn [rbind].
  rewrite readUvarint_uvarint by lia. cbn [rwrap rbind]. rewrite (uvarint_huge L) by done.
  assert (swrap 64 L = L - 2 ^ 64) as ->.
  { unfold swrap. replace (L + 2 ^ (64 - 1)) with ((L - 2 ^ 63) + 1 * 2 ^ 64) by lia.
    rewrite Z.mod_add by lia. rewrite Z.mod_small by lia. lia. }
  unwrap_ints.
  destruct (Z.ltb_spec (len ((pre ++ uvarint 0) ++ uvarint L ++ post))
              (len pre + 1 + 10 + (L - 2 ^ 64))); [|f_equal; lia].
  revert H1. autorewrite with kroxyrw. pose proof (len_nonneg (uvarint 0)).
  change (len (uvarint 0)) with 1. rewrite (uvarint_huge L) by done. lia.
Qed.

(** C26: the flexible header parser does not stay inside the frame.  An ApiVersions v3
    request with an empty client id and one tagged field of declared length [L],
    2^63 <= L < 2^64-22, is accepted with a negative [HeaderSize], so that
    [frame[hdr.HeaderSize:]] in [serve] is out of range; with a tag count of two
    the parser itself slices out of range. *)
Theorem tag_length_underflow c L :
  is_int32 c -> 2 ^ 63 <= L < 2 ^ 64 - 22 ->
  let frame n := encodeFixed ApiVersionsKey 3 c "" ++ uvarint n ++ uvarint 0 ++ uvarint L in
  (exists h, ParseRequestHeader (frame 1) = Ok h /\ HeaderSize h < 0 /\
             slice_from (frame 1) (HeaderSize h) = Panic) /\
  ParseRequestHeader (frame 2) = Panic.
Proof.
  intros Hc HL frame.
  assert (forall n, 1 <= n <= 2 ->
    ParseRequestHeader (frame n) =
    let? off := loopN n (skipTag (frame n)) 11 in
    Ok (MkHeader ApiVersionsKey 3 c "" 2 off)) as Hparse.
  { intros n Hn. unfold frame. rewrite parse_fixed by (try done; vm_compute; intuition discriminate).
    change (2 <=? RequestHeaderVersion ApiVersionsKey 3) with true. cbv iota.
    rewrite readUvarint_uvarint by lia. cbn [rwrap rbind].
    replace (len (uvarint n)) with 1; [done|].
    assert (n = 1 \/ n = 2) as [->| ->] by lia; done. }
  assert (forall n, 1 <= n <= 2 -> skipTag (frame n) 11 = Ok (22 + L - 2 ^ 64)) as Hstep.
  { intros n Hn. unfold frame. rewrite (app_assoc (encodeFixed _ _ _ _)).
    pose proof (skipTag_backwards (encodeFixed ApiVersionsKey 3 c "" ++ uvarint n) L []) as Hs.
    rewrite app_nil_r in Hs.
    assert (len (encodeFixed ApiVersionsKey 3 c "" ++ uvarint n) = 11) as Hp.
    { assert (n = 1 \/ n = 2) as [->| ->] by lia; done. }
    rewrite Hp in Hs. rewrite Hs; [f_equal; lia|lia|].
    rewrite len_app, Hp, len_app, (uvarint_huge L) by lia. vm_compute. done. }
  split.
  - rewrite Hparse by lia. change (loopN 1 ?b ?s) with (b s). rewrite Hstep by lia.
    cbn [rbind]. eexists. split; [done|]. simpl HeaderSize. split; [lia|].
    apply slice_from_Panic. lia.
  - rewrite Hparse by lia. cbn [loopN loop_pos]. rewrite Hstep by lia. cbn [rbind].
    unfold skipTag. by rewrite slice_from_Panic by lia.
Qed.

Lemma tag_length_underflow_witness :
  ParseRequestHeader (encodeFixed ApiVersionsKey 3 1 "" ++ uvarint 2 ++ uvarint 0
                      ++ uvarint (2 ^ 63)) = Panic.
Proof.
  refine (proj2 (tag_length_underflow 1 (2 ^ 63) _ _));
    split; first [discriminate|reflexivity].
Defined.

(** A 31-byte frame can make the tagged-field loop spin: with a tag length
    of 2^64-11 every iteration puts the offset back where it was, so for any
    announced count [n], up to 2^64-1, all [n] iterations are executed without
    consuming a byte before the header is accepted. *)
Theorem tag_loop_no_progress c n :
  is_int32 c -> 0 <= n < 2 ^ 64 ->
  let pre := encodeFixed ApiVersionsKey 3 c "" ++ uvarint n in
  let frame := pre ++ uvarint 0 ++ uvarint (2 ^ 64 - 11) in
  len frame <= 31 /\
  skipTag frame (len pre) = Ok (len pre) /\
  ParseRequestHeader frame = Ok (MkHeader ApiVersionsKey 3 c "" 2 (len pre)).
Proof.
  intros Hc Hn pre frame. pose proof (len_uvarint n Hn).
  assert (len pre = 10 + len (uvarint n)) as Hpre by (unfold pre; by rewrite len_app).
  assert (len frame <= 31) as Hlen.
  { unfold frame. rewrite !len_app, Hpre, (uvarint_huge (2 ^ 64 - 11)) by lia.
    change (len (uvarint 0)) with 1. lia. }
  assert (skipTag frame (len pre) = Ok (len pre)) as Hstep.
  { pose proof (skipTag_backwards pre (2 ^ 64 - 11) []) as Hs. rewrite app_nil_r in Hs.
    fold frame in Hs. rewrite Hs; [f_equal; lia|lia|lia]. }
  split_and!; [done..|].
  unfold frame, pre. rewrite <-app_assoc.
  rewrite parse_fixed by (try done; vm_compute; intuition discriminate).
  change (2 <=? RequestHeaderVersion ApiVersionsKey 3) with true. cbv iota.
  rewrite readUvarint_uvarint by done. cbn [rwrap rbind].
  rewrite (app_assoc (encodeFixed _ _ _ _)). fold pre. fold frame.
  change (len (encodeFixed ApiVersionsKey 3 c "")) with 10. unwrap_ints.
  rewrite <-Hpre, loopN_fixpoint by done. done.
Qed.

Lemma tag_loop_no_progress_witness :
  let pre := encodeFixed ApiVersionsKey 3 1 "" ++ uvarint (2 ^ 64 - 1) in
  len (pre ++ uvarint 0 ++ uvarint (2 ^ 64 - 11)) <= 31.
Proof.
  refine (proj1 (tag_loop_no_progress 1 (2 ^ 64 - 1) _ _));
    split; first [discriminate|reflexivity].
Defined.

(** * Framing *)
Section Framing.
Implicit Types (c : NetConn) (body : list byte).

(** What [WriteFrame] puts on the wire. *)
Definition frame_bytes (body : list byte) : list byte := be_encode 4 (uint32 (len body)) ++ body.

Lemma frame_bytes_hdr (hdr body : list byte) :
  length hdr = 4%nat -> len body = be_decode hdr -> frame_bytes body = hdr ++ body.
Proof.
  intros Hl Hb. pose proof (be_decode_range hdr) as Hr. unfold len in Hr. rewrite Hl in Hr.
  unfold frame_bytes. rewrite Hb, uwrap_id by lia. f_equal.
  rewrite <-Hl at 1. apply be_encode_decode.
Qed.

Lemma WriteFrame_spec body c :
  (WriteFrame body c).1 <> Panic /\ rx (WriteFrame body c).2 = rx c /\
  ((WriteFrame body c).1 = Ok tt -> wire (WriteFrame body c).2 = wire c ++ frame_bytes body).
Proof.
  unfold WriteFrame, bind, wrap, wire, frame_bytes.
  destruct (Write_spec (be_encode 4 (uint32 (len body))) c) as (n & Ht & Hok & Hp & Hr & _).
  destruct (Write _ c) as [[[]|e|] c1] eqn:E1; simpl in *; [|done..].
  destruct (Write_spec body c1) as (n' & Ht' & Hok' & Hp' & Hr' & _).
  destruct (Write body c1) as [[[]|e|] c2] eqn:E2; simpl in *; [|split_and!; naive_solver congruence|done].
  split_and!; [done|congruence|]. intros _. rewrite Hok', Hok by done.
  rewrite !concat_app. simpl. by rewrite !app_nil_r, <-app_assoc.
Qed.

Lemma WriteFrame_reads body c : reads (WriteFrame body c).2 = reads c.
Proof.
  unfold WriteFrame, bind, wrap.
  destruct (Write_spec (be_encode 4 (uint32 (len body))) c) as (n & _ & _ & _ & _ & Hr & _).
  destruct (Write _ c) as [[[]|e|] c1]; simpl in *; [|done..].
  destruct (Write_spec body c1) as (n' & _ & _ & _ & _ & Hr' & _).
  destruct (Write body c1) as [[[]|e|] c2]; simpl in *; congruence.
Qed.

Lemma ReadFull_closed n c : closed (ReadFull n c).2 = closed c.
Proof. unfold ReadFull. simpl. destruct (closed c) eqn:E; [done|]. by case_decide. Qed.

(** Frames are read and written like bytes: append-only, under one deadline. *)
Lemma ReadFrame_evolves : preserves evolves ReadFrame.
Proof.
  unfold ReadFrame. apply preserves_bind; [apply _|eauto with kroxy|].
  intros [e|h]; repeat case_match; eauto using evolves_preorder with kroxy.
Qed.
Lemma ReadFrame_reads_under : preserves reads_under ReadFrame.
Proof.
  unfold ReadFrame. apply preserves_bind; [apply _|eauto with kroxy|].
  intros [e|h]; repeat case_match; eauto using reads_under_preorder with kroxy.
Qed.
Lemma WriteFrame_evolves body : preserves evolves (WriteFrame body).
Proof. apply preserves_bind; eauto using evolves_preorder with kroxy. Qed.
Lemma WriteFrame_reads_under body : preserves reads_under (WriteFrame body).
Proof. apply preserves_bind; eauto using reads_under_preorder with kroxy. Qed.

(** Every outcome of [ReadFrame] on an open connection. *)
Lemma ReadFrame_complete body r c :
  closed c = false -> rx c = frame_bytes body ++ r -> 0 < len body <= MaxFrameSize ->
  exists c', ReadFrame c = (Ok body, c') /\ rx c' = r /\ closed c' = false /\ tx c' = tx c
             /\ rx_end c' = rx_end c.
Proof.
  intros Hc Hrx Hb. unfold frame_bytes in Hrx. rewrite <-app_assoc in Hrx.
  unfold ReadFrame, bind, attempt.
  pose proof (ReadFull_app _ _ _ Hc Hrx) as E. rewrite be_encode_length in E. rewrite E.
  unfold MaxFrameSize in *. rewrite uwrap_id by lia.
  rewrite be_decode_encode. change (8 * Z.of_nat 4) with 32. rewrite Z.mod_small by lia.
  rewrite (proj2 (Z.eqb_neq _ 0)), (proj2 (Z.ltb_ge _ _)) by lia. unfold wrap.
  unfold len. rewrite Nat2Z.id. erewrite ReadFull_app; [|done..]. simpl. eauto 10.
Qed.

#[local] Opaque frame_bytes.
Lemma ReadFrame_sound body c :
  (ReadFrame c).1 = Ok body ->
  0 < len body <= MaxFrameSize /\ rx c = frame_bytes body ++ rx (ReadFrame c).2.
Proof.
  unfold ReadFrame, bind, attempt.
  destruct (ReadFull_spec 4 c) as (_ & _ & _ & _ & _ & _ & H1).
  destruct (ReadFull 4 c) as [[hdr|e|] c1] eqn:E1; simpl in *; [|by destruct (Is e ErrUnexpectedEOF)|done].
  destruct (H1 hdr eq_refl) as [Hl Hrx].
  pose proof (be_decode_range hdr) as Hr. unfold len in Hr. rewrite Hl in Hr.
  change (2 ^ (8 * Z.of_nat 4)) with (2 ^ 32) in Hr.
  destruct (Z.eqb_spec (be_decode hdr) 0); [done|].
  destruct (Z.ltb_spec MaxFrameSize (be_decode hdr)); [done|]. unfold wrap.
  destruct (ReadFull_spec (Z.to_nat (be_decode hdr)) c1) as (_ & _ & _ & _ & _ & _ & H2).
  destruct (ReadFull (Z.to_nat (be_decode hdr)) c1) as [[bs|e|] c2]; simpl in *; [|done..].
  intros [= ->]. destruct (H2 body eq_refl) as [Hl2 Hrx2].
  assert (len body = be_decode hdr) as Hb by (unfold len; lia).
  split; [lia|]. by rewrite (frame_bytes_hdr hdr), <-app_assoc, <-Hrx2, <-Hrx.
Qed.

Lemma ReadFrame_tx c : tx (ReadFrame c).2 = tx c.
Proof.
  unfold ReadFrame, bind, attempt. destruct (ReadFull_spec 4 c) as (Ht & _).
  destruct (ReadFull 4 c) as [[hdr|e|] c1]; simpl in *; [|by case_match|done].
  repeat case_match; try done. rewrite wrap_state.
  by destruct (ReadFull_spec (Z.to_nat (be_decode hdr)) c1) as (-> & _).
Qed.

Lemma ReadFrame_no_panic c : (ReadFrame c).1 <> Panic.
Proof.
  unfold ReadFrame, bind, attempt.
  destruct (ReadFull_spec 4 c) as (_ & _ & _ & _ & _ & Hp & _).
  destruct (ReadFull 4 c) as [[hdr|e|] c1]; simpl in *; [|by case_match|done].
  repeat case_match; try done. unfold wrap.
  destruct (ReadFull_spec (Z.to_nat (be_decode hdr)) c1) as (_ & _ & _ & _ & _ & Hp2 & _).
  by destruct (ReadFull (Z.to_nat (be_decode hdr)) c1) as [[bs|e|] c2].
Qed.

(** Reading frames until the list is exhausted. *)
Fixpoint ReadFrames (n : nat) : M NetConn (list (list byte)) :=
  match n with
  | O => ret []
  | S n => let! b := ReadFrame in let! bs := ReadFrames n in ret (b :: bs)
  end.

Lemma ReadFrames_complete bodies r c :
  closed c = false -> rx c = concat (map frame_bytes bodies) ++ r ->
  Forall (fun b => 0 < len b <= MaxFrameSize) bodies ->
  exists c', ReadFrames (length bodies) c = (Ok bodies, c') /\ rx c' = r.
Proof.
  intros Hc Hrx Hb. revert c Hc Hrx. induction Hb as [|b bs Hb Hbs IH]; intros c Hc Hrx.
  - simpl in *. eauto.
  - simpl in Hrx. rewrite <-app_assoc in Hrx.
    destruct (ReadFrame_complete _ _ _ Hc Hrx Hb) as (c1 & E & Hrx1 & Hc1 & _).
    destruct (IH c1 Hc1 Hrx1) as (c2 & E2 & Hrx2).
    exists c2. simpl. unfold bind at 1. rewrite E. unfold bind. rewrite E2. done.
Qed.
End Framing.
#[export] Hint Resolve ReadFrame_evolves ReadFrame_reads_under WriteFrame_evolves
  WriteFrame_reads_under : kroxy.

(** C27: Framing is lossless and boundaries are preserved: the peer of a
    connection on which frames (each between 1 byte and 100 MiB) are written
    one after the other reads back exactly those frames, in order, and is left
    at whatever follows them; conversely every frame [ReadFrame] accepts is
    non-empty, within [MaxFrameSize] and is exactly what [WriteFrame] would
    have sent. *)
Theorem framing_roundtrip :
  (forall bodies r c,
     closed c = false -> rx c = concat (map frame_bytes bodies) ++ r ->
     Forall (fun b => 0 < len b <= MaxFrameSize) bodies ->
     exists c', ReadFrames (length bodies) c = (Ok bodies, c') /\ rx c' = r) /\
  (forall body c c', WriteFrame body c = (Ok tt, c') -> wire c' = wire c ++ frame_bytes body) /\
  (forall body c c', ReadFrame c = (Ok body, c') ->
     0 < len body <= MaxFrameSize /\ rx c = frame_bytes body ++ rx c').
Proof.
  split_and!.
  - apply ReadFrames_complete.
  - intros body c c' E. pose proof (WriteFrame_spec body c) as H. rewrite E in H. by apply H.
  - intros body c c' E. pose proof (ReadFrame_sound body c) as H. rewrite E in H. by apply H.
Qed.

(** C28: [ReadFrame] reports a clean end of stream ([errors.Is(err, io.EOF)],
    which [serve] turns into [errClientClosed]) not only between two frames:
    on a stream that ends, it does so exactly when no byte was left or when
    precisely the four bytes of a valid length prefix were left, i.e. when the
    frame was cut right after its prefix. *)
Theorem read_frame_eof_iff c :
  closed c = false -> rx_end c = ErrSent EOF ->
  (exists e, (ReadFrame c).1 = Err e /\ Is e EOF = true) <->
  rx c = [] \/ (length (rx c) = 4%nat /\ 0 < be_decode (rx c) <= MaxFrameSize).
Proof.
  intros Hc He. unfold ReadFrame, bind, attempt, ReadFull at 1. simpl. rewrite Hc.
  case_decide as H4; simpl.
  - pose proof (be_decode_range (take 4 (rx c))) as Hr.
    destruct (Z.eqb_spec (be_decode (take 4 (rx c))) 0) as [Hz|Hz].
    { split; [naive_solver|]. intros [E|[Hl Hb]]; [by rewrite E in H4; simpl in H4; lia|].
      rewrite take_ge in Hz by lia. lia. }
    destruct (Z.ltb_spec MaxFrameSize (be_decode (take 4 (rx c)))).
    { split; [naive_solver|]. intros [E|[Hl Hb]]; [by rewrite E in H4; simpl in H4; lia|].
      rewrite take_ge in H by lia. lia. }
    unfold wrap, ReadFull. simpl. rewrite Hc, He. case_decide as Hn; simpl.
    { split; [naive_solver|]. rewrite length_drop in Hn.
      intros [E|[Hl Hb]]; [by rewrite E in H4; simpl in H4; lia|].
      rewrite take_ge in Hn by lia. lia. }
    destruct (drop 4 (rx c)) eqn:Hd; simpl.
    + split; [|intros _; eauto]. intros _. right.
      assert (length (rx c) = 4%nat) as Hl.
      { apply (f_equal length) in Hd. rewrite length_drop in Hd. simpl in Hd. lia. }
      rewrite take_ge in * by lia. lia.
    + split; [naive_solver|]. intros [E|[Hl Hb]]; [by rewrite E in H4; simpl in H4; lia|].
      rewrite drop_ge in Hd by lia. done.
  - rewrite He. destruct (rx c) as [|x l] eqn:Hrx; simpl.
    + split; [by left|]. intros _. eauto.
    + split; [naive_solver|]. intros [E|[Hl Hb]]; [done|]. simpl in *. lia.
Qed.

Lemma read_frame_eof_iff_witness :
  let c := MkNetConn (be_encode 4 9) (ErrSent EOF) [] [] None [] false in
  exists e, (ReadFrame c).1 = Err e /\ Is e EOF = true.
Proof.
  refine (proj2 (read_frame_eof_iff (MkNetConn (be_encode 4 9) (ErrSent EOF) [] [] None [] false)
    eq_refl eq_refl) (or_intror _)).
  split; [reflexivity|]. vm_compute. split; [reflexivity|discriminate].
Defined.
