(* ===== verification/GoStrings.v ===== *)
(** The functions of Go's [strings] and [strconv] packages kroxy uses, on byte
    strings, with the lemmas the components share. *)
From Stdlib Require Import ZArith Lia Ascii.
From stdpp Require Import base list strings pretty tactics numbers.
From S2P Require Import Prelude.

(** [strings.HasPrefix(s, prefix)] *)
Fixpoint HasPrefix (s prefix : string) : bool :=
  match prefix, s with
  | EmptyString, _ => true
  | String a p, String b s => Ascii.eqb a b && HasPrefix s p
  | String _ _, EmptyString => false
  end.

(** [s[n:]] and [s[:n]] for [n <= len(s)] *)
Fixpoint sdrop (n : nat) (s : string) : string :=
  match n, s with
  | O, _ => s
  | S n, String _ s => sdrop n s
  | S _, EmptyString => EmptyString
  end.
Fixpoint stake (n : nat) (s : string) : string :=
  match n, s with
  | S n, String a s => String a (stake n s)
  | _, _ => EmptyString
  end.

(** [s[lo:hi]] and [s[i]], which panic out of range *)
Definition sslice (s : string) (lo hi : nat) : res string :=
  if (lo <=? hi)%nat && (hi <=? String.length s)%nat
  then Ok (stake (hi - lo) (sdrop lo s)) else Panic.
Definition sindex (s : string) (i : nat) : res ascii :=
  match String.get i s with Some c => Ok c | None => Panic end.

(** [strings.TrimPrefix(s, prefix)] *)
Definition TrimPrefix (s prefix : string) : string :=
  if HasPrefix s prefix then sdrop (String.length prefix) s else s.

(** [utf8.ValidString(s)]: runes in their shortest form, no surrogate, none above
    U+10FFFF.  A continuation byte is in [lo, hi]. *)
Definition continues (lo hi : nat) (c : ascii) : bool := (lo <=? nat_of_ascii c) && (nat_of_ascii c <=? hi).
Fixpoint ValidString (s : string) : bool :=
  match s with
  | EmptyString => true
  | String c0 s =>
      let b := nat_of_ascii c0 in
      if b <? 128 then ValidString s
      else if (194 <=? b) && (b <=? 223) then
        match s with
        | String c1 s => continues 128 191 c1 && ValidString s
        | _ => false
        end
      else if (224 <=? b) && (b <=? 239) then
        match s with
        | String c1 (String c2 s) =>
            continues (if b =? 224 then 160 else 128) (if b =? 237 then 159 else 191) c1 &&
            continues 128 191 c2 && ValidString s
        | _ => false
        end
      else if (240 <=? b) && (b <=? 244) then
        match s with
        | String c1 (String c2 (String c3 s)) =>
            continues (if b =? 240 then 144 else 128) (if b =? 244 then 143 else 191) c1 &&
            continues 128 191 c2 && continues 128 191 c3 && ValidString s
        | _ => false
        end
      else false
  end.

(** [strings.IndexByte(s, c)], [None] for -1 *)
Fixpoint IndexByte (s : string) (c : ascii) : option nat :=
  match s with
  | EmptyString => None
  | String a s => if Ascii.eqb a c then Some 0 else S <$> IndexByte s c
  end.

(** [strings.ContainsRune(s, r)] for an ASCII rune *)
Definition ContainsRune (s : string) (r : ascii) : bool :=
  match IndexByte s r with Some _ => true | None => false end.

(** [strings.LastIndexByte(s, c)] *)
Fixpoint LastIndexByte (s : string) (c : ascii) : option nat :=
  match s with
  | EmptyString => None
  | String a s =>
      match LastIndexByte s c with
      | Some i => Some (S i)
      | None => if Ascii.eqb a c then Some 0 else None
      end
  end.

(** [strings.ToLower(s)] on ASCII letters *)
Definition lower_ascii (a : ascii) : ascii :=
  let n := nat_of_ascii a in
  if (65 <=? n)%nat && (n <=? 90)%nat then ascii_of_nat (n + 32) else a.
Fixpoint ToLower (s : string) : string :=
  match s with
  | EmptyString => EmptyString
  | String a s => String (lower_ascii a) (ToLower s)
  end.

(** [strconv.Itoa(n)] *)
Definition Itoa (n : Z) : string := pretty n.

(** [strconv.Atoi(s)]: an optional sign and decimal digits, within [int]. *)
Definition digit (a : ascii) : option Z :=
  let n := nat_of_ascii a in
  if (48 <=? n)%nat && (n <=? 57)%nat then Some (Z.of_nat (n - 48)) else None.
Fixpoint digits (acc : Z) (s : string) : option Z :=
  match s with
  | EmptyString => Some acc
  | String a s => d ← digit a; digits (acc * 10 + d)%Z s
  end.
Definition err_syntax (s : string) : error := ErrNew "strconv.Atoi: parsing %q: invalid syntax" [FStr s].
Definition err_range (s : string) : error :=
  ErrNew "strconv.Atoi: parsing %q: value out of range" [FStr s].
Definition Atoi (s : string) : res Z :=
  let (neg, body) := match s with
                     | String "-" r => (true, r)
                     | String "+" r => (false, r)
                     | _ => (false, s)
                     end in
  match body, digits 0 body with
  | EmptyString, _ | _, None => Err (err_syntax s)
  | _, Some n =>
      let v := if neg : bool then (- n)%Z else n in
      if (- 2 ^ 63 <=? v)%Z && (v <? 2 ^ 63)%Z then Ok v else Err (err_range s)
  end.

(** [net.SplitHostPort(hostport)] *)
Definition addrErr (why : string) (addr : string) : error :=
  ErrNew "address %s: %s" [FStr addr; FStr why].
Definition missingPort : string := "missing port in address".
Definition tooManyColons : string := "too many colons in address".
Definition SplitHostPort (hostport : string) : res (string * string) :=
  match LastIndexByte hostport ":" with
  | None => Err (addrErr missingPort hostport)
  | Some i =>
      let? c0 := sindex hostport 0 in
      let? (host, j, k) :=
        (if Ascii.eqb c0 "[" then
           match IndexByte hostport "]" with
           | None => Err (addrErr "missing ']' in address" hostport)
           | Some e =>
               if (e + 1 =? String.length hostport)%nat then Err (addrErr missingPort hostport)
               else if (e + 1 =? i)%nat then
                 let? host := sslice hostport 1 e in Ok (host, 1, e + 1)
               else
                 let? c := sindex hostport (e + 1) in
                 if Ascii.eqb c ":" then Err (addrErr tooManyColons hostport)
                 else Err (addrErr missingPort hostport)
           end
         else
           let? host := sslice hostport 0 i in
           match IndexByte host ":" with
           | Some _ => Err (addrErr tooManyColons hostport)
           | None => Ok (host, 0, 0)
           end) in
      let? hj := sslice hostport j (String.length hostport) in
      match IndexByte hj "[" with
      | Some _ => Err (addrErr "unexpected '[' in address" hostport)
      | None =>
          let? hk := sslice hostport k (String.length hostport) in
          match IndexByte hk "]" with
          | Some _ => Err (addrErr "unexpected ']' in address" hostport)
          | None =>
              let? port := sslice hostport (i + 1) (String.length hostport) in
              Ok (host, port)
          end
      end
  end.

Section Facts.
Implicit Types s t p : string.

Lemma sapp_cons a s t : String a s +:+ t = String a (s +:+ t).
Proof. done. Qed.
Lemma sapp_nil_r s : s +:+ "" = s.
Proof. induction s as [|a s IH]; [done|]. by rewrite sapp_cons, IH. Qed.
Lemma sapp_assoc s t p : (s +:+ t) +:+ p = s +:+ (t +:+ p).
Proof. induction s as [|a s IH]; [done|]. by rewrite !sapp_cons, IH. Qed.
Lemma sapp_inj_l p s t : p +:+ s = p +:+ t -> s = t.
Proof. induction p as [|a p IH]; [done|]. rewrite !sapp_cons. intros [= E]. auto. Qed.
Lemma sapp_nil_inv s t : s +:+ t = "" -> s = "" /\ t = "".
Proof. destruct s; naive_solver. Qed.

Lemma slength_app s t : String.length (s +:+ t) = String.length s + String.length t.
Proof. induction s as [|a s IH]; [done|]. rewrite sapp_cons. simpl. by rewrite IH. Qed.

Lemma HasPrefix_app p s : HasPrefix (p +:+ s) p = true.
Proof.
  induction p as [|a p IH]; simpl; [by destruct s|].
  by rewrite Ascii.eqb_refl, IH.
Qed.

Lemma HasPrefix_spec s p : HasPrefix s p = true <-> exists t, s = p +:+ t.
Proof.
  split; [|intros [t ->]; apply HasPrefix_app].
  revert s. induction p as [|a p IH]; intros s; simpl; [eauto|].
  destruct s as [|b s]; [done|].
  intros [->%Ascii.eqb_eq [t ->]%IH]%andb_prop. exists t. by rewrite sapp_cons.
Qed.

Lemma sdrop_app p s : sdrop (String.length p) (p +:+ s) = s.
Proof. induction p as [|a p IH]; [done|]. rewrite sapp_cons. apply IH. Qed.
Lemma stake_app p s : stake (String.length p) (p +:+ s) = p.
Proof.
  induction p as [|a p IH]; [by destruct s|]. rewrite sapp_cons. simpl. by rewrite IH.
Qed.

Lemma sslice_app p s t : sslice (p +:+ s +:+ t) (String.length p) (String.length p + String.length s)
  = Ok s.
Proof.
  unfold sslice. rewrite !slength_app, !(proj2 (Nat.leb_le _ _)) by lia. simpl.
  rewrite sdrop_app. replace (_ + _ - _) with (String.length s) by lia. by rewrite stake_app.
Qed.
Lemma sindex_app p c s : sindex (p +:+ String c s) (String.length p) = Ok c.
Proof.
  unfold sindex. replace (String.get _ _) with (Some c); [done|].
  induction p as [|a p IH]; [done|]. rewrite sapp_cons. apply IH.
Qed.

Lemma TrimPrefix_app p s : TrimPrefix (p +:+ s) p = s.
Proof. unfold TrimPrefix. by rewrite HasPrefix_app, sdrop_app. Qed.

Lemma TrimPrefix_none s p : HasPrefix s p = false -> TrimPrefix s p = s.
Proof. intros E. unfold TrimPrefix. by rewrite E. Qed.

Lemma IndexByte_Some s c i :
  IndexByte s c = Some i ->
  s = stake i s +:+ String c (sdrop (S i) s) /\ IndexByte (stake i s) c = None.
Proof.
  revert i. induction s as [|a s IH]; intros i; simpl; [done|].
  destruct (Ascii.eqb_spec a c) as [->|Hne].
  - intros [= <-]. by destruct s.
  - destruct (IndexByte s c) as [j|] eqn:Hj; [|done]. intros [= <-].
    destruct (IH j eq_refl) as [E Hn].
    simpl. rewrite Hn. destruct (Ascii.eqb_spec a c); [done|].
    split; [|done]. rewrite sapp_cons. f_equal. exact E.
Qed.

Lemma IndexByte_app_None s c t :
  IndexByte s c = None ->
  IndexByte (s +:+ String c t) c = Some (String.length s).
Proof.
  induction s as [|a s IH]; rewrite ?sapp_cons; simpl; [by rewrite Ascii.eqb_refl|].
  destruct (Ascii.eqb a c); [done|]. intros E. apply fmap_None in E. by rewrite IH.
Qed.

Lemma IndexByte_app s t c :
  IndexByte (s +:+ t) c = None <-> IndexByte s c = None /\ IndexByte t c = None.
Proof.
  induction s as [|a s IH]; rewrite ?sapp_cons; simpl; [naive_solver|].
  destruct (Ascii.eqb a c); [naive_solver|]. rewrite !fmap_None. apply IH.
Qed.
End Facts.
#[export] Hint Rewrite HasPrefix_app TrimPrefix_app sapp_nil_r : kroxyrw.
