(* ===== verification/Http.v ===== *)
(** The part of [net/http] the servers of kroxy use: [ServeMux] with patterns of
    one segment, and the [/healthz] handler both servers register.

    A handler is a computation on the state it serves.  Of a request the method,
    the escaped path and the body are kept; of a response the status, the target
    of a redirect and the body (of a redirect, the target only). *)
From Stdlib Require Import ZArith Lia Ascii.
From stdpp Require Import base list strings tactics.
From S2P Require Import Prelude GoStrings.
Local Open Scope Z_scope.

Module HttpRequest.
Record t : Type := Mk { Method : string; Path : string; Body : list byte }.
End HttpRequest.
Module HttpResponse.
Record t : Type := Mk { Status : Z; Location : option string; Body : list byte }.
End HttpResponse.

Definition StatusOK : Z := 200.
Definition StatusMovedPermanently : Z := 301.
Definition StatusBadRequest : Z := 400.
Definition StatusNotFound : Z := 404.

Definition Handler (S : Type) : Type := HttpRequest.t -> M S HttpResponse.t.

(** * Paths *)

(** The pieces of a string between slashes. *)
Fixpoint segments (s : string) : list string :=
  match s with
  | EmptyString => [EmptyString]
  | String a s =>
      if Ascii.eqb a "/" then EmptyString :: segments s
      else match segments s with
           | seg :: rest => String a seg :: rest
           | [] => []
           end
  end.

(** [path.Clean] of a rooted path: empty segments and [.] go, [..] takes the segment
    before it along. *)
Definition cleanSegment (out : list string) (seg : string) : list string :=
  if (seg =? "")%string || (seg =? ".")%string then out
  else if (seg =? "..")%string then tl out
  else seg :: out.
Definition Clean (p : string) : string :=
  ("/" +:+ String.concat "/" (rev (foldl cleanSegment [] (segments p))))%string.

Fixpoint endsInSlash (p : string) : bool :=
  match p with
  | EmptyString => false
  | String a EmptyString => Ascii.eqb a "/"
  | String _ p => endsInSlash p
  end.
Definition cleanPath (p : string) : string :=
  if (p =? "")%string then "/"%string
  else
  let p := if HasPrefix p "/" then p else ("/" +:+ p)%string in
  let np := Clean p in
  if endsInSlash p && negb (np =? "/")%string then (np +:+ "/")%string else np.

(** [url.PathUnescape]; a segment that is not validly escaped stays as it is. *)
Definition unhex (a : ascii) : option nat :=
  let n := nat_of_ascii a in
  if (48 <=? n)%nat && (n <=? 57)%nat then Some (n - 48)%nat
  else if (97 <=? n)%nat && (n <=? 102)%nat then Some (n - 87)%nat
  else if (65 <=? n)%nat && (n <=? 70)%nat then Some (n - 55)%nat
  else None.
Fixpoint unescape (s : string) : option string :=
  match s with
  | EmptyString => Some EmptyString
  | String a s =>
      if Ascii.eqb a "%" then
        match s with
        | String h (String l s) =>
            x ← unhex h; y ← unhex l; r ← unescape s; Some (String (ascii_of_nat (16 * x + y)) r)
        | _ => None
        end
      else r ← unescape s; Some (String a r)
  end.
Definition pathUnescape (s : string) : string := default s (unescape s).

(** * ServeMux *)
Definition ServeMux (S : Type) : Type := list (string * Handler S).
Definition NewServeMux {S} : ServeMux S := [].

Fixpoint patternHandler {S} (pattern : string) (mux : ServeMux S) : option (Handler S) :=
  match mux with
  | [] => None
  | (p, h) :: mux => if (p =? pattern)%string then Some h else patternHandler pattern mux
  end.
(** [mux.Handle(pattern, h)], which panics on a pattern it already has. *)
Definition Handle {S} (pattern : string) (h : Handler S) (mux : ServeMux S) : res (ServeMux S) :=
  match patternHandler pattern mux with
  | Some _ => Panic
  | None => Ok (mux ++ [(pattern, h)])
  end.

(** The handler of a path: a pattern of one segment matches a path of one segment. *)
Definition match_ {S} (mux : ServeMux S) (path : string) : option (Handler S) :=
  match path with
  | String "/" seg =>
      if ContainsRune seg "/" then None else patternHandler ("/" +:+ pathUnescape seg) mux
  | _ => None
  end.

Definition ServeHTTP {S} (mux : ServeMux S) : Handler S :=
  fun r =>
  let p := HttpRequest.Path r in
  if (p =? "*")%string then ret (HttpResponse.Mk StatusBadRequest None [])
  else
  let path := if (HttpRequest.Method r =? "CONNECT")%string then p else cleanPath p in
  if negb (path =? p)%string
  then ret (HttpResponse.Mk StatusMovedPermanently (Some path) [])
  else match match_ mux path with
       | Some h => h r
       | None => ret (HttpResponse.Mk StatusNotFound None (bytes_of_string "404 page not found" ++ [Byte.x0a]))
       end.

(** [func(w, _) { w.WriteHeader(http.StatusOK); w.Write([]byte("ok")) }] *)
Definition healthz {S} : Handler S :=
  fun _ => ret (HttpResponse.Mk StatusOK None (bytes_of_string "ok")).

(** * Facts *)
Section Facts.
Context {S : Type}.
Implicit Types (mux : ServeMux S) (r : HttpRequest.t).

(** A request either leaves the state alone or is given to the handler of the
    pattern its path spells. *)
Lemma ServeHTTP_routes mux r :
  (exists (seg : string) (h : Handler S), HttpRequest.Path r = ("/" +:+ seg)%string /\
     patternHandler ("/" +:+ pathUnescape seg) mux = Some h /\ ServeHTTP mux r = h r) \/
  exists resp : HttpResponse.t, ServeHTTP mux r = ret resp /\ HttpResponse.Status resp <> StatusOK.
Proof.
  unfold ServeHTTP. destruct (_ =? "*")%string; [right; by eexists|].
  set (path := if (_ =? "CONNECT")%string then HttpRequest.Path r else _). destruct (String.eqb_spec path (HttpRequest.Path r)) as [E|_];
    cbn [negb]; [|right; by eexists].
  destruct (match_ mux path) as [h|] eqn:Em; [|right; by eexists]. left. unfold match_ in Em.
  destruct path as [|a seg]; [done|].
  destruct a as [[] [] [] [] [] [] [] []]; try done.
  destruct (ContainsRune seg "/"); [done|]. exists seg, h. by rewrite <-E.
Qed.
Lemma ServeHTTP_change mux r s :
  (ServeHTTP mux r s).2 <> s ->
  exists (seg : string) (h : Handler S), HttpRequest.Path r = ("/" +:+ seg)%string /\
    patternHandler ("/" +:+ pathUnescape seg) mux = Some h /\ (h r s).2 <> s.
Proof.
  intros Hne. destruct (ServeHTTP_routes mux r) as [(seg & h & Hp & Hh & E)|(resp & E & _)];
    rewrite E in Hne; [by exists seg, h|done].
Qed.
Lemma ServeHTTP_at mux r p h :
  HttpRequest.Path r = p -> (p =? "*")%string = false -> cleanPath p = p -> match_ mux p = Some h ->
  ServeHTTP mux r = h r.
Proof.
  intros <- Hs Hc Hm. unfold ServeHTTP. rewrite Hs, Hc.
  destruct (_ =? "CONNECT")%string; rewrite String.eqb_refl; cbn [negb]; by rewrite Hm.
Qed.
End Facts.

Example clean_dots : cleanPath "/a//b/../rpc/./" = "/a/rpc/"%string.
Proof. reflexivity. Qed.
Example clean_root : cleanPath "/../.." = "/"%string.
Proof. reflexivity. Qed.
Example escaped_rpc : pathUnescape "%72pc" = "rpc"%string.
Proof. reflexivity. Qed.
Example bad_escape : pathUnescape "%7" = "%7"%string.
Proof. reflexivity. Qed.
