(* ===== verification/Observability.v ===== *)
(** Package [observability]: the metrics the proxy keeps (metrics.go), the choice
    of log level and handler (logging.go), and the part of [log/slog] kroxy uses,
    with the routes of the metrics server.  A Prometheus counter is an
    integer; a counter vector is a finite map from label values; of a histogram
    the number of samples per label is kept. *)
From Stdlib Require Import ZArith Lia.
From stdpp Require Import base list gmap strings tactics.
From S2P Require Import Prelude GoStrings Http.
Local Open Scope Z_scope.

Definition vec := gmap (list string) Z.
(** [v.WithLabelValues(ls...).Inc()] *)
Definition Inc (ls : list string) (v : vec) : vec := <[ls := default 0 (v !! ls) + 1]> v.

Record Metrics : Type := MkMetrics {
  ConnectionsActive : Z;
  ConnectionsTotal : Z;
  RequestsTotal : vec;
  RequestDuration : vec;
  UpstreamErrorTotal : vec;
  ResolverCallsTotal : vec;
  SaslHandshakeTotal : vec
}.

Definition NewMetrics : Metrics := MkMetrics 0 0 ∅ ∅ ∅ ∅ ∅.

Definition ObserveRequest (apiKey : Z) (tenant : string) (m : Metrics) : Metrics :=
  let k := Itoa apiKey in
  MkMetrics (ConnectionsActive m) (ConnectionsTotal m) (Inc [k; tenant] (RequestsTotal m))
    (Inc [k; tenant] (RequestDuration m)) (UpstreamErrorTotal m) (ResolverCallsTotal m)
    (SaslHandshakeTotal m).

(** The increments the proxy makes at its call sites. *)
Definition incUpstreamError (kind : string) (m : Metrics) : Metrics :=
  MkMetrics (ConnectionsActive m) (ConnectionsTotal m) (RequestsTotal m) (RequestDuration m)
    (Inc [kind] (UpstreamErrorTotal m)) (ResolverCallsTotal m) (SaslHandshakeTotal m).
Definition incResolverCalls (result : string) (m : Metrics) : Metrics :=
  MkMetrics (ConnectionsActive m) (ConnectionsTotal m) (RequestsTotal m) (RequestDuration m)
    (UpstreamErrorTotal m) (Inc [result] (ResolverCallsTotal m)) (SaslHandshakeTotal m).
Definition incSaslHandshake (mech result : string) (m : Metrics) : Metrics :=
  MkMetrics (ConnectionsActive m) (ConnectionsTotal m) (RequestsTotal m) (RequestDuration m)
    (UpstreamErrorTotal m) (ResolverCallsTotal m) (Inc [mech; result] (SaslHandshakeTotal m)).
Definition incConnections (m : Metrics) : Metrics :=
  MkMetrics (ConnectionsActive m + 1) (ConnectionsTotal m + 1) (RequestsTotal m) (RequestDuration m)
    (UpstreamErrorTotal m) (ResolverCallsTotal m) (SaslHandshakeTotal m).
Definition decActive (m : Metrics) : Metrics :=
  MkMetrics (ConnectionsActive m - 1) (ConnectionsTotal m) (RequestsTotal m) (RequestDuration m)
    (UpstreamErrorTotal m) (ResolverCallsTotal m) (SaslHandshakeTotal m).

(** The routes of [ServeMetrics].  The handler of [promhttp] over the registry of
    the metrics is a parameter. *)
Definition metricsMux (HandlerFor : Handler Metrics) : res (ServeMux Metrics) :=
  let? mux := Handle "/metrics" HandlerFor NewServeMux in
  Handle "/healthz" healthz mux.

(** A scrape, or a probe, is all a request to the metrics server can do: the metrics
    themselves change only as the exposition changes them. *)
Lemma metrics_routes HandlerFor :
  exists mux, metricsMux HandlerFor = Ok mux /\
  (forall r m, HttpRequest.Path r = "/metrics"%string -> ServeHTTP mux r m = HandlerFor r m) /\
  (forall r m, HttpRequest.Path r = "/healthz"%string -> ServeHTTP mux r m = healthz r m) /\
  (forall r m, (ServeHTTP mux r m).2 <> m ->
     exists seg : string, HttpRequest.Path r = ("/" +:+ seg)%string /\ pathUnescape seg = "metrics"%string).
Proof.
  eexists. split; [reflexivity|]. split_and!.
  - intros r m Hp. by rewrite (ServeHTTP_at _ _ _ HandlerFor Hp).
  - intros r m Hp. by rewrite (ServeHTTP_at _ _ _ healthz Hp).
  - intros r m (seg & h & Hp & Hh & Hne)%ServeHTTP_change.
    exists seg. split; [done|]. cbn [app patternHandler NewServeMux] in Hh.
    destruct (String.eqb_spec "/metrics" ("/" +:+ pathUnescape seg)) as [Em|_]; [by injection Em|].
    destruct (_ =? _)%string; [|done]. by injection Hh as <-.
Qed.

(** * logging.go *)
Inductive Level : Set := LevelDebug | LevelInfo | LevelWarn | LevelError.
Inductive HandlerKind : Set := TextHandler | JSONHandler.

Definition NewLogger (level format : string) : Level * HandlerKind :=
  let l := ToLower level in
  let lvl := if (l =? "debug")%string then LevelDebug
             else if (l =? "warn")%string then LevelWarn
             else if (l =? "error")%string then LevelError
             else LevelInfo in
  (lvl, if (ToLower format =? "text")%string then TextHandler else JSONHandler).

(** ** log/slog

    A logger with its minimum level and the attributes [With] gave it; the
    records handed to its handler are kept in order.  An attribute value is a
    string, an integer or an error. *)
Inductive attr : Set := AStr (s : string) | AInt (z : Z) | AErr (e : error).
Record LogRecord : Type := MkLogRecord {
  recordLevel : Level;
  recordMsg : string;
  recordAttrs : list (string * attr)
}.
#[global] Instance Level_eq_dec : EqDecision Level.
Proof. solve_decision. Defined.
#[global] Instance attr_eq_dec : EqDecision attr.
Proof. solve_decision. Defined.
#[global] Instance LogRecord_eq_dec : EqDecision LogRecord.
Proof. solve_decision. Defined.
Record Logger : Type := MkLogger {
  minLevel : Level;
  withAttrs : list (string * attr);
  records : list LogRecord
}.
Definition severity (l : Level) : Z :=
  match l with LevelDebug => -4 | LevelInfo => 0 | LevelWarn => 4 | LevelError => 8 end.
Definition Enabled (l : Level) (lg : Logger) : bool := severity (minLevel lg) <=? severity l.
Definition With (key value : string) (lg : Logger) : Logger :=
  MkLogger (minLevel lg) (withAttrs lg ++ [(key, AStr value)]) (records lg).
(** [log.DebugContext], [log.InfoContext], [log.WarnContext] *)
Definition Log (l : Level) (msg : string) (args : list (string * attr)) (lg : Logger) : Logger :=
  if Enabled l lg
  then MkLogger (minLevel lg) (withAttrs lg) (records lg ++ [MkLogRecord l msg (withAttrs lg ++ args)])
  else lg.
(** A logger that has printed nothing. *)
Definition quietLogger (l : Level) : Logger := MkLogger l [] [].
