(* ===== verification/Rewrite.v ===== *)
(** Package [rewrite], file rewrite.go: the two name maps every message rewrite
    is built from, and the laws they satisfy. *)
From Stdlib Require Import ZArith Lia.
From stdpp Require Import base list strings tactics.
From S2P Require Import Prelude GoStrings.
Local Open Scope string_scope.

Definition PrefixIn (prefix name : string) : string :=
  if (prefix =? "") || (name =? "") then name else prefix +:+ name.

(** [*string] values are options, [nil] being [None]. *)
Definition PrefixInPtr (prefix : string) (name : option string) : option string :=
  match name with
  | None => name
  | Some n => if (n =? "") || (prefix =? "") then name else Some (prefix +:+ n)
  end.

Definition StripOut (prefix name : string) : string :=
  if prefix =? "" then name else TrimPrefix name prefix.

Definition StripOutPtr (prefix : string) (name : option string) : option string :=
  match name with
  | None => name
  | Some n => if prefix =? "" then name else Some (TrimPrefix n prefix)
  end.

Definition BelongsToTenant (prefix name : string) : bool :=
  if prefix =? "" then true else HasPrefix name prefix.

(** * Laws of the name maps *)

(** Two prefixes neither of which is a prefix of the other. *)
Definition incomparable (p q : string) : Prop :=
  HasPrefix p q = false /\ HasPrefix q p = false.

Lemma HasPrefix_comparable n p q :
  HasPrefix n p = true -> HasPrefix n q = true -> HasPrefix p q = true \/ HasPrefix q p = true.
Proof.
  revert p q. induction n as [|a n IH]; intros [|b p] [|c q]; simpl; auto; try done.
  intros [->%Ascii.eqb_eq Hp]%andb_prop [->%Ascii.eqb_eq Hq]%andb_prop.
  rewrite Ascii.eqb_refl. simpl. by apply IH.
Qed.

Section Laws.
Implicit Types p q n m : string.

Lemma PrefixIn_nonempty p n : p <> "" -> n <> "" -> PrefixIn p n = p +:+ n.
Proof.
  intros Hp Hn. unfold PrefixIn.
  by rewrite (proj2 (String.eqb_neq _ _) Hp), (proj2 (String.eqb_neq _ _) Hn).
Qed.
Lemma PrefixIn_empty p : PrefixIn p "" = "".
Proof. unfold PrefixIn. by rewrite orb_true_r. Qed.
Lemma PrefixInPtr_fmap p o : PrefixInPtr p o = PrefixIn p <$> o.
Proof.
  destruct o as [n|]; [|done]. simpl. unfold PrefixIn. rewrite orb_comm. by case_match.
Qed.
Lemma StripOutPtr_fmap p o : StripOutPtr p o = StripOut p <$> o.
Proof. destruct o as [n|]; [|done]. simpl. unfold StripOut. by case_match. Qed.

Lemma StripOut_PrefixIn p n : StripOut p (PrefixIn p n) = n.
Proof.
  unfold StripOut, PrefixIn. destruct (String.eqb_spec p "") as [->|Hp]; [done|]. simpl.
  destruct (String.eqb_spec n "") as [->|Hn]; [by destruct p|]. apply TrimPrefix_app.
Qed.

Lemma StripOut_length p n : String.length (StripOut p n) <= String.length n.
Proof.
  unfold StripOut, TrimPrefix. destruct (p =? ""); [done|].
  destruct (HasPrefix n p) eqn:E; [|done]. apply HasPrefix_spec in E as [t ->].
  rewrite sdrop_app, slength_app. lia.
Qed.

Lemma PrefixIn_StripOut p n :
  BelongsToTenant p n = true -> n <> p \/ p = "" -> PrefixIn p (StripOut p n) = n.
Proof.
  unfold BelongsToTenant, StripOut. destruct (String.eqb_spec p "") as [->|Hp]; [done|].
  intros [t ->]%HasPrefix_spec Hne. rewrite TrimPrefix_app.
  apply PrefixIn_nonempty; [done|]. intros ->. rewrite sapp_nil_r in Hne. naive_solver.
Qed.

Lemma BelongsToTenant_PrefixIn p n :
  BelongsToTenant p (PrefixIn p n) = (p =? "") || negb (n =? "").
Proof.
  unfold BelongsToTenant. destruct (String.eqb_spec p "") as [->|Hp]; [done|]. simpl.
  destruct (String.eqb_spec n "") as [->|Hn].
  - rewrite PrefixIn_empty. by destruct p.
  - rewrite PrefixIn_nonempty by done. apply HasPrefix_app.
Qed.

Lemma PrefixIn_inj p n m : PrefixIn p n = PrefixIn p m -> n = m.
Proof. intros E. by rewrite <-(StripOut_PrefixIn p n), E, StripOut_PrefixIn. Qed.

Lemma BelongsToTenant_disjoint p q n :
  incomparable p q -> BelongsToTenant p n = true -> BelongsToTenant q n = true -> False.
Proof.
  intros [Hpq Hqp]. unfold BelongsToTenant.
  destruct (String.eqb_spec p "") as [->|Hp]; [by destruct q|].
  destruct (String.eqb_spec q "") as [->|Hq]; [by destruct p|].
  intros H1 H2. destruct (HasPrefix_comparable _ _ _ H1 H2); congruence.
Qed.
End Laws.
#[export] Hint Rewrite StripOut_PrefixIn PrefixInPtr_fmap StripOutPtr_fmap PrefixIn_empty
  : kroxyrw.
