(* ===== verification/Kmsg.v ===== *)
(** The interface of the third-party package [kmsg] (franz-go), which is not
    part of the repository: the fields of its message structs that kroxy reads
    or writes, under their names, and the methods it calls as parameters.

    A struct is a record of the fields the source mentions, of the two fields that
    hold names and that the source never mentions ([TransactionID] of a Produce
    and [ForgottenTopics] of a Fetch request), and of [rest], a value of an
    arbitrary type [X] standing for every other field; all theorems hold for
    every [X].  A [*string] is an option; a
    slice is a list, except the three request slices whose [nil] means "all"
    on the wire, which are options ([None] for [nil]). *)
From Stdlib Require Import ZArith.
From stdpp Require Import base list strings.
From S2P Require Import Prelude.
Set Implicit Arguments.
Set Maximal Implicit Insertion.

(** A struct whose only touched field is a topic name (or a nullable one). *)
Record TopicEntry (X : Type) : Type := MkTopic { Topic : string; topic_rest : X }.
Record TopicPtr (X : Type) : Type := MkTopicPtr { TopicP : option string; topicp_rest : X }.

Module ProduceRequest.
Record t (X : Type) : Type := Mk { TransactionID : option string; Acks : Z; Topics : list (TopicEntry X); rest : X }.
End ProduceRequest.

Module ProduceResponse.
Record t (X : Type) : Type := Mk { Topics : list (TopicEntry X); rest : X }.
End ProduceResponse.

Module FetchRequest.
Record t (X : Type) : Type := Mk { Topics : list (TopicEntry X); ForgottenTopics : list (TopicEntry X); rest : X }.
End FetchRequest.

Module FetchResponse.
Record t (X : Type) : Type := Mk { Topics : list (TopicEntry X); rest : X }.
End FetchResponse.

Module ListOffsetsRequest.
Record t (X : Type) : Type := Mk { Topics : list (TopicEntry X); rest : X }.
End ListOffsetsRequest.

Module ListOffsetsResponse.
Record t (X : Type) : Type := Mk { Topics : list (TopicEntry X); rest : X }.
End ListOffsetsResponse.

Module MetadataRequest.
Record t (X : Type) : Type := Mk { Topics : option (list (TopicPtr X)); rest : X }.
End MetadataRequest.

Module MetadataResponseBroker.
Record t : Type := Mk { NodeID : Z; Host : string; Port : Z; Rack : option string }.
End MetadataResponseBroker.

Module MetadataResponsePartition.
Record t (X : Type) : Type := Mk { Leader : Z; Replicas : list Z; ISR : list Z; OfflineReplicas : list Z; rest : X }.
End MetadataResponsePartition.

Module MetadataResponseTopic.
Record t (X : Type) : Type := Mk { Topic : option string; Partitions : list (MetadataResponsePartition.t X); rest : X }.
End MetadataResponseTopic.

Module MetadataResponse.
Record t (X : Type) : Type := Mk { Brokers : list MetadataResponseBroker.t; ControllerID : Z; Topics : list (MetadataResponseTopic.t X); rest : X }.
End MetadataResponse.

Module CreateTopicsRequest.
Record t (X : Type) : Type := Mk { Topics : list (TopicEntry X); rest : X }.
End CreateTopicsRequest.

Module CreateTopicsResponse.
Record t (X : Type) : Type := Mk { Topics : list (TopicEntry X); rest : X }.
End CreateTopicsResponse.

Module DeleteTopicsRequest.
Record t (X : Type) : Type := Mk { TopicNames : list string; Topics : list (TopicPtr X); rest : X }.
End DeleteTopicsRequest.

Module DeleteTopicsResponse.
Record t (X : Type) : Type := Mk { Topics : list (TopicPtr X); rest : X }.
End DeleteTopicsResponse.

Module ConfigResource.
Record t (X : Type) : Type := Mk { ResourceType : Z; ResourceName : string; rest : X }.
End ConfigResource.

Module DescribeConfigsRequest.
Record t (X : Type) : Type := Mk { Resources : list (ConfigResource.t X); rest : X }.
End DescribeConfigsRequest.

Module DescribeConfigsResponse.
Record t (X : Type) : Type := Mk { Resources : list (ConfigResource.t X); rest : X }.
End DescribeConfigsResponse.

Module FindCoordinatorRequest.
Record t (X : Type) : Type := Mk { CoordinatorType : Z; CoordinatorKey : string; CoordinatorKeys : list string; rest : X }.
End FindCoordinatorRequest.

Module Coordinator.
Record t (X : Type) : Type := Mk { Key : string; NodeID : Z; Host : string; Port : Z; rest : X }.
End Coordinator.

Module FindCoordinatorResponse.
Record t (X : Type) : Type := Mk { NodeID : Z; Host : string; Port : Z; Coordinators : list (Coordinator.t X); rest : X }.
End FindCoordinatorResponse.

Module OffsetCommitRequest.
Record t (X : Type) : Type := Mk { Group : string; Topics : list (TopicEntry X); rest : X }.
End OffsetCommitRequest.

Module OffsetCommitResponse.
Record t (X : Type) : Type := Mk { Topics : list (TopicEntry X); rest : X }.
End OffsetCommitResponse.

Module OffsetFetchRequestGroup.
Record t (X : Type) : Type := Mk { Group : string; Topics : option (list (TopicEntry X)); rest : X }.
End OffsetFetchRequestGroup.

Module OffsetFetchRequest.
Record t (X : Type) : Type := Mk { Group : string; Topics : option (list (TopicEntry X)); Groups : list (OffsetFetchRequestGroup.t X); rest : X }.
End OffsetFetchRequest.

Module OffsetFetchResponseGroup.
Record t (X : Type) : Type := Mk { Group : string; Topics : list (TopicEntry X); rest : X }.
End OffsetFetchResponseGroup.

Module OffsetFetchResponse.
Record t (X : Type) : Type := Mk { Topics : list (TopicEntry X); Groups : list (OffsetFetchResponseGroup.t X); rest : X }.
End OffsetFetchResponse.

Module OffsetDeleteRequest.
Record t (X : Type) : Type := Mk { Group : string; Topics : list (TopicEntry X); rest : X }.
End OffsetDeleteRequest.

Module OffsetDeleteResponse.
Record t (X : Type) : Type := Mk { Topics : list (TopicEntry X); rest : X }.
End OffsetDeleteResponse.

Module JoinGroupRequestProtocol.
Record t (X : Type) : Type := Mk { Metadata : list byte; rest : X }.
End JoinGroupRequestProtocol.

Module JoinGroupRequest.
Record t (X : Type) : Type := Mk { Group : string; ProtocolType : string; Protocols : list (JoinGroupRequestProtocol.t X); rest : X }.
End JoinGroupRequest.

Module JoinGroupResponseMember.
Record t (X : Type) : Type := Mk { ProtocolMetadata : list byte; rest : X }.
End JoinGroupResponseMember.

Module JoinGroupResponse.
Record t (X : Type) : Type := Mk { ProtocolType : option string; Members : list (JoinGroupResponseMember.t X); rest : X }.
End JoinGroupResponse.

Module SyncGroupRequestAssignment.
Record t (X : Type) : Type := Mk { MemberAssignment : list byte; rest : X }.
End SyncGroupRequestAssignment.

Module SyncGroupRequest.
Record t (X : Type) : Type := Mk { Group : string; ProtocolType : option string; GroupAssignment : list (SyncGroupRequestAssignment.t X); rest : X }.
End SyncGroupRequest.

Module SyncGroupResponse.
Record t (X : Type) : Type := Mk { ProtocolType : option string; MemberAssignment : list byte; rest : X }.
End SyncGroupResponse.

Module HeartbeatRequest.
Record t (X : Type) : Type := Mk { Group : string; rest : X }.
End HeartbeatRequest.

Module LeaveGroupRequest.
Record t (X : Type) : Type := Mk { Group : string; rest : X }.
End LeaveGroupRequest.

Module DescribeGroupsRequest.
Record t (X : Type) : Type := Mk { Groups : list string; rest : X }.
End DescribeGroupsRequest.

Module DescribeGroupsMember.
Record t (X : Type) : Type := Mk { ProtocolMetadata : list byte; MemberAssignment : list byte; rest : X }.
End DescribeGroupsMember.

Module DescribeGroupsGroup.
Record t (X : Type) : Type := Mk { Group : string; ProtocolType : string; Members : list (DescribeGroupsMember.t X); rest : X }.
End DescribeGroupsGroup.

Module DescribeGroupsResponse.
Record t (X : Type) : Type := Mk { Groups : list (DescribeGroupsGroup.t X); rest : X }.
End DescribeGroupsResponse.

Module GroupEntry.
Record t (X : Type) : Type := Mk { Group : string; rest : X }.
End GroupEntry.

Module ListGroupsResponse.
Record t (X : Type) : Type := Mk { Groups : list (GroupEntry.t X); rest : X }.
End ListGroupsResponse.

Module DeleteGroupsRequest.
Record t (X : Type) : Type := Mk { Groups : list string; rest : X }.
End DeleteGroupsRequest.

Module DeleteGroupsResponse.
Record t (X : Type) : Type := Mk { Groups : list (GroupEntry.t X); rest : X }.
End DeleteGroupsResponse.

Module InitProducerIDRequest.
Record t (X : Type) : Type := Mk { TransactionalID : option string; rest : X }.
End InitProducerIDRequest.

Module TxnEntry.
Record t (X : Type) : Type := Mk { TransactionalID : string; Topics : list (TopicEntry X); rest : X }.
End TxnEntry.

Module AddPartitionsToTxnRequest.
Record t (X : Type) : Type := Mk { TransactionalID : string; Topics : list (TopicEntry X); Transactions : list (TxnEntry.t X); rest : X }.
End AddPartitionsToTxnRequest.

Module AddPartitionsToTxnResponse.
Record t (X : Type) : Type := Mk { Topics : list (TopicEntry X); Transactions : list (TxnEntry.t X); rest : X }.
End AddPartitionsToTxnResponse.

Module AddOffsetsToTxnRequest.
Record t (X : Type) : Type := Mk { TransactionalID : string; Group : string; rest : X }.
End AddOffsetsToTxnRequest.

Module EndTxnRequest.
Record t (X : Type) : Type := Mk { TransactionalID : string; rest : X }.
End EndTxnRequest.

Module TxnOffsetCommitRequest.
Record t (X : Type) : Type := Mk { TransactionalID : string; Group : string; Topics : list (TopicEntry X); rest : X }.
End TxnOffsetCommitRequest.

Module TxnOffsetCommitResponse.
Record t (X : Type) : Type := Mk { Topics : list (TopicEntry X); rest : X }.
End TxnOffsetCommitResponse.

Module ConsumerMemberMetadata.
Record t (X : Type) : Type := Mk { Topics : list string; OwnedPartitions : list (TopicEntry X); rest : X }.
End ConsumerMemberMetadata.

Module ConsumerMemberAssignment.
Record t (X : Type) : Type := Mk { Topics : list (TopicEntry X); rest : X }.
End ConsumerMemberAssignment.

Module Untouched.
Record t (X : Type) : Type := Mk { rest : X }.
End Untouched.

Module ApiVersionsResponseApiKey.
Record t : Type := Mk { ApiKey : Z; MinVersion : Z; MaxVersion : Z }.
End ApiVersionsResponseApiKey.

Module ApiVersionsResponse.
Record t : Type := Mk { ApiKeys : list ApiVersionsResponseApiKey.t }.
End ApiVersionsResponse.

Module SASLHandshakeRequest.
Record t : Type := Mk { Mechanism : string }.
End SASLHandshakeRequest.

Module SASLHandshakeResponse.
Record t : Type := Mk { ErrorCode : Z; SupportedMechanisms : list string }.
End SASLHandshakeResponse.

Module SASLAuthenticateRequest.
Record t : Type := Mk { SASLAuthBytes : list byte }.
End SASLAuthenticateRequest.

Module SASLAuthenticateResponse.
Record t : Type := Mk { ErrorCode : Z; ErrorMessage : option string; SASLAuthBytes : list byte }.
End SASLAuthenticateResponse.

(** * Methods

    [m.SetVersion(v)], [m.ReadFrom(bytes)] and [m.AppendTo(dst)] of a message
    type: decoding may fail, encoding appends.  The blobs inside group messages
    carry their version themselves ([Blob]). *)
Record Codec (T : Type) : Type := MkCodec {
  ReadFrom : Z -> list byte -> error + T;
  AppendTo : Z -> T -> list byte -> list byte
}.
Record Blob (T : Type) : Type := MkBlob {
  blob_ReadFrom : list byte -> error + T;
  blob_AppendTo : T -> list byte -> list byte
}.
(** [AppendTo] "appends this message in wire protocol form to dst and returns
    the extended slice". *)
Class Appends (T : Type) (k : Codec T) : Prop :=
  AppendTo_appends : forall v m dst, exists enc, AppendTo k v m dst = dst ++ enc.
(** A name that fits the 16-bit length of the wire's STRING type. *)
Definition fits (n : string) : Prop := (Z.of_nat (String.length n) < 2^15)%Z.

(** kmsg's documented behaviour on blobs, [topics] being the topic names of the
    decoded struct and [rename] their map: an empty buffer, which has no
    version, does not decode; decoded names fit the wire; and a decoded struct
    whose names are replaced by names that fit encodes to a blob that decodes
    to it (its version, and so the set of fields present, is unchanged). *)
Class BlobLaws (T : Type) (b : Blob T) (topics : T -> list string)
    (rename : (string -> string) -> T -> T) : Prop := {
  blob_empty : exists e, blob_ReadFrom b [] = inl e;
  blob_fits : forall raw m, blob_ReadFrom b raw = inr m -> Forall fits (topics m);
  blob_roundtrip : forall raw m f, blob_ReadFrom b raw = inr m ->
    Forall (fun n => fits (f n)) (topics m) ->
    blob_ReadFrom b (blob_AppendTo b (rename f m) []) = inr (rename f m)
}.

(** The [kmsg.Request] interface as the upstream connection uses it. *)
Record Request : Type := MkRequest {
  Key : Z;
  GetVersion : Z;
  req_AppendTo : list byte -> list byte
}.
