(* ===== verification/Debug.v ===== *)
(** Package [proxy], the debug summaries of debug.go, with the parts of
    [strings.TrimSpace] and [fmt] they use.

    The summaries read fields of kmsg structs that kroxy reads nowhere else; in
    the model those are part of the unmodelled rest of a struct (Kmsg.v), and the
    functions that give them are parameters. *)
From Stdlib Require Import ZArith Lia Ascii.
From stdpp Require Import base list strings pretty tactics numbers.
From S2P Require Import Prelude GoStrings Kmsg.
Local Open Scope string_scope.

(** * strings.TrimSpace

    The UTF-8 encodings of the characters of [unicode.IsSpace].  A rune is
    decoded forwards at the start of the string and backwards at its end; either
    decodes to a space exactly when one of these encodings is there. *)
Definition chars (l : list nat) : string := fold_right (fun n s => String (ascii_of_nat n) s) "" l.
Definition spaces : list string :=
  map chars ([[9]; [10]; [11]; [12]; [13]; [32]; [194; 133]; [194; 160]; [225; 154; 128]] ++
             map (fun n => [226; 128; n])
               [128; 129; 130; 131; 132; 133; 134; 135; 136; 137; 138; 168; 169; 175] ++
             [[226; 129; 159]; [227; 128; 128]])%list.

Fixpoint srev (s : string) : string :=
  match s with
  | EmptyString => EmptyString
  | String a s => srev s +:+ String a EmptyString
  end.
(** Drop the words of [ws] at the start of [s]; every one is non-empty. *)
Fixpoint trimLeft (fuel : nat) (ws : list string) (s : string) : string :=
  match fuel with
  | O => s
  | S fuel =>
      match list_find (fun w => HasPrefix s w = true) ws with
      | Some (_, w) => trimLeft fuel ws (sdrop (String.length w) s)
      | None => s
      end
  end.
Definition TrimSpace (s : string) : string :=
  let s := trimLeft (String.length s) spaces s in
  srev (trimLeft (String.length s) (map srev spaces) (srev s)).

(** [%x] of a byte array *)
Definition hexDigit (n : nat) : ascii := ascii_of_nat (if (n <? 10)%nat then 48 + n else 87 + n).
Definition hexByte (b : byte) : string :=
  let n := nat_of_ascii (ascii_of_byte b) in
  String (hexDigit (n / 16)) (String (hexDigit (n mod 16)) "").
Definition hex (l : list byte) : string := foldr (fun b s => hexByte b +:+ s) "" l.

(** * debug.go *)
Section Debug.
Context {X : Type}.
(** The error code of a struct, the id of a topic, and the partition and the error
    code of each partition of a topic. *)
Context (ErrorCode : X -> Z) (TopicID : X -> list byte) (Partitions : X -> list (Z * Z)).

Definition derefStr (s : option string) : string :=
  match s with None => "<nil>" | Some s => s end.

(** A [strings.Builder] is the string written so far. *)
Definition writePartitions (item : string -> string) (t : TopicEntry X) (b : string) : string :=
  foldl (fun b '(partition, code) =>
           b +:+ item (Topic t +:+ "/" +:+ Itoa partition +:+ "=err" +:+ Itoa code))
        b (Partitions (topic_rest t)).

Definition dbgOffsetFetchReq (req : OffsetFetchRequest.t X) : string :=
  let b := foldl (fun b t => b +:+ (Topic t +:+ " ")) "" (default [] (OffsetFetchRequest.Topics req)) in
  let b := foldl (fun b g =>
      let b := b +:+ ("{group=" +:+ OffsetFetchRequestGroup.Group g +:+ ":") in
      let b := foldl (fun b t => b +:+ (" " +:+ Topic t)) b
                 (default [] (OffsetFetchRequestGroup.Topics g)) in
      b +:+ "}") b (OffsetFetchRequest.Groups req) in
  TrimSpace b.

Definition dbgOffsetFetchResp (resp : OffsetFetchResponse.t X) : string :=
  let b := "topErr=" +:+ Itoa (ErrorCode (OffsetFetchResponse.rest resp)) in
  let b := foldl (fun b t => writePartitions (fun i => " " +:+ i) t b) b
             (OffsetFetchResponse.Topics resp) in
  foldl (fun b g =>
      let b := b +:+ (" {group=" +:+ OffsetFetchResponseGroup.Group g +:+ " gErr=" +:+
                      Itoa (ErrorCode (OffsetFetchResponseGroup.rest g)) +:+ ":") in
      let b := foldl (fun b t => writePartitions (fun i => " " +:+ i) t b) b
                 (OffsetFetchResponseGroup.Topics g) in
      b +:+ "}") b (OffsetFetchResponse.Groups resp).

Definition dbgMetadataReq (req : MetadataRequest.t X) : string :=
  match MetadataRequest.Topics req with
  | None => "<all>"
  | Some ts => TrimSpace (foldl (fun b t => b +:+ (derefStr (TopicP t) +:+ " ")) "" ts)
  end.
Definition dbgMetadataResp (resp : MetadataResponse.t X) : string :=
  TrimSpace (foldl (fun b t =>
      b +:+ (derefStr (MetadataResponseTopic.Topic t) +:+ "=err" +:+
             Itoa (ErrorCode (MetadataResponseTopic.rest t)) +:+ " ")) "" (MetadataResponse.Topics resp)).
Definition dbgFetchReq (req : FetchRequest.t X) : string :=
  TrimSpace (foldl (fun b t => b +:+ (Topic t +:+ "/id=" +:+ hex (TopicID (topic_rest t)) +:+ " ")) ""
               (FetchRequest.Topics req)).
Definition dbgFetchResp (resp : FetchResponse.t X) : string :=
  TrimSpace (foldl (fun b t => writePartitions (fun i => i +:+ " ") t b) "" (FetchResponse.Topics resp)).
Definition dbgListOffsetsReq (req : ListOffsetsRequest.t X) : string :=
  TrimSpace (foldl (fun b t => b +:+ (Topic t +:+ " ")) "" (ListOffsetsRequest.Topics req)).
Definition dbgListOffsetsResp (resp : ListOffsetsResponse.t X) : string :=
  TrimSpace (foldl (fun b t => writePartitions (fun i => i +:+ " ") t b) ""
               (ListOffsetsResponse.Topics resp)).
End Debug.


(** * The text of the summaries *)

(** Printable ASCII, which the legal names of Kafka are made of. *)
Definition graphic (a : ascii) : bool :=
  (33 <=? nat_of_ascii a)%nat && (nat_of_ascii a <=? 126)%nat.
Fixpoint sall (P : ascii -> bool) (s : string) : bool :=
  match s with
  | EmptyString => true
  | String a s => P a && sall P s
  end.
Definition printable (s : string) : Prop := s <> "" /\ sall graphic s = true.

(** The string starts and ends with a graphic character. *)
Definition tight (s : string) : Prop :=
  exists a t b u, s = String a t /\ srev s = String b u /\ graphic a = true /\ graphic b = true.

Lemma srev_app s t : srev (s +:+ t) = srev t +:+ srev s.
Proof.
  induction s as [|a s IH]; [by rewrite sapp_nil_r|]. rewrite sapp_cons. simpl. by rewrite IH, sapp_assoc.
Qed.
Lemma srev_srev s : srev (srev s) = s.
Proof. induction s as [|a s IH]; [done|]. simpl. by rewrite srev_app, IH. Qed.
Lemma sall_app P s t : sall P (s +:+ t) = sall P s && sall P t.
Proof. induction s as [|a s IH]; [done|]. rewrite sapp_cons. simpl. by rewrite IH, andb_assoc. Qed.
Lemma sall_srev P s : sall P (srev s) = sall P s.
Proof. induction s as [|a s IH]; [done|]. simpl. rewrite sall_app, IH. simpl. rewrite andb_true_r. apply andb_comm. Qed.

Lemma printable_tight s : printable s -> tight s.
Proof.
  intros [Hne Hs]. destruct s as [|a t]; [done|]. pose proof (sall_srev graphic (String a t)) as Hr.
  destruct (srev (String a t)) as [|b u] eqn:E.
  { apply (f_equal srev) in E. by rewrite srev_srev in E. }
  rewrite Hs in Hr. simpl in Hs, Hr. apply andb_prop in Hs as [? _]. apply andb_prop in Hr as [? _].
  by exists a, t, b, u.
Qed.
Lemma tight_around s m t : tight s -> tight t -> tight (s +:+ m +:+ t).
Proof.
  intros (a & s' & _ & _ & -> & _ & Ha & _) (_ & _ & b & u & _ & Hr & _ & Hb).
  exists a, (s' +:+ m +:+ t), b, (u +:+ srev m +:+ srev (String a s')). split_and!; [done| |done|done].
  rewrite !srev_app, Hr. by rewrite sapp_assoc.
Qed.
Lemma printable_app s t : printable s -> sall graphic t = true -> printable (s +:+ t).
Proof.
  intros [Hne Hs] Ht. split; [|by rewrite sall_app, Hs]. by intros [? _]%sapp_nil_inv.
Qed.

(** No word for a space starts or ends with a graphic character. *)
Lemma trimLeft_graphic ws fuel a t :
  Forall (fun w => exists b w', w = String b w' /\ graphic b = false) ws -> graphic a = true ->
  trimLeft fuel ws (String a t) = String a t.
Proof.
  intros Hws Ha. destruct fuel as [|fuel]; [done|]. cbn [trimLeft].
  replace (list_find _ ws) with (@None (nat * string)); [done|]. symmetry. apply list_find_None.
  revert Hws. apply Forall_impl. intros w (b & w' & -> & Hb) H. cbn [HasPrefix] in H.
  apply andb_prop in H as [->%Ascii.eqb_eq _]. congruence.
Qed.
Lemma spaces_start : Forall (fun w => exists b w', w = String b w' /\ graphic b = false) spaces.
Proof. repeat (constructor; [by eexists _, _|]). constructor. Qed.
Lemma spaces_end : Forall (fun w => exists b w', w = String b w' /\ graphic b = false) (map srev spaces).
Proof. repeat (constructor; [by eexists _, _|]). constructor. Qed.

Lemma trimLeft_blank fuel s :
  trimLeft (S fuel) (map srev spaces) (String " " s) = trimLeft fuel (map srev spaces) s.
Proof.
  cbn [trimLeft].
  assert (list_find (fun w => HasPrefix (String " " s) w = true) (map srev spaces) = Some (5%nat, " "))
    as -> by (by destruct s; vm_compute). done.
Qed.
Lemma TrimSpace_tight s : tight s -> TrimSpace s = s /\ TrimSpace (s +:+ " ") = s.
Proof.
  intros (a & t & b & u & -> & Hr & Ha & Hb). unfold TrimSpace. cbv zeta.
  rewrite sapp_cons, !(trimLeft_graphic spaces) by (done || apply spaces_start). split.
  - rewrite Hr, trimLeft_graphic by (done || apply spaces_end). by rewrite <-Hr, srev_srev.
  - rewrite <-sapp_cons, slength_app, srev_app, Hr. rewrite Nat.add_comm. change (String.length " ") with 1%nat. cbn [Nat.add].
    change (srev " " +:+ String b u) with (String " " (String b u)).
    rewrite trimLeft_blank.
    rewrite trimLeft_graphic by (done || apply spaces_end). by rewrite <-Hr, srev_srev.
Qed.

(** ** Lists of items *)
Definition sconcat (l : list string) : string := foldr (fun x s => x +:+ s) "" l.
Lemma sconcat_cons x l : sconcat (x :: l) = x +:+ sconcat l.
Proof. done. Qed.
Lemma sconcat_app l k : sconcat (l ++ k)%list = sconcat l +:+ sconcat k.
Proof. induction l as [|x l IH]; [done|]. simpl. by rewrite IH, sapp_assoc. Qed.
Lemma foldl_write {A} (f : A -> string) b l : foldl (fun b x => b +:+ f x) b l = b +:+ sconcat (map f l).
Proof.
  revert b. induction l as [|x l IH]; intros b; simpl; [by rewrite sapp_nil_r|]. by rewrite IH, sapp_assoc.
Qed.

Lemma join_cons x y l : String.concat " " (x :: y :: l) = x +:+ " " +:+ String.concat " " (y :: l).
Proof. done. Qed.
Lemma join_snoc x l : sconcat (map (fun i => i +:+ " ") (x :: l)) = String.concat " " (x :: l) +:+ " ".
Proof.
  revert x. induction l as [|y l IH]; intros x; [by simpl; rewrite sapp_nil_r|].
  rewrite join_cons, map_cons, sconcat_cons, IH. by rewrite !sapp_assoc.
Qed.
Lemma join_lead b l : b +:+ sconcat (map (fun i => " " +:+ i) l) = String.concat " " (b :: l).
Proof.
  revert b. induction l as [|x l IH]; intros b; [by simpl; rewrite sapp_nil_r|].
  rewrite join_cons, <-IH, map_cons, sconcat_cons. by rewrite <-!sapp_assoc.
Qed.
Lemma join_tight x l : Forall tight (x :: l) -> tight (String.concat " " (x :: l)).
Proof.
  revert x. induction l as [|y l IH]; intros x [Hx Hl]%Forall_cons_1; [done|].
  rewrite join_cons. apply tight_around; [done|by apply IH].
Qed.

(** The trimmed list of items, each followed by a blank. *)
Lemma TrimSpace_join l :
  Forall tight l -> TrimSpace (sconcat (map (fun i => i +:+ " ") l)) = String.concat " " l.
Proof.
  destruct l as [|x l]; [by vm_compute|]. intros Hl. rewrite join_snoc. by apply TrimSpace_tight, join_tight.
Qed.

Lemma join_last l y : sconcat (map (fun i => i +:+ " ") l) +:+ y = String.concat " " (l ++ [y])%list.
Proof.
  induction l as [|x l IH]; [done|]. rewrite map_cons, sconcat_cons, sapp_assoc, IH, sapp_assoc.
  by destruct l.
Qed.
Lemma sconcat_tight x l : Forall tight (x :: l) -> tight (sconcat (x :: l)).
Proof.
  revert x. induction l as [|y l IH]; intros x [Hx Hl]%Forall_cons_1; rewrite sconcat_cons.
  - simpl. by rewrite sapp_nil_r.
  - apply (tight_around x "" (sconcat (y :: l))); auto.
Qed.

(** ** Numbers *)
Lemma pretty_N_graphic x s : sall graphic s = true -> sall graphic (pretty_N_go x s) = true.
Proof.
  revert s. induction (N.lt_wf_0 x) as [x _ IH]. intros s Hs. destruct (decide (0 < x)%N) as [Hx|Hx].
  - rewrite pretty_N_go_step by done. apply IH; [by apply N.div_lt|]. simpl. rewrite Hs, andb_true_r.
    unfold pretty_N_char. by repeat case_match.
  - replace x with 0%N by lia. by rewrite pretty_N_go_0.
Qed.
Lemma Itoa_graphic z : sall graphic (Itoa z) = true.
Proof.
  unfold Itoa, pretty, pretty_Z. assert (forall n : N, sall graphic (pretty n) = true) as HN.
  { intros n. unfold pretty, pretty_N. case_decide; [done|]. by apply pretty_N_graphic. }
  destruct z as [|p|p]; [done|apply (HN (Npos p))|apply (HN (Npos p))].
Qed.
Lemma hex_graphic l : sall graphic (hex l) = true.
Proof.
  induction l as [|b l IH]; [done|]. cbn [hex foldr]. rewrite sall_app. fold (hex l). rewrite IH, andb_true_r.
  by destruct b.
Qed.

(** * The summaries against their text *)
Section Text.
Context {X : Type}.
Context (ErrorCode : X -> Z) (TopicID : X -> list byte) (Partitions : X -> list (Z * Z)).
Abbreviation join := (String.concat " ").

(** One item per partition. *)
Definition part_items (ts : list (TopicEntry X)) : list string :=
  ts ≫= (fun t => map (fun '(partition, code) =>
                         Topic t +:+ "/" +:+ Itoa partition +:+ "=err" +:+ Itoa code)
                      (Partitions (topic_rest t))).
Definition group_text (head : string) (items : list string) : string :=
  "{group=" +:+ head +:+ ":" +:+ sconcat (map (fun i => " " +:+ i) items) +:+ "}".
Definition named (ts : list (TopicEntry X)) : Prop := Forall (fun t => printable (Topic t)) ts.

Lemma foldl_parts item b ts :
  foldl (fun b t => writePartitions Partitions item t b) b ts = b +:+ sconcat (map item (part_items ts)).
Proof.
  revert b. induction ts as [|t ts IH]; intros b; [by simpl; rewrite sapp_nil_r|].
  cbn [foldl part_items mbind list_bind]. rewrite IH. unfold writePartitions.
  fold (part_items ts). rewrite map_app, sconcat_app, map_map, <-sapp_assoc. f_equal.
  revert b. induction (Partitions (topic_rest t)) as [|[q c] ps IHp]; intros b; simpl; [by rewrite sapp_nil_r|].
  by rewrite IHp, sapp_assoc.
Qed.
Lemma part_items_tight ts : named ts -> Forall tight (part_items ts).
Proof.
  intros H. apply Forall_bind. revert H. apply Forall_impl. intros t Ht. apply Forall_map.
  apply list.Forall_forall. intros [q c] _. apply printable_tight, printable_app; [done|].
  rewrite !sall_app, !Itoa_graphic. done.
Qed.
Lemma named_tight ts : named ts -> Forall tight (map Topic ts).
Proof. intros H. apply Forall_map. revert H. apply Forall_impl. intros t. apply printable_tight. Qed.
Lemma derefStr_printable o : from_option printable True o -> printable (derefStr o).
Proof. destruct o; [done|]. intros _. by split. Qed.

Lemma group_text_tight head items : tight (group_text head items).
Proof.
  replace (group_text head items) with
    ("{group=" +:+ (head +:+ ":" +:+ sconcat (map (fun i => " " +:+ i) items)) +:+ "}")
    by (unfold group_text; by rewrite !sapp_assoc).
  apply tight_around; apply printable_tight; by split.
Qed.

Lemma trimmed_items {A} (f g : A -> string) l :
  (forall x, g x = f x +:+ " ") -> Forall (fun x => tight (f x)) l ->
  TrimSpace (foldl (fun b x => b +:+ g x) "" l) = join (map f l).
Proof.
  intros Hg H. rewrite (foldl_write g), (map_ext g (fun x => f x +:+ " ") Hg), <-(map_map f (fun i => i +:+ " ")).
  apply TrimSpace_join. by apply Forall_map.
Qed.
Lemma trimmed_parts ts :
  named ts -> TrimSpace (foldl (fun b t => writePartitions Partitions (fun i => i +:+ " ") t b) "" ts)
              = join (part_items ts).
Proof. intros H. rewrite foldl_parts. by apply TrimSpace_join, part_items_tight. Qed.

Lemma groups_tight {G} (head : G -> string) (items : G -> list string) gs :
  Forall tight (map (fun g => group_text (head g) (items g)) gs).
Proof. induction gs as [|g gs IH]; constructor; [apply group_text_tight|done]. Qed.

(** The loop over the groups of an OffsetFetch request and of a response. *)
Lemma req_groups b (gs : list (OffsetFetchRequestGroup.t X)) :
  foldl (fun b g =>
      let b := b +:+ ("{group=" +:+ OffsetFetchRequestGroup.Group g +:+ ":") in
      let b := foldl (fun b t => b +:+ (" " +:+ Topic t)) b
                 (default [] (OffsetFetchRequestGroup.Topics g)) in
      b +:+ "}") b gs
  = b +:+ sconcat (map (fun g => group_text (OffsetFetchRequestGroup.Group g)
                          (map Topic (default [] (OffsetFetchRequestGroup.Topics g)))) gs).
Proof.
  revert b. induction gs as [|g gs IH]; intros b; [by simpl; rewrite sapp_nil_r|].
  cbn [foldl]. rewrite IH, map_cons, sconcat_cons. unfold group_text.
  rewrite (foldl_write (fun t => " " +:+ Topic t)), map_map. by rewrite !sapp_assoc.
Qed.
Lemma resp_groups b (gs : list (OffsetFetchResponseGroup.t X)) :
  foldl (fun b g =>
      let b := b +:+ (" {group=" +:+ OffsetFetchResponseGroup.Group g +:+ " gErr=" +:+
                      Itoa (ErrorCode (OffsetFetchResponseGroup.rest g)) +:+ ":") in
      let b := foldl (fun b t => writePartitions Partitions (fun i => " " +:+ i) t b) b
                 (OffsetFetchResponseGroup.Topics g) in
      b +:+ "}") b gs
  = b +:+ sconcat (map (fun i => " " +:+ i) (map (fun g => group_text
        (OffsetFetchResponseGroup.Group g +:+ " gErr=" +:+ Itoa (ErrorCode (OffsetFetchResponseGroup.rest g)))
        (part_items (OffsetFetchResponseGroup.Topics g))) gs)).
Proof.
  revert b. induction gs as [|g gs IH]; intros b; [by simpl; rewrite sapp_nil_r|].
  cbn [foldl]. rewrite IH, !map_cons, sconcat_cons, foldl_parts. unfold group_text.
  change " {group=" with (" " +:+ "{group="). by rewrite !sapp_assoc.
Qed.

(** Each summary is its list of items separated by single blanks. *)
Lemma dbgOffsetFetchReq_text req :
  named (default [] (OffsetFetchRequest.Topics req)) ->
  dbgOffsetFetchReq req = join (map Topic (default [] (OffsetFetchRequest.Topics req)) ++
    match OffsetFetchRequest.Groups req with
    | [] => []
    | gs => [sconcat (map (fun g => group_text (OffsetFetchRequestGroup.Group g)
               (map Topic (default [] (OffsetFetchRequestGroup.Topics g)))) gs)]
    end)%list.
Proof.
  intros Hn. unfold dbgOffsetFetchReq. cbv zeta. rewrite req_groups.
  rewrite (foldl_write (fun t => Topic t +:+ " ")), <-(map_map Topic (fun i => i +:+ " ")).
  apply named_tight in Hn. set (ts := map Topic _) in *. change ("" +:+ ?x) with x.
  destruct (OffsetFetchRequest.Groups req) as [|g gs].
  { simpl. rewrite sapp_nil_r, app_nil_r. by apply TrimSpace_join. }
  rewrite join_last. apply TrimSpace_tight. set (gt := sconcat _).
  assert (Forall tight (ts ++ [gt])%list) as Ht.
  { apply Forall_app. split; [done|]. constructor; [|constructor]. apply sconcat_tight.
    exact (groups_tight _ (fun g => map Topic (default [] (OffsetFetchRequestGroup.Topics g))) (g :: gs)). }
  destruct ts; [by apply Forall_cons_1 in Ht as [? _]|by apply join_tight].
Qed.
Lemma dbgOffsetFetchResp_text resp :
  dbgOffsetFetchResp ErrorCode Partitions resp =
  join (("topErr=" +:+ Itoa (ErrorCode (OffsetFetchResponse.rest resp))) ::
        part_items (OffsetFetchResponse.Topics resp) ++
        map (fun g => group_text
               (OffsetFetchResponseGroup.Group g +:+ " gErr=" +:+ Itoa (ErrorCode (OffsetFetchResponseGroup.rest g)))
               (part_items (OffsetFetchResponseGroup.Topics g))) (OffsetFetchResponse.Groups resp))%list.
Proof.
  unfold dbgOffsetFetchResp. cbv zeta. rewrite resp_groups, foldl_parts, <-join_lead, map_app, sconcat_app.
  by rewrite sapp_assoc.
Qed.

(** C38: the debug log tells what was sent and received: each summary of debug.go,
    built with a trailing blank per item and trimmed, is the list of its items (a
    topic name, a nil name as "<nil>", with the id or the partition and error code
    where there is one) separated by single blanks, for all messages whose topic
    names are printable, as legal Kafka names are (of an OffsetFetch response no name
    is asked to be).  Only the groups of an OffsetFetch request follow each other
    without a blank, as one item. *)
Theorem debug_summaries :
  (forall req, match MetadataRequest.Topics req with
     | None => dbgMetadataReq (X:=X) req = "<all>"
     | Some ts => Forall (fun t => from_option printable True (TopicP t)) ts ->
         dbgMetadataReq req = join (map (fun t => derefStr (TopicP t)) ts)
     end) /\
  (forall resp, Forall (fun t => from_option printable True (MetadataResponseTopic.Topic t))
                  (MetadataResponse.Topics resp) ->
     dbgMetadataResp ErrorCode resp =
     join (map (fun t => derefStr (MetadataResponseTopic.Topic t) +:+ "=err" +:+
                         Itoa (ErrorCode (MetadataResponseTopic.rest t))) (MetadataResponse.Topics resp))) /\
  (forall req, named (FetchRequest.Topics req) ->
     dbgFetchReq TopicID req =
     join (map (fun t => Topic t +:+ "/id=" +:+ hex (TopicID (topic_rest t))) (FetchRequest.Topics req))) /\
  (forall resp, named (FetchResponse.Topics resp) ->
     dbgFetchResp Partitions resp = join (part_items (FetchResponse.Topics resp))) /\
  (forall req, named (ListOffsetsRequest.Topics req) ->
     dbgListOffsetsReq req = join (map Topic (ListOffsetsRequest.Topics req))) /\
  (forall resp, named (ListOffsetsResponse.Topics resp) ->
     dbgListOffsetsResp Partitions resp = join (part_items (ListOffsetsResponse.Topics resp))) /\
  (forall req, named (default [] (OffsetFetchRequest.Topics req)) ->
     dbgOffsetFetchReq req = join (map Topic (default [] (OffsetFetchRequest.Topics req)) ++
       match OffsetFetchRequest.Groups req with
       | [] => []
       | gs => [sconcat (map (fun g => group_text (OffsetFetchRequestGroup.Group g)
                  (map Topic (default [] (OffsetFetchRequestGroup.Topics g)))) gs)]
       end)%list) /\
  (forall resp, dbgOffsetFetchResp ErrorCode Partitions resp =
     join (("topErr=" +:+ Itoa (ErrorCode (OffsetFetchResponse.rest resp))) ::
           part_items (OffsetFetchResponse.Topics resp) ++
           map (fun g => group_text
                  (OffsetFetchResponseGroup.Group g +:+ " gErr=" +:+
                   Itoa (ErrorCode (OffsetFetchResponseGroup.rest g)))
                  (part_items (OffsetFetchResponseGroup.Topics g))) (OffsetFetchResponse.Groups resp))%list).
Proof.
  split_and!; auto using dbgOffsetFetchReq_text, dbgOffsetFetchResp_text.
  - intros [[ts|] r]; [|done]. simpl. intros H. unfold dbgMetadataReq. simpl.
    apply (trimmed_items (fun t => derefStr (TopicP t))); [done|]. revert H. apply Forall_impl. intros t Ht. by apply printable_tight, derefStr_printable.
  - intros resp H. unfold dbgMetadataResp.
    apply (trimmed_items (fun t => derefStr (MetadataResponseTopic.Topic t) +:+ "=err" +:+
             Itoa (ErrorCode (MetadataResponseTopic.rest t)))); [intros t; by rewrite !sapp_assoc|]. revert H. apply Forall_impl. intros t Ht. apply printable_tight, printable_app; [by apply derefStr_printable|].
    by rewrite sall_app, Itoa_graphic.
  - intros req H. unfold dbgFetchReq.
    apply (trimmed_items (fun t => Topic t +:+ "/id=" +:+ hex (TopicID (topic_rest t))));
      [intros t; by rewrite !sapp_assoc|]. revert H. apply Forall_impl. intros t Ht. apply printable_tight, printable_app; [done|].
    by rewrite sall_app, hex_graphic.
  - intros resp. apply trimmed_parts.
  - intros req H. apply (trimmed_items Topic); [done|]. revert H. apply Forall_impl. intros t. apply printable_tight.
  - intros resp. apply trimmed_parts.
Qed.
End Text.
Example trim_demo : TrimSpace (chars [9; 32; 97; 32; 98; 226; 128; 131; 10]) = "a b".
Proof. vm_compute. reflexivity. Qed.

(** A Metadata request for two topics and a topic id, and the summary of a response. *)
Lemma debug_summaries_witness :
  dbgMetadataReq (X:=unit) (MetadataRequest.Mk (Some [MkTopicPtr (Some "t1-orders") tt; MkTopicPtr None tt]) tt)
    = "t1-orders <nil>" /\
  dbgListOffsetsResp (X:=list (Z * Z)) id
    (ListOffsetsResponse.Mk [MkTopic "t1-orders" [(0, 0); (1, -1)]%Z] []) = "t1-orders/0=err0 t1-orders/1=err-1".
Proof.
  destruct (debug_summaries (X:=unit) (fun _ => 0%Z) (fun _ => []) (fun _ => [])) as [H1 _].
  destruct (debug_summaries (X:=list (Z * Z)) (fun _ => 0%Z) (fun _ => []) id) as (_ & _ & _ & _ & _ & H2 & _).
  split.
  - exact (H1 (MetadataRequest.Mk (Some [MkTopicPtr (Some "t1-orders") tt; MkTopicPtr None tt]) tt)
      ltac:(repeat constructor; done)).
  - exact (H2 (ListOffsetsResponse.Mk [MkTopic "t1-orders" [(0, 0); (1, -1)]%Z] [])
      ltac:(repeat constructor; done)).
Defined.
