(* ===== verification/RewriteMsg.v ===== *)
(** Package [rewrite], files produce_fetch.go, metadata.go, topics_admin.go and
    groups.go: the per-API rewrites.  A function that updates the struct it is
    given is a function from the struct to its final value; a loop
    [for i := range xs { xs[i] = f(xs[i]) }] is [map f xs], and the filtering
    loops, which compact the slice in place while ranging over it, are written
    with the shared backing array ([compact]). *)
From Stdlib Require Import ZArith Lia.
From stdpp Require Import base list strings tactics.
From S2P Require Import Prelude GoStrings Rewrite Kmsg.

(** * The in-place filter idiom

    [out := xs[:0]; for _, t := range xs { ...continue...; out = append(out, t) }]:
    [out] shares the array of [xs], so each append overwrites slot [w] of the
    array the loop is still reading at [i]. *)
Fixpoint compact_loop {A} (f : A -> option A) (fuel i w : nat) (arr : list A) : list A :=
  match fuel with
  | O => take w arr
  | S fuel =>
      match arr !! i with
      | None => take w arr
      | Some t =>
          match f t with
          | None => compact_loop f fuel (S i) w arr
          | Some t' => compact_loop f fuel (S i) (S w) (<[w:=t']> arr)
          end
      end
  end.
Definition compact {A} (f : A -> option A) (xs : list A) : list A :=
  compact_loop f (length xs) 0 0 xs.

Section Messages.
Context {X : Type}.

Definition mapTopic (f : string -> string) (t : TopicEntry X) : TopicEntry X :=
  MkTopic (f (Topic t)) (topic_rest t).
Definition mapTopicPtr (f : option string -> option string) (t : TopicPtr X) : TopicPtr X :=
  MkTopicPtr (f (TopicP t)) (topicp_rest t).

(** * produce_fetch.go *)
Definition ProduceRequestIn (prefix : string) (req : ProduceRequest.t X) : ProduceRequest.t X :=
  ProduceRequest.Mk (ProduceRequest.TransactionID req) (ProduceRequest.Acks req)
    (map (mapTopic (PrefixIn prefix)) (ProduceRequest.Topics req)) (ProduceRequest.rest req).
Definition ProduceResponseOut (prefix : string) (resp : ProduceResponse.t X) : ProduceResponse.t X :=
  ProduceResponse.Mk (map (mapTopic (StripOut prefix)) (ProduceResponse.Topics resp))
    (ProduceResponse.rest resp).
Definition FetchRequestIn (prefix : string) (req : FetchRequest.t X) : FetchRequest.t X :=
  FetchRequest.Mk (map (mapTopic (PrefixIn prefix)) (FetchRequest.Topics req))
    (FetchRequest.ForgottenTopics req) (FetchRequest.rest req).
Definition FetchResponseOut (prefix : string) (resp : FetchResponse.t X) : FetchResponse.t X :=
  FetchResponse.Mk (map (mapTopic (StripOut prefix)) (FetchResponse.Topics resp))
    (FetchResponse.rest resp).
Definition ListOffsetsRequestIn (prefix : string) (req : ListOffsetsRequest.t X)
    : ListOffsetsRequest.t X :=
  ListOffsetsRequest.Mk (map (mapTopic (PrefixIn prefix)) (ListOffsetsRequest.Topics req))
    (ListOffsetsRequest.rest req).
Definition ListOffsetsResponseOut (prefix : string) (resp : ListOffsetsResponse.t X)
    : ListOffsetsResponse.t X :=
  ListOffsetsResponse.Mk (map (mapTopic (StripOut prefix)) (ListOffsetsResponse.Topics resp))
    (ListOffsetsResponse.rest resp).

(** * metadata.go *)
Definition MetadataRequestIn (prefix : string) (req : MetadataRequest.t X) : MetadataRequest.t X :=
  MetadataRequest.Mk
    (map (mapTopicPtr (PrefixInPtr prefix)) <$> MetadataRequest.Topics req)
    (MetadataRequest.rest req).

(** The body of the partition loop: every broker id becomes 0. *)
Definition zeroPartition (p : MetadataResponsePartition.t X) : MetadataResponsePartition.t X :=
  MetadataResponsePartition.Mk 0%Z
    (map (fun _ => 0%Z) (MetadataResponsePartition.Replicas p))
    (map (fun _ => 0%Z) (MetadataResponsePartition.ISR p))
    (map (fun _ => 0%Z) (MetadataResponsePartition.OfflineReplicas p))
    (MetadataResponsePartition.rest p).

(** The body of the topic loop, [None] for [continue]. *)
Definition metadataTopicOut (prefix : string) (t : MetadataResponseTopic.t X)
    : option (MetadataResponseTopic.t X) :=
  match MetadataResponseTopic.Topic t with
  | None => None
  | Some n =>
      if negb (BelongsToTenant prefix n) then None
      else Some (MetadataResponseTopic.Mk
                   (StripOutPtr prefix (MetadataResponseTopic.Topic t))
                   (map zeroPartition (MetadataResponseTopic.Partitions t))
                   (MetadataResponseTopic.rest t))
  end.

Definition MetadataResponseOut (prefix advertisedHost : string) (advertisedPort : Z)
    (resp : MetadataResponse.t X) : MetadataResponse.t X :=
  let rack := match MetadataResponse.Brokers resp with
              | [] => None
              | b :: _ => MetadataResponseBroker.Rack b
              end in
  MetadataResponse.Mk
    [MetadataResponseBroker.Mk 0%Z advertisedHost advertisedPort rack]
    0%Z
    (compact (metadataTopicOut prefix) (MetadataResponse.Topics resp))
    (MetadataResponse.rest resp).

(** * topics_admin.go *)
Definition configResourceTypeTopic : Z := 2.
Definition configResourceTypeGroup : Z := 32.

Definition CreateTopicsRequestIn (prefix : string) (req : CreateTopicsRequest.t X)
    : CreateTopicsRequest.t X :=
  CreateTopicsRequest.Mk (map (mapTopic (PrefixIn prefix)) (CreateTopicsRequest.Topics req))
    (CreateTopicsRequest.rest req).
Definition CreateTopicsResponseOut (prefix : string) (resp : CreateTopicsResponse.t X)
    : CreateTopicsResponse.t X :=
  CreateTopicsResponse.Mk (map (mapTopic (StripOut prefix)) (CreateTopicsResponse.Topics resp))
    (CreateTopicsResponse.rest resp).
Definition DeleteTopicsRequestIn (prefix : string) (req : DeleteTopicsRequest.t X)
    : DeleteTopicsRequest.t X :=
  DeleteTopicsRequest.Mk (map (PrefixIn prefix) (DeleteTopicsRequest.TopicNames req))
    (map (mapTopicPtr (PrefixInPtr prefix)) (DeleteTopicsRequest.Topics req))
    (DeleteTopicsRequest.rest req).
Definition DeleteTopicsResponseOut (prefix : string) (resp : DeleteTopicsResponse.t X)
    : DeleteTopicsResponse.t X :=
  DeleteTopicsResponse.Mk (map (mapTopicPtr (StripOutPtr prefix)) (DeleteTopicsResponse.Topics resp))
    (DeleteTopicsResponse.rest resp).

(** [case configResourceTypeTopic, configResourceTypeGroup] *)
Definition isScopedResource (r : ConfigResource.t X) : bool :=
  let t := int8 (ConfigResource.ResourceType r) in
  (t =? configResourceTypeTopic)%Z || (t =? configResourceTypeGroup)%Z.
Definition setResourceName (n : string) (r : ConfigResource.t X) : ConfigResource.t X :=
  ConfigResource.Mk (ConfigResource.ResourceType r) n (ConfigResource.rest r).
Definition DescribeConfigsRequestIn (prefix : string) (req : DescribeConfigsRequest.t X)
    : DescribeConfigsRequest.t X :=
  DescribeConfigsRequest.Mk
    (map (fun r => if isScopedResource r
                   then setResourceName (PrefixIn prefix (ConfigResource.ResourceName r)) r
                   else r) (DescribeConfigsRequest.Resources req))
    (DescribeConfigsRequest.rest req).
Definition configResourceOut (prefix : string) (r : ConfigResource.t X)
    : option (ConfigResource.t X) :=
  if isScopedResource r then
    if negb (BelongsToTenant prefix (ConfigResource.ResourceName r)) then None
    else Some (setResourceName (StripOut prefix (ConfigResource.ResourceName r)) r)
  else Some r.
Definition DescribeConfigsResponseOut (prefix : string) (resp : DescribeConfigsResponse.t X)
    : DescribeConfigsResponse.t X :=
  DescribeConfigsResponse.Mk (compact (configResourceOut prefix) (DescribeConfigsResponse.Resources resp))
    (DescribeConfigsResponse.rest resp).

(** * groups.go *)
Definition CoordinatorTypeGroup : Z := 0.
Definition CoordinatorTypeTransaction : Z := 1.

Definition FindCoordinatorRequestIn (prefix : string) (req : FindCoordinatorRequest.t X)
    : FindCoordinatorRequest.t X :=
  let ty := FindCoordinatorRequest.CoordinatorType req in
  if negb (ty =? CoordinatorTypeGroup)%Z && negb (ty =? CoordinatorTypeTransaction)%Z
  then req
  else FindCoordinatorRequest.Mk ty
         (PrefixIn prefix (FindCoordinatorRequest.CoordinatorKey req))
         (map (PrefixIn prefix) (FindCoordinatorRequest.CoordinatorKeys req))
         (FindCoordinatorRequest.rest req).
Definition coordinatorOut (prefix advertisedHost : string) (advertisedPort : Z)
    (c : Coordinator.t X) : Coordinator.t X :=
  Coordinator.Mk (StripOut prefix (Coordinator.Key c)) 0%Z advertisedHost advertisedPort
    (Coordinator.rest c).
Definition FindCoordinatorResponseOut (prefix advertisedHost : string) (advertisedPort : Z)
    (resp : FindCoordinatorResponse.t X) : FindCoordinatorResponse.t X :=
  FindCoordinatorResponse.Mk 0%Z advertisedHost advertisedPort
    (map (coordinatorOut prefix advertisedHost advertisedPort)
       (FindCoordinatorResponse.Coordinators resp))
    (FindCoordinatorResponse.rest resp).

Definition OffsetCommitRequestIn (prefix : string) (req : OffsetCommitRequest.t X)
    : OffsetCommitRequest.t X :=
  OffsetCommitRequest.Mk (PrefixIn prefix (OffsetCommitRequest.Group req))
    (map (mapTopic (PrefixIn prefix)) (OffsetCommitRequest.Topics req))
    (OffsetCommitRequest.rest req).
Definition OffsetCommitResponseOut (prefix : string) (resp : OffsetCommitResponse.t X)
    : OffsetCommitResponse.t X :=
  OffsetCommitResponse.Mk (map (mapTopic (StripOut prefix)) (OffsetCommitResponse.Topics resp))
    (OffsetCommitResponse.rest resp).

Definition offsetFetchGroupIn (prefix : string) (g : OffsetFetchRequestGroup.t X)
    : OffsetFetchRequestGroup.t X :=
  OffsetFetchRequestGroup.Mk (PrefixIn prefix (OffsetFetchRequestGroup.Group g))
    (map (mapTopic (PrefixIn prefix)) <$> OffsetFetchRequestGroup.Topics g)
    (OffsetFetchRequestGroup.rest g).
Definition OffsetFetchRequestIn (prefix : string) (req : OffsetFetchRequest.t X)
    : OffsetFetchRequest.t X :=
  OffsetFetchRequest.Mk (PrefixIn prefix (OffsetFetchRequest.Group req))
    (map (mapTopic (PrefixIn prefix)) <$> OffsetFetchRequest.Topics req)
    (map (offsetFetchGroupIn prefix) (OffsetFetchRequest.Groups req))
    (OffsetFetchRequest.rest req).
Definition offsetFetchGroupOut (prefix : string) (g : OffsetFetchResponseGroup.t X)
    : OffsetFetchResponseGroup.t X :=
  OffsetFetchResponseGroup.Mk (StripOut prefix (OffsetFetchResponseGroup.Group g))
    (map (mapTopic (StripOut prefix)) (OffsetFetchResponseGroup.Topics g))
    (OffsetFetchResponseGroup.rest g).
Definition OffsetFetchResponseOut (prefix : string) (resp : OffsetFetchResponse.t X)
    : OffsetFetchResponse.t X :=
  OffsetFetchResponse.Mk (map (mapTopic (StripOut prefix)) (OffsetFetchResponse.Topics resp))
    (map (offsetFetchGroupOut prefix) (OffsetFetchResponse.Groups resp))
    (OffsetFetchResponse.rest resp).

Definition OffsetDeleteRequestIn (prefix : string) (req : OffsetDeleteRequest.t X)
    : OffsetDeleteRequest.t X :=
  OffsetDeleteRequest.Mk (PrefixIn prefix (OffsetDeleteRequest.Group req))
    (map (mapTopic (PrefixIn prefix)) (OffsetDeleteRequest.Topics req))
    (OffsetDeleteRequest.rest req).
Definition OffsetDeleteResponseOut (prefix : string) (resp : OffsetDeleteResponse.t X)
    : OffsetDeleteResponse.t X :=
  OffsetDeleteResponse.Mk (map (mapTopic (StripOut prefix)) (OffsetDeleteResponse.Topics resp))
    (OffsetDeleteResponse.rest resp).

Definition consumerProtocolType : string := "consumer".

(** The subscription and assignment blobs are decoded and encoded by kmsg. *)
Context (subscription : Blob (ConsumerMemberMetadata.t X)).
Context (assignment : Blob (ConsumerMemberAssignment.t X)).

Definition rewriteConsumerSubscription (meta : list byte) (fn : string -> string) : list byte :=
  if decide (length meta = 0) then meta
  else match blob_ReadFrom subscription meta with
       | inl _ => meta
       | inr m => blob_AppendTo subscription
                    (ConsumerMemberMetadata.Mk
                       (map fn (ConsumerMemberMetadata.Topics m))
                       (map (mapTopic fn) (ConsumerMemberMetadata.OwnedPartitions m))
                       (ConsumerMemberMetadata.rest m)) []
       end.
Definition rewriteConsumerAssignment (asg : list byte) (fn : string -> string) : list byte :=
  if decide (length asg = 0) then asg
  else match blob_ReadFrom assignment asg with
       | inl _ => asg
       | inr a => blob_AppendTo assignment
                    (ConsumerMemberAssignment.Mk
                       (map (mapTopic fn) (ConsumerMemberAssignment.Topics a))
                       (ConsumerMemberAssignment.rest a)) []
       end.

(** [prefix == "" || (pt != nil && *pt != consumerProtocolType)] *)
Definition skipBlobs (prefix : string) (pt : option string) : bool :=
  (prefix =? "")%string ||
  match pt with
  | Some p => negb (p =? consumerProtocolType)%string
  | None => false
  end.

Definition JoinGroupRequestIn (prefix : string) (req : JoinGroupRequest.t X) : JoinGroupRequest.t X :=
  let group := PrefixIn prefix (JoinGroupRequest.Group req) in
  let pt := JoinGroupRequest.ProtocolType req in
  JoinGroupRequest.Mk group pt
    (if (prefix =? "")%string || negb (pt =? consumerProtocolType)%string
     then JoinGroupRequest.Protocols req
     else map (fun p => JoinGroupRequestProtocol.Mk
                 (rewriteConsumerSubscription (JoinGroupRequestProtocol.Metadata p) (PrefixIn prefix))
                 (JoinGroupRequestProtocol.rest p)) (JoinGroupRequest.Protocols req))
    (JoinGroupRequest.rest req).
Definition JoinGroupResponseOut (prefix : string) (resp : JoinGroupResponse.t X)
    : JoinGroupResponse.t X :=
  if skipBlobs prefix (JoinGroupResponse.ProtocolType resp) then resp
  else JoinGroupResponse.Mk (JoinGroupResponse.ProtocolType resp)
    (map (fun m => JoinGroupResponseMember.Mk
            (rewriteConsumerSubscription (JoinGroupResponseMember.ProtocolMetadata m)
               (StripOut prefix))
            (JoinGroupResponseMember.rest m)) (JoinGroupResponse.Members resp))
    (JoinGroupResponse.rest resp).
Definition SyncGroupRequestIn (prefix : string) (req : SyncGroupRequest.t X) : SyncGroupRequest.t X :=
  let group := PrefixIn prefix (SyncGroupRequest.Group req) in
  let pt := SyncGroupRequest.ProtocolType req in
  SyncGroupRequest.Mk group pt
    (if skipBlobs prefix pt then SyncGroupRequest.GroupAssignment req
     else map (fun a => SyncGroupRequestAssignment.Mk
                 (rewriteConsumerAssignment (SyncGroupRequestAssignment.MemberAssignment a)
                    (PrefixIn prefix))
                 (SyncGroupRequestAssignment.rest a)) (SyncGroupRequest.GroupAssignment req))
    (SyncGroupRequest.rest req).
Definition SyncGroupResponseOut (prefix : string) (resp : SyncGroupResponse.t X)
    : SyncGroupResponse.t X :=
  if skipBlobs prefix (SyncGroupResponse.ProtocolType resp) then resp
  else SyncGroupResponse.Mk (SyncGroupResponse.ProtocolType resp)
    (rewriteConsumerAssignment (SyncGroupResponse.MemberAssignment resp) (StripOut prefix))
    (SyncGroupResponse.rest resp).

Definition HeartbeatRequestIn (prefix : string) (req : HeartbeatRequest.t X) : HeartbeatRequest.t X :=
  HeartbeatRequest.Mk (PrefixIn prefix (HeartbeatRequest.Group req)) (HeartbeatRequest.rest req).
Definition LeaveGroupRequestIn (prefix : string) (req : LeaveGroupRequest.t X)
    : LeaveGroupRequest.t X :=
  LeaveGroupRequest.Mk (PrefixIn prefix (LeaveGroupRequest.Group req)) (LeaveGroupRequest.rest req).
Definition DescribeGroupsRequestIn (prefix : string) (req : DescribeGroupsRequest.t X)
    : DescribeGroupsRequest.t X :=
  DescribeGroupsRequest.Mk (map (PrefixIn prefix) (DescribeGroupsRequest.Groups req))
    (DescribeGroupsRequest.rest req).
Definition describedGroupOut (prefix : string) (g : DescribeGroupsGroup.t X)
    : DescribeGroupsGroup.t X :=
  let pt := DescribeGroupsGroup.ProtocolType g in
  let strip := StripOut prefix in
  DescribeGroupsGroup.Mk (strip (DescribeGroupsGroup.Group g)) pt
    (if (prefix =? "")%string ||
        (negb (pt =? "")%string && negb (pt =? consumerProtocolType)%string)
     then DescribeGroupsGroup.Members g
     else map (fun m => DescribeGroupsMember.Mk
                 (rewriteConsumerSubscription (DescribeGroupsMember.ProtocolMetadata m) strip)
                 (rewriteConsumerAssignment (DescribeGroupsMember.MemberAssignment m) strip)
                 (DescribeGroupsMember.rest m)) (DescribeGroupsGroup.Members g))
    (DescribeGroupsGroup.rest g).
Definition DescribeGroupsResponseOut (prefix : string) (resp : DescribeGroupsResponse.t X)
    : DescribeGroupsResponse.t X :=
  DescribeGroupsResponse.Mk (map (describedGroupOut prefix) (DescribeGroupsResponse.Groups resp))
    (DescribeGroupsResponse.rest resp).

Definition listedGroupOut (prefix : string) (g : GroupEntry.t X) : option (GroupEntry.t X) :=
  if negb (BelongsToTenant prefix (GroupEntry.Group g)) then None
  else Some (GroupEntry.Mk (StripOut prefix (GroupEntry.Group g)) (GroupEntry.rest g)).
Definition ListGroupsResponseOut (prefix : string) (resp : ListGroupsResponse.t X)
    : ListGroupsResponse.t X :=
  ListGroupsResponse.Mk (compact (listedGroupOut prefix) (ListGroupsResponse.Groups resp))
    (ListGroupsResponse.rest resp).
Definition DeleteGroupsRequestIn (prefix : string) (req : DeleteGroupsRequest.t X)
    : DeleteGroupsRequest.t X :=
  DeleteGroupsRequest.Mk (map (PrefixIn prefix) (DeleteGroupsRequest.Groups req))
    (DeleteGroupsRequest.rest req).
Definition DeleteGroupsResponseOut (prefix : string) (resp : DeleteGroupsResponse.t X)
    : DeleteGroupsResponse.t X :=
  DeleteGroupsResponse.Mk
    (map (fun g => GroupEntry.Mk (StripOut prefix (GroupEntry.Group g)) (GroupEntry.rest g))
       (DeleteGroupsResponse.Groups resp))
    (DeleteGroupsResponse.rest resp).

Definition InitProducerIDRequestIn (prefix : string) (req : InitProducerIDRequest.t X)
    : InitProducerIDRequest.t X :=
  InitProducerIDRequest.Mk (PrefixInPtr prefix (InitProducerIDRequest.TransactionalID req))
    (InitProducerIDRequest.rest req).
Definition mapTxn (f : string -> string) (tx : TxnEntry.t X) : TxnEntry.t X :=
  TxnEntry.Mk (f (TxnEntry.TransactionalID tx)) (map (mapTopic f) (TxnEntry.Topics tx))
    (TxnEntry.rest tx).
Definition AddPartitionsToTxnRequestIn (prefix : string) (req : AddPartitionsToTxnRequest.t X)
    : AddPartitionsToTxnRequest.t X :=
  AddPartitionsToTxnRequest.Mk
    (PrefixIn prefix (AddPartitionsToTxnRequest.TransactionalID req))
    (map (mapTopic (PrefixIn prefix)) (AddPartitionsToTxnRequest.Topics req))
    (map (mapTxn (PrefixIn prefix)) (AddPartitionsToTxnRequest.Transactions req))
    (AddPartitionsToTxnRequest.rest req).
Definition AddPartitionsToTxnResponseOut (prefix : string) (resp : AddPartitionsToTxnResponse.t X)
    : AddPartitionsToTxnResponse.t X :=
  AddPartitionsToTxnResponse.Mk
    (map (mapTopic (StripOut prefix)) (AddPartitionsToTxnResponse.Topics resp))
    (map (mapTxn (StripOut prefix)) (AddPartitionsToTxnResponse.Transactions resp))
    (AddPartitionsToTxnResponse.rest resp).
Definition AddOffsetsToTxnRequestIn (prefix : string) (req : AddOffsetsToTxnRequest.t X)
    : AddOffsetsToTxnRequest.t X :=
  AddOffsetsToTxnRequest.Mk (PrefixIn prefix (AddOffsetsToTxnRequest.TransactionalID req))
    (PrefixIn prefix (AddOffsetsToTxnRequest.Group req)) (AddOffsetsToTxnRequest.rest req).
Definition EndTxnRequestIn (prefix : string) (req : EndTxnRequest.t X) : EndTxnRequest.t X :=
  EndTxnRequest.Mk (PrefixIn prefix (EndTxnRequest.TransactionalID req)) (EndTxnRequest.rest req).
Definition TxnOffsetCommitRequestIn (prefix : string) (req : TxnOffsetCommitRequest.t X)
    : TxnOffsetCommitRequest.t X :=
  TxnOffsetCommitRequest.Mk (PrefixIn prefix (TxnOffsetCommitRequest.TransactionalID req))
    (PrefixIn prefix (TxnOffsetCommitRequest.Group req))
    (map (mapTopic (PrefixIn prefix)) (TxnOffsetCommitRequest.Topics req))
    (TxnOffsetCommitRequest.rest req).
Definition TxnOffsetCommitResponseOut (prefix : string) (resp : TxnOffsetCommitResponse.t X)
    : TxnOffsetCommitResponse.t X :=
  TxnOffsetCommitResponse.Mk (map (mapTopic (StripOut prefix)) (TxnOffsetCommitResponse.Topics resp))
    (TxnOffsetCommitResponse.rest resp).
End Messages.
