(* ===== verification/RewriteFacts.v ===== *)
(** Theorems about package [rewrite]: the requests as one sum type, the names a
    message carries, and what the rewrites do to them. *)
From Stdlib Require Import ZArith Lia.
From stdpp Require Import base list strings tactics.
From S2P Require Import Prelude GoStrings Rewrite Kmsg RewriteMsg.

(** * The in-place filter is a filter *)
Section Compact.
Context {A : Type} (f : A -> option A).

Lemma compact_loop_omap fuel i w arr l :
  w <= i -> length arr = length l -> i + fuel = length l ->
  take w arr = omap f (take i l) -> drop i arr = drop i l ->
  compact_loop f fuel i w arr = omap f l.
Proof.
  revert i w arr. induction fuel as [|fuel IH]; intros i w arr Hw Hlen Hf Htake Hdrop; simpl.
  - rewrite Htake, take_ge by lia. done.
  - assert (arr !! i = l !! i) as ->.
    { rewrite <-(Nat.add_0_r i), <-!lookup_drop. by rewrite Hdrop. }
    destruct (lookup_lt_is_Some_2 l i) as [t Ht]; [lia|]. rewrite Ht.
    assert (drop (S i) arr = drop (S i) l) as Hdrop'.
    { rewrite <-!(Nat.add_1_r i), <-!drop_drop. by rewrite Hdrop. }
    assert (omap f (take (S i) l) = omap f (take i l) ++ option_list (f t)) as Hom.
    { rewrite (take_S_r _ _ t) by done. rewrite omap_app. simpl. by destruct (f t). }
    destruct (f t) as [t'|] eqn:Ef; apply IH; rewrite ?length_insert; try lia.
    + rewrite Hom. simpl. rewrite <-Htake.
      rewrite (take_S_r _ _ t') by (apply list_lookup_insert_eq; lia).
      by rewrite take_insert_ge by lia.
    + by rewrite drop_insert_lt by lia.
    + by rewrite Hom, Htake, app_nil_r.
    + done.
Qed.

Lemma compact_omap xs : compact f xs = omap f xs.
Proof. unfold compact. by apply compact_loop_omap. Qed.
End Compact.

(** * Requests as one type *)
Section Requests.
Context {X : Type}.

(** The requests kroxy decodes, one constructor per rewrite handler. *)
Inductive KRequest : Type :=
| QMetadata (r : MetadataRequest.t X)
| QProduce (r : ProduceRequest.t X)
| QFetch (r : FetchRequest.t X)
| QListOffsets (r : ListOffsetsRequest.t X)
| QFindCoordinator (r : FindCoordinatorRequest.t X)
| QOffsetCommit (r : OffsetCommitRequest.t X)
| QOffsetFetch (r : OffsetFetchRequest.t X)
| QOffsetDelete (r : OffsetDeleteRequest.t X)
| QJoinGroup (r : JoinGroupRequest.t X)
| QSyncGroup (r : SyncGroupRequest.t X)
| QHeartbeat (r : HeartbeatRequest.t X)
| QLeaveGroup (r : LeaveGroupRequest.t X)
| QDescribeGroups (r : DescribeGroupsRequest.t X)
| QListGroups (r : Untouched.t X)
| QDeleteGroups (r : DeleteGroupsRequest.t X)
| QInitProducerID (r : InitProducerIDRequest.t X)
| QAddPartitionsToTxn (r : AddPartitionsToTxnRequest.t X)
| QAddOffsetsToTxn (r : AddOffsetsToTxnRequest.t X)
| QEndTxn (r : EndTxnRequest.t X)
| QTxnOffsetCommit (r : TxnOffsetCommitRequest.t X)
| QCreateTopics (r : CreateTopicsRequest.t X)
| QDeleteTopics (r : DeleteTopicsRequest.t X)
| QDescribeConfigs (r : DescribeConfigsRequest.t X).

Context (subscription : Blob (ConsumerMemberMetadata.t X)).
Context (assignment : Blob (ConsumerMemberAssignment.t X)).

(** The rewrite each handler applies to its request. *)
Definition RequestIn (p : string) (q : KRequest) : KRequest :=
  match q with
  | QMetadata r => QMetadata (MetadataRequestIn p r)
  | QProduce r => QProduce (ProduceRequestIn p r)
  | QFetch r => QFetch (FetchRequestIn p r)
  | QListOffsets r => QListOffsets (ListOffsetsRequestIn p r)
  | QFindCoordinator r => QFindCoordinator (FindCoordinatorRequestIn p r)
  | QOffsetCommit r => QOffsetCommit (OffsetCommitRequestIn p r)
  | QOffsetFetch r => QOffsetFetch (OffsetFetchRequestIn p r)
  | QOffsetDelete r => QOffsetDelete (OffsetDeleteRequestIn p r)
  | QJoinGroup r => QJoinGroup (JoinGroupRequestIn subscription p r)
  | QSyncGroup r => QSyncGroup (SyncGroupRequestIn assignment p r)
  | QHeartbeat r => QHeartbeat (HeartbeatRequestIn p r)
  | QLeaveGroup r => QLeaveGroup (LeaveGroupRequestIn p r)
  | QDescribeGroups r => QDescribeGroups (DescribeGroupsRequestIn p r)
  | QListGroups r => QListGroups r
  | QDeleteGroups r => QDeleteGroups (DeleteGroupsRequestIn p r)
  | QInitProducerID r => QInitProducerID (InitProducerIDRequestIn p r)
  | QAddPartitionsToTxn r => QAddPartitionsToTxn (AddPartitionsToTxnRequestIn p r)
  | QAddOffsetsToTxn r => QAddOffsetsToTxn (AddOffsetsToTxnRequestIn p r)
  | QEndTxn r => QEndTxn (EndTxnRequestIn p r)
  | QTxnOffsetCommit r => QTxnOffsetCommit (TxnOffsetCommitRequestIn p r)
  | QCreateTopics r => QCreateTopics (CreateTopicsRequestIn p r)
  | QDeleteTopics r => QDeleteTopics (DeleteTopicsRequestIn p r)
  | QDescribeConfigs r => QDescribeConfigs (DescribeConfigsRequestIn p r)
  end.

(** The topics named by a subscription or assignment, and by its blob; a blob
    that does not decode names nothing kroxy could see. *)
Definition sub_topics (m : ConsumerMemberMetadata.t X) : list string :=
  ConsumerMemberMetadata.Topics m ++ map Topic (ConsumerMemberMetadata.OwnedPartitions m).
Definition sub_rename (f : string -> string) (m : ConsumerMemberMetadata.t X) :=
  ConsumerMemberMetadata.Mk (map f (ConsumerMemberMetadata.Topics m))
    (map (mapTopic f) (ConsumerMemberMetadata.OwnedPartitions m)) (ConsumerMemberMetadata.rest m).
Definition asg_topics (a : ConsumerMemberAssignment.t X) : list string :=
  map Topic (ConsumerMemberAssignment.Topics a).
Definition asg_rename (f : string -> string) (a : ConsumerMemberAssignment.t X) :=
  ConsumerMemberAssignment.Mk (map (mapTopic f) (ConsumerMemberAssignment.Topics a))
    (ConsumerMemberAssignment.rest a).

Definition subscription_names (meta : list byte) : list string :=
  match blob_ReadFrom subscription meta with
  | inl _ => []
  | inr m => sub_topics m
  end.
Definition assignment_names (asg : list byte) : list string :=
  match blob_ReadFrom assignment asg with
  | inl _ => []
  | inr a => asg_topics a
  end.

(** The optional names of a nullable field. *)
Definition ptr_names (o : option string) : list string := option_list o.

(** The topics in the blobs of a group request of the consumer protocol; the blobs
    of other protocols are opaque to kroxy. *)
Definition blob_names (q : KRequest) : list string :=
  match q with
  | QJoinGroup r =>
      if (JoinGroupRequest.ProtocolType r =? consumerProtocolType)%string
      then concat (map (fun m => subscription_names (JoinGroupRequestProtocol.Metadata m))
                     (JoinGroupRequest.Protocols r))
      else []
  | QSyncGroup r =>
      if (default consumerProtocolType (SyncGroupRequest.ProtocolType r)
            =? consumerProtocolType)%string
      then concat (map (fun m => assignment_names (SyncGroupRequestAssignment.MemberAssignment m))
                     (SyncGroupRequest.GroupAssignment r))
      else []
  | _ => []
  end.

(** The topics, groups and transactional ids of a request in the fields whose names
    kroxy prefixes, in the order of the fields. *)
Definition names (q : KRequest) : list string :=
  match q with
  | QMetadata r => concat (map (fun t => ptr_names (TopicP t)) (default [] (MetadataRequest.Topics r)))
  | QProduce r => map Topic (ProduceRequest.Topics r)
  | QFetch r => map Topic (FetchRequest.Topics r)
  | QListOffsets r => map Topic (ListOffsetsRequest.Topics r)
  | QFindCoordinator r =>
      if (FindCoordinatorRequest.CoordinatorType r =? CoordinatorTypeGroup)%Z ||
         (FindCoordinatorRequest.CoordinatorType r =? CoordinatorTypeTransaction)%Z
      then FindCoordinatorRequest.CoordinatorKey r :: FindCoordinatorRequest.CoordinatorKeys r
      else []
  | QOffsetCommit r => OffsetCommitRequest.Group r :: map Topic (OffsetCommitRequest.Topics r)
  | QOffsetFetch r =>
      OffsetFetchRequest.Group r :: map Topic (default [] (OffsetFetchRequest.Topics r)) ++
      concat (map (fun g => OffsetFetchRequestGroup.Group g ::
                     map Topic (default [] (OffsetFetchRequestGroup.Topics g)))
                (OffsetFetchRequest.Groups r))
  | QOffsetDelete r => OffsetDeleteRequest.Group r :: map Topic (OffsetDeleteRequest.Topics r)
  | QJoinGroup r =>
      JoinGroupRequest.Group r :: blob_names q
  | QSyncGroup r => SyncGroupRequest.Group r :: blob_names q
  | QHeartbeat r => [HeartbeatRequest.Group r]
  | QLeaveGroup r => [LeaveGroupRequest.Group r]
  | QDescribeGroups r => DescribeGroupsRequest.Groups r
  | QListGroups r => []
  | QDeleteGroups r => DeleteGroupsRequest.Groups r
  | QInitProducerID r => ptr_names (InitProducerIDRequest.TransactionalID r)
  | QAddPartitionsToTxn r =>
      AddPartitionsToTxnRequest.TransactionalID r ::
      map Topic (AddPartitionsToTxnRequest.Topics r) ++
      concat (map (fun t => TxnEntry.TransactionalID t :: map Topic (TxnEntry.Topics t))
                (AddPartitionsToTxnRequest.Transactions r))
  | QAddOffsetsToTxn r => [AddOffsetsToTxnRequest.TransactionalID r; AddOffsetsToTxnRequest.Group r]
  | QEndTxn r => [EndTxnRequest.TransactionalID r]
  | QTxnOffsetCommit r =>
      TxnOffsetCommitRequest.TransactionalID r :: TxnOffsetCommitRequest.Group r ::
      map Topic (TxnOffsetCommitRequest.Topics r)
  | QCreateTopics r => map Topic (CreateTopicsRequest.Topics r)
  | QDeleteTopics r =>
      DeleteTopicsRequest.TopicNames r ++
      concat (map (fun t => ptr_names (TopicP t)) (DeleteTopicsRequest.Topics r))
  | QDescribeConfigs r =>
      map ConfigResource.ResourceName
        (filter isScopedResource (DescribeConfigsRequest.Resources r))
  end.

(** The names that reach the broker as the client sent them: the transactional id of
    a Produce request, the forgotten topics of a Fetch request, the keys of
    coordinators other than of groups and transactions, and the resources of
    DescribeConfigs other than topics and groups. *)
Definition bare (q : KRequest) : list string :=
  match q with
  | QProduce r => ptr_names (ProduceRequest.TransactionID r)
  | QFetch r => map Topic (FetchRequest.ForgottenTopics r)
  | QFindCoordinator r =>
      if (FindCoordinatorRequest.CoordinatorType r =? CoordinatorTypeGroup)%Z ||
         (FindCoordinatorRequest.CoordinatorType r =? CoordinatorTypeTransaction)%Z
      then []
      else FindCoordinatorRequest.CoordinatorKey r :: FindCoordinatorRequest.CoordinatorKeys r
  | QDescribeConfigs r =>
      map ConfigResource.ResourceName
        (filter (fun c => negb (isScopedResource c)) (DescribeConfigsRequest.Resources r))
  | _ => []
  end.

(** ** How the building blocks act on names *)
Lemma Topic_mapTopic f (ts : list (TopicEntry X)) :
  map Topic (map (mapTopic f) ts) = map f (map Topic ts).
Proof. rewrite !map_map. done. Qed.

Lemma concat_map_in {A B} (g : A -> list B) (h : A -> A) (f : B -> B) (P : B -> Prop) l :
  Forall P (concat (map g l)) -> (forall a, Forall P (g a) -> g (h a) = map f (g a)) ->
  concat (map g (map h l)) = map f (concat (map g l)).
Proof.
  intros HP E. induction l as [|a l IH]; [done|]. simpl in *.
  apply Forall_app in HP as [Ha Hl]. by rewrite map_app, E, IH.
Qed.
Lemma Forall_trivial {A} (l : list A) : Forall (fun _ => True) l.
Proof. by apply Forall_true. Qed.
Lemma concat_map_ext {A B} (g : A -> list B) (h : A -> A) (f : B -> B) l :
  (forall a, g (h a) = map f (g a)) ->
  concat (map g (map h l)) = map f (concat (map g l)).
Proof. intros E. apply (concat_map_in _ _ _ (fun _ => True)); auto using Forall_trivial. Qed.

Lemma ptr_names_map f o : ptr_names (f <$> o) = map f (ptr_names o).
Proof. by destruct o. Qed.

Lemma default_map {A B} (f : A -> B) (o : option (list A)) :
  default [] (map f <$> o) = map f (default [] o).
Proof. by destruct o. Qed.

Lemma isScopedResource_set n (r : ConfigResource.t X) :
  isScopedResource (setResourceName n r) = isScopedResource r.
Proof. done. Qed.

Lemma scoped_names f (rs : list (ConfigResource.t X)) :
  map ConfigResource.ResourceName (filter isScopedResource
    (map (fun r => if isScopedResource r
                   then setResourceName (f (ConfigResource.ResourceName r)) r else r) rs))
  = map f (map ConfigResource.ResourceName (filter isScopedResource rs)).
Proof.
  induction rs as [|r rs IH]; [done|]. simpl.
  destruct (isScopedResource r) eqn:E.
  - rewrite !filter_cons_True by (rewrite ?isScopedResource_set, E; done).
    simpl. by rewrite IH.
  - rewrite !filter_cons_False by (rewrite E; intros []). apply IH.
Qed.

Lemma sub_topics_rename f m : sub_topics (sub_rename f m) = map f (sub_topics m).
Proof. unfold sub_topics. simpl. by rewrite map_app, Topic_mapTopic. Qed.
Lemma asg_topics_rename f a : asg_topics (asg_rename f a) = map f (asg_topics a).
Proof. apply Topic_mapTopic. Qed.

Context `{!BlobLaws subscription sub_topics sub_rename}.
Context `{!BlobLaws assignment asg_topics asg_rename}.

Lemma subscription_names_rewrite f meta :
  Forall (fun n => fits (f n)) (subscription_names meta) ->
  subscription_names (rewriteConsumerSubscription subscription meta f)
  = map f (subscription_names meta).
Proof.
  unfold subscription_names, rewriteConsumerSubscription. case_decide as Hl.
  - apply nil_length_inv in Hl as ->. by destruct (blob_empty (b:=subscription)) as [e ->].
  - destruct (blob_ReadFrom subscription meta) as [e|m] eqn:E; [by rewrite E|]. intros Hf.
    fold (sub_rename f m). rewrite (blob_roundtrip _ f E Hf). apply sub_topics_rename.
Qed.
Lemma assignment_names_rewrite f asg :
  Forall (fun n => fits (f n)) (assignment_names asg) ->
  assignment_names (rewriteConsumerAssignment assignment asg f)
  = map f (assignment_names asg).
Proof.
  unfold assignment_names, rewriteConsumerAssignment. case_decide as Hl.
  - apply nil_length_inv in Hl as ->. by destruct (blob_empty (b:=assignment)) as [e ->].
  - destruct (blob_ReadFrom assignment asg) as [e|m] eqn:E; [by rewrite E|]. intros Hf.
    fold (asg_rename f m). rewrite (blob_roundtrip _ f E Hf). apply asg_topics_rename.
Qed.

Lemma PrefixIn_nil n : PrefixIn "" n = n.
Proof. done. Qed.
Lemma map_PrefixIn_nil l : map (PrefixIn "") l = l.
Proof. rewrite <-(map_id l) at 2. apply map_ext, PrefixIn_nil. Qed.

(** The rewrite of a request is the prefix map on [names] and leaves [bare] alone. *)
Lemma bare_RequestIn p q : bare (RequestIn p q) = bare q.
Proof.
  destruct q; simpl; try done.
  - unfold FindCoordinatorRequestIn.
    destruct (FindCoordinatorRequest.CoordinatorType r =? CoordinatorTypeGroup)%Z eqn:E1,
      (FindCoordinatorRequest.CoordinatorType r =? CoordinatorTypeTransaction)%Z eqn:E2;
      simpl; rewrite ?E1, ?E2; done.
  - induction (DescribeConfigsRequest.Resources r) as [|c rs IH]; [done|]. simpl.
    destruct (isScopedResource c) eqn:E.
    + rewrite !filter_cons_False by (rewrite ?isScopedResource_set, E; intros []). exact IH.
    + rewrite !filter_cons_True by (by rewrite E). simpl. by rewrite IH.
Qed.
Lemma names_RequestIn p q :
  Forall (fun n => fits (PrefixIn p n)) (blob_names q) ->
  names (RequestIn p q) = map (PrefixIn p) (names q).
Proof.
  intros Hfit. destruct q; simpl; rewrite ?Topic_mapTopic; try done.
  - (* Metadata *) rewrite default_map. apply concat_map_ext. intros t. simpl.
    rewrite PrefixInPtr_fmap. apply ptr_names_map.
  - (* FindCoordinator *) unfold FindCoordinatorRequestIn.
    destruct (FindCoordinatorRequest.CoordinatorType r =? CoordinatorTypeGroup)%Z eqn:E1,
      (FindCoordinatorRequest.CoordinatorType r =? CoordinatorTypeTransaction)%Z eqn:E2;
      simpl; rewrite ?E1, ?E2; done.
  - (* OffsetFetch *) rewrite default_map, Topic_mapTopic. rewrite map_app. f_equal. f_equal.
    apply concat_map_ext. intros g. simpl. by rewrite default_map, Topic_mapTopic.
  - (* JoinGroup *) f_equal. destruct (String.eqb_spec p "") as [->|Hp]; simpl.
    { by rewrite map_PrefixIn_nil. }
    simpl in Hfit.
    destruct (_ =? consumerProtocolType)%string; simpl; [|done].
    eapply concat_map_in; [apply Hfit|]. intros m. apply subscription_names_rewrite.
  - (* SyncGroup *) f_equal. unfold skipBlobs. destruct (String.eqb_spec p "") as [->|Hp]; simpl.
    { by rewrite map_PrefixIn_nil. }
    simpl in Hfit. destruct (SyncGroupRequest.ProtocolType r) as [pt|]; simpl in *;
      [destruct (pt =? consumerProtocolType)%string; simpl; [|done]|];
      (eapply concat_map_in; [apply Hfit|]); intros m; apply assignment_names_rewrite.
  - (* InitProducerID *) rewrite PrefixInPtr_fmap. apply ptr_names_map.
  - (* AddPartitionsToTxn *) rewrite map_app. f_equal. f_equal.
    apply concat_map_ext. intros t. simpl. by rewrite Topic_mapTopic.
  - (* DeleteTopics *) rewrite map_app. f_equal. apply concat_map_ext. intros t. simpl.
    rewrite PrefixInPtr_fmap. apply ptr_names_map.
  - (* DescribeConfigs *) apply scoped_names.
Qed.

(** ** The rewrite as a traversal

    [map_names f] applies [f] to the [names] of the request and leaves all other
    fields alone; blobs that decode are re-encoded. *)
Definition map_names (f : string -> string) (q : KRequest) : KRequest :=
  match q with
  | QMetadata r => QMetadata (MetadataRequest.Mk
      (map (mapTopicPtr (fmap f)) <$> MetadataRequest.Topics r) (MetadataRequest.rest r))
  | QProduce r => QProduce (ProduceRequest.Mk (ProduceRequest.TransactionID r) (ProduceRequest.Acks r)
      (map (mapTopic f) (ProduceRequest.Topics r)) (ProduceRequest.rest r))
  | QFetch r => QFetch (FetchRequest.Mk (map (mapTopic f) (FetchRequest.Topics r))
      (FetchRequest.ForgottenTopics r) (FetchRequest.rest r))
  | QListOffsets r => QListOffsets (ListOffsetsRequest.Mk
      (map (mapTopic f) (ListOffsetsRequest.Topics r)) (ListOffsetsRequest.rest r))
  | QFindCoordinator r =>
      if (FindCoordinatorRequest.CoordinatorType r =? CoordinatorTypeGroup)%Z ||
         (FindCoordinatorRequest.CoordinatorType r =? CoordinatorTypeTransaction)%Z
      then QFindCoordinator (FindCoordinatorRequest.Mk (FindCoordinatorRequest.CoordinatorType r)
             (f (FindCoordinatorRequest.CoordinatorKey r))
             (map f (FindCoordinatorRequest.CoordinatorKeys r)) (FindCoordinatorRequest.rest r))
      else q
  | QOffsetCommit r => QOffsetCommit (OffsetCommitRequest.Mk (f (OffsetCommitRequest.Group r))
      (map (mapTopic f) (OffsetCommitRequest.Topics r)) (OffsetCommitRequest.rest r))
  | QOffsetFetch r => QOffsetFetch (OffsetFetchRequest.Mk (f (OffsetFetchRequest.Group r))
      (map (mapTopic f) <$> OffsetFetchRequest.Topics r)
      (map (fun g => OffsetFetchRequestGroup.Mk (f (OffsetFetchRequestGroup.Group g))
              (map (mapTopic f) <$> OffsetFetchRequestGroup.Topics g)
              (OffsetFetchRequestGroup.rest g)) (OffsetFetchRequest.Groups r))
      (OffsetFetchRequest.rest r))
  | QOffsetDelete r => QOffsetDelete (OffsetDeleteRequest.Mk (f (OffsetDeleteRequest.Group r))
      (map (mapTopic f) (OffsetDeleteRequest.Topics r)) (OffsetDeleteRequest.rest r))
  | QJoinGroup r => QJoinGroup (JoinGroupRequest.Mk (f (JoinGroupRequest.Group r))
      (JoinGroupRequest.ProtocolType r)
      (if (JoinGroupRequest.ProtocolType r =? consumerProtocolType)%string
       then map (fun m => JoinGroupRequestProtocol.Mk
                   (rewriteConsumerSubscription subscription (JoinGroupRequestProtocol.Metadata m) f)
                   (JoinGroupRequestProtocol.rest m)) (JoinGroupRequest.Protocols r)
       else JoinGroupRequest.Protocols r) (JoinGroupRequest.rest r))
  | QSyncGroup r => QSyncGroup (SyncGroupRequest.Mk (f (SyncGroupRequest.Group r))
      (SyncGroupRequest.ProtocolType r)
      (if (default consumerProtocolType (SyncGroupRequest.ProtocolType r)
             =? consumerProtocolType)%string
       then map (fun m => SyncGroupRequestAssignment.Mk
                   (rewriteConsumerAssignment assignment
                      (SyncGroupRequestAssignment.MemberAssignment m) f)
                   (SyncGroupRequestAssignment.rest m)) (SyncGroupRequest.GroupAssignment r)
       else SyncGroupRequest.GroupAssignment r) (SyncGroupRequest.rest r))
  | QHeartbeat r => QHeartbeat (HeartbeatRequest.Mk (f (HeartbeatRequest.Group r))
      (HeartbeatRequest.rest r))
  | QLeaveGroup r => QLeaveGroup (LeaveGroupRequest.Mk (f (LeaveGroupRequest.Group r))
      (LeaveGroupRequest.rest r))
  | QDescribeGroups r => QDescribeGroups (DescribeGroupsRequest.Mk
      (map f (DescribeGroupsRequest.Groups r)) (DescribeGroupsRequest.rest r))
  | QListGroups r => QListGroups r
  | QDeleteGroups r => QDeleteGroups (DeleteGroupsRequest.Mk
      (map f (DeleteGroupsRequest.Groups r)) (DeleteGroupsRequest.rest r))
  | QInitProducerID r => QInitProducerID (InitProducerIDRequest.Mk
      (f <$> InitProducerIDRequest.TransactionalID r) (InitProducerIDRequest.rest r))
  | QAddPartitionsToTxn r => QAddPartitionsToTxn (AddPartitionsToTxnRequest.Mk
      (f (AddPartitionsToTxnRequest.TransactionalID r))
      (map (mapTopic f) (AddPartitionsToTxnRequest.Topics r))
      (map (mapTxn f) (AddPartitionsToTxnRequest.Transactions r))
      (AddPartitionsToTxnRequest.rest r))
  | QAddOffsetsToTxn r => QAddOffsetsToTxn (AddOffsetsToTxnRequest.Mk
      (f (AddOffsetsToTxnRequest.TransactionalID r)) (f (AddOffsetsToTxnRequest.Group r))
      (AddOffsetsToTxnRequest.rest r))
  | QEndTxn r => QEndTxn (EndTxnRequest.Mk (f (EndTxnRequest.TransactionalID r))
      (EndTxnRequest.rest r))
  | QTxnOffsetCommit r => QTxnOffsetCommit (TxnOffsetCommitRequest.Mk
      (f (TxnOffsetCommitRequest.TransactionalID r)) (f (TxnOffsetCommitRequest.Group r))
      (map (mapTopic f) (TxnOffsetCommitRequest.Topics r)) (TxnOffsetCommitRequest.rest r))
  | QCreateTopics r => QCreateTopics (CreateTopicsRequest.Mk
      (map (mapTopic f) (CreateTopicsRequest.Topics r)) (CreateTopicsRequest.rest r))
  | QDeleteTopics r => QDeleteTopics (DeleteTopicsRequest.Mk
      (map f (DeleteTopicsRequest.TopicNames r))
      (map (mapTopicPtr (fmap f)) (DeleteTopicsRequest.Topics r)) (DeleteTopicsRequest.rest r))
  | QDescribeConfigs r => QDescribeConfigs (DescribeConfigsRequest.Mk
      (map (fun c => if isScopedResource c
                     then setResourceName (f (ConfigResource.ResourceName c)) c else c)
         (DescribeConfigsRequest.Resources r)) (DescribeConfigsRequest.rest r))
  end.

Lemma mapTopicPtr_PrefixInPtr p (ts : list (TopicPtr X)) :
  map (mapTopicPtr (PrefixInPtr p)) ts = map (mapTopicPtr (fmap (PrefixIn p))) ts.
Proof. apply map_ext. intros t. unfold mapTopicPtr. by rewrite PrefixInPtr_fmap. Qed.

Lemma RequestIn_map_names p q : p <> "" -> RequestIn p q = map_names (PrefixIn p) q.
Proof.
  intros Hp%String.eqb_neq. destruct q; simpl; try done.
  - unfold MetadataRequestIn. destruct (MetadataRequest.Topics r); simpl; [|done].
    by rewrite mapTopicPtr_PrefixInPtr.
  - unfold FindCoordinatorRequestIn.
    by destruct (_ =? CoordinatorTypeGroup)%Z, (_ =? CoordinatorTypeTransaction)%Z; destruct r.
  - unfold JoinGroupRequestIn. rewrite Hp. simpl.
    by destruct (_ =? consumerProtocolType)%string.
  - unfold SyncGroupRequestIn, skipBlobs. rewrite Hp. simpl.
    destruct (SyncGroupRequest.ProtocolType r) as [pt|]; simpl; [|done].
    by destruct (_ =? consumerProtocolType)%string.
  - unfold InitProducerIDRequestIn. by rewrite PrefixInPtr_fmap.
  - unfold DeleteTopicsRequestIn. by rewrite mapTopicPtr_PrefixInPtr.
Qed.

Lemma map_map_ext {A} (h g k : A -> A) l : (forall a, h (g a) = k a) -> map h (map g l) = map k l.
Proof. intros E. rewrite map_map. by apply map_ext. Qed.

Lemma mapTopic_compose f g (ts : list (TopicEntry X)) :
  map (mapTopic f) (map (mapTopic g) ts) = map (mapTopic (f ∘ g)) ts.
Proof. by apply map_map_ext. Qed.
Lemma mapTopics_compose f g (o : option (list (TopicEntry X))) :
  map (mapTopic f) <$> (map (mapTopic g) <$> o) = map (mapTopic (f ∘ g)) <$> o.
Proof. destruct o; simpl; [|done]. by rewrite mapTopic_compose. Qed.
Lemma mapTopicPtr_compose f g (ts : list (TopicPtr X)) :
  map (mapTopicPtr (fmap f)) (map (mapTopicPtr (fmap g)) ts) = map (mapTopicPtr (fmap (f ∘ g))) ts.
Proof. apply map_map_ext. intros [[t|] x]; done. Qed.

Lemma subscription_compose f g meta :
  Forall (fun n => fits (g n)) (subscription_names meta) ->
  rewriteConsumerSubscription subscription (rewriteConsumerSubscription subscription meta g) f
  = rewriteConsumerSubscription subscription meta (f ∘ g).
Proof.
  destruct (blob_empty (b:=subscription)) as [e He].
  unfold rewriteConsumerSubscription, subscription_names.
  destruct (decide (length meta = 0)) as [Hl|Hl]; [by rewrite decide_True by done|].
  destruct (blob_ReadFrom subscription meta) as [e'|m] eqn:E; [by rewrite decide_False, E by done|].
  intros Hg. fold (sub_rename g m). pose proof (blob_roundtrip _ g E Hg) as Hr.
  case_decide as Hn; [apply nil_length_inv in Hn; congruence|].
  rewrite Hr. simpl. by rewrite mapTopic_compose, map_map.
Qed.
Lemma assignment_compose f g asg :
  Forall (fun n => fits (g n)) (assignment_names asg) ->
  rewriteConsumerAssignment assignment (rewriteConsumerAssignment assignment asg g) f
  = rewriteConsumerAssignment assignment asg (f ∘ g).
Proof.
  destruct (blob_empty (b:=assignment)) as [e He].
  unfold rewriteConsumerAssignment, assignment_names.
  destruct (decide (length asg = 0)) as [Hl|Hl]; [by rewrite decide_True by done|].
  destruct (blob_ReadFrom assignment asg) as [e'|m] eqn:E; [by rewrite decide_False, E by done|].
  intros Hg. fold (asg_rename g m). pose proof (blob_roundtrip _ g E Hg) as Hr.
  case_decide as Hn; [apply nil_length_inv in Hn; congruence|].
  rewrite Hr. simpl. by rewrite mapTopic_compose.
Qed.

Lemma map_map_in {A B} (n : A -> list B) (P : B -> Prop) (h g k : A -> A) l :
  Forall P (concat (map n l)) -> (forall a, Forall P (n a) -> h (g a) = k a) ->
  map h (map g l) = map k l.
Proof.
  intros HP E. induction l as [|a l IH]; [done|]. simpl in *.
  apply Forall_app in HP as [Ha Hl]. by rewrite E, IH.
Qed.

Lemma map_names_compose f g q :
  Forall (fun n => fits (g n)) (blob_names q) -> map_names f (map_names g q) = map_names (f ∘ g) q.
Proof.
  intros Hg. destruct q; simpl in *;
    rewrite ?mapTopic_compose, ?mapTopics_compose, ?mapTopicPtr_compose, ?map_map; try done.
  - destruct (MetadataRequest.Topics r); simpl; [|done]. by rewrite mapTopicPtr_compose.
  - destruct (_ || _) eqn:E; simpl; rewrite E; [|done]. by rewrite map_map.
  - f_equal. f_equal. apply map_ext. intros x. simpl. by rewrite mapTopics_compose.
  - f_equal. f_equal.
    destruct (_ =? consumerProtocolType)%string; [|done].
    eapply map_map_in; [apply Hg|]. intros m Hm. simpl. by rewrite subscription_compose.
  - f_equal. f_equal.
    destruct (_ =? consumerProtocolType)%string; [|done].
    eapply map_map_in; [apply Hg|]. intros m Hm. simpl. by rewrite assignment_compose.
  - by rewrite <-option_fmap_compose.
  - f_equal. f_equal. apply map_ext. intros x. unfold mapTxn. simpl. by rewrite mapTopic_compose.
  - f_equal. f_equal. apply map_ext. intros c.
    destruct (isScopedResource c) eqn:E; [|by rewrite E]. by rewrite isScopedResource_set, E.
Qed.

(** [map_names] only depends on the values of the function. *)
Section Ext.
Context (f g : string -> string) (Hfg : forall n, f n = g n).

Lemma mapTopic_ext (ts : list (TopicEntry X)) : map (mapTopic f) ts = map (mapTopic g) ts.
Proof. apply map_ext. intros t. unfold mapTopic. by rewrite Hfg. Qed.
Lemma mapTopics_ext (o : option (list (TopicEntry X))) :
  map (mapTopic f) <$> o = map (mapTopic g) <$> o.
Proof. destruct o; simpl; [|done]. by rewrite mapTopic_ext. Qed.
Lemma mapTopicPtr_ext (ts : list (TopicPtr X)) :
  map (mapTopicPtr (fmap f)) ts = map (mapTopicPtr (fmap g)) ts.
Proof. apply map_ext. intros [[t|] x]; [|done]. unfold mapTopicPtr. simpl. by rewrite Hfg. Qed.
Lemma subscription_ext meta :
  rewriteConsumerSubscription subscription meta f = rewriteConsumerSubscription subscription meta g.
Proof.
  unfold rewriteConsumerSubscription. case_decide; [done|]. case_match; [done|].
  by rewrite mapTopic_ext, (map_ext _ _ Hfg).
Qed.
Lemma assignment_ext asg :
  rewriteConsumerAssignment assignment asg f = rewriteConsumerAssignment assignment asg g.
Proof.
  unfold rewriteConsumerAssignment. case_decide; [done|]. case_match; [done|].
  by rewrite mapTopic_ext.
Qed.

Lemma map_names_ext q : map_names f q = map_names g q.
Proof.
  destruct q; simpl; rewrite ?mapTopic_ext, ?mapTopics_ext, ?mapTopicPtr_ext, ?Hfg,
    ?(map_ext _ _ Hfg); try done; f_equal; f_equal.
  - destruct (MetadataRequest.Topics r); simpl; [|done]. by rewrite mapTopicPtr_ext.
  - apply map_ext. intros x. by rewrite Hfg, mapTopics_ext.
  - destruct (_ =? _)%string; [|done]. apply map_ext. intros x. by rewrite subscription_ext.
  - destruct (_ =? _)%string; [|done]. apply map_ext. intros x. by rewrite assignment_ext.
  - destruct (InitProducerIDRequest.TransactionalID r); simpl; [|done]. by rewrite Hfg.
  - apply map_ext. intros x. unfold mapTxn. by rewrite Hfg, mapTopic_ext.
  - apply map_ext. intros x. by rewrite Hfg.
Qed.
End Ext.
End Requests.

(** * Responses as one type *)
Section Responses.
Context {X : Type}.

Inductive KResponse : Type :=
| SMetadata (r : MetadataResponse.t X)
| SProduce (r : ProduceResponse.t X)
| SFetch (r : FetchResponse.t X)
| SListOffsets (r : ListOffsetsResponse.t X)
| SFindCoordinator (r : FindCoordinatorResponse.t X)
| SOffsetCommit (r : OffsetCommitResponse.t X)
| SOffsetFetch (r : OffsetFetchResponse.t X)
| SOffsetDelete (r : OffsetDeleteResponse.t X)
| SJoinGroup (r : JoinGroupResponse.t X)
| SSyncGroup (r : SyncGroupResponse.t X)
| SDescribeGroups (r : DescribeGroupsResponse.t X)
| SListGroups (r : ListGroupsResponse.t X)
| SDeleteGroups (r : DeleteGroupsResponse.t X)
| SAddPartitionsToTxn (r : AddPartitionsToTxnResponse.t X)
| STxnOffsetCommit (r : TxnOffsetCommitResponse.t X)
| SCreateTopics (r : CreateTopicsResponse.t X)
| SDeleteTopics (r : DeleteTopicsResponse.t X)
| SDescribeConfigs (r : DescribeConfigsResponse.t X)
| SUntouched (r : Untouched.t X).

Context (subscription : Blob (ConsumerMemberMetadata.t X)).
Context (assignment : Blob (ConsumerMemberAssignment.t X)).

(** The rewrite each handler applies to the response of the broker. *)
Definition ResponseOut (p host : string) (port : Z) (s : KResponse) : KResponse :=
  match s with
  | SMetadata r => SMetadata (MetadataResponseOut p host port r)
  | SProduce r => SProduce (ProduceResponseOut p r)
  | SFetch r => SFetch (FetchResponseOut p r)
  | SListOffsets r => SListOffsets (ListOffsetsResponseOut p r)
  | SFindCoordinator r => SFindCoordinator (FindCoordinatorResponseOut p host port r)
  | SOffsetCommit r => SOffsetCommit (OffsetCommitResponseOut p r)
  | SOffsetFetch r => SOffsetFetch (OffsetFetchResponseOut p r)
  | SOffsetDelete r => SOffsetDelete (OffsetDeleteResponseOut p r)
  | SJoinGroup r => SJoinGroup (JoinGroupResponseOut subscription p r)
  | SSyncGroup r => SSyncGroup (SyncGroupResponseOut assignment p r)
  | SDescribeGroups r => SDescribeGroups (DescribeGroupsResponseOut subscription assignment p r)
  | SListGroups r => SListGroups (ListGroupsResponseOut p r)
  | SDeleteGroups r => SDeleteGroups (DeleteGroupsResponseOut p r)
  | SAddPartitionsToTxn r => SAddPartitionsToTxn (AddPartitionsToTxnResponseOut p r)
  | STxnOffsetCommit r => STxnOffsetCommit (TxnOffsetCommitResponseOut p r)
  | SCreateTopics r => SCreateTopics (CreateTopicsResponseOut p r)
  | SDeleteTopics r => SDeleteTopics (DeleteTopicsResponseOut p r)
  | SDescribeConfigs r => SDescribeConfigs (DescribeConfigsResponseOut p r)
  | SUntouched r => SUntouched r
  end.

Definition described_names (g : DescribeGroupsGroup.t X) : list string :=
  DescribeGroupsGroup.Group g ::
  (if (DescribeGroupsGroup.ProtocolType g =? "")%string ||
      (DescribeGroupsGroup.ProtocolType g =? consumerProtocolType)%string
   then concat (map (fun m =>
          subscription_names subscription (DescribeGroupsMember.ProtocolMetadata m) ++
          assignment_names assignment (DescribeGroupsMember.MemberAssignment m))
          (DescribeGroupsGroup.Members g))
   else []).

(** Every name a response carries in the fields kroxy decodes. *)
Definition resp_names (s : KResponse) : list string :=
  match s with
  | SMetadata r => concat (map (fun t => ptr_names (MetadataResponseTopic.Topic t))
                             (MetadataResponse.Topics r))
  | SProduce r => map Topic (ProduceResponse.Topics r)
  | SFetch r => map Topic (FetchResponse.Topics r)
  | SListOffsets r => map Topic (ListOffsetsResponse.Topics r)
  | SFindCoordinator r => map Coordinator.Key (FindCoordinatorResponse.Coordinators r)
  | SOffsetCommit r => map Topic (OffsetCommitResponse.Topics r)
  | SOffsetFetch r =>
      map Topic (OffsetFetchResponse.Topics r) ++
      concat (map (fun g => OffsetFetchResponseGroup.Group g ::
                     map Topic (OffsetFetchResponseGroup.Topics g)) (OffsetFetchResponse.Groups r))
  | SOffsetDelete r => map Topic (OffsetDeleteResponse.Topics r)
  | SJoinGroup r =>
      if (default consumerProtocolType (JoinGroupResponse.ProtocolType r)
            =? consumerProtocolType)%string
      then concat (map (fun m => subscription_names subscription
                          (JoinGroupResponseMember.ProtocolMetadata m)) (JoinGroupResponse.Members r))
      else []
  | SSyncGroup r =>
      if (default consumerProtocolType (SyncGroupResponse.ProtocolType r)
            =? consumerProtocolType)%string
      then assignment_names assignment (SyncGroupResponse.MemberAssignment r)
      else []
  | SDescribeGroups r => concat (map described_names (DescribeGroupsResponse.Groups r))
  | SListGroups r => map GroupEntry.Group (ListGroupsResponse.Groups r)
  | SDeleteGroups r => map GroupEntry.Group (DeleteGroupsResponse.Groups r)
  | SAddPartitionsToTxn r =>
      map Topic (AddPartitionsToTxnResponse.Topics r) ++
      concat (map (fun t => TxnEntry.TransactionalID t :: map Topic (TxnEntry.Topics t))
                (AddPartitionsToTxnResponse.Transactions r))
  | STxnOffsetCommit r => map Topic (TxnOffsetCommitResponse.Topics r)
  | SCreateTopics r => map Topic (CreateTopicsResponse.Topics r)
  | SDeleteTopics r => concat (map (fun t => ptr_names (TopicP t)) (DeleteTopicsResponse.Topics r))
  | SDescribeConfigs r =>
      map ConfigResource.ResourceName (filter isScopedResource (DescribeConfigsResponse.Resources r))
  | SUntouched r => []
  end.

(** The responses that list things the client did not name are filtered. *)
Definition filtered (s : KResponse) : bool :=
  match s with
  | SMetadata _ | SListGroups _ | SDescribeConfigs _ => true
  | _ => false
  end.

(** What becomes of one upstream name. *)
Definition view (p : string) (filter : bool) (n : string) : option string :=
  if filter && negb (BelongsToTenant p n) then None else Some (StripOut p n).

Lemma omap_view_map p l : omap (view p false) l = map (StripOut p) l.
Proof. induction l as [|n l IH]; [done|]. simpl. by f_equal. Qed.

Lemma metadata_names p (ts : list (MetadataResponseTopic.t X)) :
  concat (map (fun t => ptr_names (MetadataResponseTopic.Topic t)) (omap (metadataTopicOut p) ts))
  = omap (view p true) (concat (map (fun t => ptr_names (MetadataResponseTopic.Topic t)) ts)).
Proof.
  induction ts as [|[t ps x] ts IH]; [done|]. simpl. rewrite omap_app, <-IH.
  unfold metadataTopicOut at 1. simpl. destruct t as [n|]; simpl; [|done].
  unfold view. simpl. destruct (BelongsToTenant p n); simpl; [|done].
  f_equal. unfold StripOut. by destruct (p =? "")%string.
Qed.
Lemma listed_names p (gs : list (GroupEntry.t X)) :
  map GroupEntry.Group (omap (listedGroupOut p) gs) = omap (view p true) (map GroupEntry.Group gs).
Proof.
  induction gs as [|[g x] gs IH]; [done|]. simpl. unfold listedGroupOut at 1, view at 1. simpl.
  destruct (BelongsToTenant p g); simpl; [f_equal|]; apply IH.
Qed.
Lemma config_names p (rs : list (ConfigResource.t X)) :
  map ConfigResource.ResourceName (filter isScopedResource (omap (configResourceOut p) rs))
  = omap (view p true) (map ConfigResource.ResourceName (filter isScopedResource rs)).
Proof.
  induction rs as [|r rs IH]; [done|]. simpl. unfold configResourceOut at 1.
  destruct (isScopedResource r) eqn:E.
  - rewrite (filter_cons_True _ r) by (by rewrite E). simpl. unfold view at 1. simpl.
    destruct (BelongsToTenant p _); simpl; [|apply IH].
    rewrite filter_cons_True by (rewrite isScopedResource_set, E; done). simpl. f_equal. apply IH.
  - rewrite !filter_cons_False by (rewrite E; intros []). apply IH.
Qed.

Context `{!BlobLaws subscription sub_topics sub_rename}.
Context `{!BlobLaws assignment asg_topics asg_rename}.

(** Stripping never makes a name longer, so what was decoded still fits. *)
Lemma StripOut_fits p l : Forall fits l -> Forall (fun n => fits (StripOut p n)) l.
Proof. apply Forall_impl. intros n. unfold fits. pose proof (StripOut_length p n). lia. Qed.
Lemma subscription_names_StripOut p meta :
  subscription_names subscription (rewriteConsumerSubscription subscription meta (StripOut p))
  = map (StripOut p) (subscription_names subscription meta).
Proof.
  apply subscription_names_rewrite; [done|]. apply StripOut_fits. unfold subscription_names.
  destruct (blob_ReadFrom subscription meta) eqn:E; [done|]. eapply blob_fits, E.
Qed.
Lemma assignment_names_StripOut p asg :
  assignment_names assignment (rewriteConsumerAssignment assignment asg (StripOut p))
  = map (StripOut p) (assignment_names assignment asg).
Proof.
  apply assignment_names_rewrite; [done|]. apply StripOut_fits. unfold assignment_names.
  destruct (blob_ReadFrom assignment asg) eqn:E; [done|]. eapply blob_fits, E.
Qed.

Lemma map_StripOut_nil l : map (StripOut "") l = l.
Proof. rewrite <-(map_id l) at 2. by apply map_ext. Qed.

Lemma described_names_out p g :
  described_names (describedGroupOut subscription assignment p g)
  = map (StripOut p) (described_names g).
Proof.
  unfold described_names, describedGroupOut. simpl. f_equal.
  destruct (String.eqb_spec p "") as [->|Hp]; simpl.
  { by rewrite map_StripOut_nil. }
  destruct (_ =? "")%string, (_ =? consumerProtocolType)%string; simpl; try done;
    apply concat_map_ext; intros m; simpl;
    by rewrite subscription_names_StripOut, assignment_names_StripOut, map_app.
Qed.

Lemma resp_names_ResponseOut p host port s :
  resp_names (ResponseOut p host port s) = omap (view p (filtered s)) (resp_names s).
Proof.
  destruct s; simpl; rewrite ?compact_omap, ?omap_view_map, ?Topic_mapTopic, ?map_app; try done.
  - apply metadata_names.
  - by rewrite !map_map.
  - f_equal. apply concat_map_ext. intros g. simpl. by rewrite Topic_mapTopic.
  - unfold JoinGroupResponseOut, skipBlobs. destruct (String.eqb_spec p "") as [->|Hp]; simpl.
    { by rewrite map_StripOut_nil. }
    destruct r as [[pt|] ms x]; simpl; [destruct (pt =? consumerProtocolType)%string eqn:E;
      simpl; rewrite E; [|done]|]; apply concat_map_ext; intros m; apply subscription_names_StripOut.
  - unfold SyncGroupResponseOut, skipBlobs. destruct (String.eqb_spec p "") as [->|Hp]; simpl.
    { by rewrite map_StripOut_nil. }
    destruct r as [[pt|] ms x]; simpl; [destruct (pt =? consumerProtocolType)%string eqn:E;
      simpl; rewrite E; [|done]|]; apply assignment_names_StripOut.
  - apply concat_map_ext. apply described_names_out.
  - apply listed_names.
  - by rewrite !map_map.
  - f_equal. apply concat_map_ext. intros t. simpl. by rewrite Topic_mapTopic.
  - apply concat_map_ext. intros t. simpl. rewrite StripOutPtr_fmap. apply ptr_names_map.
  - apply config_names.
Qed.
End Responses.

(** * A concrete blob format

    An instance of [BlobLaws] that can be run: each name is a continuation
    byte, its length on two bytes and its bytes; a zero byte ends a list. *)
Module DemoBlob.
Definition put_name (n : string) : list byte :=
  Byte.x01 :: be_encode 2 (Z.of_nat (String.length n)) ++ bytes_of_string n.
Definition put_names (l : list string) : list byte := concat (map put_name l) ++ [Byte.x00].

Fixpoint get_names (fuel : nat) (b : list byte) : option (list string * list byte) :=
  match fuel, b with
  | S fuel, Byte.x00 :: b => Some ([], b)
  | S fuel, Byte.x01 :: b =>
      let n := be_decode (take 2 b) in
      let r := drop 2 b in
      if ((n <? 2^15) && (n <=? len r))%Z then
        '(l, r') ← get_names fuel (drop (Z.to_nat n) r);
        Some (string_of_bytes (take (Z.to_nat n) r) :: l, r')
      else None
  | _, _ => None
  end.

Definition error_blob : error := ErrNew "not a blob" [].
Definition subscription : Blob (ConsumerMemberMetadata.t unit) := {|
  blob_ReadFrom b :=
    match get_names (length b) b with
    | Some (ts, r) =>
        match get_names (length r) r with
        | Some (os, _) => inr (ConsumerMemberMetadata.Mk ts (map (fun o => MkTopic o ()) os) ())
        | None => inl error_blob
        end
    | None => inl error_blob
    end;
  blob_AppendTo m dst :=
    dst ++ put_names (ConsumerMemberMetadata.Topics m) ++
    put_names (map Topic (ConsumerMemberMetadata.OwnedPartitions m)) |}.
Definition assignment : Blob (ConsumerMemberAssignment.t unit) := {|
  blob_ReadFrom b :=
    match get_names (length b) b with
    | Some (ts, _) => inr (ConsumerMemberAssignment.Mk (map (fun o => MkTopic o ()) ts) ())
    | None => inl error_blob
    end;
  blob_AppendTo m dst := dst ++ put_names (map Topic (ConsumerMemberAssignment.Topics m)) |}.

Lemma len_bytes_of_string s : length (bytes_of_string s) = String.length s.
Proof.
  induction s as [|a s IH]; [done|]. simpl. unfold bytes_of_string, String.list_byte_of_string in *.
  simpl. by rewrite IH.
Qed.

Lemma length_string_of_bytes b : String.length (string_of_bytes b) = length b.
Proof. by rewrite <-len_bytes_of_string, bytes_of_string_of_bytes. Qed.

Lemma put_names_cons n l r :
  put_names (n :: l) ++ r
  = Byte.x01 :: be_encode 2 (Z.of_nat (String.length n)) ++ bytes_of_string n ++ put_names l ++ r.
Proof. unfold put_names, put_name. cbn [map concat]. simplify_list_eq. done. Qed.
Lemma get_names_cons fuel n r :
  fits n ->
  get_names (S fuel)
    (Byte.x01 :: be_encode 2 (Z.of_nat (String.length n)) ++ bytes_of_string n ++ r)
  = '(l, r') ← get_names fuel r; Some (n :: l, r').
Proof.
  intros Hn. cbn [get_names].
  rewrite (take_app_length' (be_encode 2 _)), (drop_app_length' (be_encode 2 _))
    by (by rewrite be_encode_length).
  rewrite be_decode_encode, Z.mod_small by (unfold fits in Hn; simpl; lia).
  rewrite (proj2 (Z.ltb_lt _ _)) by done.
  rewrite (proj2 (Z.leb_le _ _)) by (unfold len; rewrite length_app, len_bytes_of_string; lia).
  simpl. rewrite Nat2Z.id, take_app_length', drop_app_length' by (by rewrite len_bytes_of_string).
  by rewrite string_of_bytes_of_string.
Qed.

Lemma get_put fuel l r :
  Forall fits l -> length (put_names l ++ r) <= fuel ->
  get_names fuel (put_names l ++ r) = Some (l, r).
Proof.
  revert fuel. induction l as [|n l IH]; intros [|fuel] Hl Hf; try (simpl in Hf; lia); [done|].
  apply Forall_cons_1 in Hl as [Hn Hl]. rewrite put_names_cons in *.
  rewrite get_names_cons by done. rewrite IH; [done..|].
  rewrite length_cons, !(length_app (be_encode _ _)), (length_app (bytes_of_string _)) in Hf. lia.
Qed.

Lemma get_put_map (f : string -> string) (l : list string) r :
  Forall (fun n => fits (f n)) l ->
  get_names (length (put_names (map f l) ++ r)) (put_names (map f l) ++ r) = Some (map f l, r).
Proof. intros H. apply get_put; [|done]. by apply Forall_map. Qed.

Lemma get_fits fuel b l r : get_names fuel b = Some (l, r) -> Forall fits l.
Proof.
  revert b l r. induction fuel as [|fuel IH]; intros b l r; simpl; [by destruct b|].
  destruct b as [|c b]; [done|]. destruct c; try done; [intros [= <- <-]; constructor|].
  destruct (be_decode (take 2 b) <? 2^15)%Z eqn:En; [|done]. simpl.
  destruct (be_decode (take 2 b) <=? len (drop 2 b))%Z; [|done].
  destruct (get_names fuel _) as [[l' r']|] eqn:E; [|done]. intros [= <- <-].
  constructor; [|by eapply IH]. unfold fits. apply Z.ltb_lt in En.
  rewrite length_string_of_bytes, length_take. lia.
Qed.

Lemma map_Topic_Mk (l : list string) : map Topic (map (fun o => MkTopic o ()) l) = l.
Proof. rewrite map_map. apply map_id. Qed.
Lemma map_mapTopic_Mk f (l : list string) :
  map (mapTopic f) (map (fun o => MkTopic o ()) l) = map (fun o => MkTopic o ()) (map f l).
Proof. by rewrite !map_map. Qed.

#[global] Instance subscription_laws : BlobLaws subscription sub_topics sub_rename.
Proof.
  split; [by eexists|..]; unfold sub_topics, sub_rename; simpl.
  - intros raw m. destruct (get_names (length raw) raw) as [[ts r]|] eqn:E1; [|done].
    destruct (get_names (length r) r) as [[os r']|] eqn:E2; [|done]. intros [= <-]. simpl.
    rewrite map_Topic_Mk. apply Forall_app. eauto using get_fits.
  - intros raw m f. destruct (get_names (length raw) raw) as [[ts r]|] eqn:E1; [|done].
    destruct (get_names (length r) r) as [[os r']|] eqn:E2; [|done]. intros [= <-]. simpl.
    rewrite !map_mapTopic_Mk, !map_Topic_Mk. intros [Ht Ho]%Forall_app.
    rewrite (get_put_map f ts _ Ht), <-(app_nil_r (put_names (map f os))).
    by rewrite (get_put_map f os _ Ho).
Qed.
#[global] Instance assignment_laws : BlobLaws assignment asg_topics asg_rename.
Proof.
  split; [by eexists|..]; unfold asg_topics, asg_rename; simpl.
  - intros raw m. destruct (get_names (length raw) raw) as [[ts r]|] eqn:E1; [|done].
    intros [= <-]. simpl. rewrite map_Topic_Mk. eauto using get_fits.
  - intros raw m f. destruct (get_names (length raw) raw) as [[ts r]|] eqn:E1; [|done].
    intros [= <-]. simpl. rewrite !map_mapTopic_Mk, !map_Topic_Mk. intros Ht.
    rewrite <-(app_nil_r (put_names (map f ts))).
    by rewrite (get_put_map f ts _ Ht).
Qed.
End DemoBlob.
