(* ===== verification/RewriteTheorems.v ===== *)
(** What the rewrites of package [rewrite] guarantee: isolation of the tenants'
    name spaces, losslessness for the client, and exact views of the responses
    that list what the broker has. *)
From Stdlib Require Import ZArith Lia.
From stdpp Require Import base list sets strings tactics.
From S2P Require Import Prelude GoStrings Rewrite Kmsg RewriteMsg RewriteFacts.

(** For every tenant prefix and every name, stripping undoes prefixing;
    prefixing undoes stripping on every upstream name of the tenant other than
    the bare prefix; and a prefixed name belongs to the tenant unless the name
    was empty (which is forwarded as it is). *)
Theorem name_roundtrip p :
  (forall n, StripOut p (PrefixIn p n) = n) /\
  (forall n, BelongsToTenant p n = true -> n <> p \/ p = "" -> PrefixIn p (StripOut p n) = n) /\
  (forall n, BelongsToTenant p (PrefixIn p n) = true <-> p = "" \/ n <> "").
Proof.
  split_and!; [apply StripOut_PrefixIn|apply PrefixIn_StripOut|].
  intros n. rewrite BelongsToTenant_PrefixIn, orb_true_iff, negb_true_iff,
    String.eqb_eq, String.eqb_neq. done.
Qed.

(** The loops that filter a slice in place, appending to a prefix of the
    array they are still reading, compute exactly the filtered and mapped list:
    no element is lost, duplicated, reordered or read after being overwritten. *)
Theorem compact_correct {A} (f : A -> option A) (xs : list A) : compact f xs = omap f xs.
Proof. apply compact_omap. Qed.

Section Isolation.
Context {X : Type} (subscription : Blob (ConsumerMemberMetadata.t X))
  (assignment : Blob (ConsumerMemberAssignment.t X)).
Context `{!BlobLaws subscription sub_topics sub_rename}.
Context `{!BlobLaws assignment asg_topics asg_rename}.

Abbreviation names := (names subscription assignment).
Abbreviation RequestIn := (RequestIn subscription assignment).
Abbreviation map_names := (map_names subscription assignment).
Abbreviation resp_names := (resp_names subscription assignment).
Abbreviation ResponseOut := (ResponseOut subscription assignment).

(** The topics in the consumer blobs of a request, once prefixed, fit the wire (a blob
    whose names do not is not decodable by the broker; the fields outside the
    blobs need no such condition). *)
Definition fits_in (p : string) (q : KRequest) : Prop :=
  Forall (fun n => fits (PrefixIn p n)) (blob_names subscription assignment q).

Lemma PrefixIn_belongs p n : PrefixIn p n = "" \/ BelongsToTenant p (PrefixIn p n) = true.
Proof.
  rewrite BelongsToTenant_PrefixIn. destruct (String.eqb_spec n "") as [->|]; simpl;
    [rewrite PrefixIn_empty; by left|right; by rewrite orb_true_r].
Qed.

Lemma RequestIn_names_belong p q n :
  fits_in p q -> n ∈ names (RequestIn p q) -> n = "" \/ BelongsToTenant p n = true.
Proof.
  intros Hf. rewrite names_RequestIn by done.
  intros (m & -> & _)%list_elem_of_fmap. apply PrefixIn_belongs.
Qed.

(** Every name that a rewritten request carries in a field kroxy prefixes is empty or
    lies in the tenant's name space; so two tenants whose prefixes are
    incomparable cannot name the same upstream object in such fields. *)
Theorem request_isolation p p' q q' n :
  incomparable p p' -> fits_in p q -> fits_in p' q' -> n <> "" ->
  n ∈ names (RequestIn p q) -> BelongsToTenant p n = true /\ ~ n ∈ names (RequestIn p' q').
Proof.
  intros Hpp Hq Hq' Hn Hin. destruct (RequestIn_names_belong _ _ _ Hq Hin) as [|Hb]; [done|].
  split; [done|]. intros Hin'. destruct (RequestIn_names_belong _ _ _ Hq' Hin') as [|Hb']; [done|].
  by eapply BelongsToTenant_disjoint.
Qed.

(** C29: what rewriting a request does: the [names] of the rewritten request are, in
    the same order, those of the client's request with the prefix in front, except
    that an empty name stays empty; the [bare] names (the transactional id of a
    Produce request, the forgotten topics of a Fetch request, coordinator keys and
    configuration resources of other kinds) are not prefixed; stripping gives back
    the client's request; and with the [names] blanked the rewritten request and
    the client's are the same message.  The topics inside consumer blobs are
    assumed to fit their 16-bit length with the prefix. *)
Theorem request_lossless p q :
  p <> "" -> fits_in p q ->
  names (RequestIn p q) = map (fun n => if decide (n = "") then "" else p +:+ n) (names q) /\
  bare (RequestIn p q) = bare q /\
  map_names (StripOut p) (RequestIn p q) = map_names id q /\
  map_names (fun _ => "") (RequestIn p q) = map_names (fun _ => "") q.
Proof.
  intros Hp Hf. split; [|split; [apply bare_RequestIn|]].
  - rewrite names_RequestIn by done. apply map_ext. intros n. unfold PrefixIn.
    rewrite (proj2 (String.eqb_neq p "") Hp). by destruct (String.eqb_spec n ""), (decide (n = "")).
  - rewrite RequestIn_map_names by done. rewrite !map_names_compose by done.
    split; apply map_names_ext; [apply StripOut_PrefixIn|done].
Qed.

Lemma view_Some p m n : p <> "" -> view p true m = Some n <-> m = p +:+ n.
Proof.
  intros Hp%String.eqb_neq. unfold view, BelongsToTenant, StripOut, TrimPrefix. rewrite Hp. simpl.
  destruct (HasPrefix m p) eqn:E; simpl.
  - apply HasPrefix_spec in E as [t ->]. rewrite sdrop_app.
    split; [by intros [= ->]|by intros ->%sapp_inj_l].
  - split; [done|]. intros ->. by rewrite HasPrefix_app in E.
Qed.

(** In the responses that list what the broker has (Metadata, ListGroups and
    the scoped resources of DescribeConfigs) a client sees a name exactly when
    the broker reported it with the tenant's prefix in front: nothing of another
    tenant appears and nothing of the tenant is missing. *)
Theorem filtered_response_view p host port s n :
  p <> "" -> filtered s = true ->
  n ∈ resp_names (ResponseOut p host port s) <-> p +:+ n ∈ resp_names s.
Proof.
  intros Hp Hs. rewrite resp_names_ResponseOut, Hs by done. rewrite list_elem_of_omap.
  setoid_rewrite view_Some; [|done]. naive_solver.
Qed.


Lemma mapTopic_id (ts : list (TopicEntry X)) : map (mapTopic id) ts = ts.
Proof. rewrite <-(map_id ts) at 2. apply map_ext. by intros []. Qed.
Lemma subscription_id meta :
  blob_ReadFrom subscription (rewriteConsumerSubscription subscription meta id)
  = blob_ReadFrom subscription meta /\
  (forall e, blob_ReadFrom subscription meta = inl e ->
     rewriteConsumerSubscription subscription meta id = meta).
Proof.
  unfold rewriteConsumerSubscription. case_decide; [done|].
  destruct (blob_ReadFrom subscription meta) as [e|m] eqn:E; [done|]. split; [|done].
  assert (sub_rename id m = m) as Hid.
  { destruct m. unfold sub_rename. simpl. by rewrite mapTopic_id, map_id. }
  fold (sub_rename id m). rewrite (blob_roundtrip _ id E), Hid; [done|].
  by apply (blob_fits _ E).
Qed.
Lemma assignment_id asg :
  blob_ReadFrom assignment (rewriteConsumerAssignment assignment asg id)
  = blob_ReadFrom assignment asg /\
  (forall e, blob_ReadFrom assignment asg = inl e ->
     rewriteConsumerAssignment assignment asg id = asg).
Proof.
  unfold rewriteConsumerAssignment. case_decide; [done|].
  destruct (blob_ReadFrom assignment asg) as [e|m] eqn:E; [done|]. split; [|done].
  assert (asg_rename id m = m) as Hid.
  { destruct m. unfold asg_rename. simpl. by rewrite mapTopic_id. }
  fold (asg_rename id m). rewrite (blob_roundtrip _ id E), Hid; [done|].
  by apply (blob_fits _ E).
Qed.

(** The subscription a group member sends (prefixed in its JoinGroup request,
    stored by the broker and stripped in the leader's JoinGroup response) reaches
    the leader as the struct the member encoded, and likewise the assignment the
    leader sends back through SyncGroup; blobs kroxy cannot decode arrive
    byte for byte. *)
Theorem consumer_blobs_roundtrip p meta asg :
  Forall (fun n => fits (PrefixIn p n)) (subscription_names subscription meta) ->
  Forall (fun n => fits (PrefixIn p n)) (assignment_names assignment asg) ->
  let meta' := rewriteConsumerSubscription subscription
    (rewriteConsumerSubscription subscription meta (PrefixIn p)) (StripOut p) in
  let asg' := rewriteConsumerAssignment assignment
    (rewriteConsumerAssignment assignment asg (PrefixIn p)) (StripOut p) in
  blob_ReadFrom subscription meta' = blob_ReadFrom subscription meta /\
  blob_ReadFrom assignment asg' = blob_ReadFrom assignment asg /\
  (forall e, blob_ReadFrom subscription meta = inl e -> meta' = meta) /\
  (forall e, blob_ReadFrom assignment asg = inl e -> asg' = asg).
Proof.
  intros Hm Ha meta' asg'. subst meta' asg'.
  rewrite subscription_compose, assignment_compose by done.
  rewrite (subscription_ext _ _ id), (assignment_ext _ _ id) by (apply StripOut_PrefixIn).
  destruct (subscription_id meta), (assignment_id asg). done.
Qed.
End Isolation.

(** ** Metadata *)
(** All broker ids a partition mentions. *)
Definition partition_ids {X} (p : MetadataResponsePartition.t X) : list Z :=
  MetadataResponsePartition.Leader p :: MetadataResponsePartition.Replicas p ++
  MetadataResponsePartition.ISR p ++ MetadataResponsePartition.OfflineReplicas p.

(** C40: whatever cluster the broker describes, the rewritten Metadata response shows
    one broker, at the advertised address; it is the controller, and every leader,
    replica, in-sync replica and offline replica of every partition of a listed
    topic is that broker, with the numbers of partitions and of replicas those of a
    topic of the broker's response. *)
Theorem metadata_points_at_proxy {X} p host port (r : MetadataResponse.t X) :
  let out := MetadataResponseOut p host port r in
  exists b, MetadataResponse.Brokers out = [b] /\
    MetadataResponseBroker.Host b = host /\ MetadataResponseBroker.Port b = port /\
    MetadataResponse.ControllerID out = MetadataResponseBroker.NodeID b /\
    forall t, t ∈ MetadataResponse.Topics out ->
      exists t0, t0 ∈ MetadataResponse.Topics r /\
        Forall2 (fun p0 p1 => length (partition_ids p1) = length (partition_ids p0) /\
                              Forall (eq (MetadataResponseBroker.NodeID b)) (partition_ids p1))
          (MetadataResponseTopic.Partitions t0) (MetadataResponseTopic.Partitions t).
Proof.
  simpl. eexists. split_and!; [done..|]. intros t. rewrite compact_omap, list_elem_of_omap.
  intros (t0 & Hin & E). exists t0. split; [done|]. unfold metadataTopicOut in E.
  destruct (MetadataResponseTopic.Topic t0); [|done].
  destruct (negb _); [done|]. injection E as <-. simpl. apply Forall2_fmap_r, Forall_Forall2_diag.
  apply Forall_true. intros x. unfold partition_ids. simpl. rewrite !length_app, !length_map.
  split; [done|]. constructor; [done|]. rewrite !Forall_app, !Forall_map.
  split_and!; by apply Forall_true.
Qed.

(** Prefixes that overlap break isolation, and nothing in the resolver
    excludes them: with tenants "a" and "ab", the topics of tenant "ab" are
    listed to tenant "a", which can then name them in its requests. *)
Theorem overlapping_prefixes_leak {X} (x : X) host port :
  let upstream := MetadataResponse.Mk [] 0%Z
    [MetadataResponseTopic.Mk (Some (PrefixIn "ab" "orders")) [] x] x in
  MetadataResponse.Topics (MetadataResponseOut "a" host port upstream)
  = [MetadataResponseTopic.Mk (Some "borders") [] x] /\
  PrefixIn "a" "borders" = PrefixIn "ab" "orders".
Proof. done. Qed.

(** ** Witnesses *)
Module Demo.
Definition meta : list byte := blob_AppendTo DemoBlob.subscription
  (ConsumerMemberMetadata.Mk ["orders"; "pay"] [MkTopic "orders" ()] ()) [].
Definition asg : list byte := blob_AppendTo DemoBlob.assignment
  (ConsumerMemberAssignment.Mk [MkTopic "pay" ()] ()) [].
Definition join : KRequest := QJoinGroup
  (JoinGroupRequest.Mk "workers" "consumer" [JoinGroupRequestProtocol.Mk meta ()] ()).
Definition fetch : KRequest := QFetch (FetchRequest.Mk [MkTopic "orders" (); MkTopic "" ()] [MkTopic "pay" ()] ()).
Definition cluster : KResponse (X:=unit) := SListGroups
  (ListGroupsResponse.Mk [GroupEntry.Mk "t1-workers" (); GroupEntry.Mk "t2-workers" ()] ()).

Lemma join_fits p : (String.length p < 100)%nat ->
  fits_in DemoBlob.subscription DemoBlob.assignment p join.
Proof.
  intros Hp. unfold fits_in.
  replace (blob_names _ _ join) with ["orders"; "pay"; "orders"] by (by vm_compute).
  repeat constructor; unfold fits, PrefixIn;
    destruct (_ || _); rewrite ?slength_app; simpl; lia.
Qed.
End Demo.

Lemma name_roundtrip_witness : PrefixIn "t1-" (StripOut "t1-" "t1-orders") = "t1-orders".
Proof. apply (name_roundtrip "t1-"); [done|by left]. Defined.

Lemma request_isolation_witness :
  BelongsToTenant "t1-" "t1-pay" = true /\
  ~ "t1-pay" ∈ names DemoBlob.subscription DemoBlob.assignment
      (RequestIn DemoBlob.subscription DemoBlob.assignment "t2-" Demo.join).
Proof.
  apply (request_isolation DemoBlob.subscription DemoBlob.assignment "t1-" "t2-" Demo.join);
    [done|apply Demo.join_fits; simpl; lia..|done|].
  replace (names _ _ _) with ["t1-workers"; "t1-orders"; "t1-pay"; "t1-orders"] by (by vm_compute).
  set_solver.
Defined.

Lemma request_lossless_witness :
  names DemoBlob.subscription DemoBlob.assignment
    (RequestIn DemoBlob.subscription DemoBlob.assignment "t1-" Demo.join)
  = ["t1-workers"; "t1-orders"; "t1-pay"; "t1-orders"].
Proof.
  rewrite (proj1 (request_lossless DemoBlob.subscription DemoBlob.assignment "t1-" Demo.join
    ltac:(done) (Demo.join_fits "t1-" ltac:(simpl; lia)))).
  by vm_compute.
Defined.

Lemma filtered_response_view_witness :
  "workers" ∈ resp_names DemoBlob.subscription DemoBlob.assignment
    (ResponseOut DemoBlob.subscription DemoBlob.assignment "t1-" "proxy" 9092 Demo.cluster).
Proof.
  apply (filtered_response_view DemoBlob.subscription DemoBlob.assignment); [done..|].
  simpl. set_solver.
Defined.


Lemma consumer_blobs_roundtrip_witness :
  blob_ReadFrom DemoBlob.subscription
    (rewriteConsumerSubscription DemoBlob.subscription
      (rewriteConsumerSubscription DemoBlob.subscription Demo.meta (PrefixIn "t1-"))
      (StripOut "t1-"))
  = blob_ReadFrom DemoBlob.subscription Demo.meta.
Proof.
  apply (consumer_blobs_roundtrip DemoBlob.subscription DemoBlob.assignment "t1-"
    Demo.meta Demo.asg).
  - replace (subscription_names _ _) with ["orders"; "pay"; "orders"] by (by vm_compute).
    repeat constructor.
  - replace (assignment_names _ _) with ["pay"] by (by vm_compute). repeat constructor.
Defined.
