(* ===== verification/Auth.v ===== *)
(** Package [auth]: SASL/PLAIN payloads (sasl_plain.go) and the peek into the
    SCRAM client-first-message (sasl_scram.go), with their exact grammars. *)
From Stdlib Require Import ZArith Lia Ascii.
From stdpp Require Import base list strings tactics.
From S2P Require Import Prelude GoStrings.
Local Open Scope string_scope.

(** * sasl_plain.go *)
Definition MechanismPlain : string := "PLAIN".

Record PlainCredentials : Type := MkPlain {
  Authzid : string;
  Username : string;
  Password : string
}.

(** [String] and [GoString]: the format and the operands [fmt] renders. *)
Definition CredentialsString (p : PlainCredentials) : string * list fmtarg :=
  ("PlainCredentials{Authzid:%q Username:%q}"%string, [FStr (Authzid p); FStr (Username p)]).
Definition GoString (p : PlainCredentials) : string * list fmtarg := CredentialsString p.
(** [LogValue]: the group of attributes a structured log shows. *)
Definition LogValue (p : PlainCredentials) : list (string * string) :=
  [("authzid", Authzid p); ("username", Username p)].

(** The scan for the two separators: [i] is the index of the head of [bs],
    [first] is [-1] until a zero byte is met; the second one breaks the loop. *)
Fixpoint plain_scan (bs : list byte) (i first : Z) : Z * Z :=
  match bs with
  | [] => (first, -1)%Z
  | b :: bs =>
      if negb (bool_decide (b = Byte.x00)) then plain_scan bs (i + 1) first
      else if (first =? -1)%Z then plain_scan bs (i + 1) i
      else (first, i)
  end.

Definition ParsePlain (payload : list byte) : res PlainCredentials :=
  let (first, second) := plain_scan payload 0 (-1) in
  if ((first =? -1) || (second =? -1))%Z
  then Err (ErrNew "ParsePlain: malformed PLAIN payload" [])
  else
    let? a := slice payload 0 first in
    let? u := slice payload (first + 1) second in
    let? p := slice_from payload (second + 1) in
    Ok (MkPlain (string_of_bytes a) (string_of_bytes u) (string_of_bytes p)).

(** * sasl_scram.go *)
Definition MechanismSCRAMSHA256 : string := "SCRAM-SHA-256".
Definition MechanismSCRAMSHA512 : string := "SCRAM-SHA-512".

Definition IsSCRAMMechanism (mech : string) : bool :=
  (mech =? MechanismSCRAMSHA256) || (mech =? MechanismSCRAMSHA512).

Definition cutByte (s : string) (sep : ascii) : string * string * bool :=
  match IndexByte s sep with
  | Some i => (stake i s, sdrop (i + 1) s, true)
  | None => (s, "", false)
  end.

Definition err_comma : error := ErrNew "decodeSASLname: unescaped comma" [].

(** The loop of [decodeSASLname]; each iteration advances [i], so the length of
    [raw] is fuel enough. *)
Fixpoint decodeSASLname_loop (fuel : nat) (raw : string) (i : nat) (b : string) : res string :=
  match fuel with
  | O => Ok b
  | S fuel =>
      if negb (i <? String.length raw)%nat then Ok b
      else
        let? c := sindex raw i in
        if Ascii.eqb c "," then Err err_comma
        else if Ascii.eqb c "=" then
          if (String.length raw <=? i + 2)%nat
          then Err (ErrNew "decodeSASLname: truncated escape" [])
          else
            let? esc := sslice raw (i + 1) (i + 3) in
            if esc =? "2C" then decodeSASLname_loop fuel raw (i + 3) (b +:+ ",")
            else if esc =? "3D" then decodeSASLname_loop fuel raw (i + 3) (b +:+ "=")
            else Err (ErrNew "decodeSASLname: invalid escape =%s" [FStr esc])
        else decodeSASLname_loop fuel raw (i + 1) (b +:+ String c "")
  end.

Definition decodeSASLname (raw : string) : res string :=
  if negb (ContainsRune raw "=") then
    if ContainsRune raw "," then Err err_comma else Ok raw
  else decodeSASLname_loop (String.length raw) raw 0 "".

Definition scram_err (msg : string) : error := ErrNew msg [].

Definition ParseSCRAMClientFirstUsername (payload : list byte) : res string :=
  let s := string_of_bytes payload in
  let '(cb, rest, ok) := cutByte s "," in
  if negb ok then Err (scram_err "ParseSCRAMClientFirstUsername: missing gs2 cbind-flag separator")
  else
  let? _ :=
    (if cb =? "n" then Ok tt
     else if (cb =? "y") || HasPrefix cb "p="
     then Err (scram_err "ParseSCRAMClientFirstUsername: channel binding not supported")
     else Err (ErrNew "ParseSCRAMClientFirstUsername: invalid gs2 cbind-flag %q" [FStr cb])) in
  let '(_, bare, ok) := cutByte rest "," in
  if negb ok then Err (scram_err "ParseSCRAMClientFirstUsername: missing authzid separator")
  else
  let? bare :=
    (if HasPrefix bare "m=" then
       let '(_, after, ok) := cutByte bare "," in
       if negb ok then Err (scram_err "ParseSCRAMClientFirstUsername: malformed reserved-mext")
       else Ok after
     else Ok bare) in
  if negb (HasPrefix bare "n=")
  then Err (scram_err "ParseSCRAMClientFirstUsername: missing n= attribute")
  else
  let? rest := sslice bare 2 (String.length bare) in
  let '(rawName, _, ok) := cutByte rest "," in
  if negb ok then Err (scram_err "ParseSCRAMClientFirstUsername: missing nonce separator")
  else if rawName =? "" then Err (scram_err "ParseSCRAMClientFirstUsername: empty username")
  else rwrap "ParseSCRAMClientFirstUsername" (decodeSASLname rawName).
