(* ===== verification/AuthFacts.v ===== *)
(** Theorems about package [auth]: the parsers accept exactly the grammars they
    document, and never slice out of range. *)
From Stdlib Require Import ZArith Lia Ascii.
From stdpp Require Import base list sets strings tactics.
From S2P Require Import Prelude GoStrings Auth.

(** * PLAIN *)
Section Plain.
Local Open Scope Z_scope.

Lemma plain_scan_skip a bs i f :
  Byte.x00 ∉ a -> plain_scan (a ++ bs) i f = plain_scan bs (i + len a) f.
Proof.
  revert i. induction a as [|b a IH]; intros i Ha; simpl.
  - by rewrite Z.add_0_r.
  - apply not_elem_of_cons in Ha as [Hb Ha]. rewrite bool_decide_eq_false_2 by done. simpl.
    rewrite IH by done. f_equal. unfold len. simpl. lia.
Qed.

Lemma split_nul (bs : list byte) : Byte.x00 ∉ bs \/ exists a r, bs = a ++ Byte.x00 :: r /\ Byte.x00 ∉ a.
Proof.
  destruct (decide (Byte.x00 ∈ bs)) as [H|]; [right|by left].
  apply list_elem_of_split_l in H as (a & r & ? & ?). eauto.
Qed.

Lemma app_inj_nul (a a' r r' : list byte) :
  a ++ Byte.x00 :: r = a' ++ Byte.x00 :: r' -> Byte.x00 ∉ a -> Byte.x00 ∉ a' -> a = a' /\ r = r'.
Proof.
  revert a'. induction a as [|b a IH]; intros [|b' a']; simpl; intros E Ha Ha'; simplify_eq/=.
  - done.
  - set_solver.
  - set_solver.
  - destruct (IH a') as [-> ->]; set_solver.
Qed.

(** The payload of credentials, and the credentials of a payload. *)
Definition plain_payload (a u p : list byte) : list byte := a ++ Byte.x00 :: u ++ Byte.x00 :: p.

Lemma ParsePlain_payload a u p :
  Byte.x00 ∉ a -> Byte.x00 ∉ u ->
  ParsePlain (plain_payload a u p)
  = Ok (MkPlain (string_of_bytes a) (string_of_bytes u) (string_of_bytes p)).
Proof.
  intros Ha Hu. unfold ParsePlain, plain_payload.
  rewrite plain_scan_skip, Z.add_0_l by done. simpl.
  rewrite plain_scan_skip by done. simpl. pose proof (len_nonneg a). pose proof (len_nonneg u).
  rewrite !(proj2 (Z.eqb_neq (len a) (-1))) by lia.
  rewrite (proj2 (Z.eqb_neq (len a + 1 + len u) (-1))) by lia. cbn [orb].
  rewrite (slice_app [] a _ 0 (len a) eq_refl eq_refl : slice (a ++ _) _ _ = _). simpl.
  replace (a ++ Byte.x00 :: u ++ Byte.x00 :: p) with ((a ++ [Byte.x00]) ++ u ++ Byte.x00 :: p)
    by (by rewrite <-app_assoc).
  rewrite (slice_app (a ++ [Byte.x00]) u) by (rewrite len_app; unfold len; simpl; lia). simpl.
  replace ((a ++ [Byte.x00]) ++ u ++ Byte.x00 :: p) with
    (((a ++ [Byte.x00]) ++ u ++ [Byte.x00]) ++ p) by (simplify_list_eq; done).
  rewrite slice_from_app by (rewrite !len_app; unfold len; simpl; lia).
  done.
Qed.

Lemma ParsePlain_malformed payload :
  (forall a u p, Byte.x00 ∉ a -> Byte.x00 ∉ u -> payload <> plain_payload a u p) ->
  ParsePlain payload = Err (ErrNew "ParsePlain: malformed PLAIN payload" []).
Proof.
  intros Hno. unfold ParsePlain. destruct (split_nul payload) as [Hn|(a & r & -> & Ha)].
  - rewrite <-(app_nil_r payload), plain_scan_skip by done. done.
  - rewrite plain_scan_skip by done. simpl. destruct (split_nul r) as [Hr|(u & p & -> & Hu)].
    + rewrite <-(app_nil_r r), plain_scan_skip by done. simpl. by rewrite orb_true_r.
    + by destruct (Hno a u p Ha Hu).
Qed.

(** Neither [fmt] nor [slog] can print the password of credentials. *)
Lemma credentials_redacted p p' :
  Authzid p = Authzid p' -> Username p = Username p' ->
  CredentialsString p = CredentialsString p' /\ GoString p = GoString p' /\ LogValue p = LogValue p'.
Proof. intros Ha Hu. unfold GoString, CredentialsString, LogValue. by rewrite Ha, Hu. Qed.
Lemma ParsePlain_no_panic payload : ParsePlain payload <> Panic.
Proof.
  destruct (split_nul payload) as [Hn|(a & r & -> & Ha)].
  - rewrite ParsePlain_malformed; [done|]. intros a u p _ _ ->. apply Hn. unfold plain_payload. set_solver.
  - destruct (split_nul r) as [Hr|(u & p & -> & Hu)].
    + rewrite ParsePlain_malformed; [done|]. intros a' u' p' Ha' _ E.
      apply app_inj_nul in E as [_ ->]; [|done..]. set_solver.
    + fold (plain_payload a u p). by rewrite ParsePlain_payload.
Qed.

(** C31: [ParsePlain] accepts exactly the payloads [authzid NUL authcid NUL passwd]
    with no NUL in the first two parts (the password may hold any byte), returns
    those three parts, and rejects every other payload with an error: it never
    slices out of range. *)
Theorem ParsePlain_grammar payload :
  (forall c, ParsePlain payload = Ok c <->
     payload = plain_payload (bytes_of_string (Authzid c)) (bytes_of_string (Username c))
                 (bytes_of_string (Password c)) /\
     Byte.x00 ∉ bytes_of_string (Authzid c) /\ Byte.x00 ∉ bytes_of_string (Username c)) /\
  ParsePlain payload <> Panic.
Proof.
  assert ((exists a u p, payload = plain_payload a u p /\ Byte.x00 ∉ a /\ Byte.x00 ∉ u) \/
    (forall a u p, Byte.x00 ∉ a -> Byte.x00 ∉ u -> payload <> plain_payload a u p))
    as [(a & u & p & -> & Ha & Hu)|Hno].
  { destruct (split_nul payload) as [Hn|(a & r & -> & Ha)].
    - right. intros a u p _ _ ->. apply Hn. unfold plain_payload. set_solver.
    - destruct (split_nul r) as [Hr|(u & p & -> & Hu)]; [right|left; by exists a, u, p].
      intros a' u' p' Ha' Hu' E. apply Hr.
      assert (r = u' ++ Byte.x00 :: p') as ->; [|set_solver].
      unfold plain_payload in E. by apply app_inj_nul in E as [_ E]. }
  - rewrite ParsePlain_payload by done. split; [|done]. intros c. split.
    + intros [= <-]. simpl. by autorewrite with kroxyrw.
    + intros (E & Ha' & Hu'). apply app_inj_nul in E as [-> E]; [|done..].
      apply app_inj_nul in E as [-> ->]; [|done..]. autorewrite with kroxyrw. by destruct c.
  - rewrite ParsePlain_malformed by done. split; [|done]. intros c. split; [done|].
    intros (E & Ha' & Hu'). by destruct (Hno _ _ _ Ha' Hu' E).
Qed.
End Plain.

(** * SASLnames *)
Section SASLname.
Implicit Types (s n raw p b : string).

(** The RFC 5802 escaping of a name. *)
Definition escape (c : ascii) : string :=
  if Ascii.eqb c "," then "=2C" else if Ascii.eqb c "=" then "=3D" else String c "".
Fixpoint encodeSASLname (n : string) : string :=
  match n with
  | EmptyString => EmptyString
  | String c n => escape c +:+ encodeSASLname n
  end.

Lemma decode_loop_done fuel raw b : decodeSASLname_loop fuel raw (String.length raw) b = Ok b.
Proof. destruct fuel; simpl; [done|]. by rewrite Nat.ltb_irrefl. Qed.

(** One iteration, at the end of the prefix [p] of the input. *)
Lemma decode_loop_step fuel p c s b :
  decodeSASLname_loop (S fuel) (p +:+ String c s) (String.length p) b =
  if Ascii.eqb c "," then Err err_comma
  else if Ascii.eqb c "=" then
    match s with
    | String x (String y s') =>
        if (String x (String y "") =? "2C")%string
        then decodeSASLname_loop fuel ((p +:+ String c (String x (String y ""))) +:+ s')
               (String.length (p +:+ String c (String x (String y "")))) (b +:+ ",")
        else if (String x (String y "") =? "3D")%string
        then decodeSASLname_loop fuel ((p +:+ String c (String x (String y ""))) +:+ s')
               (String.length (p +:+ String c (String x (String y "")))) (b +:+ "=")
        else Err (ErrNew "decodeSASLname: invalid escape =%s" [FStr (String x (String y ""))])
    | _ => Err (ErrNew "decodeSASLname: truncated escape" [])
    end
  else decodeSASLname_loop fuel ((p +:+ String c "") +:+ s) (String.length (p +:+ String c ""))
         (b +:+ String c "").
Proof.
  cbn [decodeSASLname_loop].
  rewrite (proj2 (Nat.ltb_lt _ _)) by (rewrite slength_app; simpl; lia). simpl negb. cbn iota.
  rewrite sindex_app. cbn [rbind]. destruct (Ascii.eqb c ","); [done|].
  destruct (Ascii.eqb c "="); [|by rewrite sapp_assoc, slength_app].
  destruct s as [|x [|y s']];
    [by rewrite (proj2 (Nat.leb_le _ _)) by (rewrite slength_app; simpl; lia)..|].
  rewrite (proj2 (Nat.leb_gt _ _)) by (rewrite slength_app; simpl; lia).
  replace (p +:+ String c (String x (String y s')))
    with ((p +:+ String c "") +:+ String x (String y "") +:+ s') by (by rewrite sapp_assoc).
  replace (String.length p + 1) with (String.length (p +:+ String c "")) by (by rewrite slength_app).
  replace (String.length p + 3) with
    (String.length (p +:+ String c "") + String.length (String x (String y "")))
    by (rewrite slength_app; simpl; lia).
  rewrite sslice_app. cbn [rbind]. rewrite !slength_app. simpl String.length.
  rewrite !sapp_assoc. by replace (String.length p + 1 + 2) with (String.length p + 3) by lia.
Qed.

Lemma decode_loop_encode n p b fuel :
  String.length (encodeSASLname n) <= fuel ->
  decodeSASLname_loop fuel (p +:+ encodeSASLname n) (String.length p) b = Ok (b +:+ n).
Proof.
  revert p b fuel. induction n as [|c n IH]; intros p b fuel Hf; simpl in *.
  - rewrite !sapp_nil_r. apply decode_loop_done.
  - assert (b +:+ String c n = (b +:+ String c "") +:+ n) as -> by (by rewrite sapp_assoc).
    destruct fuel as [|fuel]; [unfold escape in Hf; repeat case_match; simpl in Hf; lia|].
    unfold escape in *. destruct (Ascii.eqb_spec c ",") as [->|H1];
      [|destruct (Ascii.eqb_spec c "=") as [->|H2]];
      rewrite slength_app in Hf; simpl in Hf; rewrite !sapp_cons, decode_loop_step; simpl;
      [apply IH; lia..|].
    rewrite (proj2 (Ascii.eqb_neq c _) H1), (proj2 (Ascii.eqb_neq c _) H2). apply IH. lia.
Qed.

Lemma decode_loop_sound fuel p s b :
  String.length s <= fuel ->
  (exists n, s = encodeSASLname n) \/
  exists e, decodeSASLname_loop fuel (p +:+ s) (String.length p) b = Err e.
Proof.
  revert p s b. induction fuel as [fuel IH] using lt_wf_ind. intros p s b Hf.
  destruct s as [|c s]; [by left; exists ""|]. simpl in Hf. destruct fuel as [|fuel]; [lia|].
  rewrite decode_loop_step. destruct (Ascii.eqb_spec c ",") as [->|H1]; [by eauto|].
  destruct (Ascii.eqb_spec c "=") as [->|H2].
  - destruct s as [|x [|y s']]; [by eauto..|]. simpl in Hf.
    destruct (String.eqb_spec (String x (String y "")) "2C") as [[= -> ->]|_];
      [|destruct (String.eqb_spec (String x (String y "")) "3D") as [[= -> ->]|_]; [|by eauto]].
    + destruct (IH fuel ltac:(lia) (p +:+ String "=" (String "2" (String "C" ""))) s' (b +:+ ","))
        as [[n ->]|?]; [lia|left; by exists (String "," n)|by right].
    + destruct (IH fuel ltac:(lia) (p +:+ String "=" (String "3" (String "D" ""))) s' (b +:+ "="))
        as [[n ->]|?]; [lia|left; by exists (String "=" n)|by right].
  - destruct (IH fuel ltac:(lia) (p +:+ String c "") s (b +:+ String c "")) as [[n ->]|?];
      [lia|left; exists (String c n)|by right].
    simpl. unfold escape.
    by rewrite (proj2 (Ascii.eqb_neq c _) H1), (proj2 (Ascii.eqb_neq c _) H2).
Qed.

Lemma escape_eq c t n :
  IndexByte (escape c +:+ encodeSASLname n) t = None ->
  IndexByte (escape c) t = None /\ IndexByte (encodeSASLname n) t = None.
Proof. apply IndexByte_app. Qed.

Lemma encodeSASLname_no_comma n : IndexByte (encodeSASLname n) "," = None.
Proof.
  induction n as [|c n IH]; [done|]. apply IndexByte_app. split; [|done].
  unfold escape. destruct (Ascii.eqb c ",") eqn:E; [done|].
  destruct (Ascii.eqb c "="); [done|]. simpl. by rewrite E.
Qed.

(** A name without special characters is its own escaping, and conversely. *)
Lemma encodeSASLname_plain n :
  IndexByte n "," = None -> IndexByte n "=" = None -> encodeSASLname n = n.
Proof.
  induction n as [|c n IH]; [done|]. simpl. unfold escape.
  destruct (Ascii.eqb c ","); [done|]. destruct (Ascii.eqb c "="); [done|].
  intros H1%fmap_None H2%fmap_None. by rewrite IH.
Qed.
Lemma encodeSASLname_no_eq n : IndexByte (encodeSASLname n) "=" = None -> encodeSASLname n = n.
Proof.
  induction n as [|c n IH]; [done|]. simpl. intros [Hc Hn]%escape_eq. rewrite IH by done.
  unfold escape in *. destruct (Ascii.eqb c ","); [done|]. by destruct (Ascii.eqb c "=").
Qed.

Lemma decodeSASLname_encode n : decodeSASLname (encodeSASLname n) = Ok n.
Proof.
  unfold decodeSASLname, ContainsRune. rewrite encodeSASLname_no_comma.
  destruct (IndexByte (encodeSASLname n) "=") eqn:E; simpl.
  - by apply (decode_loop_encode n "" "").
  - by rewrite encodeSASLname_no_eq.
Qed.

Lemma decodeSASLname_cases raw :
  (exists n, raw = encodeSASLname n) \/ exists e, decodeSASLname raw = Err e.
Proof.
  unfold decodeSASLname, ContainsRune. destruct (IndexByte raw "=") eqn:E; simpl.
  - by apply (decode_loop_sound _ "").
  - destruct (IndexByte raw ",") eqn:E'; [by eauto|]. left. exists raw.
    by rewrite encodeSASLname_plain.
Qed.

Lemma decodeSASLname_iff raw n : decodeSASLname raw = Ok n <-> raw = encodeSASLname n.
Proof.
  split; [|intros ->; apply decodeSASLname_encode].
  destruct (decodeSASLname_cases raw) as [[m ->]|[e ->]]; [|done].
  rewrite decodeSASLname_encode. by intros [= ->].
Qed.

(** [decodeSASLname] is the inverse of the RFC 5802 escaping: it accepts
    exactly the escapings of names, each name has exactly one accepted form, and
    every other input (stray comma, stray or unknown escape, truncated escape)
    is an error; it never slices out of range. *)
Theorem decodeSASLname_grammar raw :
  (forall n, decodeSASLname raw = Ok n <-> raw = encodeSASLname n) /\ decodeSASLname raw <> Panic.
Proof.
  split; [apply decodeSASLname_iff|].
  destruct (decodeSASLname_cases raw) as [[m ->]|[e ->]]; [|done]. by rewrite decodeSASLname_encode.
Qed.
End SASLname.

(** * The client-first-message *)
Section ClientFirst.
Implicit Types (a e r s n : string).

Definition no_comma s : Prop := IndexByte s "," = None.

Lemma cutByte_app a r : no_comma a -> cutByte (a +:+ String "," r) "," = (a, r, true).
Proof.
  intros Ha. unfold cutByte. rewrite IndexByte_app_None by done.
  rewrite stake_app. replace (a +:+ String "," r) with ((a +:+ ",") +:+ r) by (by rewrite sapp_assoc).
  replace (String.length a + 1) with (String.length (a +:+ ",")) by (by rewrite slength_app).
  by rewrite sdrop_app.
Qed.
Lemma cutByte_spec s x y ok :
  cutByte s "," = (x, y, ok) -> if ok then s = x +:+ String "," y /\ no_comma x else no_comma s.
Proof.
  unfold cutByte. destruct (IndexByte s ",") as [i|] eqn:E; intros [= <- <- <-]; [|done].
  apply IndexByte_Some in E as [E Hn]. by rewrite Nat.add_1_r.
Qed.

(** The optional [reserved-mext ","]. *)
Definition mext (o : option string) : string :=
  match o with None => "" | Some e => "m=" +:+ e +:+ "," end.

(** What the parser accepts: [a] is the authzid, [o] the reserved extension, [n] the
    name; what follows the name's comma, [r], is not looked at.  The comment on the
    function asks for ["r=" c-nonce] there and has no extension. *)
Definition client_first a (o : option string) n r : string :=
  "n," +:+ a +:+ "," +:+ mext o +:+ "n=" +:+ encodeSASLname n +:+ "," +:+ r.

Lemma HasPrefix_cons2 x y s : HasPrefix s (String x (String y "")) = true ->
  exists t, s = String x (String y t) /\ sslice s 2 (String.length s) = Ok t.
Proof.
  intros [t ->]%HasPrefix_spec. exists t. split; [done|].
  replace (String x (String y "") +:+ t) with (String x (String y "") +:+ t +:+ "")
    by (by rewrite sapp_nil_r).
  assert (String.length (String x (String y "") +:+ t +:+ "") = 2 + String.length t) as ->
    by (rewrite !slength_app; simpl; lia).
  apply (sslice_app (String x (String y ""))).
Qed.

Lemma Parse_client_first a o n r :
  no_comma a -> (forall e, o = Some e -> no_comma e) -> n <> "" ->
  ParseSCRAMClientFirstUsername (bytes_of_string (client_first a o n r)) = Ok n.
Proof.
  intros Ha Ho Hn. unfold ParseSCRAMClientFirstUsername. rewrite string_of_bytes_of_string.
  set (bare := "n=" +:+ encodeSASLname n +:+ "," +:+ r).
  rewrite (cutByte_app "n" (a +:+ String "," (mext o +:+ bare)) eq_refl
    : cutByte (client_first a o n r) "," = _). simpl.
  rewrite (cutByte_app a (mext o +:+ bare) Ha). cbn [negb].
  assert ((if HasPrefix (mext o +:+ bare) "m="
    then let '(_, after, ok) := cutByte (mext o +:+ bare) "," in
      if negb ok then Err (scram_err "ParseSCRAMClientFirstUsername: malformed reserved-mext")
      else Ok after
    else Ok (mext o +:+ bare)) = Ok bare) as ->.
  { destruct o as [e|]; [|done]. simpl mext. rewrite !sapp_assoc, HasPrefix_app.
    assert (no_comma ("m=" +:+ e)) as Hm by (apply IndexByte_app; split; [done|by apply Ho]).
    by rewrite (cutByte_app _ bare Hm : cutByte ("m=" +:+ e +:+ "," +:+ bare) _ = _). }
  cbn [rbind]. destruct (HasPrefix_cons2 "n" "=" bare (HasPrefix_app "n=" _)) as (t & Et & ->).
  injection Et as <-. rewrite (HasPrefix_app "n=" _ : HasPrefix bare "n=" = true). cbn [negb rbind].
  rewrite (cutByte_app _ r (encodeSASLname_no_comma n)
    : cutByte ("" +:+ encodeSASLname n +:+ "," +:+ r) _ = _). cbn [negb].
  destruct (String.eqb_spec (encodeSASLname n) "") as [E|_].
  { destruct n as [|c n]; [done|]. exfalso. revert E. simpl. unfold escape.
    by destruct (Ascii.eqb c ","), (Ascii.eqb c "="). }
  by rewrite decodeSASLname_encode.
Qed.

Lemma Parse_cases payload :
  (exists err, ParseSCRAMClientFirstUsername payload = Err err) \/
  exists n a o r, n <> "" /\ no_comma a /\ (forall e, o = Some e -> no_comma e) /\
    payload = bytes_of_string (client_first a o n r).
Proof.
  rewrite <-(bytes_of_string_of_bytes payload). generalize (string_of_bytes payload) as s.
  intros s. unfold ParseSCRAMClientFirstUsername. rewrite string_of_bytes_of_string.
  destruct (cutByte s ",") as [[cb rest] [|]] eqn:E1; [|by eauto]. apply cutByte_spec in E1 as [-> _].
  cbn [negb]. destruct (String.eqb_spec cb "n") as [->|_]; [|destruct (_ || _); by eauto].
  cbn [rbind]. destruct (cutByte rest ",") as [[a bare] [|]] eqn:E2; [|by eauto].
  apply cutByte_spec in E2 as [-> Ha]. cbn [negb].
  assert ((exists o bare', bare = mext o +:+ bare' /\ (forall e, o = Some e -> no_comma e) /\
    (if HasPrefix bare "m=" then
       let '(_, after, ok) := cutByte bare "," in
       if negb ok then Err (scram_err "ParseSCRAMClientFirstUsername: malformed reserved-mext")
       else Ok after
     else Ok bare) = Ok bare') \/ exists err,
    (if HasPrefix bare "m=" then
       let '(_, after, ok) := cutByte bare "," in
       if negb ok then Err (scram_err "ParseSCRAMClientFirstUsername: malformed reserved-mext")
       else Ok after
     else Ok bare) = Err err) as [(o & bare' & -> & Ho & ->)|[e ->]];
    [| |by eauto].
  { destruct (HasPrefix bare "m=") eqn:Em; [|left; by exists None, bare].
    destruct (cutByte bare ",") as [[x after] [|]] eqn:E3; [|right; by eauto].
    apply cutByte_spec in E3 as [-> Hx]. left.
    apply HasPrefix_spec in Em as [t Et]. destruct x as [|c1 [|c2 x]]; try done.
    injection Et as -> -> Et. exists (Some x), after. split; [simpl; by rewrite !sapp_assoc|].
    split; [|done]. intros e [= <-]. by apply (IndexByte_app "m=" x "," : _ <-> _) in Hx as [_ Hx]. }
  cbn [rbind]. destruct (HasPrefix bare' "n=") eqn:En; [|by eauto]. cbn [negb].
  apply HasPrefix_cons2 in En as (t & -> & ->). cbn [rbind].
  destruct (cutByte t ",") as [[raw r] [|]] eqn:E4; [|by eauto]. apply cutByte_spec in E4 as [-> _].
  cbn [negb]. destruct (String.eqb_spec raw "") as [|Hraw]; [by eauto|].
  destruct (decodeSASLname_cases raw) as [[n ->]|[e ->]]; [|by eauto].
  right. exists n, a, o, r. split_and!; [by intros ->|done..].
Qed.

Lemma ParseSCRAM_no_panic payload : ParseSCRAMClientFirstUsername payload <> Panic.
Proof.
  destruct (Parse_cases payload) as [[e ->]|(n & a & o & r & Hn & Ha & Ho & ->)]; [done|].
  by rewrite Parse_client_first.
Qed.

(** C32: [ParseSCRAMClientFirstUsername] accepts exactly the messages that start with
    the flag "n" (no channel binding), an authzid without comma, an optional
    reserved extension ["m=..."], and ["n="] with a non-empty escaped SASLname
    followed by a comma, whatever follows it: wider than the grammar of its
    comment, which has no extension and asks for ["r=" c-nonce] after the name.
    It returns the unescaped name.  Everything else, channel binding included, is an
    error, never a panic. *)
Theorem ParseSCRAM_grammar payload :
  (forall n, ParseSCRAMClientFirstUsername payload = Ok n <->
     n <> "" /\ exists a o r, no_comma a /\ (forall e, o = Some e -> no_comma e) /\
       payload = bytes_of_string (client_first a o n r)) /\
  ParseSCRAMClientFirstUsername payload <> Panic.
Proof.
  assert ((exists err, ParseSCRAMClientFirstUsername payload = Err err) \/
    exists n a o r, n <> "" /\ no_comma a /\ (forall e, o = Some e -> no_comma e) /\
      payload = bytes_of_string (client_first a o n r)) as Hcases
    by apply Parse_cases.
  destruct Hcases as [[e He]|(n & a & o & r & Hn & Ha & Ho & ->)].
  - rewrite He. split; [|done]. intros n. split; [done|]. intros (Hn & a & o & r & Ha & Ho & ->).
    by rewrite Parse_client_first in He.
  - rewrite Parse_client_first by done. split; [|done]. intros n'. split.
    + intros [= <-]. eauto 10.
    + intros (Hn' & a' & o' & r' & Ha' & Ho' & E).
      pose proof (Parse_client_first a' o' n' r' Ha' Ho' Hn') as E'.
      rewrite <-E, Parse_client_first in E' by done. done.
Qed.
End ClientFirst.
