(* ===== verification/Resolver.v ===== *)
(** Package [resolver]: tenants, the [Resolver] interface with what it promises
    to its clients, and the in-memory implementation (memory.go, factory.go). *)
From Stdlib Require Import ZArith Lia.
From stdpp Require Import base list gmap strings tactics.
From S2P Require Import Prelude.
Local Open Scope string_scope.

(** * resolver.go *)
Record Tenant : Type := MkTenant {
  ID : string;
  TopicPrefix : string;
  Upstream : string
}.
#[global] Instance Tenant_eq_dec : EqDecision Tenant.
Proof. solve_decision. Defined.

(** The interface: the operations of a store whose state is [S].  [List] is
    given the order in which the map is ranged over, which Go leaves open. *)
Record Resolver (S : Type) : Type := MkResolver {
  Get : string -> M S Tenant;
  Set_ : Tenant -> M S unit;
  Delete : string -> M S unit;
  List : M S (list Tenant)
}.
Arguments Get {S} _ _ _.
Arguments Set_ {S} _ _ _.
Arguments Delete {S} _ _ _.
Arguments List {S} _ _.

(** * memory.go *)
Record memoryResolver : Type := MkMemory { tenants : gmap string Tenant }.

Definition validateTenant (t : Tenant) : res unit :=
  if ID t =? "" then Err (Wrap (ErrSent ErrInvalidTenant) "empty tenant id")
  else if TopicPrefix t =? "" then Err (Wrap (ErrSent ErrInvalidTenant) "empty topic prefix")
  else if Upstream t =? "" then Err (Wrap (ErrSent ErrInvalidTenant) "empty upstream")
  else Ok tt.

Fixpoint newMemoryResolver_loop (ts : list Tenant) (m : gmap string Tenant)
    : res (gmap string Tenant) :=
  match ts with
  | [] => Ok m
  | t :: ts =>
      let? _ := rwrap "newMemoryResolver" (validateTenant t) in
      match m !! ID t with
      | Some _ => Err (ErrWrap (ErrSent ErrDuplicate) "newMemoryResolver: %s" [FStr (ID t)])
      | None => newMemoryResolver_loop ts (<[ID t := t]> m)
      end
  end.
Definition newMemoryResolver (ts : list Tenant) : res memoryResolver :=
  let? m := newMemoryResolver_loop ts ∅ in Ok (MkMemory m).

Definition memGet (id : string) : M memoryResolver Tenant :=
  fun m => match tenants m !! id with
           | None => (Err (ErrSent ErrUnauthorized), m)
           | Some t => (Ok t, m)
           end.

Definition memSet (t : Tenant) : M memoryResolver unit :=
  let! _ := wrap "memoryResolver.Set" (lift (validateTenant t)) in
  fun m => match tenants m !! ID t with
           | Some _ => (Err (ErrWrap (ErrSent ErrDuplicate) "memoryResolver.Set: %s" [FStr (ID t)]), m)
           | None => (Ok tt, MkMemory (<[ID t := t]> (tenants m)))
           end.

Definition memDelete (id : string) : M memoryResolver unit :=
  if id =? "" then fail (Wrap (ErrSent ErrInvalidTenant) "memoryResolver.Delete: empty tenant id")
  else fun m =>
    match tenants m !! id with
    | None => (Err (ErrWrap (ErrSent ErrNotFound) "memoryResolver.Delete: %s" [FStr id]), m)
    | Some _ => (Ok tt, MkMemory (delete id (tenants m)))
    end.

(** [for _, t := range m.tenants]: [order] is the iteration order of the run. *)
Definition memList (order : list Tenant -> list Tenant) : M memoryResolver (list Tenant) :=
  fun m => (Ok (order (snd <$> map_to_list (tenants m))), m).

Definition memory (order : list Tenant -> list Tenant) : Resolver memoryResolver :=
  MkResolver _ memGet memSet memDelete (memList order).

(** * factory.go *)
Record Config : Type := MkConfig { Type_ : string; Memory_Tenants : list Tenant }.

Definition New (cfg : Config) : res memoryResolver :=
  if (Type_ cfg =? "") || (Type_ cfg =? "memory") then newMemoryResolver (Memory_Tenants cfg)
  else Err (ErrNew "New: unknown resolver type %q" [FStr (Type_ cfg)]).

(** * What a resolver promises

    The abstract store is a finite map from ids to tenants.  A concrete store
    implements it through [table], as long as its invariant [Inv] holds. *)
Definition valid (t : Tenant) : Prop := ID t <> "" /\ TopicPrefix t <> "" /\ Upstream t <> "".
#[global] Instance valid_dec t : Decision (valid t).
Proof. unfold valid. apply _. Defined.

(** Every tenant of the table is valid and stored under its own id. *)
Definition well_formed (m : gmap string Tenant) : Prop :=
  map_Forall (fun id t => ID t = id /\ valid t) m.

(** The effect of the mutators on the abstract table, with the error reported. *)
Definition spec_Set (t : Tenant) (m : gmap string Tenant) : option sentinel * gmap string Tenant :=
  if decide (valid t) then
    match m !! ID t with
    | Some _ => (Some ErrDuplicate, m)
    | None => (None, <[ID t := t]> m)
    end
  else (Some ErrInvalidTenant, m).
Definition spec_Delete (id : string) (m : gmap string Tenant)
    : option sentinel * gmap string Tenant :=
  if decide (id = "") then (Some ErrInvalidTenant, m)
  else match m !! id with
       | None => (Some ErrNotFound, m)
       | Some _ => (None, delete id m)
       end.

(** A call succeeds, or fails with an error that [Is] the given sentinel. *)
Definition outcome {A} (r : res A) (o : option sentinel) : Prop :=
  match o with
  | None => exists a, r = Ok a
  | Some s => exists e, r = Err e /\ Is e s = true
  end.

Class ResolverLaws {S} (r : Resolver S) (table : S -> gmap string Tenant) (Inv : S -> Prop) : Prop := {
  table_wf s : Inv s -> well_formed (table s);
  Get_law s id : Inv s ->
    Get r id s = (match table s !! id with
                  | Some t => Ok t
                  | None => Err (ErrSent ErrUnauthorized)
                  end, s);
  Set_law s t : Inv s ->
    let (o, m') := spec_Set t (table s) in
    outcome (Set_ r t s).1 o /\ table (Set_ r t s).2 = m' /\ Inv (Set_ r t s).2;
  Delete_law s id : Inv s ->
    let (o, m') := spec_Delete id (table s) in
    outcome (Delete r id s).1 o /\ table (Delete r id s).2 = m' /\ Inv (Delete r id s).2;
  List_law s : Inv s ->
    exists l, List r s = (Ok l, s) /\ l ≡ₚ (snd <$> map_to_list (table s))
}.
