(* ===== verification/ResolverFacts.v ===== *)
(** The in-memory resolver implements the interface's contract, and what
    follows for any sequence of calls (Store.v reduces the interleavings of
    concurrent calls to such sequences). *)
From Stdlib Require Import ZArith Lia.
From stdpp Require Import base list gmap strings tactics.
From S2P Require Import Prelude Resolver.

Lemma validate_valid t : valid t -> validateTenant t = Ok tt.
Proof.
  intros (H1 & H2 & H3). unfold validateTenant.
  by rewrite !(proj2 (String.eqb_neq _ _)) by done.
Qed.
Lemma validate_invalid t :
  ~ valid t -> exists e, validateTenant t = Err e /\ Is e ErrInvalidTenant = true.
Proof.
  intros Hn. unfold validateTenant, valid in *.
  repeat (match goal with |- context [(?x =? "")%string] => destruct (String.eqb_spec x "") end;
    [by eexists|]). naive_solver.
Qed.

Lemma well_formed_insert m t : well_formed m -> valid t -> well_formed (<[ID t := t]> m).
Proof. intros Hm Ht. by apply map_Forall_insert_2. Qed.
Lemma well_formed_delete m id : well_formed m -> well_formed (delete id m).
Proof. intros Hm. by apply map_Forall_delete. Qed.
Lemma well_formed_ID m id t : well_formed m -> m !! id = Some t -> ID t = id.
Proof. intros Hm Ht. by apply (Hm _ _ Ht). Qed.
#[export] Hint Resolve well_formed_insert well_formed_delete : kroxy.

(** * The memory implementation *)
Section Memory.
Context (order : list Tenant -> list Tenant) (order_perm : forall l, order l ≡ₚ l).

Lemma memSet_spec s t :
  let (o, m') := spec_Set t (tenants s) in
  outcome (memSet t s).1 o /\ (memSet t s).2 = MkMemory m'.
Proof.
  unfold spec_Set, memSet, wrap, lift, bind. case_decide as Hv.
  - rewrite validate_valid by done. simpl.
    destruct (tenants s !! ID t); simpl; split; try (by eexists); by destruct s.
  - destruct (validate_invalid t Hv) as (e & -> & He). simpl. split; [by eexists|by destruct s].
Qed.
Lemma memDelete_spec s id :
  let (o, m') := spec_Delete id (tenants s) in
  outcome (memDelete id s).1 o /\ (memDelete id s).2 = MkMemory m'.
Proof.
  unfold spec_Delete, memDelete, fail. case_decide as Hv.
  - subst. simpl. split; [by eexists|by destruct s].
  - rewrite (proj2 (String.eqb_neq id _) Hv).
    destruct (tenants s !! id); simpl; split; try (by eexists); by destruct s.
Qed.

Lemma spec_Set_wf t m : well_formed m -> well_formed (spec_Set t m).2.
Proof. intros Hm. unfold spec_Set. case_decide; [|done]. case_match; simpl; auto with kroxy. Qed.
Lemma spec_Delete_wf id m : well_formed m -> well_formed (spec_Delete id m).2.
Proof. intros Hm. unfold spec_Delete. case_decide; [done|]. case_match; simpl; auto with kroxy. Qed.

#[global] Instance memory_laws :
  ResolverLaws (memory order) tenants (fun s => well_formed (tenants s)).
Proof.
  split; simpl.
  - done.
  - intros s id _. unfold memGet. by case_match.
  - intros s t Hs. pose proof (memSet_spec s t) as H. pose proof (spec_Set_wf t _ Hs).
    destruct (spec_Set t (tenants s)) as [o m'], H as [? ->]. done.
  - intros s id Hs. pose proof (memDelete_spec s id) as H. pose proof (spec_Delete_wf id _ Hs).
    destruct (spec_Delete id (tenants s)) as [o m'], H as [? ->]. done.
  - intros s _. eexists. split; [done|]. apply order_perm.
Qed.
End Memory.

(** * Construction *)

(** The table built from a list of tenants. *)
Definition table_of (ts : list Tenant) : gmap string Tenant :=
  list_to_map ((fun t => (ID t, t)) <$> ts).

(** The first tenant the constructor stops at, with the reason. *)
Definition first_bad (ts : list Tenant) (e : error) : Prop :=
  exists ts1 t ts2, ts = ts1 ++ t :: ts2 /\ Forall valid ts1 /\ NoDup (ID <$> ts1) /\
    (~ valid t /\ Is e ErrInvalidTenant = true \/
     valid t /\ ID t ∈ ID <$> ts1 /\ Is e ErrDuplicate = true).

(** The loop, having accepted [done] so far. *)
Lemma new_loop_spec ts done_ :
  Forall valid done_ -> NoDup (ID <$> done_) ->
  match newMemoryResolver_loop ts (table_of (reverse done_)) with
  | Ok m' => Forall valid (done_ ++ ts) /\ NoDup (ID <$> done_ ++ ts) /\
             m' = table_of (reverse (done_ ++ ts))
  | Err e => first_bad (done_ ++ ts) e
  | Panic => False
  end.
Proof.
  revert done_. induction ts as [|t ts IH]; intros d Hd Hnd; simpl; [by rewrite app_nil_r|].
  destruct (decide (valid t)) as [Hv|Hv]; [rewrite validate_valid by done; simpl|].
  - destruct (table_of (reverse d) !! ID t) as [t'|] eqn:E.
    + exists d, t, ts. split_and!; [done..|]. right. split_and!; [done| |done].
      apply elem_of_list_to_map_2 in E. apply list_elem_of_fmap in E as (x & [= -> ->] & Hx).
      apply list_elem_of_fmap. exists x. by rewrite elem_of_reverse in Hx.
    + replace (<[ID t := t]> (table_of (reverse d))) with (table_of (reverse (d ++ [t])))
        by (by rewrite reverse_snoc).
      replace (d ++ t :: ts) with ((d ++ [t]) ++ ts) by (by rewrite <-app_assoc).
      apply IH; [apply Forall_app; auto|].
      rewrite fmap_app. apply list.NoDup_app. split_and!; [done| |apply NoDup_singleton].
      intros id Hid ->%list_elem_of_singleton.
      apply not_elem_of_list_to_map_2 in E. apply E. rewrite <-list_fmap_compose.
      rewrite fmap_reverse. by rewrite elem_of_reverse.
  - destruct (validate_invalid t Hv) as (e & -> & He). simpl.
    exists d, t, ts. split_and!; [done..|]. by left.
Qed.

Lemma table_of_wf ts : Forall valid ts -> well_formed (table_of ts).
Proof.
  intros Hv id t Ht. apply elem_of_list_to_map_2 in Ht.
  apply list_elem_of_fmap in Ht as (x & [= -> ->] & Hx). 
  split; [done|]. by apply (proj1 (list.Forall_forall _ _) Hv).
Qed.
Lemma table_of_lookup ts t : NoDup (ID <$> ts) -> t ∈ ts -> table_of ts !! ID t = Some t.
Proof.
  intros Hnd Ht. apply elem_of_list_to_map_1.
  - by rewrite <-list_fmap_compose.
  - apply list_elem_of_fmap. by exists t.
Qed.

Lemma newMemoryResolver_spec ts :
  match newMemoryResolver ts with
  | Ok m => Forall valid ts /\ NoDup (ID <$> ts) /\ tenants m = table_of (reverse ts)
  | Err e => first_bad ts e
  | Panic => False
  end.
Proof.
  unfold newMemoryResolver. pose proof (new_loop_spec ts []) as H.
  change (table_of (reverse [])) with (∅ : gmap string Tenant) in H.
  destruct (newMemoryResolver_loop ts ∅) as [m|e|]; simpl in *; [|by apply H; constructor..].
  destruct H as (? & ? & ->); [constructor..|]. done.
Qed.

(** ... and the table holds exactly the tenants given. *)
Lemma newMemoryResolver_lookup ts m :
  newMemoryResolver ts = Ok m -> forall t, tenants m !! ID t = Some t <-> t ∈ ts.
Proof.
  intros E t. pose proof (newMemoryResolver_spec ts) as H. rewrite E in H.
  destruct H as (Hv & Hnd & ->). split.
  - intros Ht'%elem_of_list_to_map_2. apply list_elem_of_fmap in Ht' as (x & [= _ ->] & Hx).
    by rewrite elem_of_reverse in Hx.
  - intros Hin. apply table_of_lookup; [|by apply elem_of_reverse].
    by rewrite fmap_reverse, reverse_Permutation.
Qed.

Lemma newMemoryResolver_wf ts m : newMemoryResolver ts = Ok m -> well_formed (tenants m).
Proof.
  intros E. pose proof (newMemoryResolver_spec ts) as H. rewrite E in H.
  destruct H as (Hv & _ & ->). apply table_of_wf. rewrite Forall_reverse. done.
Qed.

(** * Sequences of calls *)
Inductive rop : Type :=
| OpGet (id : string)
| OpSet (t : Tenant)
| OpDelete (id : string)
| OpList.
Inductive rval : Type :=
| VTenant (t : Tenant)
| VUnit
| VList (l : list Tenant).

Definition call {S} (r : Resolver S) (o : rop) : M S rval :=
  match o with
  | OpGet id => let! t := Get r id in ret (VTenant t)
  | OpSet t => let! _ := Set_ r t in ret VUnit
  | OpDelete id => let! _ := Delete r id in ret VUnit
  | OpList => let! l := List r in ret (VList l)
  end.

Fixpoint run {S} (r : Resolver S) (ops : list rop) (s : S) : list (res rval) * S :=
  match ops with
  | [] => ([], s)
  | o :: ops => let '(v, s1) := call r o s in let '(vs, s2) := run r ops s1 in (v :: vs, s2)
  end.

(** The abstract machine: a finite map, and per call a value or a sentinel. *)
Definition spec_call (o : rop) (m : gmap string Tenant) : (sentinel + rval) * gmap string Tenant :=
  match o with
  | OpGet id => (match m !! id with Some t => inr (VTenant t) | None => inl ErrUnauthorized end, m)
  | OpSet t => let '(e, m') := spec_Set t m in
               (match e with None => inr VUnit | Some e => inl e end, m')
  | OpDelete id => let '(e, m') := spec_Delete id m in
               (match e with None => inr VUnit | Some e => inl e end, m')
  | OpList => (inr (VList (snd <$> map_to_list m)), m)
  end.
Fixpoint spec_run (ops : list rop) (m : gmap string Tenant)
    : list (sentinel + rval) * gmap string Tenant :=
  match ops with
  | [] => ([], m)
  | o :: ops => let '(v, m1) := spec_call o m in let '(vs, m2) := spec_run ops m1 in (v :: vs, m2)
  end.

(** A result of the implementation against a result of the machine: lists agree
    up to order, errors up to the sentinel they wrap. *)
Definition agrees (c : res rval) (a : sentinel + rval) : Prop :=
  match a with
  | inl s => exists e, c = Err e /\ Is e s = true
  | inr (VList l) => exists l', c = Ok (VList l') /\ l' ≡ₚ l
  | inr v => c = Ok v
  end.

Section Clients.
Context {S : Type} (r : Resolver S) (table : S -> gmap string Tenant) (Inv : S -> Prop).
Context `{!ResolverLaws r table Inv}.

Lemma call_refines o s :
  Inv s ->
  agrees (call r o s).1 (spec_call o (table s)).1 /\
  table (call r o s).2 = (spec_call o (table s)).2 /\ Inv (call r o s).2.
Proof.
  intros Hs. destruct o as [id|t|id|]; simpl; unfold bind, ret.
  - rewrite (Get_law s id) by done. by destruct (table s !! id); simpl; eauto.
  - pose proof (Set_law s t Hs) as H. destruct (spec_Set t (table s)) as [[e|] m'];
      destruct (Set_ r t s) as [[[]|e'|] s']; simpl in *; naive_solver.
  - pose proof (Delete_law s id Hs) as H. destruct (spec_Delete id (table s)) as [[e|] m'];
      destruct (Delete r id s) as [[[]|e'|] s']; simpl in *; naive_solver.
  - destruct (List_law s Hs) as (l & -> & Hl). simpl. naive_solver.
Qed.

Lemma run_refines ops s :
  Inv s ->
  Forall2 agrees (run r ops s).1 (spec_run ops (table s)).1 /\
  table (run r ops s).2 = (spec_run ops (table s)).2 /\ Inv (run r ops s).2.
Proof.
  revert s. induction ops as [|o ops IH]; intros s Hs; simpl; [done|].
  destruct (call_refines o s Hs) as (Ha & Ht & Hi).
  destruct (call r o s) as [v s1], (spec_call o (table s)) as [w m1]; simpl in *. subst.
  destruct (IH s1 Hi) as (Hv & Hm & Hi').
  destruct (run r ops s1) as [vs s2], (spec_run ops (table s1)) as [ws m2]; simpl in *.
  split_and!; [by constructor|done..].
Qed.
End Clients.

(** ** The abstract machine *)
Lemma spec_run_app l1 l2 m :
  spec_run (l1 ++ l2) m =
  ((spec_run l1 m).1 ++ (spec_run l2 (spec_run l1 m).2).1, (spec_run l2 (spec_run l1 m).2).2).
Proof.
  revert m. induction l1 as [|o l1 IH]; intros m; simpl; [by destruct (spec_run l2 m)|].
  destruct (spec_call o m) as [v m1]. rewrite IH. by destruct (spec_run l1 m1).
Qed.
Lemma spec_run_length l m : length (spec_run l m).1 = length l.
Proof.
  revert m. induction l as [|o l IH]; intros m; simpl; [done|].
  destruct (spec_call o m) as [v m1]. specialize (IH m1). by destruct (spec_run l m1); simpl in *; f_equal.
Qed.

Lemma spec_call_None o m id :
  m !! id = None -> (forall t, o = OpSet t -> ID t = id -> ~ valid t) ->
  (spec_call o m).2 !! id = None.
Proof.
  intros Hm Ho. destruct o as [?|t|id'|]; simpl; try done.
  - unfold spec_Set. case_decide as Hv; simpl; [|done]. destruct (m !! ID t); simpl; [done|].
    rewrite lookup_insert_ne; [done|]. naive_solver.
  - unfold spec_Delete. case_decide; simpl; [done|]. destruct (m !! id'); simpl; [|done].
    by apply lookup_delete_None; right.
Qed.
Lemma spec_call_Some o m id t :
  m !! id = Some t -> o <> OpDelete id -> (spec_call o m).2 !! id = Some t.
Proof.
  intros Hm Ho. destruct o as [?|t'|id'|]; simpl; try done.
  - unfold spec_Set. case_decide as Hv; simpl; [|done]. destruct (m !! ID t') eqn:E; simpl; [done|].
    rewrite lookup_insert_ne; [done|]. congruence.
  - unfold spec_Delete. case_decide; simpl; [done|]. destruct (m !! id'); simpl; [|done].
    rewrite lookup_delete_ne; [done|]. congruence.
Qed.

Lemma spec_run_None l m id :
  m !! id = None -> (forall t, OpSet t ∈ l -> ID t = id -> ~ valid t) ->
  (spec_run l m).2 !! id = None.
Proof.
  revert m. induction l as [|o l IH]; intros m Hm Hl; simpl; [done|].
  pose proof (spec_call_None o m id Hm) as Hc. destruct (spec_call o m) as [v m1].
  specialize (IH m1). destruct (spec_run l m1). apply IH; set_solver.
Qed.
Lemma spec_run_Some l m id t :
  m !! id = Some t -> OpDelete id ∉ l ->
  (spec_run l m).2 !! id = Some t /\
  forall i t' a, l !! i = Some (OpSet t') -> ID t' = id ->
    (spec_run l m).1 !! i = Some a -> exists s, a = inl s.
Proof.
  revert m. induction l as [|o l IH]; intros m Hm Hl; simpl; [done|].
  apply not_elem_of_cons in Hl as [Ho Hl].
  pose proof (spec_call_Some o m id t Hm) as Hc. destruct (spec_call o m) as [v m1] eqn:E.
  destruct (IH m1) as [H1 H2]; [by apply Hc|done|]. destruct (spec_run l m1). split; [done|].
  intros [|i] t' a Hi Ht' Ha; simpl in *; [|by eauto]. simplify_eq. simpl in E.
  unfold spec_Set in E. rewrite Hm in E. case_decide; simplify_eq; eauto.
Qed.

(** * Theorems *)

(** Whatever tenants the configuration lists, a resolver that [New] returns
    behaves, on every sequence of calls, as a finite map from ids to tenants:
    each call gives the map's answer (an error wrapping the documented sentinel,
    or the value; lists up to order), the final table is the map's, and every
    stored tenant is valid and filed under its own id.  The order of map
    iteration does not matter. *)
Theorem resolver_refinement cfg m0 order ops :
  New cfg = Ok m0 -> (forall l, order l ≡ₚ l) ->
  let (vs, m) := run (memory order) ops m0 in
  Forall2 agrees vs (spec_run ops (tenants m0)).1 /\
  tenants m = (spec_run ops (tenants m0)).2 /\ well_formed (tenants m).
Proof.
  intros HN Ho. assert (well_formed (tenants m0)) as Hwf.
  { unfold New in HN. destruct (_ || _); [|done]. by eapply newMemoryResolver_wf. }
  pose proof (memory_laws order Ho) as Hlaws.
  pose proof (run_refines (memory order) tenants _ ops m0 Hwf) as H. by destruct (run (memory order) ops m0).
Qed.

(** [New] succeeds exactly when the type is memory (or left out), every
    tenant has an id, a prefix and an upstream, and no id occurs twice; the
    table then holds exactly the configured tenants.  Otherwise it fails, and
    for a memory configuration the error identifies the first bad tenant:
    [ErrInvalidTenant] or [ErrDuplicate]. *)
Theorem New_spec cfg :
  (Type_ cfg = "" \/ Type_ cfg = "memory" ->
     match New cfg with
     | Ok m => Forall valid (Memory_Tenants cfg) /\ NoDup (ID <$> Memory_Tenants cfg) /\
               forall t, tenants m !! ID t = Some t <-> t ∈ Memory_Tenants cfg
     | Err e => first_bad (Memory_Tenants cfg) e
     | Panic => False
     end) /\
  (Type_ cfg <> "" -> Type_ cfg <> "memory" -> exists e, New cfg = Err e).
Proof.
  unfold New. split.
  - intros Ht. assert ((Type_ cfg =? "")%string || (Type_ cfg =? "memory")%string = true) as ->.
    { destruct Ht as [->| ->]; done. }
    pose proof (newMemoryResolver_spec (Memory_Tenants cfg)) as H.
    destruct (newMemoryResolver _) as [m|e|] eqn:E; [|done..]. destruct H as (Hv & Hnd & _).
    split_and!; [done..|]. by apply newMemoryResolver_lookup.
  - intros H1%String.eqb_neq H2%String.eqb_neq. rewrite H1, H2. simpl. by eexists.
Qed.

(** When several clients race to create the same tenant, in whatever order
    their calls reach the store, the first valid [Set] wins: it succeeds, every
    later [Set] of that id fails, and the tenant stored at the end is the
    winner's, as long as nobody deletes it. *)
Theorem first_set_wins order m t l1 l2 :
  (forall l, order l ≡ₚ l) -> well_formed (tenants m) ->
  tenants m !! ID t = None -> valid t ->
  (forall t', OpSet t' ∈ l1 -> ID t' = ID t -> ~ valid t') -> OpDelete (ID t) ∉ l2 ->
  let (vs, m') := run (memory order) (l1 ++ OpSet t :: l2) m in
  vs !! length l1 = Some (Ok VUnit) /\ tenants m' !! ID t = Some t /\
  forall i t' v, l2 !! i = Some (OpSet t') -> ID t' = ID t ->
    vs !! (length l1 + S i) = Some v -> exists e, v = Err e.
Proof.
  intros Ho Hwf Hm Hv Hl1 Hl2.
  pose proof (memory_laws order Ho) as Hlaws.
  pose proof (run_refines (memory order) tenants _ (l1 ++ OpSet t :: l2) m Hwf) as H.
  destruct (run (memory order) _ m) as [vs m']. simpl in H. destruct H as (Hvs & -> & _).
  rewrite spec_run_app in *. simpl in *.
  pose proof (spec_run_length l1 (tenants m)) as Hlen.
  pose proof (spec_run_None l1 (tenants m) (ID t) Hm Hl1) as Hnone.
  destruct (spec_run l1 (tenants m)) as [w1 m1]. simpl in *. unfold spec_Set in *.
  rewrite Hnone, decide_True in * by done.
  destruct (spec_run_Some l2 (<[ID t := t]> m1) (ID t) t) as [Hfin Hlate];
    [by rewrite lookup_insert_eq|done|].
  destruct (spec_run l2 (<[ID t := t]> m1)) as [w2 m2]. simpl in *. split_and!; [|done|].
  - destruct (Forall2_lookup_r _ _ _ (length l1) (inr VUnit) Hvs) as (v & Hl & ->); [|done].
    by rewrite <-Hlen, list_lookup_middle.
  - intros i t' v Hi Ht' Hvi.
    destruct (Forall2_lookup_l _ _ _ _ _ Hvs Hvi) as (a & Ha & Hag).
    rewrite <-Hlen, lookup_app_r in Ha by lia.
    replace (length w1 + S i - length w1) with (S i) in Ha by lia. simpl in Ha.
    destruct (Hlate _ _ _ Hi Ht' Ha) as [s ->]. naive_solver.
Qed.

(** * Witnesses *)
Module DemoTenants.
Definition alice : Tenant := MkTenant "alice" "alice-" "kafka:9092".
Definition alice2 : Tenant := MkTenant "alice" "other-" "kafka:9092".
Definition bob : Tenant := MkTenant "bob" "bob-" "kafka:9092".
Definition cfg : Config := MkConfig "memory" [bob].
Definition m0 : memoryResolver := MkMemory {[ "bob" := bob ]}.
End DemoTenants.

Lemma resolver_refinement_witness :
  let ops := [OpSet DemoTenants.alice; OpSet DemoTenants.alice2; OpGet "alice"; OpDelete "bob"] in
  let (vs, m) := run (memory id) ops DemoTenants.m0 in
  Forall2 agrees vs (spec_run ops (tenants DemoTenants.m0)).1 /\
  tenants m = (spec_run ops (tenants DemoTenants.m0)).2 /\ well_formed (tenants m).
Proof. apply (resolver_refinement DemoTenants.cfg); [vm_compute; reflexivity|done]. Defined.

Lemma New_spec_witness :
  match New DemoTenants.cfg with
  | Ok m => forall t, tenants m !! ID t = Some t <-> t ∈ Memory_Tenants DemoTenants.cfg
  | _ => False
  end.
Proof.
  pose proof (proj1 (New_spec DemoTenants.cfg) (or_intror eq_refl)) as H.
  replace (New DemoTenants.cfg) with (Ok DemoTenants.m0) in * by (by vm_compute).
  exact (proj2 (proj2 H)).
Defined.

Lemma first_set_wins_witness :
  let (vs, m') := run (memory id)
    ([OpGet "bob"] ++ OpSet DemoTenants.alice :: [OpSet DemoTenants.alice2]) DemoTenants.m0 in
  vs !! 1 = Some (Ok VUnit) /\ tenants m' !! "alice" = Some DemoTenants.alice /\
  forall i t' v, [OpSet DemoTenants.alice2] !! i = Some (OpSet t') -> ID t' = "alice" ->
    vs !! (1 + S i) = Some v -> exists e, v = Err e.
Proof.
  apply (first_set_wins id DemoTenants.m0 DemoTenants.alice [OpGet "bob"]
    [OpSet DemoTenants.alice2]); [done| |done|done|set_solver|set_solver].
  by apply map_Forall_singleton.
Defined.
