(* ===== verification/Store.v ===== *)
(** Package [resolver], the in-memory store at the level of its lock (memory.go).

    Resolver.v makes each method one step.  Here every goroutine that is inside a
    method has a program counter, and the methods interleave at every operation
    on the [sync.RWMutex] and every access to the map, an iteration of the loop of
    [List] included.  The theorems are that the methods nevertheless take effect
    one at a time, that the map is never written while another goroutine uses it,
    and that the goroutines never block each other for good. *)
From Stdlib Require Import ZArith Lia.
From stdpp Require Import base list gmap sets strings tactics.
From S2P Require Import Prelude Resolver ResolverFacts.

(** * The machine *)

(** Where a goroutine is inside a method. *)
Inductive pc : Type :=
| PStart (o : rop)                              (* the method has been called *)
| PGet (id : string)                            (* before [m.tenants[id]] *)
| PWaitSet (t : Tenant)                         (* in [Lock], the readers still inside *)
| PWaitDelete (id : string)
| PSet (t : Tenant)                             (* before the test for a duplicate *)
| PInsert (t : Tenant)                          (* before [m.tenants[t.ID] = t] *)
| PDelete (id : string)                         (* before the test for an unknown id *)
| PRemove (id : string)                         (* before [delete(m.tenants, id)] *)
| PList (todo : gset string) (out : list Tenant) (* in the [range] loop *)
| PRUnlock (r : res rval)                       (* before the deferred [RUnlock] *)
| PUnlock (r : res rval)                        (* before the deferred [Unlock] *)
| PReturn (r : res rval).                       (* before the return *)

(** The shared object: the lock (the writer it has admitted, its readers) and the
    map.  As in package sync, [Lock] admits one writer at a time, which from then
    on keeps new readers out, and returns when the readers inside have left. *)
Record Shared : Type := MkShared {
  writer : option nat;
  readers : gset nat;
  mem : gmap string Tenant
}.
Definition rlock (i : nat) (s : Shared) : option Shared :=
  match writer s with
  | None => Some (MkShared None (readers s ∪ {[i]}) (mem s))
  | Some _ => None
  end.
Definition runlock (i : nat) (s : Shared) : Shared := MkShared (writer s) (readers s ∖ {[i]}) (mem s).
Definition lock (i : nat) (s : Shared) : option Shared :=
  match writer s with
  | None => Some (MkShared (Some i) (readers s) (mem s))
  | Some _ => None
  end.
Definition locked (s : Shared) : bool := bool_decide (readers s = ∅).
Definition unlock (s : Shared) : Shared := MkShared None (readers s) (mem s).
Definition set_mem (m : gmap string Tenant) (s : Shared) : Shared := MkShared (writer s) (readers s) m.

(** One step of goroutine [i]; [k] is the key the [range] loop yields next, which
    Go leaves open.  The third component is the call and its result when the step
    is the one at which the call takes effect. *)
Definition tstep (i : nat) (k : string) (p : pc) (s : Shared)
    : option (pc * Shared * option (rop * res rval)) :=
  match p with
  | PStart (OpGet id) => s' ← rlock i s; Some (PGet id, s', None)
  | PStart (OpSet t) =>
      match rwrap "memoryResolver.Set" (validateTenant t) with
      | Ok _ => s' ← lock i s; Some (PWaitSet t, s', None)
      | Err e => Some (PReturn (Err e), s, Some (OpSet t, Err e))
      | Panic => None
      end
  | PStart (OpDelete id) =>
      if (id =? "")%string then
        let r := Err (Wrap (ErrSent ErrInvalidTenant) "memoryResolver.Delete: empty tenant id") in
        Some (PReturn r, s, Some (OpDelete id, r))
      else s' ← lock i s; Some (PWaitDelete id, s', None)
  | PStart OpList => s' ← rlock i s; Some (PList (dom (mem s)) [], s', None)
  | PGet id =>
      let r := match mem s !! id with
               | None => Err (ErrSent ErrUnauthorized)
               | Some t => Ok (VTenant t)
               end in
      Some (PRUnlock r, s, Some (OpGet id, r))
  | PWaitSet t => if locked s then Some (PSet t, s, None) else None
  | PWaitDelete id => if locked s then Some (PDelete id, s, None) else None
  | PSet t =>
      match mem s !! ID t with
      | Some _ =>
          let r := Err (ErrWrap (ErrSent ErrDuplicate) "memoryResolver.Set: %s" [FStr (ID t)]) in
          Some (PUnlock r, s, Some (OpSet t, r))
      | None => Some (PInsert t, s, None)
      end
  | PInsert t =>
      Some (PUnlock (Ok VUnit), set_mem (<[ID t := t]> (mem s)) s, Some (OpSet t, Ok VUnit))
  | PDelete id =>
      match mem s !! id with
      | None =>
          let r := Err (ErrWrap (ErrSent ErrNotFound) "memoryResolver.Delete: %s" [FStr id]) in
          Some (PUnlock r, s, Some (OpDelete id, r))
      | Some _ => Some (PRemove id, s, None)
      end
  | PRemove id =>
      Some (PUnlock (Ok VUnit), set_mem (delete id (mem s)) s, Some (OpDelete id, Ok VUnit))
  | PList todo out =>
      if decide (todo = ∅) then Some (PRUnlock (Ok (VList out)), s, Some (OpList, Ok (VList out)))
      else if decide (k ∈ todo) then
        Some (PList (todo ∖ {[k]}) (out ++ option_list (mem s !! k)), s, None)
      else None
  | PRUnlock r => Some (PReturn r, runlock i s, None)
  | PUnlock r => Some (PReturn r, unlock s, None)
  | PReturn _ => None
  end.

(** The store and the goroutines that are inside its methods. *)
Record Store : Type := MkStore { shared : Shared; threads : gmap nat pc }.
Definition idle (m : gmap string Tenant) : Store := MkStore (MkShared None ∅ m) ∅.

Inductive sevent : Type :=
| EInvoke (i : nat) (o : rop)
| EStep (i : nat) (k : string)
| EReturn (i : nat).
(** What an outside observer notes of a step, with the point of effect. *)
Inductive mark : Type :=
| MInvoke (o : rop)
| MEffect (o : rop) (r : res rval)
| MReturn (r : res rval).

Definition sact (e : sevent) (s : Store) : option (Store * option (nat * mark)) :=
  match e with
  | EInvoke i o =>
      match threads s !! i with
      | Some _ => None
      | None => Some (MkStore (shared s) (<[i := PStart o]> (threads s)), Some (i, MInvoke o))
      end
  | EStep i k =>
      match threads s !! i with
      | None => None
      | Some p =>
          match tstep i k p (shared s) with
          | None => None
          | Some (p', sh, eff) =>
              Some (MkStore sh (<[i := p']> (threads s)),
                    match eff with Some (o, r) => Some (i, MEffect o r) | None => None end)
          end
      end
  | EReturn i =>
      match threads s !! i with
      | Some (PReturn r) => Some (MkStore (shared s) (delete i (threads s)), Some (i, MReturn r))
      | _ => None
      end
  end.

(** A run, with what is observed of it. *)
Fixpoint sacts (es : list sevent) (s : Store) : option (Store * list (nat * mark)) :=
  match es with
  | [] => Some (s, [])
  | e :: es =>
      match sact e s with
      | None => None
      | Some (s1, o) =>
          match sacts es s1 with
          | None => None
          | Some (s2, tr) => Some (s2, option_list o ++ tr)
          end
      end
  end.

(** * The invariant *)
Inductive mode : Set := Outside | Reading | Waiting | Writing.
Definition mode_of (p : pc) : mode :=
  match p with
  | PGet _ | PList _ _ | PRUnlock _ => Reading
  | PSet _ | PInsert _ | PDelete _ | PRemove _ | PUnlock _ => Writing
  | PWaitSet _ | PWaitDelete _ => Waiting
  | PStart _ | PReturn _ => Outside
  end.
(** The goroutine is the writer the lock has admitted. *)
Definition admitted (md : mode) : Prop := md = Waiting \/ md = Writing.

(** The part of the table the loop of [List] has still to visit. *)
Definition ahead (todo : gset string) (m : gmap string Tenant) : gmap string Tenant :=
  filter (fun kv => kv.1 ∈ todo) m.
Definition values (m : gmap string Tenant) : list Tenant := snd <$> map_to_list m.

(** What a goroutine knows of the table where it is. *)
Definition knows (m : gmap string Tenant) (p : pc) : Prop :=
  match p with
  | PSet t | PWaitSet t => valid t
  | PInsert t => valid t /\ m !! ID t = None
  | PDelete id | PWaitDelete id => id <> ""%string
  | PRemove id => id <> ""%string /\ is_Some (m !! id)
  | PList todo out => todo ⊆ dom m /\ out ++ values (ahead todo m) ≡ₚ values m
  | _ => True
  end.
Lemma knows_outside m p : mode_of p = Outside -> knows m p.
Proof. by destruct p. Qed.

Lemma ahead_all m : ahead (dom m) m = m.
Proof. apply map_filter_id. intros k t Hk. simpl. by apply elem_of_dom_2 in Hk. Qed.
Lemma ahead_none m : ahead ∅ m = ∅.
Proof. apply map_empty_filter_2. intros k t _. set_solver. Qed.
Lemma ahead_next todo m k t :
  k ∈ todo -> m !! k = Some t -> values (ahead todo m) ≡ₚ t :: values (ahead (todo ∖ {[k]}) m).
Proof.
  intros Hk Hm. unfold values, ahead.
  assert (filter (fun kv : string * Tenant => kv.1 ∈ todo ∖ {[k]}) m
          = delete k (filter (fun kv : string * Tenant => kv.1 ∈ todo) m)) as ->.
  { apply map_eq. intros j. destruct (decide (j = k)) as [->|Hj].
    - rewrite lookup_delete_eq. apply map_lookup_filter_None. right. intros t' _. simpl. set_solver.
    - rewrite lookup_delete_ne by done. apply option_eq. intros t'.
      rewrite !map_lookup_filter_Some. simpl. set_solver. }
  rewrite <-(map_to_list_delete _ k t) by (by apply map_lookup_filter_Some_2). done.
Qed.

(** The stages of a call, seen from outside. *)
Inductive stage : Type :=
| Idle
| Called (o : rop)
| Effected (r : res rval).
Definition stage_of (p : pc) : stage :=
  match p with
  | PStart o => Called o
  | PGet id => Called (OpGet id)
  | PWaitSet t | PSet t | PInsert t => Called (OpSet t)
  | PWaitDelete id | PDelete id | PRemove id => Called (OpDelete id)
  | PList _ _ => Called OpList
  | PRUnlock r | PUnlock r | PReturn r => Effected r
  end.

(** ** One step of a goroutine *)
Lemma rlock_Some i s s' :
  rlock i s = Some s' -> writer s = None /\ s' = MkShared None (readers s ∪ {[i]}) (mem s).
Proof. unfold rlock. destruct (writer s); [done|]. by intros [= <-]. Qed.
Lemma lock_Some i s s' :
  lock i s = Some s' -> writer s = None /\ s' = MkShared (Some i) (readers s) (mem s).
Proof. unfold lock. destruct (writer s); [done|]. by intros [= <-]. Qed.

(** Its effect on the table: none, or the one of the abstract call. *)
Lemma tstep_effect i k p s p' s' eff :
  tstep i k p s = Some (p', s', eff) -> knows (mem s) p ->
  knows (mem s') p' /\
  match eff with
  | Some (o, r) => stage_of p = Called o /\ stage_of p' = Effected r /\
                   agrees r (spec_call o (mem s)).1 /\ mem s' = (spec_call o (mem s)).2
  | None => stage_of p' = stage_of p /\ mem s' = mem s
  end.
Proof.
  intros H Hk. destruct p as [[id|t|id|]|id|t|id|t|t|id|id|todo out|r|r|r]; cbn in H.
  - destruct (rlock i s) as [s1|] eqn:El; [|done]. apply rlock_Some in El as [_ ->].
    by injection H as <- <- <-.
  - destruct (decide (valid t)) as [Hv|Hv].
    + rewrite validate_valid in H by done. cbn in H. destruct (lock i s) as [s1|] eqn:El; [|done].
      apply lock_Some in El as [_ ->]. by injection H as <- <- <-.
    + destruct (validate_invalid t Hv) as (e & Ee & Hi). rewrite Ee in H. injection H as <- <- <-.
      simpl. unfold spec_Set. rewrite decide_False by done. simpl. eauto 10.
  - destruct (String.eqb_spec id "") as [->|Hid].
    + injection H as <- <- <-. simpl. split; [done|]. split_and!; try done. by eexists.
    + cbn in H. destruct (lock i s) as [s1|] eqn:El; [|done]. apply lock_Some in El as [_ ->].
      by injection H as <- <- <-.
  - destruct (rlock i s) as [s1|] eqn:El; [|done]. apply rlock_Some in El as [_ ->].
    injection H as <- <- <-. simpl. split; [|done]. split; [done|]. by rewrite ahead_all.
  - injection H as <- <- <-. simpl. destruct (mem s !! id); simpl; split_and!; eauto.
  - destruct (locked s); [|done]. by injection H as <- <- <-.
  - destruct (locked s); [|done]. by injection H as <- <- <-.
  - simpl in Hk. destruct (mem s !! ID t) eqn:Em; injection H as <- <- <-; simpl; [|done].
    unfold spec_Set. rewrite decide_True, Em by done. simpl. split_and!; eauto.
  - injection H as <- <- <-. destruct Hk as [Hv Hn]. simpl. unfold spec_Set.
    rewrite decide_True, Hn by done. done.
  - simpl in Hk. destruct (mem s !! id) eqn:Em; injection H as <- <- <-; simpl; [by eauto|].
    unfold spec_Delete. rewrite decide_False, Em by done. simpl. split_and!; eauto.
  - injection H as <- <- <-. destruct Hk as [Hid [t Ht]]. simpl. unfold spec_Delete.
    rewrite decide_False, Ht by done. done.
  - destruct Hk as [Hs Hp]. case_decide as Ht; [|case_decide as Hin; [|done]]; injection H as <- <- <-.
    + subst todo. rewrite ahead_none in Hp. unfold values in Hp at 1. rewrite map_to_list_empty in Hp.
      rewrite app_nil_r in Hp. simpl. split_and!; eauto.
    + pose proof (Hs k Hin) as [t Hm]%elem_of_dom. rewrite Hm. simpl. split; [|done].
      split; [set_solver|]. rewrite <-Hp, (ahead_next todo (mem s) k t) by done.
      rewrite <-app_assoc. done.
  - by injection H as <- <- <-.
  - by injection H as <- <- <-.
  - done.
Qed.

(** Its effect on the lock: from outside a section into one, out of one, or none;
    the map is written only inside a writing section. *)
Lemma tstep_lock i k p s p' s' eff :
  tstep i k p s = Some (p', s', eff) ->
  (mem s' <> mem s -> mode_of p = Writing) /\
  match mode_of p, mode_of p' with
  | Outside, Reading => writer s = None /\ writer s' = None /\ readers s' = readers s ∪ {[i]}
  | Outside, Waiting => writer s = None /\ writer s' = Some i /\ readers s' = readers s
  | Waiting, Writing => readers s = ∅ /\ writer s' = writer s /\ readers s' = readers s
  | Reading, Outside => writer s' = writer s /\ readers s' = readers s ∖ {[i]}
  | Writing, Outside => writer s' = None /\ readers s' = readers s
  | m, m' => m = m' /\ writer s' = writer s /\ readers s' = readers s
  end.
Proof.
  intros H. destruct p as [[id|t|id|]|id|t|id|t|t|id|id|todo out|r|r|r]; cbn in H.
  1,4: destruct (rlock i s) as [s1|] eqn:El; [|done]; apply rlock_Some in El as [Hw ->];
    by injection H as <- <- <-.
  1: destruct (rwrap _ _) as [u|e|]; [|by injection H as <- <- <-|done].
  2: destruct (id =? "")%string; [by injection H as <- <- <-|].
  1,2: cbn in H; destruct (lock i s) as [s1|] eqn:El; [|done]; apply lock_Some in El as [Hw ->];
    by injection H as <- <- <-.
  all: repeat case_match; simplify_eq/=; try done.
  all: split; [done|]. all: split_and!; [by eapply bool_decide_eq_true|done..].
Qed.

(** ** The whole store *)
Record StoreInv (s : Store) : Prop := MkStoreInv {
  sinv_writer : forall i, writer (shared s) = Some i <->
    exists p, threads s !! i = Some p /\ admitted (mode_of p);
  sinv_reader : forall i, i ∈ readers (shared s) <->
    exists p, threads s !! i = Some p /\ mode_of p = Reading;
  sinv_exclusive : forall i p, threads s !! i = Some p -> mode_of p = Writing ->
    readers (shared s) = ∅;
  sinv_knows : forall i p, threads s !! i = Some p -> knows (mem (shared s)) p
}.

Lemma idle_Inv m : StoreInv (idle m).
Proof.
  split; simpl; try done; intros i.
  - split; [done|]. by intros (p & ? & _).
  - split; [set_solver|]. by intros (p & ? & _).
Qed.

(** A goroutine that enters or leaves a method holds nothing. *)
Lemma outside_Inv s i o :
  StoreInv s -> (forall p, threads s !! i = Some p -> mode_of p = Outside) ->
  (forall p, o = Some p -> mode_of p = Outside) ->
  StoreInv (MkStore (shared s) (partial_alter (fun _ => o) i (threads s))).
Proof.
  intros [Hw Hr He Hk] Hi Ho.
  assert (forall P : mode -> Prop, ~ P Outside -> forall j,
    (exists p, threads s !! j = Some p /\ P (mode_of p)) <->
    (exists p, partial_alter (fun _ => o) i (threads s) !! j = Some p /\ P (mode_of p))) as Hiff.
  { intros P HP j. destruct (decide (j = i)) as [->|Hj]; [|by rewrite lookup_partial_alter_ne].
    rewrite lookup_partial_alter_eq. split; intros (p & Hp & Hm);
      [rewrite (Hi p Hp) in Hm|rewrite (Ho p Hp) in Hm]; done. }
  split; simpl.
  - intros j. rewrite Hw. apply (Hiff admitted). by intros [?|?].
  - intros j. rewrite Hr. by apply (Hiff (fun m => m = Reading)).
  - intros j p Hj Hm. destruct (proj2 (Hiff (fun m => m = Writing) (fun H => ltac:(done)) j)) as (q & ? & ?);
      [by eauto|]. by eapply He.
  - intros j p. destruct (decide (j = i)) as [->|Hj].
    + rewrite lookup_partial_alter_eq. intros Hp. apply knows_outside, Ho, Hp.
    + rewrite lookup_partial_alter_ne by done. apply Hk.
Qed.

(** While one goroutine is in a writing section the others are outside. *)
Lemma writer_alone s i j p q :
  StoreInv s -> threads s !! i = Some p -> mode_of p = Writing ->
  threads s !! j = Some q -> j <> i -> mode_of q = Outside.
Proof.
  intros [Hw Hr He _] Hi Hp Hj Hne.
  assert (writer (shared s) = Some i) as Ew by (apply Hw; unfold admitted; eauto).
  assert (~ admitted (mode_of q)) as Hq.
  { intros Ha. assert (writer (shared s) = Some j) by (apply Hw; eauto). congruence. }
  assert (mode_of q <> Reading) as Hq'.
  { intros Ha. assert (j ∈ readers (shared s)) as Hin by (apply Hr; eauto).
    rewrite (He i p) in Hin by done. set_solver. }
  unfold admitted in Hq. destruct (mode_of q); tauto.
Qed.

(** The lock after a step of goroutine [i], whose mode agrees with it before. *)
Lemma lock_after i k p s p' s' eff :
  tstep i k p s = Some (p', s', eff) ->
  (admitted (mode_of p) <-> writer s = Some i) -> (mode_of p = Reading <-> i ∈ readers s) ->
  (mode_of p = Writing -> readers s = ∅) ->
  (writer s' = Some i <-> admitted (mode_of p')) /\ (i ∈ readers s' <-> mode_of p' = Reading) /\
  (forall j, j <> i -> writer s' = Some j <-> writer s = Some j) /\
  (forall j, j <> i -> j ∈ readers s' <-> j ∈ readers s) /\
  (mode_of p' = Writing -> readers s' = ∅) /\
  (forall j, j <> i -> writer s = Some j -> readers s = ∅ -> readers s' = ∅).
Proof.
  unfold admitted. intros Ht Hw Hr He. apply tstep_lock in Ht as [_ Hl].
  destruct (mode_of p), (mode_of p'); cbv zeta in Hl; try (by destruct Hl as [? _]);
    repeat match type of Hl with _ /\ _ => destruct Hl as [? Hl] end;
    repeat match goal with H : writer s = None |- _ => rewrite H in *; clear H end;
    repeat match goal with H : _ s' = _ |- _ => rewrite H in *; clear H end.
  all: split_and!; try set_solver; try naive_solver.
Qed.

Lemma step_Inv s i k p p' sh eff :
  StoreInv s -> threads s !! i = Some p -> tstep i k p (shared s) = Some (p', sh, eff) ->
  StoreInv (MkStore sh (<[i := p']> (threads s))).
Proof.
  intros HI Hi Ht. pose proof (tstep_lock i k p _ p' sh eff Ht) as [Hmem _].
  pose proof (tstep_effect i k p _ p' sh eff Ht (sinv_knows s HI i p Hi)) as [Hk _].
  pose proof (fun j q => writer_alone s i j p q HI Hi) as Halone.
  destruct HI as [Hw Hr He Hkn].
  destruct (lock_after i k p _ p' sh eff Ht) as (L1 & L2 & L3 & L4 & L5 & L6);
    [rewrite Hw, Hi; naive_solver|rewrite Hr, Hi; naive_solver|by eauto|].
  split; simpl; intros j.
  - destruct (decide (j = i)) as [->|Hj].
    + rewrite lookup_insert_eq, L1. naive_solver.
    + rewrite lookup_insert_ne, L3 by done. apply Hw.
  - destruct (decide (j = i)) as [->|Hj].
    + rewrite lookup_insert_eq, L2. naive_solver.
    + rewrite lookup_insert_ne, L4 by done. apply Hr.
  - intros q. destruct (decide (j = i)) as [->|Hj]; [rewrite lookup_insert_eq; naive_solver|].
    rewrite lookup_insert_ne by done. intros Hq Hm. eapply L6; [done| |by eauto].
    apply Hw. exists q. split; [done|by right].
  - intros q. destruct (decide (j = i)) as [->|Hj]; [rewrite lookup_insert_eq; naive_solver|].
    rewrite lookup_insert_ne by done. intros Hq.
    destruct (decide (mem sh = mem (shared s))) as [->|Hch]; [by eauto|].
    apply knows_outside. eauto.
Qed.

Lemma sact_Inv e s s' o : StoreInv s -> sact e s = Some (s', o) -> StoreInv s'.
Proof.
  intros HI H. destruct e as [i op|i k|i]; simpl in H.
  - destruct (threads s !! i) eqn:Ei; [done|]. injection H as <- _.
    apply (outside_Inv s i (Some (PStart op))); [done| |by intros ? [= <-]]. by rewrite Ei.
  - destruct (threads s !! i) as [p|] eqn:Ei; [|done].
    destruct (tstep i k p (shared s)) as [[[p' sh] eff]|] eqn:Et; [|done].
    injection H as <- _. by eapply step_Inv.
  - destruct (threads s !! i) as [[| | | | | | | | | | |r]|] eqn:Ei; try done. injection H as <- _.
    apply (outside_Inv s i None); [done| |done]. rewrite Ei. by intros ? [= <-].
Qed.

(** * What an observer sees *)
Definition stage_at (s : Store) (i : nat) : stage :=
  match threads s !! i with Some p => stage_of p | None => Idle end.

(** A goroutine's marks, in order: each call is made, takes effect once with the
    result it then returns, and returns. *)
Inductive advance : stage -> mark -> stage -> Prop :=
| adv_invoke o : advance Idle (MInvoke o) (Called o)
| adv_effect o r : advance (Called o) (MEffect o r) (Effected r)
| adv_return r : advance (Effected r) (MReturn r) Idle.
Inductive calls : stage -> list mark -> stage -> Prop :=
| calls_nil st : calls st [] st
| calls_cons st mk st1 mks st2 : advance st mk st1 -> calls st1 mks st2 -> calls st (mk :: mks) st2.
#[export] Hint Constructors advance calls : kroxy.

Definition marks_of (i : nat) (tr : list (nat * mark)) : list mark :=
  omap (fun m => if decide (m.1 = i) then Some m.2 else None) tr.
(** The calls in the order in which they took effect, with their results. *)
Definition effects (tr : list (nat * mark)) : list (rop * res rval) :=
  omap (fun m => match m.2 with MEffect o r => Some (o, r) | _ => None end) tr.

Lemma calls_app st mks st1 mks' st2 : calls st mks st1 -> calls st1 mks' st2 -> calls st (mks ++ mks') st2.
Proof. induction 1; intros H'; simpl; eauto with kroxy. Qed.

Lemma sact_stage e s s' o j :
  StoreInv s -> sact e s = Some (s', o) ->
  calls (stage_at s j) (marks_of j (option_list o)) (stage_at s' j).
Proof.
  intros HI H. unfold stage_at. destruct e as [i op|i k|i]; simpl in H.
  - destruct (threads s !! i) eqn:Ei; [done|]. injection H as <- <-. simpl.
    destruct (decide (i = j)) as [->|Hj]; [|rewrite lookup_insert_ne by done; constructor].
    rewrite lookup_insert_eq, Ei. eauto with kroxy.
  - destruct (threads s !! i) as [p|] eqn:Ei; [|done].
    destruct (tstep i k p (shared s)) as [[[p' sh] eff]|] eqn:Et; [|done]. injection H as <- <-.
    apply tstep_effect in Et as [_ Heff]; [|by eapply sinv_knows].
    destruct (decide (i = j)) as [->|Hj].
    + simpl. rewrite lookup_insert_eq, Ei. destruct eff as [[op r]|]; simpl.
      * destruct Heff as (-> & -> & _). rewrite decide_True by done. eauto with kroxy.
      * destruct Heff as [-> _]. constructor.
    + simpl. rewrite lookup_insert_ne by done.
      destruct eff as [[op r]|]; simpl; rewrite ?decide_False by done; constructor.
  - destruct (threads s !! i) as [[| | | | | | | | | | |r]|] eqn:Ei; try done. injection H as <- <-.
    simpl. destruct (decide (i = j)) as [->|Hj]; [|rewrite lookup_delete_ne by done; constructor].
    rewrite lookup_delete_eq, Ei. simpl. eauto with kroxy.
Qed.

Lemma sact_effect e s s' o :
  StoreInv s -> sact e s = Some (s', o) ->
  match effects (option_list o) with
  | [(op, r)] => agrees r (spec_call op (mem (shared s))).1 /\
                 mem (shared s') = (spec_call op (mem (shared s))).2
  | _ => effects (option_list o) = [] /\ mem (shared s') = mem (shared s)
  end.
Proof.
  intros HI H. destruct e as [i op|i k|i]; simpl in H.
  - destruct (threads s !! i); [done|]. by injection H as <- <-.
  - destruct (threads s !! i) as [p|] eqn:Ei; [|done].
    destruct (tstep i k p (shared s)) as [[[p' sh] eff]|] eqn:Et; [|done]. injection H as <- <-.
    apply tstep_effect in Et as [_ Heff]; [|by eapply sinv_knows].
    destruct eff as [[op r]|]; simpl; naive_solver.
  - destruct (threads s !! i) as [[| | | | | | | | | | |r]|] eqn:Ei; try done. by injection H as <- <-.
Qed.

Lemma sacts_spec es s s' tr :
  StoreInv s -> sacts es s = Some (s', tr) ->
  StoreInv s' /\ (forall i, calls (stage_at s i) (marks_of i tr) (stage_at s' i)) /\
  Forall2 agrees (effects tr).*2 (spec_run (effects tr).*1 (mem (shared s))).1 /\
  mem (shared s') = (spec_run (effects tr).*1 (mem (shared s))).2.
Proof.
  revert s tr. induction es as [|e es IH]; intros s tr HI H; simpl in H.
  { injection H as <- <-. split_and!; try done. constructor. }
  destruct (sact e s) as [[s1 o]|] eqn:Ea; [|done].
  destruct (sacts es s1) as [[s2 tr']|] eqn:Er; [|done]. injection H as <- <-.
  pose proof (sact_Inv e s s1 o HI Ea) as HI1.
  destruct (IH s1 tr' HI1 Er) as (HI2 & Hc & Hf & Hm).
  split; [done|split].
  - intros i. unfold marks_of. rewrite omap_app. eapply calls_app; [by eapply sact_stage|apply Hc].
  - unfold effects in *. rewrite omap_app.
    pose proof (sact_effect e s s1 o HI Ea) as He. unfold effects in He.
    destruct (omap _ (option_list o)) as [|[op r] [|? ?]]; simpl in *;
      [by destruct He as [_ <-]| |by destruct He].
    destruct He as [Ha E]. rewrite E in Hf, Hm. destruct (spec_call op _) as [v m1]. simpl in *.
    destruct (spec_run _ m1). simpl in *. split; [by constructor|done].
Qed.

(** * Progress *)

(** A goroutine inside a section can always go on; one outside can when the lock
    has admitted no writer, and a waiting writer when the readers have left. *)
Lemma tstep_enabled i p s :
  match mode_of p with
  | Outside => writer s = None
  | Waiting => readers s = ∅
  | _ => True
  end ->
  (exists k, is_Some (tstep i k p s)) \/ exists r, p = PReturn r.
Proof.
  destruct p as [[id|t|id|]|id|t|id|t|t|id|id|todo out|r|r|r]; simpl; intros H; eauto;
    left; try (exists ""%string; by eauto).
  - exists ""%string. unfold rlock. rewrite H. simpl. eauto.
  - exists ""%string. destruct (decide (valid t)) as [Hv|Hv].
    + rewrite validate_valid by done. simpl. unfold lock. rewrite H. simpl. eauto.
    + destruct (validate_invalid t Hv) as (e & -> & _). simpl. eauto.
  - exists ""%string. destruct (id =? "")%string; [by eauto|]. unfold lock. rewrite H. simpl. eauto.
  - exists ""%string. unfold rlock. rewrite H. simpl. eauto.
  - exists ""%string. unfold locked. rewrite bool_decide_true by done. eauto.
  - exists ""%string. unfold locked. rewrite bool_decide_true by done. eauto.
  - exists ""%string. destruct (mem s !! ID t); eauto.
  - exists ""%string. destruct (mem s !! id); eauto.
  - destruct (set_choose_or_empty todo) as [[k Hk]|He].
    + exists k. rewrite decide_False by set_solver. rewrite decide_True by done. eauto.
    + apply leibniz_equiv in He. exists ""%string. rewrite decide_True by done. eauto.
Qed.

(** The goroutines that use the map, and those that write it. *)
Definition uses_map (p : pc) : bool :=
  match p with
  | PGet _ | PSet _ | PInsert _ | PDelete _ | PRemove _ | PList _ _ => true
  | _ => false
  end.
Definition writes_map (p : pc) : bool :=
  match p with PInsert _ | PRemove _ => true | _ => false end.

(** An event that is no new call. *)
Definition internal (e : sevent) : bool := match e with EInvoke _ _ => false | _ => true end.

Lemma enabled_event s i p :
  threads s !! i = Some p ->
  (exists k, is_Some (tstep i k p (shared s))) \/ (exists r, p = PReturn r) ->
  exists e, internal e = true /\ is_Some (sact e s).
Proof.
  intros Hi [[k [[[p' sh] eff] Ht]]|[r ->]].
  - exists (EStep i k). split; [done|]. simpl. rewrite Hi, Ht. eauto.
  - exists (EReturn i). split; [done|]. simpl. rewrite Hi. eauto.
Qed.

Lemma store_can_move s :
  StoreInv s -> threads s <> ∅ -> exists e, internal e = true /\ is_Some (sact e s).
Proof.
  intros [Hw Hr He _] Hne. destruct (writer (shared s)) as [i|] eqn:Ew.
  - destruct (proj1 (Hw i) eq_refl) as (p & Hi & Ha).
    destruct (set_choose_or_empty (readers (shared s))) as [[j Hj]|Hemp].
    + apply Hr in Hj as (q & Hj & Hq). apply (enabled_event s j q Hj), tstep_enabled. by rewrite Hq.
    + apply leibniz_equiv in Hemp. apply (enabled_event s i p Hi), tstep_enabled.
      destruct Ha as [-> | ->]; done.
  - apply map_choose in Hne as (i & p & Hi). apply (enabled_event s i p Hi), tstep_enabled.
    destruct (mode_of p) eqn:Em; try done.
    assert (None = Some i) as [=]. apply Hw. exists p. split; [done|by left].
Qed.

(** * Theorems *)

(** C19: [memoryResolver] is linearizable.  Goroutines call its methods concurrently
    and interleave at every operation on the lock and every use of the map (the
    iterations of [List] included), from any table.  In every run each call takes
    effect once, between its call and its return, and the results the calls
    return, in the order of those effects, are those of the abstract table that
    Resolver's contract describes, which ends equal to the map. *)
Theorem store_linearizable m0 es s tr :
  sacts es (idle m0) = Some (s, tr) ->
  (forall i, calls Idle (marks_of i tr) (stage_at s i)) /\
  Forall2 agrees (effects tr).*2 (spec_run (effects tr).*1 m0).1 /\
  mem (shared s) = (spec_run (effects tr).*1 m0).2.
Proof. intros H. by apply (sacts_spec es (idle m0) s tr (idle_Inv m0)) in H as [_ H]. Qed.

(** C20: the methods of [memoryResolver] are free of data races and of deadlock: in
    every state that concurrent calls reach, no goroutine writes the map while
    another reads or writes it, and as long as a call is in progress one of the
    goroutines inside can take a step, although a writer that waits keeps new
    readers out. *)
Theorem store_race_free m0 es s tr :
  sacts es (idle m0) = Some (s, tr) ->
  (forall i j p q, threads s !! i = Some p -> threads s !! j = Some q -> i <> j ->
     writes_map p = true -> uses_map q = false) /\
  (threads s <> ∅ -> exists e, internal e = true /\ is_Some (sact e s)).
Proof.
  intros H. apply (sacts_spec es (idle m0) s tr (idle_Inv m0)) in H as [HI _]. split.
  - intros i j p q Hi Hj Hij Hp.
    assert (mode_of q = Outside) as Hq
      by (eapply (writer_alone s i j p q); [done..|by destruct p|done|by apply not_eq_sym]).
    by destruct q.
  - by apply store_can_move.
Qed.

(** * Witnesses: two goroutines race to create a tenant while a third lists *)
Module DemoStore.
Definition m0 : gmap string Tenant := tenants DemoTenants.m0.
Definition go (i : nat) : sevent := EStep i "".
(** Goroutine 2 is listing when 0 announces its write; 1 validates meanwhile. *)
Definition half : list sevent :=
  [EInvoke 2 OpList; go 2; EInvoke 0 (OpSet DemoTenants.alice); go 0;
   EInvoke 1 (OpSet DemoTenants.alice2); EInvoke 3 (OpSet (MkTenant "" "x-" "u")); go 3;
   EStep 2 "bob"; go 2; EReturn 3; go 2; go 0].
Definition whole : list sevent :=
  half ++ [go 0; EReturn 2; go 0; go 0; go 1; EReturn 0; go 1; go 1; EInvoke 0 (OpGet "alice");
           go 1; go 0; EReturn 1; go 0; go 0; EReturn 0].
End DemoStore.

Lemma store_linearizable_witness :
  exists s tr, sacts DemoStore.whole (idle DemoStore.m0) = Some (s, tr) /\ threads s = ∅ /\
    mem (shared s) !! "alice" = Some DemoTenants.alice /\ length (effects tr) = 5 /\
    mem (shared s) = (spec_run (effects tr).*1 DemoStore.m0).2.
Proof.
  destruct (sacts DemoStore.whole (idle DemoStore.m0)) as [[s tr]|] eqn:E; [|by vm_compute in E].
  exists s, tr. pose proof (store_linearizable _ _ _ _ E) as (_ & _ & Hm).
  split; [done|]. assert (Some (s, tr) = sacts DemoStore.whole (idle DemoStore.m0)) as E' by done.
  vm_compute in E'. injection E' as -> ->. split_and!; [done..|exact Hm].
Defined.

Lemma store_race_free_witness :
  exists s tr, sacts DemoStore.half (idle DemoStore.m0) = Some (s, tr) /\
    threads s !! 0 = Some (PSet DemoTenants.alice) /\
    threads s !! 1 = Some (PStart (OpSet DemoTenants.alice2)) /\
    exists e, internal e = true /\ is_Some (sact e s).
Proof.
  destruct (sacts DemoStore.half (idle DemoStore.m0)) as [[s tr]|] eqn:E; [|by vm_compute in E].
  exists s, tr. pose proof (proj2 (store_race_free _ _ _ _ E)) as Hm.
  split; [done|]. assert (Some (s, tr) = sacts DemoStore.half (idle DemoStore.m0)) as E' by done.
  vm_compute in E'. injection E' as -> ->. split_and!; [done..|by apply Hm].
Defined.
