(* ===== verification/Admin.v ===== *)
(** Package [admin]: the JSON-RPC service over the tenant store (server.go,
    types.go) and its client (client.go).

    The JSON-RPC framework [go-rpc], [net/http] as a transport and
    [encoding/json] are parameters.  The client is verified against the class
    [Wire]; the server behind the routes of [Serve] is an instance of it, given what
    go-rpc ([GoRPC]) and HTTP ([Transport]) do.  These promise delivery only of what
    they document to deliver: strings that are valid UTF-8 ([encoding/json] coerces
    others), in a body of at most [MaxBytesRead] bytes.  [Error] renders an error
    ([err.Error()]). *)
From Stdlib Require Import ZArith Lia.
From stdpp Require Import base list gmap strings tactics.
From S2P Require Import Prelude GoStrings Http Observability Resolver ResolverFacts.
Local Open Scope Z_scope.

(** * types.go *)
Module SetParams.
Record t : Type := Mk { ID : string; TopicPrefix : string; Upstream : string }.
End SetParams.
Module DeleteParams.
Record t : Type := Mk { ID : string }.
End DeleteParams.
Module OKResult.
Record t : Type := Mk { OK : bool }.
End OKResult.
Module TenantView.
Record t : Type := Mk { ID : string; TopicPrefix : string; Upstream : string }.
End TenantView.
Module ListResult.
Record t : Type := Mk { Tenants : list TenantView.t }.
End ListResult.

(** * server.go *)
Definition CodeDuplicate : Z := -32011.
Definition CodeNotFound : Z := -32012.
Definition CodeInvalid : Z := -32013.

(** The error of a method: [rpc.NewError(code, msg)], or any other error. *)
Inductive svcError : Type :=
| RPCError (code : Z) (msg : string)
| Plain (err : error).

(** The service: the state of its store, and its log. *)
Record Service (St : Type) : Type := MkService { svcStore : St; svcLog : Logger }.
Arguments MkService {St} svcStore svcLog.
Arguments svcStore {St} _.
Arguments svcLog {St} _.
(** A nil logger is replaced by [slog.Default()]. *)
Definition NewService {St} (Default : Logger) (store : St) (log : option Logger) : Service St :=
  MkService store (default Default log).

Section Service.
Context {St : Type} (store : Resolver St) (Error : error -> string).

Definition mapErr (err : error) : svcError :=
  if Is err ErrDuplicate then RPCError CodeDuplicate (Error err)
  else if Is err ErrNotFound then RPCError CodeNotFound (Error err)
  else if Is err ErrInvalidTenant then RPCError CodeInvalid (Error err)
  else Plain err.

(** A call of [s.store]. *)
Definition on_store {A} (m : M St A) : M (Service St) A :=
  zoom svcStore (fun st s => MkService st (svcLog s)) m.
(** [s.log.InfoContext(ctx, msg, "tenant_id", id)] *)
Definition logTenant (msg : string) (id : string) : M (Service St) unit :=
  modify (fun s => MkService (svcStore s) (Log LevelInfo msg [("tenant_id"%string, AStr id)] (svcLog s))).

(** The methods; their argument is the outcome of [p.Bind(&in)]. *)
Definition ServiceSet (p : error + SetParams.t) : M (Service St) (svcError + OKResult.t) :=
  match p with
  | inl err => ret (inl (RPCError CodeInvalid (Error err)))
  | inr in_ =>
      let tenant := MkTenant (SetParams.ID in_) (SetParams.TopicPrefix in_) (SetParams.Upstream in_) in
      let! r := attempt (on_store (Set_ store tenant)) in
      match r with
      | inl err => ret (inl (mapErr err))
      | inr _ =>
          let! _ := logTenant "tenant created" (SetParams.ID in_) in
          ret (inr (OKResult.Mk true))
      end
  end.
Definition ServiceDelete (p : error + DeleteParams.t) : M (Service St) (svcError + OKResult.t) :=
  match p with
  | inl err => ret (inl (RPCError CodeInvalid (Error err)))
  | inr in_ =>
      let! r := attempt (on_store (Delete store (DeleteParams.ID in_))) in
      match r with
      | inl err => ret (inl (mapErr err))
      | inr _ =>
          let! _ := logTenant "tenant deleted" (DeleteParams.ID in_) in
          ret (inr (OKResult.Mk true))
      end
  end.
Definition viewOf (t : Tenant) : TenantView.t := TenantView.Mk (ID t) (TopicPrefix t) (Upstream t).
Definition ServiceList : M (Service St) (svcError + ListResult.t) :=
  let! r := attempt (on_store (List store)) in
  match r with
  | inl err => ret (inl (mapErr err))
  | inr tenants => ret (inr (ListResult.Mk (map viewOf tenants)))
  end.
End Service.

(** * client.go *)
Inductive Params : Type :=
| PSet (p : SetParams.t)
| PDelete (p : DeleteParams.t)
| PEmpty.
Record rpcRequest : Type := MkRpcRequest { JSONRPC : string; reqID : Z; Method : string; params : Params }.
Record rpcError : Type := MkRpcError { Code : Z; Message : string }.
Definition rpcErrorError (e : rpcError) : string := Message e.
Record rpcResponse : Type := MkRpcResponse { Result : list byte; RError : option rpcError }.

Definition mapClientErr (e : rpcError) : error :=
  if Code e =? CodeDuplicate then ErrWrap (ErrSent ErrDuplicate) "admin: %s" [FStr (Message e)]
  else if Code e =? CodeNotFound then ErrWrap (ErrSent ErrNotFound) "admin: %s" [FStr (Message e)]
  else if Code e =? CodeInvalid then ErrWrap (ErrSent ErrInvalidTenant) "admin: %s" [FStr (Message e)]
  else ErrNew "admin: rpc error %d: %s" [FInt (Code e); FStr (Message e)].

(** The client ([atomic.Uint64] id) in a world [W] its requests act on. *)
Record Client (W : Type) : Type := MkClient { endpoint : string; id : Z; world : W }.
Arguments MkClient {W} endpoint id world.
Arguments endpoint {W} _.
Arguments id {W} _.
Arguments world {W} _.

(** [NewClient], in a world. *)
Definition NewClient {W} (ep : string) (w : W) : Client W := MkClient ep 0 w.

Section Client.
Context {W : Type}.
Context (Marshal : rpcRequest -> error + list byte).
Context (NewRequest : string -> list byte -> error + list byte).
Context (Do : string -> list byte -> M W (Z * list byte)).
Context (DecodeEnvelope : list byte -> error + rpcResponse).
Context (UnmarshalOK : list byte -> error + OKResult.t).
Context (UnmarshalList : list byte -> error + ListResult.t).

(** [c.http.Do(req)] *)
Definition do_ (req : list byte) : M (Client W) (Z * list byte) :=
  fun c => let '(r, w) := Do (endpoint c) req (world c) in (r, MkClient (endpoint c) (id c) w).
(** [c.id.Add(1)] *)
Definition addID : M (Client W) Z :=
  fun c => let i := uint64 (id c + 1) in (Ok i, MkClient (endpoint c) i (world c)).

(** [out] holds its zero value before the call. *)
Definition call {A} (method : string) (ps : Params) (zero : A) (Unmarshal : list byte -> error + A)
    : M (Client W) A :=
  let! i := addID in
  match Marshal (MkRpcRequest "2.0" i method ps) with
  | inl err => fail (Wrap err "Client.call")
  | inr body =>
      let! c := get in
      match NewRequest (endpoint c) body with
      | inl err => fail (Wrap err "Client.call")
      | inr req =>
          let! (status, raw) := wrap "Client.call" (do_ req) in
          if negb (status =? StatusOK)
          then fail (ErrNew "Client.call: HTTP %d: %s" [FInt status; FStr (string_of_bytes raw)])
          else
          match DecodeEnvelope raw with
          | inl err => fail (Wrap err "Client.call: decode")
          | inr envelope =>
              match RError envelope with
              | Some e => fail (mapClientErr e)
              | None =>
                  if 0 <? len (Result envelope) then
                    match Unmarshal (Result envelope) with
                    | inl err => fail (Wrap err "Client.call: decode result")
                    | inr out => ret out
                    end
                  else ret zero
              end
          end
      end
  end.

Definition ClientSet (p : SetParams.t) : M (Client W) unit :=
  let! _ := call "Tenants.Set" (PSet p) (OKResult.Mk false) UnmarshalOK in ret tt.
Definition ClientDelete (i : string) : M (Client W) unit :=
  let! _ := call "Tenants.Delete" (PDelete (DeleteParams.Mk i)) (OKResult.Mk false) UnmarshalOK in ret tt.
Definition ClientList : M (Client W) ListResult.t :=
  call "Tenants.List" PEmpty (ListResult.Mk []) UnmarshalList.
End Client.

(** * The two together *)
Inductive reply : Type :=
| RErr (e : svcError)
| ROK (r : OKResult.t)
| RList (r : ListResult.t).
Definition of_result {A} (f : A -> reply) (r : svcError + A) : reply :=
  match r with inl e => RErr e | inr a => f a end.

Section Registry.
Context {St : Type} (store : Resolver St) (Error : error -> string).
Context (BindSet : Params -> error + SetParams.t) (BindDelete : Params -> error + DeleteParams.t).

(** [Registry]: the methods of the service [Tenants]. *)
Definition Registry (method : string) (ps : Params) : option (M (Service St) reply) :=
  if (method =? "Tenants.Set")%string then
    Some (let! r := ServiceSet store Error (BindSet ps) in ret (of_result ROK r))
  else if (method =? "Tenants.Delete")%string then
    Some (let! r := ServiceDelete store Error (BindDelete ps) in ret (of_result ROK r))
  else if (method =? "Tenants.List")%string then
    Some (let! r := ServiceList store Error in ret (of_result RList r))
  else None.

Context (Marshal : rpcRequest -> error + list byte).
Context (NewRequest : string -> list byte -> error + list byte).
Context (Do : string -> list byte -> M (Service St) (Z * list byte)).
Context (DecodeEnvelope : list byte -> error + rpcResponse).
Context (UnmarshalOK : list byte -> error + OKResult.t).
Context (UnmarshalList : list byte -> error + ListResult.t).

(** What JSON carries unchanged: strings of valid UTF-8. *)
Definition legible (ps : Params) : bool :=
  match ps with
  | PSet p => ValidString (SetParams.ID p) && ValidString (SetParams.TopicPrefix p) && ValidString (SetParams.Upstream p)
  | PDelete p => ValidString (DeleteParams.ID p)
  | PEmpty => true
  end.
Definition legible_tenant (t : Tenant) : Prop :=
  ValidString (ID t) = true /\ ValidString (TopicPrefix t) = true /\ ValidString (Upstream t) = true.
Definition legible_reply (rep : reply) : Prop :=
  match rep with
  | RList r => Forall (fun v => ValidString (TenantView.ID v) = true /\ ValidString (TenantView.TopicPrefix v) = true /\
                 ValidString (TenantView.Upstream v) = true) (ListResult.Tenants r)
  | _ => True
  end.

(** The response envelope of a reply (RPC.md, "Transport conventions" and "Error
    codes": an error that is not of the service surfaces as a generic server
    error).  Only the code of an error is relied on, not its message. *)
Definition envelope_of (rep : reply) (env : rpcResponse) : Prop :=
  match rep with
  | RErr (RPCError code _) => exists msg, RError env = Some (MkRpcError code msg)
  | RErr (Plain _) =>
      exists code msg, RError env = Some (MkRpcError code msg) /\
        code ∉ [CodeDuplicate; CodeNotFound; CodeInvalid]
  | ROK r => RError env = None /\ Result env <> [] /\ UnmarshalOK (Result env) = inr r
  | RList r => RError env = None /\ Result env <> [] /\ UnmarshalList (Result env) = inr r
  end.

(** [rpc.MaxBytesRead] *)
Context (MaxBytesRead : Z).
(** What go-rpc, HTTP and JSON do for a client of the endpoint [ep] when nothing
    fails on the way and the call takes no longer than the execution timeout, for
    what they carry: parameters are bound to what was sent, and the method runs on
    the store and its reply comes back. *)
Class Wire (ep : string) : Prop := {
  bind_set p : legible (PSet p) = true -> BindSet (PSet p) = inr p;
  bind_delete p : legible (PDelete p) = true -> BindDelete (PDelete p) = inr p;
  marshals r : exists body, Marshal r = inr body;
  delivers r body : Marshal r = inr body -> legible (params r) = true -> len body <= MaxBytesRead ->
    exists req, NewRequest ep body = inr req /\
    forall h s rep s', Registry (Method r) (params r) = Some h -> h s = (Ok rep, s') -> legible_reply rep ->
      exists raw env, Do ep req s = (Ok (StatusOK, raw), s') /\ DecodeEnvelope raw = inr env /\
        envelope_of rep env
}.

(** The client's side of a reply. *)
Definition received {A} (get_ : reply -> option A) (rep : reply) (r : res A) : Prop :=
  match rep with
  | RErr (RPCError code _) => exists msg, r = Err (mapClientErr (MkRpcError code msg))
  | RErr (Plain err) => exists e, r = Err e
  | _ => exists a, get_ rep = Some a /\ r = Ok a
  end.
Definition get_ok (rep : reply) : option OKResult.t := match rep with ROK r => Some r | _ => None end.
Definition get_list (rep : reply) : option ListResult.t := match rep with RList r => Some r | _ => None end.

Context {ep : string} `{!Wire ep}.
Abbreviation call := (call Marshal NewRequest Do DecodeEnvelope).
(** The next request of the client [c] is one the server reads. *)
Definition fits (c : Client (Service St)) (method : string) (ps : Params) : Prop :=
  legible ps = true /\
  forall body, Marshal (MkRpcRequest "2.0" (uint64 (id c + 1)) method ps) = inr body -> len body <= MaxBytesRead.

Lemma len_pos {A} (l : list A) : l <> [] -> 0 <? len l = true.
Proof. destruct l; [done|]. intros _. apply Z.ltb_lt. unfold len. simpl. lia. Qed.

Lemma call_served {A} method ps (zero : A) U get_ h c rep s' :
  endpoint c = ep -> fits c method ps -> Registry method ps = Some h -> h (world c) = (Ok rep, s') ->
  legible_reply rep ->
  (forall env, envelope_of rep env -> RError env = None ->
     exists a, get_ rep = Some a /\ Result env <> [] /\ U (Result env) = inr a) ->
  received get_ rep (call method ps zero U c).1 /\
  world (call method ps zero U c).2 = s' /\ endpoint (call method ps zero U c).2 = ep.
Proof.
  intros Hep [Hl Hfit] Hreg Hh Hlr HU.
  enough (exists r, call method ps zero U c = (r, MkClient ep (uint64 (id c + 1)) s') /\
                    received get_ rep r) as (r & -> & Hr) by done.
  unfold Admin.call, addID, bind at 1.
  destruct (marshals (MkRpcRequest "2.0" (uint64 (id c + 1)) method ps)) as [body Eb]. rewrite Eb.
  destruct (delivers _ _ Eb Hl (Hfit _ Eb)) as (req & En & Hd).
  destruct (Hd h (world c) rep s' Hreg Hh Hlr) as (raw & env & Ed & Ee & Henv).
  unfold bind at 1, get. cbn [endpoint]. rewrite Hep, En.
  unfold bind at 1, wrap, do_. cbn [endpoint world id]. rewrite Ed. cbn [rwrap].
  change (negb (StatusOK =? StatusOK)) with false. cbn iota. rewrite Ee.
  destruct (RError env) as [e|] eqn:Er.
  - eexists. split; [reflexivity|]. destruct rep as [[code msg|err]|r|r]; cbn [envelope_of] in Henv.
    + destruct Henv as [msg' Henv]. rewrite Er in Henv. injection Henv as ->. by exists msg'.
    + by eexists.
    + destruct Henv. congruence.
    + destruct Henv. congruence.
  - destruct (HU env Henv Er) as (a & Hg & Hne & HUa). rewrite len_pos, HUa by done.
    eexists. split; [reflexivity|]. destruct rep as [[code msg|err]|r|r]; cbn [envelope_of] in Henv.
    + destruct Henv as [? ?]. congruence.
    + destruct Henv as (? & ? & ? & _). congruence.
    + by exists a.
    + by exists a.
Qed.

(** ** The remote store *)
Context (table : St -> gmap string Tenant) (Inv : St -> Prop) `{!ResolverLaws store table Inv}.

Lemma Is_unique err s1 s2 : Is err s1 = true -> Is err s2 = true -> s2 = s1.
Proof.
  induction err as [s| |err IH]; simpl; [|done|done].
  intros H1%bool_decide_eq_true_1 H2%bool_decide_eq_true_1. congruence.
Qed.
(** An error of the store keeps its meaning across the wire. *)
Definition domain (s : sentinel) : Prop := s = ErrDuplicate \/ s = ErrNotFound \/ s = ErrInvalidTenant.
Lemma error_meaning err s :
  Is err s = true -> domain s ->
  exists code, mapErr Error err = RPCError code (Error err) /\
    forall msg, Is (mapClientErr (MkRpcError code msg)) s = true.
Proof.
  intros His Hs. unfold mapErr.
  assert (forall s', s' <> s -> Is err s' = false) as Hn.
  { intros s' Hne. destruct (Is err s') eqn:E; [|done]. by eapply Is_unique in E. }
  destruct Hs as [->|[->| ->]]; rewrite ?His, ?(Hn ErrDuplicate), ?(Hn ErrNotFound) by done;
    eexists; (split; [reflexivity|done]).
Qed.

(** A mutator of the store behind its method: the reply, the log record of a change,
    and what the client makes of it. *)
Definition mutates (m : M St unit) (msg id : string) : M (Service St) reply :=
  let! r := attempt (on_store m) in
  match r with
  | inl err => ret (RErr (mapErr Error err))
  | inr _ => let! _ := logTenant msg id in ret (ROK (OKResult.Mk true))
  end.
(** The service after a mutator with outcome [o] left the store in [st]. *)
Definition after (o : option sentinel) (msg id : string) (st : St) (lg : Logger) : Service St :=
  MkService st (match o with None => Log LevelInfo msg [("tenant_id"%string, AStr id)] lg | Some _ => lg end).
Lemma mutates_outcome m msg id s o :
  outcome (m (svcStore s)).1 o -> (forall x, o = Some x -> domain x) ->
  exists rep, mutates m msg id s = (Ok rep, after o msg id (m (svcStore s)).2 (svcLog s)) /\
    (forall r, received get_ok rep r -> outcome r o).
Proof.
  intros Ho Hd. unfold mutates, bind, attempt, on_store, zoom. destruct o as [x|]; simpl in Ho.
  - destruct Ho as (err & E & His). destruct (m (svcStore s)) as [r0 s']. simpl in E. rewrite E.
    eexists. split; [reflexivity|].
    destruct (error_meaning err x His (Hd x eq_refl)) as (code & -> & Hc).
    intros r [msg' ->]. by eexists.
  - destruct Ho as [a E]. destruct (m (svcStore s)) as [r0 s']. simpl in E. rewrite E.
    eexists. split; [reflexivity|]. intros r (a' & _ & ->). by eexists.
Qed.
Lemma Registry_Set p : legible (PSet p) = true -> exists h, Registry "Tenants.Set" (PSet p) = Some h /\
  forall s, h s = mutates (Set_ store (MkTenant (SetParams.ID p) (SetParams.TopicPrefix p)
                                         (SetParams.Upstream p))) "tenant created" (SetParams.ID p) s.
Proof.
  intros Hl. eexists. split; [reflexivity|]. intros s. rewrite bind_set by done.
  unfold ServiceSet, mutates, bind, attempt, on_store, zoom. by destruct (Set_ store _ _) as [[]].
Qed.
Lemma Registry_Delete i : legible (PDelete (DeleteParams.Mk i)) = true -> exists h, Registry "Tenants.Delete" (PDelete (DeleteParams.Mk i)) = Some h /\
  forall s, h s = mutates (Delete store i) "tenant deleted" i s.
Proof.
  intros Hl. eexists. split; [reflexivity|]. intros s. rewrite bind_delete by done.
  unfold ServiceDelete, mutates, bind, attempt, on_store, zoom. simpl. by destruct (Delete store i _) as [[]].
Qed.

(** A client call that ends in a mutator. *)
Lemma call_mutates method ps h c m msg id o :
  endpoint c = ep -> fits c method ps -> Registry method ps = Some h -> (forall s, h s = mutates m msg id s) ->
  outcome (m (svcStore (world c))).1 o -> (forall x, o = Some x -> domain x) ->
  let r := (let! _ := call method ps (OKResult.Mk false) UnmarshalOK in ret tt) c in
  outcome r.1 o /\ world r.2 = after o msg id (m (svcStore (world c))).2 (svcLog (world c)) /\
  endpoint r.2 = ep.
Proof.
  intros Hep Hfit Hreg Hh Ho Hd. destruct (mutates_outcome m msg id (world c) o Ho Hd) as (rep & Hrep & Hrec).
  rewrite <-Hh in Hrep.
  destruct (call_served method ps (OKResult.Mk false) UnmarshalOK get_ok h c rep _ Hep Hfit Hreg Hrep)
    as (H1 & H2 & H3).
  { rewrite Hh in Hrep. unfold mutates, bind in Hrep.
    by destruct (attempt (on_store m) (world c)) as [[[err|a]|e|] s']; [| |done..]; injection Hrep as <- _. }
  { rewrite Hh in Hrep. unfold mutates, bind in Hrep.
    destruct (attempt (on_store m) (world c)) as [[[err|a]|e|] s']; [| |done..]; injection Hrep as <- _.
    - intros env Henv Hno. simpl in Henv. destruct (mapErr Error err); [destruct Henv; congruence|].
      destruct Henv as (? & ? & ? & _). congruence.
    - intros env (_ & Hne & HU) _. eexists. split; [reflexivity|done]. }
  apply Hrec in H1. unfold bind. destruct (call _ _ _ _ c) as [[a|e|] c']; simpl in *;
    (split; [|done]); destruct o as [x|]; simpl in *; naive_solver.
Qed.

Lemma spec_Set_domain t m x : (spec_Set t m).1 = Some x -> domain x.
Proof. unfold spec_Set, domain. repeat case_match; naive_solver. Qed.
Lemma spec_Delete_domain i m x : (spec_Delete i m).1 = Some x -> domain x.
Proof. unfold spec_Delete, domain. repeat case_match; naive_solver. Qed.

Abbreviation ClientSet := (ClientSet Marshal NewRequest Do DecodeEnvelope UnmarshalOK).
Abbreviation ClientDelete := (ClientDelete Marshal NewRequest Do DecodeEnvelope UnmarshalOK).
Abbreviation ClientList := (ClientList Marshal NewRequest Do DecodeEnvelope UnmarshalList).

(** C37: the admin client is a remote handle on the tenant store: over a transport
    that delivers, for a request within the server's read limit whose strings are
    valid UTF-8, [Set] and [Delete] have on the store exactly the effect its
    contract gives them, and report the store's outcome under the store's own
    errors (a duplicate, an unknown tenant, an invalid one), although only a
    numeric code travels; the service logs a change, and nothing else; [List]
    returns the tenants of the store, when their fields are valid UTF-8. *)
Theorem admin_client_refines c :
  endpoint c = ep -> Inv (svcStore (world c)) ->
  let tbl c := table (svcStore (world c)) in
  (forall p, fits c "Tenants.Set" (PSet p) ->
     let (o, m') := spec_Set (MkTenant (SetParams.ID p) (SetParams.TopicPrefix p)
                                        (SetParams.Upstream p)) (tbl c) in
     let r := ClientSet p c in
     outcome r.1 o /\ tbl r.2 = m' /\ Inv (svcStore (world r.2)) /\ endpoint r.2 = ep /\
     world r.2 = after o "tenant created" (SetParams.ID p) (svcStore (world r.2)) (svcLog (world c))) /\
  (forall i, fits c "Tenants.Delete" (PDelete (DeleteParams.Mk i)) ->
     let (o, m') := spec_Delete i (tbl c) in
     let r := ClientDelete i c in
     outcome r.1 o /\ tbl r.2 = m' /\ Inv (svcStore (world r.2)) /\ endpoint r.2 = ep /\
     world r.2 = after o "tenant deleted" i (svcStore (world r.2)) (svcLog (world c))) /\
  (fits c "Tenants.List" PEmpty -> map_Forall (fun _ t => legible_tenant t) (tbl c) ->
   exists vs, (ClientList c).1 = Ok (ListResult.Mk vs) /\ world (ClientList c).2 = world c /\
     vs ≡ₚ viewOf <$> (snd <$> map_to_list (tbl c))).
Proof.
  intros Hep HI tbl. split_and!.
  - intros p Hf. set (t := MkTenant _ _ _). pose proof (Set_law _ t HI) as H.
    pose proof (spec_Set_domain t (tbl c)) as Hd. unfold tbl in *.
    destruct (spec_Set t _) as [o m']. destruct H as (Ho & Ht & Hi).
    destruct (Registry_Set p (proj1 Hf)) as (h & Hreg & Hh).
    destruct (call_mutates _ _ h c _ _ _ o Hep Hf Hreg Hh Ho Hd) as (H1 & H2 & H3).
    cbv zeta. unfold Admin.ClientSet. rewrite H2. done.
  - intros i Hf. pose proof (Delete_law _ i HI) as H.
    pose proof (spec_Delete_domain i (tbl c)) as Hd. unfold tbl in *.
    destruct (spec_Delete i _) as [o m']. destruct H as (Ho & Ht & Hi).
    destruct (Registry_Delete i (proj1 Hf)) as (h & Hreg & Hh).
    destruct (call_mutates _ _ h c _ _ _ o Hep Hf Hreg Hh Ho Hd) as (H1 & H2 & H3).
    cbv zeta. unfold Admin.ClientDelete. rewrite H2. done.
  - intros Hf Hleg. destruct (List_law _ HI) as (l & El & Hl).
    edestruct (call_served "Tenants.List" PEmpty (ListResult.Mk []) UnmarshalList get_list) as (H1 & H2 & _);
      [exact Hep|exact Hf|reflexivity| | | |].
    + unfold bind at 1, ServiceList, bind, attempt, on_store, zoom. rewrite El. reflexivity.
    + simpl. apply Forall_fmap, list.Forall_forall. intros t Ht. rewrite Hl in Ht.
      apply list_elem_of_fmap in Ht as ([i t'] & -> & Ht%elem_of_map_to_list). exact (Hleg i t' Ht).
    + intros env (_ & Hne & HU) _. eexists. split; [reflexivity|done].
    + exists (map viewOf l). split_and!; [|unfold Admin.ClientList; rewrite H2; by destruct (world c)|unfold tbl; by rewrite <-Hl].
      destruct H1 as (a & [= <-] & H1). exact H1.
Qed.
End Registry.

(** * The server of [Serve] *)
Section Server.
Context {St : Type} (store : Resolver St) (Error : error -> string).
Context (BindSet : Params -> error + SetParams.t) (BindDelete : Params -> error + DeleteParams.t).
(** [rpc.NewServer(...)] with the methods registered on it, as an HTTP handler. *)
Context (ServeRPC : (string -> Params -> option (M (Service St) reply)) -> Handler (Service St)).
Abbreviation Registry := (Registry store Error BindSet BindDelete).

(** The routes of [Serve]. *)
Definition adminMux : res (ServeMux (Service St)) :=
  let? mux := Handle "/rpc" (ServeRPC Registry) NewServeMux in
  Handle "/healthz" healthz mux.

(** The routes of the admin server.  It starts; a request for [/rpc] is served by
    the JSON-RPC service and one for [/healthz] is answered 200 with body [ok],
    whatever the state of the store; no request can change the store or the log
    unless its path spells [/rpc] (percent-escapes allowed): not one that needs
    cleaning, not one below it. *)
Theorem admin_routes :
  exists mux, adminMux = Ok mux /\
  (forall r s, HttpRequest.Path r = "/rpc"%string -> ServeHTTP mux r s = ServeRPC Registry r s) /\
  (forall r s, HttpRequest.Path r = "/healthz"%string ->
     ServeHTTP mux r s = (Ok (HttpResponse.Mk StatusOK None (bytes_of_string "ok")), s)) /\
  (forall r s, (ServeHTTP mux r s).2 <> s ->
     exists seg : string, HttpRequest.Path r = ("/" +:+ seg)%string /\ pathUnescape seg = "rpc"%string).
Proof.
  eexists. split; [reflexivity|]. split_and!.
  - intros r s Hp. by rewrite (ServeHTTP_at _ _ _ (ServeRPC Registry) Hp).
  - intros r s Hp. by rewrite (ServeHTTP_at _ _ _ healthz Hp).
  - intros r s (seg & h & Hp & Hh & Hne)%ServeHTTP_change.
    exists seg. split; [done|]. cbn [app patternHandler NewServeMux] in Hh.
    destruct (String.eqb_spec "/rpc" ("/" +:+ pathUnescape seg)) as [Em|_]; [by injection Em|].
    destruct (_ =? _)%string; [|done]. by injection Hh as <-.
Qed.

Context (Marshal : rpcRequest -> error + list byte).
Context (NewRequest : string -> list byte -> error + list byte).
Context (Do : string -> list byte -> M (Service St) (Z * list byte)).
Context (DecodeEnvelope : list byte -> error + rpcResponse).
Context (UnmarshalOK : list byte -> error + OKResult.t).
Context (UnmarshalList : list byte -> error + ListResult.t).
Abbreviation post body := (HttpRequest.Mk "POST" "/rpc" body).

Context (MaxBytesRead : Z).
(** go-rpc and [encoding/json]: parameters of valid UTF-8 are bound to what was sent; a
    marshalled call of a registered method, of at most [MaxBytesRead] bytes, that
    returns in time runs it and its reply is the envelope of the response. *)
Class GoRPC : Prop := {
  rpc_bind_set p : legible (PSet p) = true -> BindSet (PSet p) = inr p;
  rpc_bind_delete p : legible (PDelete p) = true -> BindDelete (PDelete p) = inr p;
  rpc_marshals r : exists body, Marshal r = inr body;
  rpc_serves r body methods h s rep s' :
    Marshal r = inr body -> legible (params r) = true -> len body <= MaxBytesRead -> legible_reply rep ->
    methods (Method r) (params r) = Some h -> h s = (Ok rep, s') ->
    exists raw env, ServeRPC methods (post body) s = (Ok (HttpResponse.Mk StatusOK None raw), s') /\
      DecodeEnvelope raw = inr env /\ envelope_of UnmarshalOK UnmarshalList rep env
}.
(** HTTP: a client of [ep] is connected to the routes of the server. *)
Class Transport (ep : string) : Prop := {
  sends mux body : adminMux = Ok mux ->
    exists req, NewRequest ep body = inr req /\
    forall s raw s', ServeHTTP mux (post body) s = (Ok (HttpResponse.Mk StatusOK None raw), s') ->
      Do ep req s = (Ok (StatusOK, raw), s')
}.

(** The server is what its client relies on. *)
#[global] Instance server_wire ep `{!GoRPC} `{!Transport ep} :
  Wire store Error BindSet BindDelete Marshal NewRequest Do DecodeEnvelope UnmarshalOK UnmarshalList
    MaxBytesRead ep.
Proof.
  split; [apply rpc_bind_set|apply rpc_bind_delete|apply rpc_marshals|].
  intros r body Eb Hl Hlen. destruct (sends _ body eq_refl) as (req & En & Hd). exists req. split; [done|].
  intros h s rep s' Hreg Hh Hrep.
  destruct (rpc_serves r body Registry h s rep s' Eb Hl Hlen Hrep Hreg Hh) as (raw & env & Es & Hdec & Henv).
  exists raw, env. split_and!; [|done..]. apply Hd.
  by rewrite (ServeHTTP_at _ _ "/rpc" (ServeRPC Registry)).
Qed.
End Server.

(** * Demonstration: a lawful transport

    Values travel as the bits of their [Countable] number, one byte each; the
    client is connected to the routes of the server, over the in-memory store. *)
Module DemoWire.
Fixpoint put (p : positive) : list byte :=
  match p with
  | xH => [Byte.x00]
  | xO p => Byte.x01 :: put p
  | xI p => Byte.x02 :: put p
  end.
Fixpoint take_ (b : list byte) : option positive :=
  match b with
  | Byte.x00 :: _ => Some xH
  | Byte.x01 :: b => xO <$> take_ b
  | Byte.x02 :: b => xI <$> take_ b
  | _ => None
  end.
Lemma take_put p : take_ (put p) = Some p.
Proof. induction p as [p IH|p IH|]; simpl; rewrite ?IH; done. Qed.

#[global] Instance byte_eq_dec : EqDecision Byte.byte := Byte.byte_eq_dec.
#[global] Instance byte_countable : Countable Byte.byte.
Proof. apply (inj_countable Byte.to_N Byte.of_N). apply Byte.of_to_N. Defined.
#[global] Instance set_dec : EqDecision SetParams.t.
Proof. solve_decision. Defined.
#[global] Instance set_countable : Countable SetParams.t.
Proof.
  apply (inj_countable' (fun p => (SetParams.ID p, SetParams.TopicPrefix p, SetParams.Upstream p))
    (fun '(a, b, c) => SetParams.Mk a b c)). by intros [].
Defined.
#[global] Instance del_dec : EqDecision DeleteParams.t.
Proof. solve_decision. Defined.
#[global] Instance del_countable : Countable DeleteParams.t.
Proof. apply (inj_countable' DeleteParams.ID DeleteParams.Mk). by intros []. Defined.
#[global] Instance params_dec : EqDecision Params.
Proof. solve_decision. Defined.
#[global] Instance params_countable : Countable Params.
Proof.
  apply (inj_countable' (fun p => match p with PSet p => inl p | PDelete p => inr (inl p) | PEmpty => inr (inr tt) end)
    (fun x => match x with inl p => PSet p | inr (inl p) => PDelete p | inr (inr _) => PEmpty end)).
  by intros [].
Defined.
#[global] Instance request_dec : EqDecision rpcRequest.
Proof. solve_decision. Defined.
#[global] Instance request_countable : Countable rpcRequest.
Proof.
  apply (inj_countable' (fun r => (JSONRPC r, reqID r, Method r, params r))
    (fun '(a, b, c, d) => MkRpcRequest a b c d)). by intros [].
Defined.
#[global] Instance rpcError_dec : EqDecision rpcError.
Proof. solve_decision. Defined.
#[global] Instance rpcError_countable : Countable rpcError.
Proof.
  apply (inj_countable' (fun e => (Code e, Message e)) (fun '(a, b) => MkRpcError a b)). by intros [].
Defined.
#[global] Instance response_dec : EqDecision rpcResponse.
Proof. solve_decision. Defined.
#[global] Instance response_countable : Countable rpcResponse.
Proof.
  apply (inj_countable' (fun r => (Result r, RError r)) (fun '(a, b) => MkRpcResponse a b)). by intros [].
Defined.
#[global] Instance view_dec : EqDecision TenantView.t.
Proof. solve_decision. Defined.
#[global] Instance view_countable : Countable TenantView.t.
Proof.
  apply (inj_countable' (fun v => (TenantView.ID v, TenantView.TopicPrefix v, TenantView.Upstream v))
    (fun '(a, b, c) => TenantView.Mk a b c)). by intros [].
Defined.

(** Encoding and decoding of a value. *)
Definition enc {A} `{Countable A} (a : A) : list byte := put (encode a).
Definition dec {A} `{Countable A} (b : list byte) : error + A :=
  match p ← take_ b; decode p with Some a => inr a | None => inl (ErrNew "decode" []) end.
Lemma dec_enc {A} `{Countable A} (a : A) : dec (enc a) = inr a.
Proof. unfold dec, enc. rewrite take_put. simpl. by rewrite decode_encode. Qed.
Lemma enc_ne {A} `{Countable A} (a : A) : enc a <> [].
Proof. unfold enc. by destruct (encode a). Qed.

Definition Error (err : error) : string := "error".
Definition BindSet (ps : Params) : error + SetParams.t :=
  match ps with PSet p => inr p | _ => inl (ErrNew "bind" []) end.
Definition BindDelete (ps : Params) : error + DeleteParams.t :=
  match ps with PDelete p => inr p | _ => inl (ErrNew "bind" []) end.
Definition Marshal (r : rpcRequest) : error + list byte := inr (enc r).
Definition NewRequest (ep : string) (body : list byte) : error + list byte := inr body.
Definition UnmarshalOK (b : list byte) : error + OKResult.t :=
  match dec b with inr ok => inr (OKResult.Mk ok) | inl e => inl e end.
Definition UnmarshalList (b : list byte) : error + ListResult.t :=
  match dec b with inr vs => inr (ListResult.Mk vs) | inl e => inl e end.
Definition DecodeEnvelope (b : list byte) : error + rpcResponse := dec b.

Definition envelope (rep : reply) : rpcResponse :=
  match rep with
  | RErr (RPCError code msg) => MkRpcResponse [] (Some (MkRpcError code msg))
  | RErr (Plain err) => MkRpcResponse [] (Some (MkRpcError (-32603) (Error err)))
  | ROK r => MkRpcResponse (enc (OKResult.OK r)) None
  | RList r => MkRpcResponse (enc (ListResult.Tenants r)) None
  end.
Definition MaxBytesRead : Z := 1048576.
Definition ServeRPC (methods : string -> Params -> option (M (Service memoryResolver) reply))
    : Handler (Service memoryResolver) :=
  fun req =>
  if MaxBytesRead <? len (HttpRequest.Body req) then ret (HttpResponse.Mk StatusBadRequest None []) else
  match dec (HttpRequest.Body req) with
  | inl err => ret (HttpResponse.Mk StatusBadRequest None [])
  | inr r =>
      match methods (Method r) (params r) with
      | None => ret (HttpResponse.Mk StatusOK None (enc (MkRpcResponse [] (Some (MkRpcError (-32601) "method not found")))))
      | Some h => let! rep := h in ret (HttpResponse.Mk StatusOK None (enc (envelope rep)))
      end
  end.
Abbreviation mux := (adminMux (memory Datatypes.id) Error BindSet BindDelete ServeRPC).
Definition Do (ep : string) (req : list byte) : M (Service memoryResolver) (Z * list byte) :=
  match mux with
  | Ok mux =>
      let! resp := ServeHTTP mux (HttpRequest.Mk "POST" "/rpc" req) in
      ret (HttpResponse.Status resp, HttpResponse.Body resp)
  | _ => panic
  end.

#[global] Instance gorpc :
  GoRPC BindSet BindDelete ServeRPC Marshal DecodeEnvelope UnmarshalOK UnmarshalList MaxBytesRead.
Proof.
  split; [done|done|intros r; by eexists|].
  intros r body methods h s rep s' [= <-] _ Hlen _ Hreg Hh. exists (enc (envelope rep)), (envelope rep). split_and!.
  - unfold ServeRPC. cbn [HttpRequest.Body]. rewrite (proj2 (Z.ltb_ge _ _) Hlen), dec_enc, Hreg. unfold bind. by rewrite Hh.
  - apply dec_enc.
  - destruct rep as [[code msg|err]|[ok]|[vs]]; simpl; [by eexists| | |].
    + eexists _, _. split; [reflexivity|]. vm_compute. set_solver.
    + unfold UnmarshalOK. rewrite dec_enc. split_and!; [done|apply enc_ne|done].
    + unfold UnmarshalList. rewrite dec_enc. split_and!; [done|apply enc_ne|done].
Qed.
#[global] Instance transport :
  Transport (memory Datatypes.id) Error BindSet BindDelete ServeRPC NewRequest Do "http://127.0.0.1:9095/rpc".
Proof.
  split. intros mx body Em. exists body. split; [done|]. intros s raw s' Hs. unfold Do. rewrite Em.
  unfold bind. by rewrite Hs.
Qed.
#[global] Instance store_laws :
  ResolverLaws (memory Datatypes.id) tenants (fun s => well_formed (tenants s)).
Proof. apply memory_laws. by intros l. Qed.
Lemma store_wf : well_formed (tenants DemoTenants.m0).
Proof. by apply map_Forall_singleton. Qed.
Definition client : Client (Service memoryResolver) :=
  NewClient "http://127.0.0.1:9095/rpc" (NewService (quietLogger LevelInfo) DemoTenants.m0 None).
End DemoWire.

(** Deleting bob over the wire empties the store, and is logged. *)
Lemma admin_client_refines_witness :
  let r := ClientDelete DemoWire.Marshal DemoWire.NewRequest DemoWire.Do DemoWire.DecodeEnvelope
    DemoWire.UnmarshalOK "bob" DemoWire.client in
  tenants (svcStore (world r.2)) = ∅ /\
  records (svcLog (world r.2)) = [MkLogRecord LevelInfo "tenant deleted" [("tenant_id"%string, AStr "bob")]].
Proof.
  destruct (admin_client_refines (memory Datatypes.id) DemoWire.Error DemoWire.BindSet DemoWire.BindDelete
    DemoWire.Marshal DemoWire.NewRequest DemoWire.Do DemoWire.DecodeEnvelope DemoWire.UnmarshalOK
    DemoWire.UnmarshalList DemoWire.MaxBytesRead tenants (fun s => well_formed (tenants s)) DemoWire.client eq_refl
    DemoWire.store_wf) as (_ & H & _).
  assert (fits DemoWire.Marshal DemoWire.MaxBytesRead DemoWire.client "Tenants.Delete"
    (PDelete (DeleteParams.Mk "bob"))) as Hf.
  { split; [reflexivity|]. intros body [= <-]. apply Z.leb_le. vm_compute. reflexivity. }
  specialize (H "bob"%string Hf). clear Hf.
  assert (spec_Delete "bob" (tenants (svcStore (world DemoWire.client))) = (None, ∅)) as E
    by (vm_compute; reflexivity).
  cbv zeta in H. rewrite E in H. destruct H as (_ & H & _ & _ & Hw). split; [exact H|].
  rewrite Hw. reflexivity.
Defined.
