(* ===== verification/Upstream.v ===== *)
(** Package [upstream]: the authenticated connection to the broker (conn.go).

    A [*Conn] is [option Conn], a nil dereference being a panic.  The outcome of
    [d.DialContext] (an error or a fresh connection) is an argument of the
    dialling functions; kmsg's request formatter, the SASL codecs and franz-go's
    SCRAM session are parameters. *)
From Stdlib Require Import ZArith Lia.
From stdpp Require Import base list strings tactics.
From S2P Require Import Prelude GoNet Protocol Kmsg Auth.
Local Open Scope Z_scope.

(** Durations are nanoseconds. *)
Definition Second : Z := 10 ^ 9.
Definition dialTimeout : Z := 10 * Second.
Definition DefaultRequestTimeout : Z := 30 * Second.

Record Conn : Type := MkConn {
  nc : NetConn;
  corrIDGen : Z;  (* atomic.Int32 *)
  reqTO : Z
}.
Definition set_nc (n : NetConn) (c : Conn) : Conn := MkConn n (corrIDGen c) (reqTO c).
Definition set_corrIDGen (i : Z) (c : Conn) : Conn := MkConn (nc c) i (reqTO c).
Definition on_nc {A} (m : M NetConn A) : M Conn A := zoom nc set_nc m.

Definition SetRequestTimeout (d : Z) (c : Conn) : Conn := MkConn (nc c) (corrIDGen c) d.
Definition CloseConn (c : Conn) : Conn := set_nc (Close (nc c)) c.

Definition applyRequestDeadline : M Conn unit :=
  let! c := get in
  if reqTO c <=? 0 then on_nc (SetDeadline None)
  else on_nc (SetDeadline (Some (reqTO c))).

Definition nextCorrelationID : M Conn Z :=
  let! c := get in
  let id := int32 (corrIDGen c + 1) in
  let! _ := modify (set_corrIDGen id) in
  ret id.

(** [binary.BigEndian.PutUint32(b[lo:lo+4], v)] *)
Definition putUint32 (b : list byte) (lo : nat) (v : Z) : list byte :=
  take lo b ++ be_encode 4 (uint32 v) ++ drop (lo + 4) b.

Definition RoundTrip (reqFrame : list byte) (clientCorrelationID : Z)
    (headerVersion respHeaderVersion : Z) : M Conn (list byte) :=
  if len reqFrame <? 8 then fail (ErrNew "RoundTrip: request frame too short" [])
  else
  let! upstreamCID := nextCorrelationID in
  let out := putUint32 reqFrame 4 upstreamCID in
  let! _ := wrap "RoundTrip" applyRequestDeadline in
  let! _ := wrap "RoundTrip" (on_nc (WriteFrame out)) in
  let! respFrame := wrap "RoundTrip" (on_nc ReadFrame) in
  if len respFrame <? 4 then fail (ErrNew "RoundTrip: response frame too short" [])
  else
  let! h := lift (slice respFrame 0 4) in
  let gotCID := int32 (be_decode h) in
  if negb (gotCID =? upstreamCID)
  then fail (ErrNew "RoundTrip: correlation id mismatch: want %d got %d"
               [FInt upstreamCID; FInt gotCID])
  else ret (putUint32 respFrame 0 clientCorrelationID).

Section Upstream.
(** [formatter.AppendRequest(nil, req, cid)] of a formatter with client id. *)
Context (AppendRequest : string -> Request -> Z -> list byte).
Context (hsReq : Codec SASLHandshakeRequest.t) (hsResp : Codec SASLHandshakeResponse.t).
Context (authReq : Codec SASLAuthenticateRequest.t) (authResp : Codec SASLAuthenticateResponse.t).
Context (avReq : Request).

(** What [RoundTripRequest] and [directRoundTrip] share once the request is
    written: read the response, check its correlation id, skip its header. *)
Definition readResponse (fn : string) (cid apiKey apiVersion : Z) : M Conn (list byte) :=
  let! respFrame := wrap fn (on_nc ReadFrame) in
  if len respFrame <? 4 then fail (ErrNew (fn +:+ ": short response") [])
  else
  let! h := lift (slice respFrame 0 4) in
  let gotCID := int32 (be_decode h) in
  if negb (gotCID =? cid)
  then fail (ErrNew (fn +:+ ": correlation id mismatch: want %d got %d") [FInt cid; FInt gotCID])
  else
  let off := if 1 <=? ResponseHeaderVersion apiKey apiVersion then 5 else 4 in
  lift (slice_from respFrame off).

Definition RoundTripRequest (req : Request) (clientID : string) : M Conn (list byte) :=
  let apiKey := Key req in
  let apiVersion := GetVersion req in
  let! cid := nextCorrelationID in
  let frameWithLen := AppendRequest clientID req cid in
  let! _ := wrap "RoundTripRequest" applyRequestDeadline in
  let! _ := wrap "RoundTripRequest" (on_nc (Write frameWithLen)) in
  readResponse "RoundTripRequest" cid apiKey apiVersion.

Definition directRoundTrip (req : Request) (apiKey apiVersion : Z) : M Conn (list byte) :=
  let! cid := nextCorrelationID in
  let frameWithLen := AppendRequest "kroxy" req cid in
  let! _ := wrap "directRoundTrip" (on_nc (Write frameWithLen)) in
  readResponse "directRoundTrip" cid apiKey apiVersion.

Definition apiVersions : M Conn unit :=
  let! _ := wrap "apiVersions" (directRoundTrip avReq ApiVersionsKey 0) in
  ret tt.

Definition handshakeRequest (mechanism : string) : Request :=
  MkRequest SaslHandshakeKey 1 (AppendTo hsReq 1 (SASLHandshakeRequest.Mk mechanism)).

Definition saslHandshake (mechanism : string) : M Conn unit :=
  let! body := wrap "saslHandshake" (directRoundTrip (handshakeRequest mechanism) SaslHandshakeKey 1) in
  match ReadFrom hsResp 1 body with
  | inl err => fail (Wrap err "saslHandshake")
  | inr resp =>
      if negb (SASLHandshakeResponse.ErrorCode resp =? 0)
      then fail (ErrNew "saslHandshake: upstream error code %d"
                   [FInt (SASLHandshakeResponse.ErrorCode resp)])
      else ret tt
  end.

Definition authenticateRequest (payload : list byte) : Request :=
  MkRequest SaslAuthenticateKey 1 (AppendTo authReq 1 (SASLAuthenticateRequest.Mk payload)).

(** ["\x00" + username + "\x00" + password] *)
Definition plainPayload (username password : string) : list byte :=
  Byte.x00 :: bytes_of_string username ++ Byte.x00 :: bytes_of_string password.

Definition plainAuthenticate (username password : string) : M Conn unit :=
  let! body := wrap "plainAuthenticate"
    (directRoundTrip (authenticateRequest (plainPayload username password)) SaslAuthenticateKey 1) in
  match ReadFrom authResp 1 body with
  | inl err => fail (Wrap err "plainAuthenticate")
  | inr resp =>
      if negb (SASLAuthenticateResponse.ErrorCode resp =? 0) then
        let msg := default ""%string (SASLAuthenticateResponse.ErrorMessage resp) in
        fail (ErrNew "plainAuthenticate: upstream error %d: %s"
                [FInt (SASLAuthenticateResponse.ErrorCode resp); FStr msg])
      else ret tt
  end.

(** The results are [respPayload], [errCode] and [errMsg]. *)
Definition RelaySASLAuthenticate (payload : list byte) : M Conn (list byte * Z * string) :=
  let! _ := wrap "RelaySASLAuthenticate" applyRequestDeadline in
  let! body := wrap "RelaySASLAuthenticate"
    (directRoundTrip (authenticateRequest payload) SaslAuthenticateKey 1) in
  match ReadFrom authResp 1 body with
  | inl err => fail (Wrap err "RelaySASLAuthenticate")
  | inr resp =>
      ret (SASLAuthenticateResponse.SASLAuthBytes resp, SASLAuthenticateResponse.ErrorCode resp,
           default ""%string (SASLAuthenticateResponse.ErrorMessage resp))
  end.

(** ** Dialling *)
Definition on_conn {A} (m : M Conn A) : M (option Conn) A :=
  fun s => match s with
           | None => (Panic, None)
           | Some c => let '(r, c') := m c in (r, Some c')
           end.
(** [if err := ...; err != nil { _ = nc.Close(); return nil, err }] *)
Definition closing {A} (m : M (option Conn) A) : M (option Conn) A :=
  on_err m (fmap CloseConn).

Definition dialAndNegotiate (dialed : error + NetConn) (mechanism : string) : M (option Conn) unit :=
  match dialed with
  | inl err => fail (Wrap err "dialAndNegotiate")
  | inr n =>
      let! _ := modify (fun _ => Some (MkConn n 0 DefaultRequestTimeout)) in
      let! _ := closing (wrap "dialAndNegotiate" (on_conn (on_nc (SetDeadline (Some dialTimeout))))) in
      let! _ := closing (wrap "dialAndNegotiate" (on_conn apiVersions)) in
      closing (wrap "dialAndNegotiate" (on_conn (saslHandshake mechanism)))
  end.

Definition Dial (dialed : error + NetConn) (username password : string) : M (option Conn) unit :=
  let! _ := wrap "Dial" (dialAndNegotiate dialed MechanismPlain) in
  let! _ := closing (wrap "Dial" (on_conn (plainAuthenticate username password))) in
  closing (wrap "Dial" (on_conn (on_nc (SetDeadline None)))).

Definition DialForSCRAM (dialed : error + NetConn) (mechanism : string) : M (option Conn) unit :=
  if negb (IsSCRAMMechanism mechanism)
  then fail (ErrNew "DialForSCRAM: unsupported mechanism %q" [FStr mechanism])
  else
  let! _ := wrap "DialForSCRAM" (dialAndNegotiate dialed mechanism) in
  closing (wrap "DialForSCRAM" (on_conn (on_nc (SetDeadline None)))).

(** ** The SCRAM client of PLAIN to SCRAM translation *)
Context {Session : Type}.
Context (Authenticate : string -> string -> string -> error + Session * list byte).
Context (Challenge : Session -> list byte -> error + bool * list byte * Session).

Definition upstreamError (errCode : Z) (errMsg : string) : error :=
  ErrNew "scramAuthenticate: upstream error %d: %s" [FInt errCode; FStr errMsg].

(** The [for] loop.  Every iteration that continues has read a response, so the
    bytes the broker is going to send bound their number. *)
Fixpoint scramLoop (fuel : nat) (session : Session) (clientMsg : list byte) : M Conn unit :=
  match fuel with
  | O => fail (ErrNew "scramAuthenticate: fuel" [])
  | S fuel =>
      let! (serverMsg, errCode, errMsg) :=
        wrap "scramAuthenticate" (RelaySASLAuthenticate clientMsg) in
      if negb (errCode =? 0) then fail (upstreamError errCode errMsg)
      else
      match Challenge session serverMsg with
      | inl cErr => fail (Wrap cErr "scramAuthenticate")
      | inr (done_, next, session) =>
          if done_ then
            if 0 <? len next then
              let! (_, errCode, errMsg) :=
                wrap "scramAuthenticate" (RelaySASLAuthenticate next) in
              if negb (errCode =? 0) then fail (upstreamError errCode errMsg) else ret tt
            else ret tt
          else scramLoop fuel session next
      end
  end.

Definition scramAuthenticate (mechanism username password : string) : M Conn unit :=
  if negb ((mechanism =? MechanismSCRAMSHA256)%string || (mechanism =? MechanismSCRAMSHA512)%string)
  then fail (ErrNew "scramAuthenticate: unsupported mechanism %q" [FStr mechanism])
  else
  match Authenticate mechanism username password with
  | inl err => fail (Wrap err "scramAuthenticate")
  | inr (session, clientMsg) =>
      let! c := get in
      scramLoop (S (length (rx (nc c)))) session clientMsg
  end.

Definition DialSCRAM (dialed : error + NetConn) (mechanism username password : string)
    : M (option Conn) unit :=
  if negb (IsSCRAMMechanism mechanism)
  then fail (ErrNew "DialSCRAM: unsupported mechanism %q" [FStr mechanism])
  else
  let! _ := wrap "DialSCRAM" (dialAndNegotiate dialed mechanism) in
  let! _ := closing (wrap "DialSCRAM" (on_conn (scramAuthenticate mechanism username password))) in
  closing (wrap "DialSCRAM" (on_conn (on_nc (SetDeadline None)))).
End Upstream.
