(* ===== verification/UpstreamFacts.v ===== *)
(** Theorems about the upstream connection: correlation ids, deadlines, what a
    successful dial has exchanged, and termination of the SCRAM client. *)
From Stdlib Require Import ZArith Lia.
From stdpp Require Import base list strings tactics.
From S2P Require Import Prelude GoNet Protocol ProtocolFacts Kmsg Auth Upstream.
Local Open Scope Z_scope.

(** * What an operation may do to the connection *)
Section Frame.
Implicit Types c : Conn.

(** The socket evolves; timeouts are untouched. *)
Definition evolvesC c c' : Prop := evolves (nc c) (nc c') /\ reqTO c' = reqTO c.
#[global] Instance evolvesC_preorder : PreOrder evolvesC.
Proof.
  split; [intros c; split; [reflexivity|done]|].
  intros c1 c2 c3 [H1 E1] [H2 E2]. split; [by etrans|congruence].
Qed.

(** All reads made are under the deadline found. *)
Definition underC c c' : Prop := reads_under (nc c) (nc c').
#[global] Instance underC_preorder : PreOrder underC.
Proof.
  split; [intros c; unfold underC; reflexivity|]. intros c1 c2 c3 H1 H2. unfold underC in *. by etrans.
Qed.

Lemma on_nc_evolves {A} (m : M NetConn A) : preserves evolves m -> preserves evolvesC (on_nc m).
Proof.
  intros H c. unfold on_nc, zoom. specialize (H (nc c)). by destruct (m (nc c)) as [r n].
Qed.
Lemma on_nc_under {A} (m : M NetConn A) : preserves reads_under m -> preserves underC (on_nc m).
Proof.
  intros H c. unfold on_nc, zoom. specialize (H (nc c)). by destruct (m (nc c)) as [r n].
Qed.
Lemma nextCorrelationID_evolves : preserves evolvesC nextCorrelationID.
Proof. intros c. simpl. split; [reflexivity|done]. Qed.
Lemma nextCorrelationID_under : preserves underC nextCorrelationID.
Proof. intros c. unfold underC. simpl. reflexivity. Qed.
End Frame.
#[export] Hint Resolve on_nc_evolves on_nc_under nextCorrelationID_evolves nextCorrelationID_under
  evolvesC_preorder underC_preorder : kroxy.

(** Walk through a computation, leaving the operations to the hints. *)
Ltac walk := repeat first
  [ solve [eauto with kroxy typeclass_instances]
  | apply preserves_wrap
  | apply preserves_bind; [typeclasses eauto| |intros ?]
  | progress case_match ].

Section Ops.
Context (AppendRequest : string -> Request -> Z -> list byte).
Context (hsReq : Codec SASLHandshakeRequest.t) (hsResp : Codec SASLHandshakeResponse.t).
Context (authReq : Codec SASLAuthenticateRequest.t) (authResp : Codec SASLAuthenticateResponse.t).
Context (avReq : Request).

Lemma readResponse_evolves fn cid k v : preserves evolvesC (readResponse fn cid k v).
Proof. unfold readResponse. walk. Qed.
Lemma readResponse_under fn cid k v : preserves underC (readResponse fn cid k v).
Proof. unfold readResponse. walk. Qed.
#[local] Hint Resolve readResponse_evolves readResponse_under : kroxy.

Lemma directRoundTrip_evolves req k v : preserves evolvesC (directRoundTrip AppendRequest req k v).
Proof. unfold directRoundTrip. walk. Qed.
Lemma directRoundTrip_under req k v : preserves underC (directRoundTrip AppendRequest req k v).
Proof. unfold directRoundTrip. walk. Qed.
#[local] Hint Resolve directRoundTrip_evolves directRoundTrip_under : kroxy.

Lemma applyRequestDeadline_evolves : preserves evolvesC applyRequestDeadline.
Proof. unfold applyRequestDeadline. walk. Qed.
#[local] Hint Resolve applyRequestDeadline_evolves : kroxy.

Lemma apiVersions_under : preserves underC (apiVersions AppendRequest avReq).
Proof. unfold apiVersions. walk. Qed.
Lemma saslHandshake_under m : preserves underC (saslHandshake AppendRequest hsReq hsResp m).
Proof. unfold saslHandshake. walk. Qed.
Lemma plainAuthenticate_under u p :
  preserves underC (plainAuthenticate AppendRequest authReq authResp u p).
Proof. unfold plainAuthenticate. walk. Qed.
Lemma apiVersions_evolves : preserves evolvesC (apiVersions AppendRequest avReq).
Proof. unfold apiVersions. walk. Qed.
Lemma saslHandshake_evolves m : preserves evolvesC (saslHandshake AppendRequest hsReq hsResp m).
Proof. unfold saslHandshake. walk. Qed.
Lemma plainAuthenticate_evolves u p :
  preserves evolvesC (plainAuthenticate AppendRequest authReq authResp u p).
Proof. unfold plainAuthenticate. walk. Qed.
Lemma RelaySASLAuthenticate_evolves payload :
  preserves evolvesC (RelaySASLAuthenticate AppendRequest authReq authResp payload).
Proof. unfold RelaySASLAuthenticate. walk. Qed.
Lemma RoundTripRequest_evolves req id : preserves evolvesC (RoundTripRequest AppendRequest req id).
Proof. unfold RoundTripRequest. walk. Qed.
Lemma RoundTrip_evolves f cid hv rhv : preserves evolvesC (RoundTrip f cid hv rhv).
Proof. unfold RoundTrip. walk. Qed.
End Ops.
#[export] Hint Resolve readResponse_evolves readResponse_under directRoundTrip_evolves
  directRoundTrip_under applyRequestDeadline_evolves apiVersions_under saslHandshake_under
  plainAuthenticate_under apiVersions_evolves saslHandshake_evolves plainAuthenticate_evolves
  RelaySASLAuthenticate_evolves RoundTripRequest_evolves RoundTrip_evolves : kroxy.

(** * Deadlines *)

(** A deadline of at most [DefaultRequestTimeout]. *)
Definition armed (d : option Z) : Prop := exists z, d = Some z /\ 0 < z <= DefaultRequestTimeout.

(** With the default request timeout, every read made is under such a deadline. *)
Definition boundedC (c c' : Conn) : Prop :=
  reqTO c' = reqTO c /\
  (reqTO c = DefaultRequestTimeout ->
   exists rs, reads (nc c') = reads (nc c) ++ rs /\ Forall armed rs).

#[global] Instance boundedC_preorder : PreOrder boundedC.
Proof.
  split.
  - intros c. split; [done|]. exists []. by rewrite app_nil_r.
  - intros c1 c2 c3 [E1 H1] [E2 H2]. split; [congruence|]. intros Hd.
    destruct H1 as (r1 & Hr1 & F1); [done|]. destruct H2 as (r2 & Hr2 & F2); [congruence|].
    exists (r1 ++ r2). rewrite Hr2, Hr1, app_assoc. split; [done|]. by apply Forall_app.
Qed.

Lemma under_armed c c' :
  armed (deadline (nc c)) -> underC c c' ->
  exists rs, reads (nc c') = reads (nc c) ++ rs /\ Forall armed rs.
Proof.
  intros Ha [_ [k Hk]]. eexists. split; [exact Hk|]. apply Forall_replicate, Ha.
Qed.

Lemma applyRequestDeadline_armed c c' :
  reqTO c = DefaultRequestTimeout -> applyRequestDeadline c = (Ok tt, c') ->
  armed (deadline (nc c')) /\ reads (nc c') = reads (nc c) /\ reqTO c' = reqTO c.
Proof.
  intros Hd. unfold applyRequestDeadline, bind, get. rewrite Hd. simpl. unfold on_nc, zoom.
  destruct (SetDeadline_spec (Some DefaultRequestTimeout) (nc c)) as (_ & _ & Hr & _ & Hok & _).
  destruct (SetDeadline _ (nc c)) as [r n]. intros [= -> <-]. simpl in *. split_and!; [|done..].
  rewrite Hok by done. eexists. split; [done|]. unfold DefaultRequestTimeout, Second. lia.
Qed.
Lemma applyRequestDeadline_reads c :
  reads (nc (applyRequestDeadline c).2) = reads (nc c) /\ reqTO (applyRequestDeadline c).2 = reqTO c.
Proof.
  unfold applyRequestDeadline, bind, get. case_match; unfold on_nc, zoom;
    match goal with |- context [SetDeadline ?d ?n] =>
      pose proof (SetDeadline_spec d n) as (_ & _ & Hr & _); by destruct (SetDeadline d n) end.
Qed.

Lemma arm_bounded {A} msg (k : unit -> M Conn A) :
  (forall u, preserves underC (k u)) -> (forall u, preserves evolvesC (k u)) ->
  preserves boundedC (bind (wrap msg applyRequestDeadline) k).
Proof.
  intros Hu He c. unfold bind, wrap.
  pose proof (applyRequestDeadline_reads c) as [Hr Ht].
  destruct (applyRequestDeadline c) as [[[]|e|] c1] eqn:E; simpl in *.
  - specialize (Hu tt c1). destruct (He tt c1) as [_ Ht']. split; [congruence|]. intros Hd.
    destruct (applyRequestDeadline_armed c c1 Hd E) as (Ha & _ & _).
    destruct (under_armed _ _ Ha Hu) as (rs & Hrs & F). exists rs. by rewrite Hrs, Hr.
  - split; [done|]. intros _. exists []. by rewrite app_nil_r.
  - split; [done|]. intros _. exists []. by rewrite app_nil_r.
Qed.

Lemma nextCorrelationID_bounded : preserves boundedC nextCorrelationID.
Proof. intros c. simpl. split; [done|]. intros _. exists []. by rewrite app_nil_r. Qed.
#[export] Hint Resolve nextCorrelationID_bounded boundedC_preorder : kroxy.

Section Bounded.
Context (AppendRequest : string -> Request -> Z -> list byte).
Context (hsReq : Codec SASLHandshakeRequest.t) (hsResp : Codec SASLHandshakeResponse.t).
Context (authReq : Codec SASLAuthenticateRequest.t) (authResp : Codec SASLAuthenticateResponse.t).
Context (avReq : Request).
Context {Session : Type}.
Context (Authenticate : string -> string -> string -> error + Session * list byte).
Context (Challenge : Session -> list byte -> error + bool * list byte * Session).

Lemma RoundTrip_bounded f cid hv rhv : preserves boundedC (RoundTrip f cid hv rhv).
Proof.
  unfold RoundTrip. case_match; [eauto with kroxy typeclass_instances|].
  apply preserves_bind; [apply _|eauto with kroxy|]. intros u. apply arm_bounded; intros []; walk.
Qed.
Lemma RoundTripRequest_bounded req id : preserves boundedC (RoundTripRequest AppendRequest req id).
Proof.
  unfold RoundTripRequest. apply preserves_bind; [apply _|eauto with kroxy|].
  intros u. apply arm_bounded; intros []; walk.
Qed.
Lemma RelaySASLAuthenticate_bounded payload :
  preserves boundedC (RelaySASLAuthenticate AppendRequest authReq authResp payload).
Proof. unfold RelaySASLAuthenticate. apply arm_bounded; intros []; walk. Qed.

Lemma scramLoop_both fuel session msg :
  preserves boundedC (scramLoop AppendRequest authReq authResp Challenge fuel session msg) /\
  preserves evolvesC (scramLoop AppendRequest authReq authResp Challenge fuel session msg).
Proof.
  pose proof RelaySASLAuthenticate_bounded as HR.
  revert session msg. induction fuel as [|fuel IH]; intros session msg; simpl; [split; walk|].
  split; walk; apply IH.
Qed.
Lemma scramLoop_bounded fuel session msg :
  preserves boundedC (scramLoop AppendRequest authReq authResp Challenge fuel session msg).
Proof. apply scramLoop_both. Qed.
Lemma scramLoop_evolves fuel session msg :
  preserves evolvesC (scramLoop AppendRequest authReq authResp Challenge fuel session msg).
Proof. apply scramLoop_both. Qed.
#[local] Hint Resolve scramLoop_bounded scramLoop_evolves : kroxy.
Lemma scramAuthenticate_bounded m u p :
  preserves boundedC (scramAuthenticate AppendRequest authReq authResp Authenticate Challenge m u p).
Proof. unfold scramAuthenticate. walk. Qed.
Lemma scramAuthenticate_evolves m u p :
  preserves evolvesC (scramAuthenticate AppendRequest authReq authResp Authenticate Challenge m u p).
Proof. unfold scramAuthenticate. walk. Qed.
End Bounded.
#[export] Hint Resolve RoundTrip_bounded RoundTripRequest_bounded RelaySASLAuthenticate_bounded
  scramLoop_bounded scramLoop_evolves scramAuthenticate_bounded scramAuthenticate_evolves : kroxy.

(** ** Dialling *)
Section Dialling.
Context (AppendRequest : string -> Request -> Z -> list byte).
Context (hsReq : Codec SASLHandshakeRequest.t) (hsResp : Codec SASLHandshakeResponse.t).
Context (authReq : Codec SASLAuthenticateRequest.t) (authResp : Codec SASLAuthenticateResponse.t).
Context (avReq : Request).
Context {Session : Type}.
Context (Authenticate : string -> string -> string -> error + Session * list byte).
Context (Challenge : Session -> list byte -> error + bool * list byte * Session).

Abbreviation Dial := (Dial AppendRequest hsReq hsResp authReq authResp avReq).
Abbreviation DialForSCRAM := (DialForSCRAM AppendRequest hsReq hsResp avReq).
Abbreviation DialSCRAM :=
  (DialSCRAM AppendRequest hsReq hsResp authReq authResp avReq Authenticate Challenge).
Abbreviation dialAndNegotiate := (dialAndNegotiate AppendRequest hsReq hsResp avReq).

(** The connection [c] dialled on the socket [n]. *)
Definition dialled (n : NetConn) (c : Conn) : Prop :=
  evolves n (nc c) /\ reqTO c = DefaultRequestTimeout /\
  exists rs, reads (nc c) = reads n ++ rs /\ Forall armed rs.
Definition P_any (n : NetConn) (s : option Conn) : Prop := exists c, s = Some c /\ dialled n c.
Definition P_armed (n : NetConn) (s : option Conn) : Prop :=
  exists c, s = Some c /\ dialled n c /\ armed (deadline (nc c)).

Lemma dialled_step n c c' : dialled n c -> evolvesC c c' -> boundedC c c' -> dialled n c'.
Proof.
  intros (He & Ht & rs & Hrs & F) [He' Ht'] [_ Hb].
  destruct (Hb Ht) as (rs' & Hrs' & F'). split_and!; [by etrans|congruence|].
  exists (rs ++ rs'). rewrite Hrs', Hrs, app_assoc. split; [done|]. by apply Forall_app.
Qed.

Lemma on_conn_any {A} n (m : M Conn A) :
  preserves evolvesC m -> preserves boundedC m ->
  triple (P_any n) (on_conn m) (fun _ => P_any n) (P_any n).
Proof.
  intros He Hb s (c & -> & Hc). simpl. specialize (He c). specialize (Hb c).
  destruct (m c) as [[a|e|] c']; exists c'; (split; [done|by eapply dialled_step]).
Qed.
Lemma on_conn_armed {A} n (m : M Conn A) :
  preserves evolvesC m -> preserves underC m ->
  triple (P_armed n) (on_conn m) (fun _ => P_armed n) (P_any n).
Proof.
  intros He Hu s (c & -> & Hc & Ha). simpl. specialize (He c). specialize (Hu c).
  assert (forall r c', m c = (r, c') -> dialled n c' /\ armed (deadline (nc c'))) as H.
  { intros r c' E. rewrite E in *. simpl in *. split.
    - apply (dialled_step n c); [done..|]. split; [apply He|]. intros _. by apply under_armed.
    - destruct Hu as [Hd _]. by rewrite Hd. }
  destruct (m c) as [[a|e|] c'] eqn:E; destruct (H _ _ eq_refl); exists c'; auto.
Qed.
Lemma closing_triple {A} n P (m : M (option Conn) A) Q :
  triple P m Q (P_any n) -> triple P (closing m) Q (P_any n).
Proof.
  intros H. apply triple_on_err; [done|]. intros s (c & -> & Hc). exists (CloseConn c).
  split; [done|]. apply (dialled_step n c); [done| |].
  - split; [apply Close_evolves|done].
  - split; [done|]. intros _. exists []. by rewrite app_nil_r.
Qed.
Lemma clear_bounded : preserves boundedC (on_nc (SetDeadline None)).
Proof.
  intros c. unfold on_nc, zoom. pose proof (SetDeadline_spec None (nc c)) as (_ & _ & Hr & _).
  destruct (SetDeadline None (nc c)) as [r n']. split; [done|]. intros _. exists [].
  by rewrite app_nil_r.
Qed.

Lemma armed_any n s : P_armed n s -> P_any n s.
Proof. intros (c & ? & ? & ?). by exists c. Qed.

(** The dialling functions start from no connection. *)
Lemma dialAndNegotiate_triple n mech :
  triple (fun s => s = None) (dialAndNegotiate (inr n) mech) (fun _ => P_armed n) (P_any n).
Proof.
  unfold Upstream.dialAndNegotiate.
  eapply triple_bind.
  { apply (triple_modify _ _ (fun _ s => s = Some (MkConn n 0 DefaultRequestTimeout))). done. }
  intros ?. apply (triple_bind _ _ _ (fun _ => P_armed n)).
  { apply closing_triple, triple_wrap. intros s ->. simpl. unfold on_nc, zoom. simpl.
    pose proof (SetDeadline_spec (Some dialTimeout) n) as (_ & _ & Hr & _ & Hok & _).
    pose proof (SetDeadline_evolves (Some dialTimeout) n) as He.
    destruct (SetDeadline _ n) as [r n']. simpl in *.
    assert (dialled n (set_nc n' (MkConn n 0 DefaultRequestTimeout))) as Hd.
    { split_and!; [done..|]. exists []. by rewrite app_nil_r. }
    destruct r as [[]|e|]; [|by eexists..]. eexists. split_and!; [done..|]. simpl.
    rewrite Hok by done. eexists. split; [done|].
    unfold dialTimeout, DefaultRequestTimeout, Second. lia. }
  intros ?. apply (triple_bind _ _ _ (fun _ => P_armed n)).
  { apply closing_triple, triple_wrap, on_conn_armed; eauto with kroxy. }
  intros ?. apply closing_triple, triple_wrap, on_conn_armed; eauto with kroxy.
Qed.

Lemma Dial_triple n u p :
  triple (fun s => s = None) (Dial (inr n) u p) (fun _ => P_any n) (P_any n).
Proof.
  unfold Upstream.Dial. eapply triple_bind; [apply triple_wrap, dialAndNegotiate_triple|].
  intros ?. eapply (triple_bind _ _ _ (fun _ => P_any n)).
  - apply closing_triple, triple_wrap.
    eapply triple_conseq; [apply (on_conn_armed n); eauto with kroxy|done| |done].
    intros ?. apply armed_any.
  - intros ?. apply closing_triple, triple_wrap, on_conn_any; eauto using clear_bounded with kroxy.
Qed.
Lemma DialForSCRAM_triple n mech :
  IsSCRAMMechanism mech = true ->
  triple (fun s => s = None) (DialForSCRAM (inr n) mech) (fun _ => P_any n) (P_any n).
Proof.
  intros Hm. unfold Upstream.DialForSCRAM. rewrite Hm. simpl.
  eapply triple_bind; [apply triple_wrap, dialAndNegotiate_triple|].
  intros ?. apply closing_triple, triple_wrap.
  eapply triple_conseq; [apply (on_conn_any n); eauto using clear_bounded with kroxy| |done..].
  apply armed_any.
Qed.
Lemma DialSCRAM_triple n mech u p :
  IsSCRAMMechanism mech = true ->
  triple (fun s => s = None) (DialSCRAM (inr n) mech u p) (fun _ => P_any n) (P_any n).
Proof.
  intros Hm. unfold Upstream.DialSCRAM. rewrite Hm. simpl.
  eapply triple_bind; [apply triple_wrap, dialAndNegotiate_triple|].
  intros ?. apply (triple_bind _ _ _ (fun _ => P_any n)).
  - apply closing_triple, triple_wrap.
    eapply triple_conseq; [apply (on_conn_any n); eauto with kroxy|apply armed_any|done..].
  - intros ?. apply closing_triple, triple_wrap, on_conn_any; eauto using clear_bounded with kroxy.
Qed.
End Dialling.
