(* ===== verification/UpstreamTheorems.v ===== *)
(** What the upstream connection guarantees to the proxy. *)
From Stdlib Require Import ZArith Lia.
From stdpp Require Import base list strings tactics.
From S2P Require Import Prelude GoNet Protocol ProtocolFacts Kmsg Auth Upstream UpstreamFacts.
Local Open Scope Z_scope.

(** Invert a successful sequence of steps. *)
Ltac inv_ok H :=
  repeat match type of H with
  | bind _ _ _ = (Ok _, _) => apply bind_Ok in H as (? & ? & ?H1 & H); try (apply wrap_Ok in H1)
  end.

Lemma on_nc_Ok {A} (m : M NetConn A) c r c' :
  on_nc m c = (r, c') -> exists n, m (nc c) = (r, n) /\ c' = set_nc n c.
Proof. unfold on_nc, zoom. destruct (m (nc c)) as [r' n]. intros [= <- <-]. eauto. Qed.

Lemma nextCorrelationID_Ok c id c' :
  nextCorrelationID c = (Ok id, c') ->
  id = int32 (corrIDGen c + 1) /\ c' = set_corrIDGen id c.
Proof. unfold nextCorrelationID, bind, get, modify, ret. intros [= <- <-]. done. Qed.

Lemma applyRequestDeadline_Ok c c' :
  applyRequestDeadline c = (Ok tt, c') ->
  tx (nc c') = tx (nc c) /\ rx (nc c') = rx (nc c) /\ corrIDGen c' = corrIDGen c /\ reqTO c' = reqTO c.
Proof.
  unfold applyRequestDeadline, bind, get. case_match; intros E;
    apply on_nc_Ok in E as (n & E & ->); simpl;
    match type of E with SetDeadline ?d ?m = _ =>
      destruct (SetDeadline_spec d m) as (Ht & Hr & _); rewrite E in *; done end.
Qed.

Lemma Write_Ok b n n' : Write b n = (Ok tt, n') -> tx n' = tx n ++ [b] /\ rx n' = rx n.
Proof.
  intros E. destruct (Write_spec b n) as (k & _ & Hok & _ & Hr & _). rewrite E in *. simpl in *.
  auto.
Qed.
Lemma ReadFrame_Ok n body n' :
  ReadFrame n = (Ok body, n') ->
  rx n = frame_bytes body ++ rx n' /\ tx n' = tx n /\ 0 < len body <= MaxFrameSize.
Proof.
  intros E. pose proof (ReadFrame_sound body n) as H. rewrite E in H. simpl in H.
  destruct H as [Hl Hr]; [done|]. split_and!; [done| |lia..].
  pose proof (ReadFrame_tx n) as Ht. by rewrite E in Ht.
Qed.

(** [readResponse] on success: the frame read echoes the correlation id. *)
Lemma readResponse_Ok fn cid k v c body c' :
  readResponse fn cid k v c = (Ok body, c') ->
  exists frame off, rx (nc c) = frame_bytes frame ++ rx (nc c') /\
    int32 (be_decode (take 4 frame)) = cid /\
    off = (if 1 <=? ResponseHeaderVersion k v then 5 else 4) /\
    body = drop (Z.to_nat off) frame /\ off <= len frame /\
    tx (nc c') = tx (nc c) /\ corrIDGen c' = corrIDGen c.
Proof.
  unfold readResponse. intros H. inv_ok H.
  apply on_nc_Ok in H1 as (n & H1 & ->). apply ReadFrame_Ok in H1 as (Hr & Ht & _).
  destruct (len x <? 4) eqn:E4; [done|]. inv_ok H.
  apply Z.ltb_ge in E4. unfold lift in H1. injection H1 as H1 <-.
  rewrite slice_Ok in H1 by lia. injection H1 as <-.
  destruct (int32 _ =? cid) eqn:Ec; simpl in H; [|done]. unfold lift in H. injection H as H <-.
  apply slice_from_inv in H as [Hl ->]. exists x. eexists. split_and!; try done; [|lia].
  apply Z.eqb_eq in Ec. by rewrite <-Ec.
Qed.

Lemma putUint32_parts b lo v :
  (lo + 4 <= length b)%nat ->
  take lo (putUint32 b lo v) = take lo b /\
  take 4 (drop lo (putUint32 b lo v)) = be_encode 4 (uint32 v) /\
  drop (lo + 4) (putUint32 b lo v) = drop (lo + 4) b /\
  length (putUint32 b lo v) = length b.
Proof.
  intros Hl. unfold putUint32. assert (lo = length (take lo b)) as Ht by (rewrite length_take; lia).
  pose proof (be_encode_length 4 (uint32 v)) as He. split_and!.
  - by rewrite take_app_length' by done.
  - rewrite drop_app_length' by done. by rewrite take_app_length' by done.
  - rewrite <-drop_drop, (drop_app_length' (take lo b)) by done.
    by rewrite drop_app_length' by done.
  - rewrite !length_app, He, <-Ht, length_drop. lia.
Qed.

(** A successful pass-through round trip puts on the wire exactly the
    client's frame with its correlation id replaced by a fresh private one (every
    other byte and the length unchanged), and returns exactly the broker's next
    frame, which carried that private id, with the client's id put back. *)
Theorem RoundTrip_spec frame cid hv rhv c resp c' :
  RoundTrip frame cid hv rhv c = (Ok resp, c') ->
  let id := int32 (corrIDGen c + 1) in
  corrIDGen c' = id /\
  (exists sent, wire (nc c') = wire (nc c) ++ frame_bytes sent /\
     take 4 sent = take 4 frame /\ take 4 (drop 4 sent) = be_encode 4 (uint32 id) /\
     drop 8 sent = drop 8 frame /\ length sent = length frame) /\
  (exists got, rx (nc c) = frame_bytes got ++ rx (nc c') /\
     int32 (be_decode (take 4 got)) = id /\
     take 4 resp = be_encode 4 (uint32 cid) /\ drop 4 resp = drop 4 got).
Proof.
  intros H id. unfold RoundTrip in H. destruct (len frame <? 8) eqn:E8; [done|]. apply Z.ltb_ge in E8.
  apply bind_Ok in H as (id' & c1 & H1 & H). apply nextCorrelationID_Ok in H1 as [-> ->].
  apply bind_Ok in H as ([] & c2 & H1%wrap_Ok & H).
  apply applyRequestDeadline_Ok in H1 as (Ht1 & Hr1 & Hg1 & _).
  apply bind_Ok in H as ([] & c3 & H1%wrap_Ok & H). apply on_nc_Ok in H1 as (n3 & H1 & ->).
  destruct (WriteFrame_spec (putUint32 frame 4 (int32 (corrIDGen c + 1))) (nc c2)) as (_ & Hr2 & Hw2).
  rewrite H1 in *. simpl in *.
  apply bind_Ok in H as (got & c4 & H2%wrap_Ok & H). apply on_nc_Ok in H2 as (n4 & H2 & ->).
  apply ReadFrame_Ok in H2 as (Hr3 & Ht3 & _). simpl in *.
  destruct (len got <? 4) eqn:E4; [done|]. apply Z.ltb_ge in E4.
  apply bind_Ok in H as (h & c5 & H2 & H). unfold lift in H2. injection H2 as H2 <-.
  rewrite slice_Ok in H2 by lia. injection H2 as <-.
  destruct (int32 _ =? _) eqn:Ec in H; simpl in H; [|done]. apply Z.eqb_eq in Ec.
  unfold ret in H. injection H as <- <-. simpl.
  pose proof (putUint32_parts frame 4 id) as (Hp1 & Hp2 & Hp3 & Hp4); [unfold len in *; lia|].
  pose proof (putUint32_parts got 0 cid) as (_ & Hq2 & Hq3 & _); [unfold len in *; lia|].
  split_and!; [done| |].
  - exists (putUint32 frame 4 id). split_and!; [|done..]. unfold wire in *. rewrite Ht3.
    rewrite Hw2 by done. by rewrite Ht1.
  - exists got. split_and!; [by rewrite <-Hr3, Hr2, Hr1|exact Ec|done..].
Qed.

(** The [n]-th correlation id a connection hands out. *)
Fixpoint nthCorrelationID (n : nat) (c : Conn) : Z :=
  match n with
  | O => match (nextCorrelationID c).1 with Ok id => id | _ => 0 end
  | S n => nthCorrelationID n (nextCorrelationID c).2
  end.
Lemma swrap_add w a b : 0 <= w -> swrap w (swrap w a + b) = swrap w (a + b).
Proof.
  intros Hw. rewrite <-(swrap_mod w (swrap w a + b)), <-(swrap_mod w (a + b)).
  rewrite <-Zplus_mod_idemp_l. pose proof (uwrap_swrap w a) as E. unfold uwrap in E.
  by rewrite E, Zplus_mod_idemp_l.
Qed.
Lemma nthCorrelationID_value n c :
  nthCorrelationID n c = int32 (corrIDGen c + (Z.of_nat n + 1)).
Proof.
  revert c. induction n as [|n IH]; intros c; [done|].
  cbn [nthCorrelationID]. rewrite IH. simpl corrIDGen. rewrite swrap_add by done. f_equal. lia.
Qed.

(** Correlation ids stay 32-bit and, wrap-around included, any two requests of
    one connection less than 2^32 apart carry different ids, so a response can
    only be taken for the one request that is in flight. *)
Theorem correlation_ids_distinct c i j :
  (i < j)%nat -> Z.of_nat j - Z.of_nat i < 2 ^ 32 ->
  - 2 ^ 31 <= nthCorrelationID i c < 2 ^ 31 /\ nthCorrelationID i c <> nthCorrelationID j c.
Proof.
  intros Hij Hd. rewrite !nthCorrelationID_value. split; [by apply (swrap_range 32)|].
  unfold swrap. set (a := corrIDGen c + (Z.of_nat i + 1) + 2 ^ (32 - 1)).
  replace (corrIDGen c + (Z.of_nat j + 1) + 2 ^ (32 - 1)) with (a + (Z.of_nat j - Z.of_nat i))
    by (unfold a; lia).
  intros E. assert ((a + (Z.of_nat j - Z.of_nat i)) mod 2 ^ 32 = a mod 2 ^ 32) as E' by lia.
  clear E. pose proof (Z.div_mod a (2 ^ 32)). pose proof (Z.div_mod (a + (Z.of_nat j - Z.of_nat i)) (2 ^ 32)).
  nia.
Qed.

Section Dialling.
Context (AppendRequest : string -> Request -> Z -> list byte).
Context (hsReq : Codec SASLHandshakeRequest.t) (hsResp : Codec SASLHandshakeResponse.t).
Context (authReq : Codec SASLAuthenticateRequest.t) (authResp : Codec SASLAuthenticateResponse.t).
Context (avReq : Request).
Context {Session : Type}.
Context (Authenticate : string -> string -> string -> error + Session * list byte).
Context (Challenge : Session -> list byte -> error + bool * list byte * Session).

Abbreviation directRoundTrip := (directRoundTrip AppendRequest).
Abbreviation dialAndNegotiate := (dialAndNegotiate AppendRequest hsReq hsResp avReq).
Abbreviation Dial := (Dial AppendRequest hsReq hsResp authReq authResp avReq).
Abbreviation DialForSCRAM := (DialForSCRAM AppendRequest hsReq hsResp avReq).
Abbreviation RelaySASLAuthenticate := (RelaySASLAuthenticate AppendRequest authReq authResp).
Abbreviation RoundTripRequest := (RoundTripRequest AppendRequest).
Abbreviation scramLoop := (scramLoop AppendRequest authReq authResp Challenge).
Abbreviation DialSCRAM :=
  (DialSCRAM AppendRequest hsReq hsResp authReq authResp avReq Authenticate Challenge).

(** C33: kroxy never waits for the broker without a deadline: every read made while
    dialling (PLAIN, SCRAM relay or SCRAM translation) and in every later round
    trip is made with a deadline armed, of at most [DefaultRequestTimeout]. *)
Theorem upstream_reads_bounded :
  (forall n u p, P_any n (Dial (inr n) u p None).2) /\
  (forall n m, IsSCRAMMechanism m = true -> P_any n (DialForSCRAM (inr n) m None).2) /\
  (forall n m u p, IsSCRAMMechanism m = true -> P_any n (DialSCRAM (inr n) m u p None).2) /\
  (forall c f cid hv rhv, boundedC c (RoundTrip f cid hv rhv c).2) /\
  (forall c req id, boundedC c (RoundTripRequest req id c).2) /\
  (forall c payload, boundedC c (RelaySASLAuthenticate payload c).2).
Proof.
  split_and!.
  - intros n u p. pose proof (Dial_triple AppendRequest hsReq hsResp authReq authResp avReq n u p
      None eq_refl) as H. by destruct (Dial (inr n) u p None) as [[]].
  - intros n m Hm. pose proof (DialForSCRAM_triple AppendRequest hsReq hsResp avReq n m Hm
      None eq_refl) as H. by destruct (DialForSCRAM (inr n) m None) as [[]].
  - intros n m u p Hm. pose proof (DialSCRAM_triple AppendRequest hsReq hsResp authReq authResp avReq
      Authenticate Challenge n m u p Hm None eq_refl) as H.
    by destruct (DialSCRAM (inr n) m u p None) as [[]].
  - intros. apply RoundTrip_bounded.
  - intros. apply RoundTripRequest_bounded.
  - intros. apply RelaySASLAuthenticate_bounded.
Qed.

Lemma directRoundTrip_Ok req k v c body c' :
  directRoundTrip req k v c = (Ok body, c') ->
  let id := int32 (corrIDGen c + 1) in
  corrIDGen c' = id /\ tx (nc c') = tx (nc c) ++ [AppendRequest "kroxy" req id] /\
  exists frame, rx (nc c) = frame_bytes frame ++ rx (nc c') /\
    int32 (be_decode (take 4 frame)) = id /\
    body = drop (if 1 <=? ResponseHeaderVersion k v then 5 else 4) frame.
Proof.
  intros H id. unfold Upstream.directRoundTrip in H.
  apply bind_Ok in H as (id' & c1 & H1 & H). apply nextCorrelationID_Ok in H1 as [-> ->].
  apply bind_Ok in H as ([] & c2 & H1%wrap_Ok & H). apply on_nc_Ok in H1 as (n2 & H1 & ->).
  apply Write_Ok in H1 as [Ht Hr]. simpl in *.
  apply readResponse_Ok in H as (frame & off & Hrx & Hid & Hoff & Hb & _ & Htx & Hg). simpl in *.
  split_and!; [done|by rewrite Htx, Ht|]. exists frame. split_and!; [by rewrite <-Hr|done|].
  subst. by case_match.
Qed.

Lemma RoundTripRequest_Ok req id c body c' :
  RoundTripRequest req id c = (Ok body, c') ->
  let cid := int32 (corrIDGen c + 1) in
  corrIDGen c' = cid /\ tx (nc c') = tx (nc c) ++ [AppendRequest id req cid] /\
  exists frame, rx (nc c) = frame_bytes frame ++ rx (nc c') /\
    int32 (be_decode (take 4 frame)) = cid /\
    body = drop (if 1 <=? ResponseHeaderVersion (Key req) (GetVersion req) then 5 else 4) frame.
Proof.
  intros H cid. unfold Upstream.RoundTripRequest in H.
  apply bind_Ok in H as (id' & c1 & H1 & H). apply nextCorrelationID_Ok in H1 as [-> ->].
  apply bind_Ok in H as ([] & c2 & H1%wrap_Ok & H). apply applyRequestDeadline_Ok in H1 as (Ht1 & Hr1 & Hg1 & _).
  apply bind_Ok in H as ([] & c3 & H1%wrap_Ok & H). apply on_nc_Ok in H1 as (n2 & H1 & ->).
  apply Write_Ok in H1 as [Ht Hr]. simpl in *.
  apply readResponse_Ok in H as (frame & off & Hrx & Hid & Hoff & Hb & _ & Htx & Hg). simpl in *.
  split_and!; [by rewrite Hg, Hg1|by rewrite Htx, Ht, Ht1|]. exists frame. split_and!; [by rewrite <-Hr1, <-Hr|done|].
  subst. by case_match.
Qed.

Lemma on_conn_Ok {A} (m : M Conn A) s a s' :
  on_conn m s = (Ok a, s') -> exists c c', s = Some c /\ s' = Some c' /\ m c = (Ok a, c').
Proof.
  destruct s as [c|]; simpl; [|done]. destruct (m c) as [r c'] eqn:E. intros [= -> <-]. eauto.
Qed.
Lemma closing_Ok {A} (m : M (option Conn) A) s a s' :
  closing m s = (Ok a, s') <-> m s = (Ok a, s').
Proof. unfold closing, on_err. destruct (m s) as [[] ]; naive_solver. Qed.

(** The shape of a successful negotiation on the socket [n]. *)
Definition negotiated (n : NetConn) (mech : string) (c : Conn) : Prop :=
  corrIDGen c = 2 /\
  tx (nc c) = tx n ++ [AppendRequest "kroxy" avReq 1;
                       AppendRequest "kroxy" (handshakeRequest hsReq mech) 2] /\
  exists f1 f2 hs, rx n = frame_bytes f1 ++ frame_bytes f2 ++ rx (nc c) /\
    int32 (be_decode (take 4 f2)) = 2 /\
    ReadFrom hsResp 1 (drop 4 f2) = inr hs /\ SASLHandshakeResponse.ErrorCode hs = 0.

Lemma dialAndNegotiate_Ok n mech s :
  dialAndNegotiate (inr n) mech None = (Ok tt, s) -> exists c, s = Some c /\ negotiated n mech c.
Proof.
  unfold Upstream.dialAndNegotiate. intros H.
  apply bind_Ok in H as ([] & s0 & H1 & H). unfold modify in H1. injection H1 as <-.
  apply bind_Ok in H as ([] & s1 & H1%closing_Ok%wrap_Ok & H).
  apply on_conn_Ok in H1 as (c0 & c1 & [= <-] & -> & H1). apply on_nc_Ok in H1 as (n1 & H1 & ->).
  destruct (SetDeadline_spec (Some dialTimeout) n) as (Ht0 & Hr0 & _). simpl in H1.
  rewrite H1 in *. simpl in *.
  apply bind_Ok in H as ([] & s2 & H2%closing_Ok%wrap_Ok & H).
  apply on_conn_Ok in H2 as (c2 & c3 & [= <-] & -> & H2).
  unfold apiVersions in H2. apply bind_Ok in H2 as (b1 & c4 & H2%wrap_Ok & E). injection E as <-.
  apply directRoundTrip_Ok in H2 as (Hg2 & Ht2 & f1 & Hr2 & _ & _). simpl in *.
  apply closing_Ok, wrap_Ok, on_conn_Ok in H as (c5 & c6 & [= <-] & -> & H).
  unfold saslHandshake in H. apply bind_Ok in H as (b2 & c7 & H3%wrap_Ok & H).
  apply directRoundTrip_Ok in H3 as (Hg3 & Ht3 & f2 & Hr3 & Hid & ->). rewrite Hg2 in *.
  destruct (ReadFrom hsResp 1 _) as [e|hs] eqn:Ehs; [done|].
  destruct (_ =? 0) eqn:E0; simpl in H; [|done]. injection H as <-. apply Z.eqb_eq in E0.
  exists c7. split; [done|]. split_and!; [done| |].
  - rewrite Ht3, Ht2, Ht0, <-app_assoc. done.
  - exists f1, f2, hs. split_and!; [|done..]. by rewrite <-Hr0, Hr2, Hr3.
Qed.

(** What a successful [Dial] has done. *)
Definition logged_in (n : NetConn) (username password : string) (c : Conn) : Prop :=
  corrIDGen c = 3 /\ deadline (nc c) = None /\
  tx (nc c) = tx n ++ [AppendRequest "kroxy" avReq 1;
                       AppendRequest "kroxy" (handshakeRequest hsReq MechanismPlain) 2;
                       AppendRequest "kroxy"
                         (authenticateRequest authReq (plainPayload username password)) 3] /\
  exists f1 f2 f3 hs au,
    rx n = frame_bytes f1 ++ frame_bytes f2 ++ frame_bytes f3 ++ rx (nc c) /\
    ReadFrom hsResp 1 (drop 4 f2) = inr hs /\ SASLHandshakeResponse.ErrorCode hs = 0 /\
    int32 (be_decode (take 4 f3)) = 3 /\
    ReadFrom authResp 1 (drop 4 f3) = inr au /\ SASLAuthenticateResponse.ErrorCode au = 0.
Lemma Dial_Ok n username password s :
  Dial (inr n) username password None = (Ok tt, s) ->
  exists c, s = Some c /\ logged_in n username password c.
Proof.
  unfold Upstream.Dial. intros H.
  apply bind_Ok in H as ([] & s1 & H1%wrap_Ok & H).
  apply dialAndNegotiate_Ok in H1 as (c1 & -> & Hg1 & Ht1 & f1 & f2 & hs & Hr1 & _ & Hhs & Ec).
  apply bind_Ok in H as ([] & s2 & H2%closing_Ok%wrap_Ok & H).
  apply on_conn_Ok in H2 as (c & c2 & [= <-] & -> & H2).
  unfold plainAuthenticate in H2. apply bind_Ok in H2 as (b3 & c3 & H3%wrap_Ok & H2).
  apply directRoundTrip_Ok in H3 as (Hg3 & Ht3 & f3 & Hr3 & Hid & ->). rewrite Hg1 in *.
  destruct (ReadFrom authResp 1 _) as [e|au] eqn:Eau; [done|].
  destruct (_ =? 0) eqn:E0; simpl in H2; [|done]. injection H2 as <-. apply Z.eqb_eq in E0.
  apply closing_Ok, wrap_Ok, on_conn_Ok in H as (c & c4 & [= <-] & -> & H).
  apply on_nc_Ok in H as (n4 & H & ->).
  destruct (SetDeadline_spec None (nc c3)) as (Ht4 & Hr4 & _ & _ & Hd4 & _). rewrite H in *.
  simpl in *. exists (set_nc n4 c3). unfold logged_in. simpl. split_and!; [done|done|by apply Hd4|by rewrite Ht4, Ht3, Ht1, <-app_assoc|].
  exists f1, f2, f3, hs, au. simpl. split_and!; [|done..]. by rewrite Hr1, Hr3, Hr4.
Qed.

(** The SCRAM exchange of the translation, from the client message [msg] on: every message
    the session makes is relayed, every answer of the broker has error code 0 and is
    given to the session, until the session is done. *)
Inductive scram_exchanged : Session -> list byte -> Conn -> Conn -> Prop :=
| exchanged_done session msg c server m c1 session' :
    RelaySASLAuthenticate msg c = (Ok (server, 0, m), c1) ->
    Challenge session server = inr (true, [], session') -> scram_exchanged session msg c c1
| exchanged_last session msg c server m c1 next session' server' m' c2 :
    RelaySASLAuthenticate msg c = (Ok (server, 0, m), c1) ->
    Challenge session server = inr (true, next, session') -> next <> [] ->
    RelaySASLAuthenticate next c1 = (Ok (server', 0, m'), c2) -> scram_exchanged session msg c c2
| exchanged_more session msg c server m c1 next session' c2 :
    RelaySASLAuthenticate msg c = (Ok (server, 0, m), c1) ->
    Challenge session server = inr (false, next, session') -> scram_exchanged session' next c1 c2 ->
    scram_exchanged session msg c c2.
Lemma scramLoop_Ok fuel session msg c c' :
  scramLoop fuel session msg c = (Ok tt, c') -> scram_exchanged session msg c c'.
Proof.
  revert session msg c. induction fuel as [|fuel IH]; intros session msg c H; [done|].
  simpl in H. apply bind_Ok in H as ([[server code] m] & c1 & H1%wrap_Ok & H).
  destruct (Z.eqb_spec code 0) as [->|]; simpl in H; [|done].
  destruct (Challenge session server) as [e|[[[] next] session']] eqn:Ec; [done| |by eapply exchanged_more; eauto].
  destruct (0 <? len next) eqn:En.
  - apply bind_Ok in H as ([[server' code] m'] & c2 & H2%wrap_Ok & H).
    destruct (Z.eqb_spec code 0) as [->|]; simpl in H; [|done]. injection H as <-.
    eapply exchanged_last; eauto. by intros ->.
  - injection H as <-. destruct next as [|b next]; [by eapply exchanged_done; eauto|].
    apply Z.ltb_ge in En. unfold len in En. simpl in En. lia.
Qed.

(** What a successful [DialSCRAM] has done: the negotiation, then the exchange the SCRAM
    client makes of the user name and the password. *)
Definition scram_logged_in (n : NetConn) (mech username password : string) (c : Conn) : Prop :=
  deadline (nc c) = None /\
  exists c1 c2 session msg, negotiated n mech c1 /\
    Authenticate mech username password = inr (session, msg) /\
    scram_exchanged session msg c1 c2 /\
    corrIDGen c = corrIDGen c2 /\ tx (nc c) = tx (nc c2) /\ rx (nc c) = rx (nc c2).
Lemma DialSCRAM_Ok n mech username password s :
  DialSCRAM (inr n) mech username password None = (Ok tt, s) ->
  exists c, s = Some c /\ scram_logged_in n mech username password c.
Proof.
  unfold Upstream.DialSCRAM. intros H. destruct (negb _); [done|].
  apply bind_Ok in H as ([] & s1 & H1%wrap_Ok & H). apply dialAndNegotiate_Ok in H1 as (c1 & -> & Hn).
  apply bind_Ok in H as ([] & s2 & H2%closing_Ok%wrap_Ok & H).
  apply on_conn_Ok in H2 as (c & c2 & [= <-] & -> & H2). unfold Upstream.scramAuthenticate in H2.
  destruct (negb _); [done|]. destruct (Authenticate mech username password) as [e|[session msg]] eqn:Ea; [done|].
  apply bind_Ok in H2 as (c1' & c1'' & [= <- <-] & H2). apply scramLoop_Ok in H2.
  apply closing_Ok, wrap_Ok, on_conn_Ok in H as (c & c4 & [= <-] & -> & H). apply on_nc_Ok in H as (n4 & H & ->).
  destruct (SetDeadline_spec None (nc c2)) as (Ht4 & Hr4 & _ & _ & Hd4 & _). rewrite H in *.
  simpl in *. exists (set_nc n4 c2). split; [done|]. split; [by apply Hd4|]. by exists c1, c2, session, msg.
Qed.

(** A [Dial] that succeeds has written exactly three requests, with
    correlation ids 1, 2 and 3: ApiVersions, the handshake choosing PLAIN, and
    the SASL payload [NUL username NUL password] of the given credentials; the
    broker accepted the mechanism and the credentials (error code 0 in responses
    that echo the ids), nothing after those responses was consumed, and the
    dial deadline is cleared. *)
Theorem Dial_success n username password s :
  Dial (inr n) username password None = (Ok tt, s) ->
  exists c, s = Some c /\ corrIDGen c = 3 /\ deadline (nc c) = None /\
    tx (nc c) = tx n ++ [AppendRequest "kroxy" avReq 1;
                         AppendRequest "kroxy" (handshakeRequest hsReq MechanismPlain) 2;
                         AppendRequest "kroxy"
                           (authenticateRequest authReq (plainPayload username password)) 3] /\
    exists f1 f2 f3 hs au,
      rx n = frame_bytes f1 ++ frame_bytes f2 ++ frame_bytes f3 ++ rx (nc c) /\
      ReadFrom hsResp 1 (drop 4 f2) = inr hs /\ SASLHandshakeResponse.ErrorCode hs = 0 /\
      int32 (be_decode (take 4 f3)) = 3 /\
      ReadFrom authResp 1 (drop 4 f3) = inr au /\ SASLAuthenticateResponse.ErrorCode au = 0.
Proof. apply Dial_Ok. Qed.

(** ** Failures *)
Lemma closing_Err {A} (m : M (option Conn) A) s e c :
  closing m s = (Err e, Some c) -> closed (nc c) = true.
Proof.
  unfold closing, on_err. destruct (m s) as [[a|e'|] [c'|]]; intros [=]; simplify_eq/=; done.
Qed.
Lemma dialAndNegotiate_Err d mech e s :
  dialAndNegotiate d mech None = (Err e, s) -> forall c, s = Some c -> closed (nc c) = true.
Proof.
  unfold Upstream.dialAndNegotiate. intros H c ->. destruct d as [e'|n]; [done|].
  apply bind_Err in H as [H|(u & s1 & H1 & H)]; [done|].
  apply bind_Err in H as [H|(u' & s2 & H2 & H)]; [by eapply closing_Err|].
  apply bind_Err in H as [H|(u'' & s3 & H3 & H)]; by eapply closing_Err.
Qed.

(** No way of dialling leaks a socket: on an error either no connection was made
    or it has been closed. *)
Lemma Dial_Err d u p e c : Dial d u p None = (Err e, Some c) -> closed (nc c) = true.
Proof.
  intros H. apply bind_Err in H as [(e0 & _ & H)%wrap_Err|(u1 & s1 & _ & H)].
  { by eapply dialAndNegotiate_Err. }
  apply bind_Err in H as [H|(u2 & s2 & _ & H)]; by eapply closing_Err.
Qed.
Lemma DialForSCRAM_Err d m e c : DialForSCRAM d m None = (Err e, Some c) -> closed (nc c) = true.
Proof.
  intros H. unfold Upstream.DialForSCRAM in H. destruct (IsSCRAMMechanism m); [|done].
  apply bind_Err in H as [(e0 & _ & H)%wrap_Err|(u1 & s1 & _ & H)].
  { by eapply dialAndNegotiate_Err. }
  by eapply closing_Err.
Qed.
Lemma DialSCRAM_Err d m u p e c : DialSCRAM d m u p None = (Err e, Some c) -> closed (nc c) = true.
Proof.
  intros H. unfold Upstream.DialSCRAM in H. destruct (IsSCRAMMechanism m); [|done].
  apply bind_Err in H as [(e0 & _ & H)%wrap_Err|(u1 & s1 & _ & H)].
  { by eapply dialAndNegotiate_Err. }
  apply bind_Err in H as [H|(u2 & s2 & _ & H)]; by eapply closing_Err.
Qed.

(** ** Termination of the SCRAM client *)
Lemma Relay_consumes payload c r c' :
  RelaySASLAuthenticate payload c = (Ok r, c') -> (length (rx (nc c')) < length (rx (nc c)))%nat.
Proof.
  intros H. unfold Upstream.RelaySASLAuthenticate in H.
  apply bind_Ok in H as ([] & c1 & H1%wrap_Ok & H).
  apply applyRequestDeadline_Ok in H1 as (_ & Hr1 & _).
  apply bind_Ok in H as (b & c2 & H2%wrap_Ok & H).
  apply directRoundTrip_Ok in H2 as (_ & _ & f & Hr2 & _).
  destruct (ReadFrom authResp 1 b); [done|]. unfold ret in H. simplify_eq.
  rewrite <-Hr1, Hr2, length_app. unfold frame_bytes. rewrite length_app, be_encode_length. lia.
Qed.

(** The SCRAM exchange of PLAIN to SCRAM translation terminates whatever the
    broker and the SCRAM library do: every round that continues consumes a
    response, so with more rounds allowed than bytes the broker will send the
    bound on the rounds is never reached and does not influence the outcome. *)
Theorem scram_terminates fuel session msg c :
  (length (rx (nc c)) < fuel)%nat ->
  scramLoop fuel session msg c = scramLoop (S (length (rx (nc c)))) session msg c /\
  (scramLoop fuel session msg c).1 <> Err (ErrNew "scramAuthenticate: fuel" []).
Proof.
  assert (forall k fuel fuel' session msg c, (length (rx (nc c)) < k)%nat ->
    (length (rx (nc c)) < fuel)%nat -> (length (rx (nc c)) < fuel')%nat ->
    scramLoop fuel session msg c = scramLoop fuel' session msg c /\
    (scramLoop fuel session msg c).1 <> Err (ErrNew "scramAuthenticate: fuel" [])) as H.
  { clear. induction k as [|k IH]; [lia|]. intros fuel fuel' session msg c Hk Hf Hf'.
    destruct fuel as [|fuel], fuel' as [|fuel']; [lia..|]. simpl. unfold bind.
    destruct (wrap "scramAuthenticate" (RelaySASLAuthenticate msg) c) as [[[[sm ec] em]|e|] c1] eqn:E.
    - apply wrap_Ok, Relay_consumes in E. destruct (negb (ec =? 0)); [done|].
      destruct (Challenge session sm) as [e|[[[] next] session']]; [done| |apply IH; lia].
      destruct (0 <? len next); [|done]. split; [done|].
      destruct (wrap "scramAuthenticate" (RelaySASLAuthenticate next) c1)
        as [[[[sm' ec'] em']|e|] c2] eqn:E'; [by destruct (negb (ec' =? 0))| |done].
      apply wrap_Err in E' as (e0 & -> & _). done.
    - apply wrap_Err in E as (e0 & -> & _). done.
    - done. }
  intros Hf. apply (H fuel); lia.
Qed.

#[local] Opaque ReadFrame.
(** The response of a flexible request is cut after a header of five bytes
    without a check: a broker frame holding only the expected correlation id
    makes the slice expression panic, in a goroutine that does not recover. *)
Theorem short_flexible_response_panics req id c c1 :
  RequestHeaderVersion (Key req) (GetVersion req) = 2 -> Key req <> ApiVersionsKey ->
  reqTO c = DefaultRequestTimeout -> closed (nc c) = false -> faults (nc c) = [] ->
  corrIDGen c = 0 -> rx (nc c) = frame_bytes (be_encode 4 1) ++ c1 ->
  (RoundTripRequest req id c).1 = Panic.
Proof.
  intros Hv Hk Ht Hc Hfl Hg Hrx. destruct c as [[rx0 e0 tx0 fl0 d0 rs0 cl0] g t]. simpl in *. subst.
  unfold Upstream.RoundTripRequest, bind, wrap, nextCorrelationID, applyRequestDeadline, on_nc, zoom,
    bind, get, modify, ret. simpl.
  unfold Write, SetDeadline, bind, next_fault, modify. simpl.
  unfold readResponse, bind, wrap, on_nc, zoom. simpl.
  match goal with |- context [ReadFrame ?n] =>
    destruct (ReadFrame_complete (be_encode 4 1) c1 n) as (n' & -> & _); [done..|] end. simpl.
  assert (ResponseHeaderVersion (Key req) (GetVersion req) = 1) as ->; [|done].
  unfold RequestHeaderVersion, ResponseHeaderVersion in *. apply Z.eqb_neq in Hk. rewrite Hk in *.
  by destruct (isFlexibleRequest _ _).
Qed.
End Dialling.
#[local] Transparent ReadFrame.

(** * Witnesses *)
Module DemoBroker.
Definition AppendRequest (id : string) (req : Request) (cid : Z) : list byte :=
  frame_bytes (be_encode 2 (Key req) ++ be_encode 2 (GetVersion req) ++ be_encode 4 (uint32 cid) ++
    be_encode 2 (len (bytes_of_string id)) ++ bytes_of_string id ++ req_AppendTo req []).
Definition hsReq : Codec SASLHandshakeRequest.t := MkCodec
  (fun _ b => inr (SASLHandshakeRequest.Mk (string_of_bytes b)))
  (fun _ m dst => dst ++ bytes_of_string (SASLHandshakeRequest.Mechanism m)).
Definition hsResp : Codec SASLHandshakeResponse.t := MkCodec
  (fun _ b => inr (SASLHandshakeResponse.Mk (int16 (be_decode (take 2 b))) []))
  (fun _ m dst => dst ++ be_encode 2 (uwrap 16 (SASLHandshakeResponse.ErrorCode m))).
Definition authReq : Codec SASLAuthenticateRequest.t := MkCodec
  (fun _ b => inr (SASLAuthenticateRequest.Mk b))
  (fun _ m dst => dst ++ SASLAuthenticateRequest.SASLAuthBytes m).
Definition authResp : Codec SASLAuthenticateResponse.t := MkCodec
  (fun _ b => inr (SASLAuthenticateResponse.Mk (int16 (be_decode (take 2 b))) None (drop 2 b)))
  (fun _ m dst => dst ++ be_encode 2 (uwrap 16 (SASLAuthenticateResponse.ErrorCode m)) ++
                  SASLAuthenticateResponse.SASLAuthBytes m).
Definition avReq : Request := MkRequest ApiVersionsKey 0 id.

(** A broker that answers the frames [fs] and then closes. *)
Definition broker (fs : list (list byte)) : NetConn :=
  MkNetConn (concat (map frame_bytes fs)) (ErrSent EOF) [] [] None [] false.
(** It accepts the mechanism, and the credentials with code [ec]. *)
Definition accepting (ec : Z) : NetConn :=
  broker [be_encode 4 1; be_encode 4 2 ++ be_encode 2 0; be_encode 4 3 ++ be_encode 2 ec].
Definition conn (fs : list (list byte)) : Conn := MkConn (broker fs) 0 DefaultRequestTimeout.
Abbreviation Dial := (Dial AppendRequest hsReq hsResp authReq authResp avReq).
End DemoBroker.

Lemma RoundTrip_spec_witness :
  let r := RoundTrip (replicate 8 Byte.x07) 77 1 0 (DemoBroker.conn [be_encode 4 1 ++ [Byte.x09]]) in
  exists sent, wire (nc r.2) = frame_bytes sent /\ take 4 (drop 4 sent) = be_encode 4 1.
Proof.
  destruct (RoundTrip_spec (replicate 8 Byte.x07) 77 1 0
    (DemoBroker.conn [be_encode 4 1 ++ [Byte.x09]])
    (be_encode 4 77 ++ [Byte.x09]) _ ltac:(vm_compute; reflexivity))
    as (_ & (sent & Hw & _ & Hs & _) & _).
  exists sent. split; [exact Hw|exact Hs].
Defined.

Lemma correlation_ids_distinct_witness :
  nthCorrelationID 0 (DemoBroker.conn []) <> nthCorrelationID 5 (DemoBroker.conn []).
Proof. apply (correlation_ids_distinct (DemoBroker.conn []) 0 5); lia. Defined.

Lemma Dial_success_witness :
  exists c, (DemoBroker.Dial (inr (DemoBroker.accepting 0)) "alice" "s3cret" None).2 = Some c /\
    corrIDGen c = 3.
Proof.
  destruct (Dial_success DemoBroker.AppendRequest DemoBroker.hsReq DemoBroker.hsResp
    DemoBroker.authReq DemoBroker.authResp DemoBroker.avReq (DemoBroker.accepting 0) "alice" "s3cret"
    (DemoBroker.Dial (inr (DemoBroker.accepting 0)) "alice" "s3cret" None).2
    ltac:(vm_compute; reflexivity)) as (c & E & Hg & _). eauto.
Defined.

Lemma upstream_reads_bounded_witness :
  P_any (DemoBroker.accepting 0)
    (DialForSCRAM DemoBroker.AppendRequest DemoBroker.hsReq DemoBroker.hsResp DemoBroker.avReq
      (inr (DemoBroker.accepting 0)) MechanismSCRAMSHA256 None).2.
Proof.
  exact (proj1 (proj2 (upstream_reads_bounded DemoBroker.AppendRequest DemoBroker.hsReq
    DemoBroker.hsResp DemoBroker.authReq DemoBroker.authResp DemoBroker.avReq (Session := unit)
    (fun _ _ _ => inl (ErrSent EOF)) (fun _ _ => inl (ErrSent EOF))))
    (DemoBroker.accepting 0) MechanismSCRAMSHA256 eq_refl).
Defined.

Lemma scram_terminates_witness :
  let loop fuel := scramLoop DemoBroker.AppendRequest DemoBroker.authReq DemoBroker.authResp
    (fun (_ : unit) _ => inr (false, [Byte.x01], tt)) fuel tt []
    (DemoBroker.conn [be_encode 4 1 ++ be_encode 2 0]) in
  loop 100%nat = loop 11%nat.
Proof.
  apply (scram_terminates DemoBroker.AppendRequest DemoBroker.authReq DemoBroker.authResp
    (fun (_ : unit) _ => inr (false, [Byte.x01], tt)) 100 tt []
    (DemoBroker.conn [be_encode 4 1 ++ be_encode 2 0])).
  vm_compute. lia.
Defined.

Lemma short_flexible_response_panics_witness :
  (RoundTripRequest DemoBroker.AppendRequest (MkRequest MetadataKey 9 id) "app"
    (DemoBroker.conn [be_encode 4 1])).1 = Panic.
Proof.
  apply (short_flexible_response_panics DemoBroker.AppendRequest (MkRequest MetadataKey 9 id) "app"
    (DemoBroker.conn [be_encode 4 1]) []); reflexivity || (intros E; discriminate E).
Defined.
