(* ===== verification/Completion.v ===== *)
(** Runs that succeed.

    The other files say what is true of a run that returns; here are the
    conditions under which the operations on sockets and on the upstream
    connection do return, with their exact effect on the wire ([runs]). *)
From Stdlib Require Import ZArith Lia.
From stdpp Require Import base list strings tactics.
From S2P Require Import Prelude GoNet Protocol ProtocolFacts Kmsg Auth Upstream.
Local Open Scope Z_scope.

(** * Sockets *)

(** An open socket without scripted failures that is going to deliver [r] and then
    the error [e], and on which [w] has been sent. *)
Definition sock (e : error) (r w : list byte) (n : NetConn) : Prop :=
  closed n = false /\ faults n = [] /\ rx_end n = e /\ rx n = r /\ wire n = w.

Lemma Write_runs b e r w : runs (sock e r w) (Write b) tt (sock e r (w ++ b)).
Proof.
  intros n (Hc & Hf & He & Hr & Hw). unfold Write, bind, next_fault. rewrite Hc, Hf. eexists.
  split; [done|]. split_and!; try done. unfold wire in *. simpl. rewrite concat_app, Hw. simpl. by rewrite app_nil_r.
Qed.
Lemma SetDeadline_runs d e r w : runs (sock e r w) (SetDeadline d) tt (sock e r w).
Proof.
  intros n (Hc & Hf & He & Hr & Hw). unfold SetDeadline, bind, next_fault. rewrite Hc, Hf. eexists.
  split; [done|]. by split_and!.
Qed.
Lemma WriteFrame_runs b e r w : runs (sock e r w) (WriteFrame b) tt (sock e r (w ++ frame_bytes b)).
Proof.
  unfold WriteFrame. eapply runs_bind; [apply runs_wrap, Write_runs|].
  unfold frame_bytes. rewrite app_assoc. apply runs_wrap, Write_runs.
Qed.

Definition legal (b : list byte) : Prop := 0 < len b <= MaxFrameSize.
(** A stream that starts with two frames starts with one. *)
Lemma frame_bytes_inj a b x y :
  legal a -> legal b -> frame_bytes a ++ x = frame_bytes b ++ y -> a = b /\ x = y.
Proof.
  unfold legal, MaxFrameSize. intros Ha Hb H. unfold frame_bytes in H. rewrite <-!app_assoc in H.
  apply app_inj_1 in H as [Hl H]; [|by rewrite !be_encode_length].
  apply (f_equal be_decode) in Hl. rewrite !be_decode_encode in Hl.
  change (8 * Z.of_nat 4) with 32 in Hl. rewrite !uwrap_id, !Z.mod_small in Hl by lia.
  unfold len in Hl. apply app_inj_1 in H; [done|lia].
Qed.
Lemma ReadFull_runs bs e r w : runs (sock e (bs ++ r) w) (ReadFull (length bs)) bs (sock e r w).
Proof.
  intros n (Hc & Hf & He & Hr & Hw). rewrite (ReadFull_app _ _ _ Hc Hr). eexists. split; [done|]. by split_and!.
Qed.
Lemma ReadFrame_runs b e r w : legal b -> runs (sock e (frame_bytes b ++ r) w) ReadFrame b (sock e r w).
Proof.
  unfold legal, MaxFrameSize. intros Hb. unfold ReadFrame, frame_bytes. rewrite <-app_assoc.
  pose proof (ReadFull_runs (be_encode 4 (uint32 (len b))) e (b ++ r) w) as H4. rewrite be_encode_length in H4.
  eapply runs_bind; [apply runs_attempt, H4|]. cbv beta iota zeta.
  rewrite uwrap_id by lia. rewrite be_decode_encode. change (8 * Z.of_nat 4) with 32. rewrite Z.mod_small by lia.
  unfold MaxFrameSize. rewrite (proj2 (Z.eqb_neq _ 0)), (proj2 (Z.ltb_ge _ _)) by lia.
  unfold len. rewrite Nat2Z.id. apply runs_wrap, ReadFull_runs.
Qed.
(** A read at the end of the stream. *)
Lemma ReadFrame_eof w n :
  sock (ErrSent EOF) [] w n -> exists n', ReadFrame n = (Err (ErrSent EOF), n') /\ sock (ErrSent EOF) [] w n'.
Proof.
  intros (Hc & Hf & He & Hr & Hw). unfold ReadFrame, bind, attempt, ReadFull. simpl. rewrite Hc, Hr, He. simpl.
  eexists. split; [done|]. by split_and!.
Qed.

(** * The upstream connection *)
Definition link (id : Z) (e : error) (r w : list byte) (u : Conn) : Prop :=
  corrIDGen u = id /\ sock e r w (nc u).

Lemma on_nc_runs {A} (m : M NetConn A) a id e r w r' w' :
  runs (sock e r w) m a (sock e r' w') -> runs (link id e r w) (on_nc m) a (link id e r' w').
Proof. intros H. eapply runs_zoom; [exact H|]. intros u [? ?]. split; [done|]. by split. Qed.
Lemma applyRequestDeadline_runs id e r w : runs (link id e r w) applyRequestDeadline tt (link id e r w).
Proof.
  apply runs_get. intros u Hu. apply (runs_conseq _ (link id e r w) _ _ _ (link id e r w)); [|by intros ? <-|done].
  case_match; apply on_nc_runs, SetDeadline_runs.
Qed.

(** The id the next request gets. *)
Definition nextID (id : Z) : Z := int32 (id + 1).
Lemma nextID_range id : is_int32 (nextID id).
Proof. apply (swrap_range 32). lia. Qed.
Lemma nextCorrelationID_runs id e r w :
  runs (link id e r w) nextCorrelationID (nextID id) (link (nextID id) e r w).
Proof. intros u [Hid Hs]. unfold nextCorrelationID, bind, get, modify, ret. rewrite Hid. eexists. by split_and!. Qed.

(** A broker's response: header and body. *)
Definition response (id key version : Z) (body : list byte) : list byte :=
  EncodeResponse (fun dst => dst ++ body) id key version.
Lemma be_decode_id id : is_int32 id -> int32 (be_decode (be_encode 4 (uint32 id))) = id.
Proof.
  intros. rewrite be_decode_encode. change (8 * Z.of_nat 4) with 32. unfold uwrap.
  rewrite Zmod_mod, swrap_mod. by apply swrap_id.
Qed.
Lemma response_parts id key version body :
  is_int32 id ->
  let f := response id key version body in
  let off := if 1 <=? ResponseHeaderVersion key version then 5 else 4 in
  int32 (be_decode (take 4 f)) = id /\ drop (Z.to_nat off) f = body /\ 4 <= off <= len f.
Proof.
  intros Hd%be_decode_id f off. unfold f, response, EncodeResponse, AppendResponseHeader, off.
  pose proof (be_encode_length 4 (uint32 id)) as Hl. pose proof (len_nonneg body).
  rewrite (app_nil_l (be_encode 4 _)). set (h := be_encode 4 _) in *. clearbody h.
  destruct h as [|b1 [|b2 [|b3 [|b4 [|]]]]]; try discriminate Hl.
  destruct (1 <=? _); simpl; (split_and!; [done|done|lia|]); autorewrite with kroxyrw; lia.
Qed.

(** Reading a frame whose first four bytes are the id. *)
Lemma readResponse_runs fn id key version body g e r w :
  is_int32 id -> legal (response id key version body) ->
  runs (link g e (frame_bytes (response id key version body) ++ r) w)
    (readResponse fn id key version) body (link g e r w).
Proof.
  intros Hid Hl. destruct (response_parts id key version body Hid) as (Ht & Hd & H4 & Ho).
  unfold readResponse. eapply runs_bind; [apply runs_wrap, on_nc_runs, ReadFrame_runs, Hl|]. cbv beta.
  rewrite (proj2 (Z.ltb_ge _ 4)) by lia.
  eapply runs_bind; [apply runs_lift; by rewrite slice_Ok by lia|]. cbv beta zeta.
  change (Z.to_nat (4 - 0)) with 4%nat. change (Z.to_nat 0) with 0%nat. rewrite drop_0, Ht, Z.eqb_refl.
  apply runs_lift. by rewrite slice_from_Ok, Hd by lia.
Qed.

Section Requests.
Context (AppendRequest : string -> Request -> Z -> list byte).
Lemma RoundTripRequest_runs req clientID body g e r w :
  let id := nextID g in
  let f := response id (Key req) (GetVersion req) body in
  legal f ->
  runs (link g e (frame_bytes f ++ r) w) (RoundTripRequest AppendRequest req clientID) body
    (link id e r (w ++ AppendRequest clientID req id)).
Proof.
  intros id f Hl. unfold RoundTripRequest.
  eapply runs_bind; [apply nextCorrelationID_runs|]. cbv beta zeta.
  eapply runs_bind; [apply runs_wrap, applyRequestDeadline_runs|].
  eapply runs_bind; [apply runs_wrap, on_nc_runs, Write_runs|].
  apply readResponse_runs; [apply nextID_range|exact Hl].
Qed.
Lemma directRoundTrip_runs req key version body g e r w :
  let id := nextID g in
  let f := response id key version body in
  legal f ->
  runs (link g e (frame_bytes f ++ r) w) (directRoundTrip AppendRequest req key version) body
    (link id e r (w ++ AppendRequest "kroxy" req id)).
Proof.
  intros id f Hl. unfold directRoundTrip.
  eapply runs_bind; [apply nextCorrelationID_runs|]. cbv beta zeta.
  eapply runs_bind; [apply runs_wrap, on_nc_runs, Write_runs|].
  apply readResponse_runs; [apply nextID_range|exact Hl].
Qed.
End Requests.

Lemma putUint32_head h g v : length h = 4%nat -> putUint32 (h ++ g) 0 v = be_encode 4 (uint32 v) ++ g.
Proof. intros Hh. unfold putUint32. by rewrite take_0, (drop_app_length' h g) by (by rewrite Hh). Qed.
(** The pass-through round trip takes any frame that starts with the right id. *)
Lemma RoundTrip_runs frame cid hv rhv rest g e r w :
  let id := nextID g in
  let got := be_encode 4 (uint32 id) ++ rest in
  8 <= len frame -> legal got ->
  runs (link g e (frame_bytes got ++ r) w) (RoundTrip frame cid hv rhv)
    (be_encode 4 (uint32 cid) ++ rest) (link id e r (w ++ frame_bytes (putUint32 frame 4 id))).
Proof.
  intros id got H8 Hl. unfold RoundTrip. rewrite (proj2 (Z.ltb_ge _ 8)) by lia.
  eapply runs_bind; [apply nextCorrelationID_runs|]. cbv beta zeta.
  eapply runs_bind; [apply runs_wrap, applyRequestDeadline_runs|].
  eapply runs_bind; [apply runs_wrap, on_nc_runs, WriteFrame_runs|].
  eapply runs_bind; [apply runs_wrap, on_nc_runs, ReadFrame_runs, Hl|]. cbv beta.
  pose proof (be_encode_length 4 (uint32 id)) as H4. pose proof (len_nonneg rest).
  assert (4 <= len got) by (unfold got; autorewrite with kroxyrw; lia).
  rewrite (proj2 (Z.ltb_ge _ 4)) by lia.
  eapply runs_bind; [apply runs_lift; by rewrite slice_Ok by lia|]. cbv beta zeta.
  change (Z.to_nat (4 - 0)) with 4%nat. change (Z.to_nat 0) with 0%nat.
  unfold got. rewrite drop_0, take_app_length' by done.
  rewrite be_decode_id, Z.eqb_refl by apply nextID_range. rewrite putUint32_head by done. apply runs_ret.
Qed.

#[local] Arguments frame_bytes : simpl never.
#[local] Arguments response : simpl never.
(** * Dialling *)
Section Dialling.
Context (AppendRequest : string -> Request -> Z -> list byte).
Context (hsReq : Codec SASLHandshakeRequest.t) (hsResp : Codec SASLHandshakeResponse.t).
Context (authReq : Codec SASLAuthenticateRequest.t) (authResp : Codec SASLAuthenticateResponse.t).
Context (avReq : Request).
Context {Session : Type}.
Context (Authenticate : string -> string -> string -> error + Session * list byte).
Context (Challenge : Session -> list byte -> error + bool * list byte * Session).

Definition linked (id : Z) (e : error) (r w : list byte) (s : option Conn) : Prop :=
  exists u, s = Some u /\ link id e r w u.
Lemma on_conn_runs {A} (m : M Conn A) a id e r w id' r' w' :
  runs (link id e r w) m a (link id' e r' w') -> runs (linked id e r w) (on_conn m) a (linked id' e r' w').
Proof.
  intros H s (u & -> & Hu). destruct (H u Hu) as (u' & E & Hu'). exists (Some u'). simpl. rewrite E.
  split; [done|by exists u'].
Qed.
(** One step of a dial: [closing (wrap fn (on_conn m))]. *)
Lemma step_runs {A} fn (m : M Conn A) a id e r w id' r' w' :
  runs (link id e r w) m a (link id' e r' w') ->
  runs (linked id e r w) (closing (wrap fn (on_conn m))) a (linked id' e r' w').
Proof. intros H. by apply runs_on_err, runs_wrap, on_conn_runs. Qed.

(** The broker's answers: to ApiVersions, to the handshake and to one message of
    the SASL exchange, all without error. *)
Definition handshaken (b : list byte) : Prop :=
  exists hs, ReadFrom hsResp 1 b = inr hs /\ SASLHandshakeResponse.ErrorCode hs = 0.
Definition acceptedWith (b payload : list byte) (msg : string) : Prop :=
  exists au, ReadFrom authResp 1 b = inr au /\ SASLAuthenticateResponse.ErrorCode au = 0 /\
    SASLAuthenticateResponse.SASLAuthBytes au = payload /\
    default ""%string (SASLAuthenticateResponse.ErrorMessage au) = msg.
Definition accepted (b payload : list byte) : Prop := exists msg, acceptedWith b payload msg.
Definition negotiation (b1 b2 : list byte) : list byte :=
  frame_bytes (response 1 ApiVersionsKey 0 b1) ++ frame_bytes (response 2 SaslHandshakeKey 1 b2).
Definition negotiating (mech : string) : list byte :=
  AppendRequest "kroxy" avReq 1 ++ AppendRequest "kroxy" (handshakeRequest hsReq mech) 2.
Definition negotiable (b1 b2 : list byte) : Prop :=
  legal (response 1 ApiVersionsKey 0 b1) /\ legal (response 2 SaslHandshakeKey 1 b2) /\ handshaken b2.

Lemma dialAndNegotiate_runs b1 b2 mech n e r w :
  negotiable b1 b2 -> sock e (negotiation b1 b2 ++ r) w n ->
  runs (eq None) (dialAndNegotiate AppendRequest hsReq hsResp avReq (inr n) mech) tt
    (linked 2 e r (w ++ negotiating mech)).
Proof.
  intros (L1 & L2 & hs & Eh & H0) Hn. unfold dialAndNegotiate.
  eapply runs_bind.
  { apply (runs_modify _ _ (linked 0 e (negotiation b1 b2 ++ r) w)). intros _ _. eexists. split; [done|]. by split. }
  eapply runs_bind; [apply step_runs, on_nc_runs, SetDeadline_runs|].
  unfold negotiation, negotiating. rewrite <-app_assoc, (app_assoc w).
  eapply runs_bind.
  { apply step_runs. eapply runs_bind; [|apply runs_ret]. apply runs_wrap.
    apply (directRoundTrip_runs AppendRequest avReq ApiVersionsKey 0 b1 0), L1. }
  apply step_runs. unfold saslHandshake. eapply runs_bind.
  { apply runs_wrap. apply (directRoundTrip_runs AppendRequest _ SaslHandshakeKey 1 b2 1), L2. }
  cbv beta. rewrite Eh, H0. apply runs_ret.
Qed.

(** ** PLAIN *)
Definition loginRequest (username password : string) : list byte :=
  AppendRequest "kroxy" (authenticateRequest authReq (plainPayload username password)) 3.
Lemma Dial_runs b1 b2 b3 p username password n e r w :
  negotiable b1 b2 -> legal (response 3 SaslAuthenticateKey 1 b3) -> accepted b3 p ->
  sock e (negotiation b1 b2 ++ frame_bytes (response 3 SaslAuthenticateKey 1 b3) ++ r) w n ->
  runs (eq None)
    (Dial AppendRequest hsReq hsResp authReq authResp avReq (inr n) username password) tt
    (linked 3 e r (w ++ negotiating MechanismPlain ++ loginRequest username password)).
Proof.
  intros Hng L3 (msg & au & Ea & H0 & _) Hn. unfold Dial. rewrite app_assoc.
  eapply runs_bind; [apply runs_wrap, (dialAndNegotiate_runs _ _ _ _ _ _ _ Hng Hn)|].
  eapply runs_bind; [|apply step_runs, on_nc_runs, SetDeadline_runs].
  apply step_runs. unfold plainAuthenticate. eapply runs_bind.
  { apply runs_wrap, (directRoundTrip_runs AppendRequest _ SaslAuthenticateKey 1 b3 2), L3. }
  cbv beta. rewrite Ea, H0. apply runs_ret.
Qed.

(** ** SCRAM *)
Lemma RelaySASLAuthenticate_runs payload b p msg g e r w :
  let id := nextID g in
  legal (response id SaslAuthenticateKey 1 b) -> acceptedWith b p msg ->
  runs (link g e (frame_bytes (response id SaslAuthenticateKey 1 b) ++ r) w)
    (RelaySASLAuthenticate AppendRequest authReq authResp payload) (p, 0, msg)
    (link id e r (w ++ AppendRequest "kroxy" (authenticateRequest authReq payload) id)).
Proof.
  intros id L (au & Ea & H0 & Hp & Hm). unfold RelaySASLAuthenticate.
  eapply runs_bind; [apply runs_wrap, applyRequestDeadline_runs|].
  eapply runs_bind; [apply runs_wrap, (directRoundTrip_runs AppendRequest _ SaslAuthenticateKey 1 b g), L|].
  cbv beta. rewrite Ea, H0, Hp, Hm. apply runs_ret.
Qed.
Lemma DialForSCRAM_runs b1 b2 mech n e r w :
  IsSCRAMMechanism mech = true -> negotiable b1 b2 -> sock e (negotiation b1 b2 ++ r) w n ->
  runs (eq None) (DialForSCRAM AppendRequest hsReq hsResp avReq (inr n) mech) tt
    (linked 2 e r (w ++ negotiating mech)).
Proof.
  intros Hm Hng Hn. unfold DialForSCRAM. rewrite Hm.
  eapply runs_bind; [apply runs_wrap, (dialAndNegotiate_runs _ _ _ _ _ _ _ Hng Hn)|].
  apply step_runs, on_nc_runs, SetDeadline_runs.
Qed.

(** An exchange that ends well: each client message with the broker's answer. *)
Inductive scramExchange : Session -> list byte -> list (list byte * list byte) -> Prop :=
| scram_end s m b p s' :
    accepted b p -> Challenge s p = inr (true, [], s') -> scramExchange s m [(m, b)]
| scram_last s m b p next s' b' p' :
    accepted b p -> Challenge s p = inr (true, next, s') -> next <> [] -> accepted b' p' ->
    scramExchange s m [(m, b); (next, b')]
| scram_more s m b p next s' rounds :
    accepted b p -> Challenge s p = inr (false, next, s') -> scramExchange s' next rounds ->
    scramExchange s m ((m, b) :: rounds).
(** The bytes of the exchange, from the id [g] on. *)
Fixpoint scramIn (g : Z) (rounds : list (list byte * list byte)) : list byte :=
  match rounds with
  | [] => []
  | (_, b) :: rounds =>
      frame_bytes (response (nextID g) SaslAuthenticateKey 1 b) ++ scramIn (nextID g) rounds
  end.
Fixpoint scramOut (g : Z) (rounds : list (list byte * list byte)) : list byte :=
  match rounds with
  | [] => []
  | (m, _) :: rounds =>
      AppendRequest "kroxy" (authenticateRequest authReq m) (nextID g) ++ scramOut (nextID g) rounds
  end.
Fixpoint scramLegal (g : Z) (rounds : list (list byte * list byte)) : Prop :=
  match rounds with
  | [] => True
  | (_, b) :: rounds => legal (response (nextID g) SaslAuthenticateKey 1 b) /\ scramLegal (nextID g) rounds
  end.
Fixpoint idAfter (g : Z) (k : nat) : Z := match k with O => g | S k => idAfter (nextID g) k end.

Lemma scramLoop_runs fuel s m rounds g e r w :
  scramExchange s m rounds -> scramLegal g rounds -> (length rounds <= fuel)%nat ->
  runs (link g e (scramIn g rounds ++ r) w)
    (scramLoop AppendRequest authReq authResp Challenge fuel s m) tt
    (link (idAfter g (length rounds)) e r (w ++ scramOut g rounds)).
Proof.
  intros H. revert fuel g w. induction H as [s m b p s' Ha Hc|s m b p next s' b' p' Ha Hc Hn Ha'|
    s m b p next s' rounds Ha Hc H IH]; intros fuel g w Hl Hf;
    (destruct fuel as [|fuel]; [simpl in Hf; lia|]); simpl in Hl, Hf |- *; destruct Hl as [L1 L2];
    rewrite ?app_nil_r, <-?app_assoc; destruct Ha as [msg Ha];
    (eapply runs_bind; [apply runs_wrap, (RelaySASLAuthenticate_runs m b p msg g), Ha; exact L1|]);
    simpl; rewrite Hc.
  - apply runs_ret.
  - rewrite (proj2 (Z.ltb_lt 0 (len next))) by (destruct next; [done|]; autorewrite with kroxyrw;
      pose proof (len_nonneg next); lia).
    destruct L2 as [L2 _], Ha' as [msg' Ha'].
    eapply runs_bind; [apply runs_wrap, (RelaySASLAuthenticate_runs next b' p' msg' (nextID g)), Ha'; exact L2|]. simpl. rewrite app_assoc. apply runs_ret.
  - rewrite app_assoc. apply IH; [done|lia].
Qed.

Lemma scramIn_length g rounds : (length rounds <= length (scramIn g rounds))%nat.
Proof.
  revert g. induction rounds as [|[m b] rounds IH]; intros g; cbn [length scramIn]; [lia|].
  rewrite length_app. unfold frame_bytes. rewrite length_app, be_encode_length. specialize (IH (nextID g)). lia.
Qed.

Lemma DialSCRAM_runs b1 b2 mech username password s m rounds n e r w :
  IsSCRAMMechanism mech = true -> negotiable b1 b2 ->
  Authenticate mech username password = inr (s, m) -> scramExchange s m rounds -> scramLegal 2 rounds ->
  sock e (negotiation b1 b2 ++ scramIn 2 rounds ++ r) w n ->
  runs (eq None)
    (DialSCRAM AppendRequest hsReq hsResp authReq authResp avReq Authenticate Challenge (inr n)
       mech username password) tt
    (linked (idAfter 2 (length rounds)) e r (w ++ negotiating mech ++ scramOut 2 rounds)).
Proof.
  intros Hm Hng Ea Hx Hl Hn. unfold DialSCRAM. rewrite Hm, app_assoc.
  eapply runs_bind; [apply runs_wrap, (dialAndNegotiate_runs _ _ _ _ _ _ _ Hng Hn)|].
  eapply runs_bind; [|apply step_runs, on_nc_runs, SetDeadline_runs].
  apply step_runs. unfold scramAuthenticate. fold (IsSCRAMMechanism mech). rewrite Hm, Ea. simpl negb. cbv iota.
  apply runs_get. intros u Hu.
  eapply runs_conseq; [eapply (scramLoop_runs _ s m rounds 2 e r); [done..|]|by intros ? <-|done].
  destruct Hu as (_ & _ & _ & _ & -> & _). pose proof (scramIn_length 2 rounds). rewrite length_app. lia.
Qed.
End Dialling.
