(* ===== verification/Listener.v ===== *)
(** Package [proxy], the accept loop (listener.go).

    [Run] interleaves with the goroutines it spawns (one [handle] per accepted
    connection, one that closes the listener when the context is cancelled), so
    the server is a labelled transition system: a state, and a step per visible
    action of any of the goroutines (with metrics enabled).  The decision [Run] makes on a failed
    [Accept] and the growth of its delay are functions. *)
From Stdlib Require Import ZArith Lia.
From stdpp Require Import base list gmap sets strings relations tactics.
From S2P Require Import Prelude Upstream.
Local Open Scope Z_scope.

Definition Millisecond : Z := 10 ^ 6.
Definition maxAcceptBackoff : Z := Second.

(** The delay after one more transient error. *)
Definition nextBackoff (backoff : Z) : Z :=
  let backoff := if backoff =? 0 then 5 * Millisecond else backoff * 2 in
  if maxAcceptBackoff <? backoff then maxAcceptBackoff else backoff.

(** On a failed [Accept]: [None] to stop, or the delay before the next one. *)
Definition onAcceptError (cancelled : bool) (err : error) (backoff : Z) : option Z :=
  if cancelled || Is err ErrClosed then None else Some (nextBackoff backoff).

(** Where [Run] is. *)
Inductive phase : Set :=
| Listening               (* before lc.Listen returns *)
| Failed (err : error)    (* return of the error of lc.Listen *)
| Accepting
| BackingOff (delay : Z)  (* the select on ctx.Done() and the timer *)
| Draining                (* s.wg.Wait() *)
| Returned.               (* return nil *)
#[global] Instance phase_eq_dec : EqDecision phase.
Proof. solve_decision. Defined.

Record Server : Type := MkServer {
  at_ : phase;
  backoff : Z;
  cancelled : bool;        (* ctx.Err() <> nil *)
  lnClosed : bool;         (* ln.Close() was called *)
  accepted : nat;          (* connections accepted so far; the next one's number *)
  spawned : gset nat;      (* handlers started by wg.Go, not yet counted *)
  running : gset nat;      (* handlers between their Inc and their Dec *)
  connectionsTotal : Z;
  connectionsActive : Z
}.

Definition NewServer : Server := MkServer Listening 0 false false 0 ∅ ∅ 0 0.

(** The listener is open, and the goroutine that closes it runs. *)
Definition has_listener (s : Server) : bool :=
  match at_ s with Listening | Failed _ => false | _ => true end.

Inductive event : Type :=
| EListen (r : option error)
| EAccept
| EAcceptErr (err : error)
| ETimer
| ECtxDone
| ECancel
| ECloseListener
| EHandle (n : nat)        (* handle n: ConnectionsTotal.Inc, ConnectionsActive.Inc *)
| EFinish (n : nat)        (* handle n returns: ConnectionsActive.Dec, wg.Done *)
| EReturn.

(** One action; [None] when it is not possible in the state.  As documented for
    package net, [Accept] reports a closed listener only when it was closed. *)
Definition act (e : event) (s : Server) : option Server :=
  match e with
  | EListen r =>
      if decide (at_ s = Listening) then
        Some (MkServer (match r with Some err => Failed (Wrap err "Run") | None => Accepting end)
                0 (cancelled s) (lnClosed s) (accepted s)
                (spawned s) (running s) (connectionsTotal s) (connectionsActive s))
      else None
  | EAccept =>
      if decide (at_ s = Accepting /\ lnClosed s = false) then
        Some (MkServer Accepting 0 (cancelled s) (lnClosed s) (S (accepted s))
                (spawned s ∪ {[accepted s]}) (running s) (connectionsTotal s) (connectionsActive s))
      else None
  | EAcceptErr err =>
      if decide (at_ s = Accepting /\ (Is err ErrClosed = true -> lnClosed s = true)) then
        match onAcceptError (cancelled s) err (backoff s) with
        | None => Some (MkServer Draining (backoff s) (cancelled s) (lnClosed s) (accepted s)
                          (spawned s) (running s) (connectionsTotal s) (connectionsActive s))
        | Some d => Some (MkServer (BackingOff d) d (cancelled s) (lnClosed s) (accepted s)
                            (spawned s) (running s) (connectionsTotal s) (connectionsActive s))
        end
      else None
  | ETimer =>
      match at_ s with
      | BackingOff _ => Some (MkServer Accepting (backoff s) (cancelled s) (lnClosed s) (accepted s)
                                (spawned s) (running s) (connectionsTotal s) (connectionsActive s))
      | _ => None
      end
  | ECtxDone =>
      match at_ s with
      | BackingOff _ =>
          if cancelled s then
            Some (MkServer Draining (backoff s) true (lnClosed s) (accepted s)
                    (spawned s) (running s) (connectionsTotal s) (connectionsActive s))
          else None
      | _ => None
      end
  | ECancel =>
      Some (MkServer (at_ s) (backoff s) true (lnClosed s) (accepted s)
              (spawned s) (running s) (connectionsTotal s) (connectionsActive s))
  | ECloseListener =>
      if cancelled s && has_listener s then
        Some (MkServer (at_ s) (backoff s) true true (accepted s)
                (spawned s) (running s) (connectionsTotal s) (connectionsActive s))
      else None
  | EHandle n =>
      if decide (n ∈ spawned s) then
        Some (MkServer (at_ s) (backoff s) (cancelled s) (lnClosed s) (accepted s)
                (spawned s ∖ {[n]}) (running s ∪ {[n]})
                (connectionsTotal s + 1) (connectionsActive s + 1))
      else None
  | EFinish n =>
      if decide (n ∈ running s) then
        Some (MkServer (at_ s) (backoff s) (cancelled s) (lnClosed s) (accepted s)
                (spawned s) (running s ∖ {[n]}) (connectionsTotal s) (connectionsActive s - 1))
      else None
  | EReturn =>
      if decide (at_ s = Draining /\ spawned s = ∅ /\ running s = ∅) then
        Some (MkServer Returned (backoff s) (cancelled s) (lnClosed s) (accepted s)
                ∅ ∅ (connectionsTotal s) (connectionsActive s))
      else None
  end.

(** A sequence of actions. *)
Fixpoint acts (es : list event) (s : Server) : option Server :=
  match es with
  | [] => Some s
  | e :: es => match act e s with Some s' => acts es s' | None => None end
  end.

(** * Invariant *)
Record SInv (s : Server) : Prop := MkSInv {
  inv_backoff : backoff s = 0 \/ 5 * Millisecond <= backoff s <= maxAcceptBackoff;
  inv_delay : forall d, at_ s = BackingOff d -> d = backoff s /\ 5 * Millisecond <= d;
  inv_disjoint : spawned s ## running s;
  inv_known : forall n, n ∈ spawned s ∪ running s -> (n < accepted s)%nat;
  inv_total : connectionsTotal s + Z.of_nat (size (spawned s)) = Z.of_nat (accepted s);
  inv_active : connectionsActive s = Z.of_nat (size (running s));
  inv_returned : at_ s = Returned -> spawned s = ∅ /\ running s = ∅;
  inv_closed : lnClosed s = true -> cancelled s = true;
  inv_unopened : has_listener s = false -> accepted s = 0%nat /\ lnClosed s = false;
  inv_stopped : at_ s = Draining \/ at_ s = Returned -> cancelled s = true
}.

Lemma nextBackoff_range b :
  b = 0 \/ 5 * Millisecond <= b <= maxAcceptBackoff ->
  5 * Millisecond <= nextBackoff b <= maxAcceptBackoff.
Proof.
  unfold nextBackoff, maxAcceptBackoff, Second, Millisecond.
  intros H. destruct (Z.eqb_spec b 0); destruct (Z.ltb_spec (10^9) (if decide (b = 0) then 5 * 10^6 else b * 2));
    repeat case_match; lia.
Qed.

Lemma size_add n (X : gset nat) : n ∉ X -> size (X ∪ {[n]}) = S (size X).
Proof. intros H. rewrite size_union by set_solver. rewrite size_singleton. lia. Qed.
Lemma size_remove n (X : gset nat) : n ∈ X -> S (size (X ∖ {[n]})) = size X.
Proof.
  intros H. rewrite size_difference by set_solver. rewrite size_singleton.
  assert (size X <> 0)%nat; [|lia]. intros H0. apply size_empty_inv in H0. set_solver.
Qed.

Lemma onAcceptError_range c err b d :
  b = 0 \/ 5 * Millisecond <= b <= maxAcceptBackoff -> onAcceptError c err b = Some d ->
  5 * Millisecond <= d <= maxAcceptBackoff.
Proof.
  unfold onAcceptError. destruct (c || Is err ErrClosed); [done|]. intros Hb [= <-].
  by apply nextBackoff_range.
Qed.

Lemma accept_SInv s s' : SInv s -> act EAccept s = Some s' -> SInv s'.
Proof.
  intros [Hb Hd Hdis Hk Ht Ha Hr Hc Hu Hs] H. simpl in H. case_decide as Hg; [|done]. injection H as <-.
  assert (accepted s ∉ spawned s ∪ running s) as Hnew.
  { intros Hn. specialize (Hk _ Hn). lia. }
  apply not_elem_of_union in Hnew as [Hns Hnr]. constructor; simpl; try done.
  - by left.
  - set_solver.
  - intros n. rewrite !elem_of_union, elem_of_singleton. intros [[Hn| ->]|Hn]; [|lia|].
    + specialize (Hk n (elem_of_union_l _ _ _ Hn)). lia.
    + specialize (Hk n (elem_of_union_r _ _ _ Hn)). lia.
  - rewrite size_add by done. lia.
  - by intros [?|?].
Qed.
Lemma handle_SInv n s s' : SInv s -> act (EHandle n) s = Some s' -> SInv s'.
Proof.
  intros [Hb Hd Hdis Hk Ht Ha Hr Hc Hu Hs] H. simpl in H. case_decide as Hn; [|done]. injection H as <-.
  assert (n ∉ running s) as Hnr by set_solver.
  constructor; simpl; try done.
  - set_solver.
  - intros m Hm. apply Hk. set_solver.
  - pose proof (size_remove n _ Hn). lia.
  - rewrite size_add by done. lia.
  - intros E. destruct (Hr E) as [E1 _]. rewrite E1 in Hn. set_solver.
Qed.
Lemma finish_SInv n s s' : SInv s -> act (EFinish n) s = Some s' -> SInv s'.
Proof.
  intros [Hb Hd Hdis Hk Ht Ha Hr Hc Hu Hs] H. simpl in H. case_decide as Hn; [|done]. injection H as <-.
  constructor; simpl; try done.
  - set_solver.
  - intros m Hm. apply Hk. set_solver.
  - pose proof (size_remove n _ Hn). lia.
  - intros E. destruct (Hr E) as [_ E2]. rewrite E2 in Hn. set_solver.
Qed.

Lemma act_SInv e s s' : SInv s -> act e s = Some s' -> SInv s'.
Proof.
  intros HI H. destruct e; eauto using accept_SInv, handle_SInv, finish_SInv.
  all: destruct HI as [Hb Hd Hdis Hk Ht Ha Hr Hc Hu Hs]; simpl in H.
  - case_decide as Hg; [|done]. injection H as <-.
    destruct Hu as [Hu1 Hu2]; [unfold has_listener; by rewrite Hg|].
    destruct r as [err|]; constructor; simpl; try done; first [by left|by intros [?|?]].
  - case_decide as Hg; [|done]. destruct Hg as [Hg Hcl].
    destruct (onAcceptError _ _ _) as [d|] eqn:Ed; injection H as <-.
    + apply onAcceptError_range in Ed; [|done]. constructor; simpl; try done.
      * by right.
      * intros d' [= <-]. lia.
      * by intros [?|?].
    + constructor; simpl; try done. intros _. unfold onAcceptError in Ed.
      destruct (cancelled s); [done|]. destruct (Is err ErrClosed); [auto|done].
  - destruct (at_ s); try done. injection H as <-. constructor; simpl; try done. by intros [?|?].
  - destruct (at_ s); try done. destruct (cancelled s); [|done]. injection H as <-. by constructor.
  - injection H as <-. by constructor.
  - destruct (cancelled s), (has_listener s) eqn:El; try done. injection H as <-. constructor; simpl; try done.
    unfold has_listener in *. simpl. by rewrite El.
  - case_decide as Hg; [|done]. injection H as <-. destruct Hg as (Hat & Es & Er).
    rewrite Es in Ht. rewrite Er in Ha. constructor; simpl; try done. intros _. apply Hs. by left.
Qed.
Lemma NewServer_SInv : SInv NewServer.
Proof. constructor; simpl; try done; first [by left|set_solver]. Qed.

Lemma acts_ind (P : Server -> Prop) es s s' :
  (forall e s s', P s -> act e s = Some s' -> P s') -> P s -> acts es s = Some s' -> P s'.
Proof.
  intros Hst. revert s. induction es as [|e es IH]; intros s Hs H; simpl in H; [by simplify_eq|].
  destruct (act e s) as [s1|] eqn:E; [|done]. eauto.
Qed.
Lemma acts_SInv es s : acts es NewServer = Some s -> SInv s.
Proof. apply (acts_ind SInv); [apply act_SInv|apply NewServer_SInv]. Qed.
Lemma acts_app es1 es2 s : acts (es1 ++ es2) s = match acts es1 s with Some s' => acts es2 s' | None => None end.
Proof. revert s. induction es1 as [|e es IH]; intros s; simpl; [done|]. by destruct (act e s). Qed.

(** * Theorems *)

(** The delay of the [k]-th consecutive transient error, counted from 0. *)
Lemma nextBackoff_iter k :
  Nat.iter (S k) nextBackoff 0 = Z.min maxAcceptBackoff (5 * Millisecond * 2 ^ Z.of_nat k).
Proof.
  induction k as [|k IH]; [done|]. rewrite Nat.iter_succ, IH.
  unfold nextBackoff, maxAcceptBackoff, Second, Millisecond in *.
  rewrite Nat2Z.inj_succ, Z.pow_succ_r by lia.
  assert (0 < 2 ^ Z.of_nat k) by (apply Z.pow_pos_nonneg; lia).
  destruct (Z.eqb_spec (Z.min (10 ^ 9) (5 * 10 ^ 6 * 2 ^ Z.of_nat k)) 0); [lia|].
  destruct (Z.ltb_spec (10 ^ 9) (Z.min (10 ^ 9) (5 * 10 ^ 6 * 2 ^ Z.of_nat k) * 2)); lia.
Qed.

(** The accept errors [errs], each waited out. *)
Definition waited (errs : list error) : list event := errs ≫= (fun err => [EAcceptErr err; ETimer]).

Lemma waited_backoff errs s :
  at_ s = Accepting -> cancelled s = false -> Forall (fun err => Is err ErrClosed = false) errs ->
  acts (waited errs) s =
    Some (MkServer Accepting (Nat.iter (length errs) nextBackoff (backoff s)) false (lnClosed s)
            (accepted s) (spawned s) (running s) (connectionsTotal s) (connectionsActive s)).
Proof.
  intros Hat Hcan Herrs. revert s Hat Hcan. induction Herrs as [|err errs Herr Herrs IH]; intros s Hat Hcan.
  - destruct s; simpl in *. by subst.
  - unfold waited. simpl. rewrite decide_True by (split; [done|by rewrite Herr]). unfold onAcceptError. rewrite Hcan, Herr. simpl.
    fold (waited errs). rewrite IH by done. simpl. by rewrite <-Nat.iter_swap.
Qed.

(** Transient accept errors never stop the server and never make it spin: after
    any number [k + 1] of consecutive errors, other than the closed listener,
    [Run] is accepting again, having waited min(1 s, 5 ms * 2^k) before the last
    retry; nothing else has changed.  The delay never exceeds a second, so the
    doubling cannot overflow. *)
Theorem accept_backoff s k errs :
  at_ s = Accepting -> backoff s = 0 -> cancelled s = false ->
  Forall (fun err => Is err ErrClosed = false) errs -> length errs = S k ->
  acts (waited errs) s =
    Some (MkServer Accepting (Z.min maxAcceptBackoff (5 * Millisecond * 2 ^ Z.of_nat k)) false
            (lnClosed s) (accepted s) (spawned s) (running s) (connectionsTotal s)
            (connectionsActive s)).
Proof. intros Hat Hb Hc Herrs Hl. rewrite waited_backoff by done. by rewrite Hl, Hb, nextBackoff_iter. Qed.

Definition stopped (s : Server) : Prop := at_ s = Draining \/ at_ s = Returned.

(** C34: in every reachable state the active-connections gauge is the number of
    handlers that are running, and every accepted connection has been counted
    except those whose handler has not started.  [Run] fails only before it has
    accepted anything, stops accepting only when the context was cancelled, and
    has returned only when every accepted connection was handled to its end: then
    the gauge is back at 0 and the total equals the number of accepted
    connections. *)
Theorem server_lifecycle es s :
  acts es NewServer = Some s ->
  connectionsActive s = Z.of_nat (size (running s)) /\
  connectionsTotal s + Z.of_nat (size (spawned s)) = Z.of_nat (accepted s) /\
  (stopped s -> cancelled s = true) /\
  (forall err, at_ s = Failed err -> accepted s = 0%nat) /\
  (at_ s = Returned ->
     spawned s = ∅ /\ running s = ∅ /\ connectionsActive s = 0 /\
     connectionsTotal s = Z.of_nat (accepted s) /\
     forall e s', act e s = Some s' -> at_ s' = Returned /\ accepted s' = accepted s).
Proof.
  intros H. pose proof (acts_SInv es s H) as [_ _ _ _ Ht Ha Hr _ Hu Hs].
  split_and!; [done|done|done|intros err E; apply Hu; unfold has_listener; by rewrite E|].
  intros E. destruct (Hr E) as [Es Er].
  rewrite Es in Ht. rewrite Er in Ha. split_and!; [done..|rewrite size_empty in Ht; lia|].
  intros e s' He. unfold act in He. rewrite E, Es, Er in He.
  destruct e; repeat case_match; simplify_eq/=; done || set_solver || naive_solver.
Qed.

(** ** Shutdown *)

(** The spawned handlers start, and the running ones return, one after the other. *)
Lemma start_all X s :
  spawned s = X -> exists es s', acts es s = Some s' /\ at_ s' = at_ s /\ cancelled s' = cancelled s /\
    spawned s' = ∅.
Proof.
  revert s. induction X as [|n X Hn IH] using set_ind_L; intros s HX.
  - exists [], s. done.
  - destruct (IH (MkServer (at_ s) (backoff s) (cancelled s) (lnClosed s) (accepted s)
      (spawned s ∖ {[n]}) (running s ∪ {[n]}) (connectionsTotal s + 1) (connectionsActive s + 1)))
      as (es & s' & H1 & H2); [simpl; set_solver|].
    exists (EHandle n :: es), s'. split; [|done]. simpl. rewrite decide_True by set_solver. done.
Qed.
Lemma finish_all X s :
  running s = X -> exists es s', acts es s = Some s' /\ at_ s' = at_ s /\ spawned s' = spawned s /\
    running s' = ∅.
Proof.
  revert s. induction X as [|n X Hn IH] using set_ind_L; intros s HX.
  - exists [], s. done.
  - destruct (IH (MkServer (at_ s) (backoff s) (cancelled s) (lnClosed s) (accepted s)
      (spawned s) (running s ∖ {[n]}) (connectionsTotal s) (connectionsActive s - 1)))
      as (es & s' & H1 & H2); [simpl; set_solver|].
    exists (EFinish n :: es), s'. split; [|done]. simpl. rewrite decide_True by set_solver. done.
Qed.
(** A cancelled [Run] that accepts or waits can stop accepting. *)
Lemma stop_accepting s :
  cancelled s = true -> at_ s <> Returned -> has_listener s = true ->
  exists es s', acts es s = Some s' /\ at_ s' = Draining.
Proof.
  intros Hc Hr Hl. unfold has_listener in Hl. destruct (at_ s) as [| | |d| |] eqn:Ea; try done.
  - eexists [ECloseListener; EAcceptErr (ErrSent ErrClosed)], _. cbn [acts act].
    replace (has_listener s) with true by (unfold has_listener; by rewrite Ea). rewrite Hc.
    cbn [andb at_ lnClosed cancelled backoff]. rewrite decide_True by done. split; done.
  - eexists [ECtxDone], _. simpl. rewrite Ea, Hc. split; done.
  - exists [], s. done.
Qed.
(** ... and then runs to its return. *)
Lemma can_return s :
  cancelled s = true -> has_listener s = true -> exists es s', acts es s = Some s' /\ at_ s' = Returned.
Proof.
  intros Hc Hl. destruct (decide (at_ s = Returned)) as [Hr|Hr]; [by exists [], s|].
  destruct (stop_accepting s Hc Hr Hl) as (e1 & s1 & H1 & A1).
  destruct (start_all _ s1 eq_refl) as (e2 & s2 & H2 & A2 & _ & S2).
  destruct (finish_all _ s2 eq_refl) as (e3 & s3 & H3 & A3 & S3 & R3).
  exists (e1 ++ e2 ++ e3 ++ [EReturn]), (MkServer Returned (backoff s3) (cancelled s3) (lnClosed s3)
    (accepted s3) ∅ ∅ (connectionsTotal s3) (connectionsActive s3)).
  rewrite acts_app, H1, acts_app, H2, acts_app, H3. simpl.
  rewrite decide_True by (split_and!; congruence). done.
Qed.

(** The server can always be shut down: from every reachable state in which the
    context is cancelled and [Run] has not failed to listen there is a
    continuation, in which only the accept call fails and the handlers run to
    their end, after which [Run] has returned.  In particular no handler keeps
    another one or the accept loop from finishing. *)
Theorem server_can_stop es s :
  acts es NewServer = Some s -> cancelled s = true -> (forall err, at_ s <> Failed err) ->
  exists es' s', acts (es ++ es') NewServer = Some s' /\ at_ s' = Returned.
Proof.
  intros H Hc Hf. destruct (decide (at_ s = Listening)) as [Hl|Hl].
  - destruct (act (EListen None) s) as [s1|] eqn:E1; simpl in E1; rewrite decide_True in E1 by done; [|done].
    injection E1 as E1. destruct (can_return s1) as (es' & s' & H' & Hr); [by subst..|].
    exists (EListen None :: es'), s'. rewrite acts_app, H. simpl. rewrite decide_True by done. by rewrite E1.
  - destruct (can_return s Hc) as (es' & s' & H' & Hr).
    { unfold has_listener. destruct (at_ s) eqn:E; try done. by destruct (Hf err). }
    exists es', s'. by rewrite acts_app, H.
Qed.

(** ** Demonstration *)
Definition demo_error : error := ErrNew "accept: too many open files"%string [].
(** The server once it listens. *)
Definition listening : Server := MkServer Accepting 0 false false 0 ∅ ∅ 0 0.
Lemma accept_backoff_witness :
  option_map backoff (acts (waited (replicate 9 demo_error)) listening) = Some Second.
Proof.
  rewrite (accept_backoff listening 8 (replicate 9 demo_error) eq_refl eq_refl eq_refl
    ltac:(apply Forall_replicate; reflexivity) eq_refl). reflexivity.
Defined.

(** Two connections, one of which ends; a cancelled context; the drain. *)
Definition demo_events : list event :=
  [EListen None; EAccept; EHandle 0; EAccept; EFinish 0; ECancel; ECloseListener; EAcceptErr (ErrSent ErrClosed);
   EHandle 1; EFinish 1; EReturn].
Lemma server_lifecycle_witness :
  option_map connectionsTotal (acts demo_events NewServer) = Some 2.
Proof.
  assert (option_map (fun s => (at_ s, accepted s)) (acts demo_events NewServer) = Some (Returned, 2%nat)) as E
    by (vm_compute; reflexivity).
  destruct (acts demo_events NewServer) as [s|] eqn:H; [|discriminate E].
  pose proof (server_lifecycle demo_events s H) as (_ & _ & _ & _ & Hr).
  injection E as E1 E2. destruct (Hr E1) as (_ & _ & _ & Ht & _).
  simpl. rewrite Ht, E2. reflexivity.
Defined.
Lemma server_can_stop_witness :
  exists es' s', acts ([EListen None; EAccept; EHandle 0; ECancel] ++ es') NewServer = Some s' /\ at_ s' = Returned.
Proof.
  destruct (acts [EListen None; EAccept; EHandle 0; ECancel] NewServer) as [s|] eqn:E; [|vm_compute in E; discriminate E].
  assert (option_map (fun s => (cancelled s, at_ s)) (acts [EListen None; EAccept; EHandle 0; ECancel] NewServer)
          = Some (true, Accepting)) as Ec by (vm_compute; reflexivity).
  rewrite E in Ec. injection Ec as Ec Ea.
  apply (server_can_stop [EListen None; EAccept; EHandle 0; ECancel] s E Ec). rewrite Ea. discriminate.
Defined.
