(* ===== verification/ProxyConn.v ===== *)
(** Package [proxy], the state of one client connection and its SASL phase
    (conn.go).

    One connection is a sequential program: its state [conn] holds the struct's
    fields, the client's socket, the metrics, the log, and the environment's script (the
    outcomes of the coming dials, the coming results of [ctx.Err()]).  The
    tenant store is shared with other goroutines: the [k]-th lookup of this
    connection finds it in the state [history k], any sequence of states. *)
From Stdlib Require Import ZArith Lia.
From stdpp Require Import base list strings tactics.
From S2P Require Import Prelude GoStrings GoNet Protocol Kmsg Auth Resolver Upstream.
From S2P Require Import Observability.
Local Open Scope Z_scope.

(** * Parameters *)

(** The kmsg codecs of the messages the proxy decodes or encodes. *)
Record Codecs (X : Type) : Type := MkCodecs {
  k_ApiVersionsResponse : Codec ApiVersionsResponse.t;
  k_SASLHandshakeRequest : Codec SASLHandshakeRequest.t;
  k_SASLHandshakeResponse : Codec SASLHandshakeResponse.t;
  k_SASLAuthenticateRequest : Codec SASLAuthenticateRequest.t;
  k_SASLAuthenticateResponse : Codec SASLAuthenticateResponse.t;
  k_MetadataRequest : Codec (MetadataRequest.t X);
  k_MetadataResponse : Codec (MetadataResponse.t X);
  k_ProduceRequest : Codec (ProduceRequest.t X);
  k_ProduceResponse : Codec (ProduceResponse.t X);
  k_FetchRequest : Codec (FetchRequest.t X);
  k_FetchResponse : Codec (FetchResponse.t X);
  k_ListOffsetsRequest : Codec (ListOffsetsRequest.t X);
  k_ListOffsetsResponse : Codec (ListOffsetsResponse.t X);
  k_FindCoordinatorRequest : Codec (FindCoordinatorRequest.t X);
  k_FindCoordinatorResponse : Codec (FindCoordinatorResponse.t X);
  k_OffsetCommitRequest : Codec (OffsetCommitRequest.t X);
  k_OffsetCommitResponse : Codec (OffsetCommitResponse.t X);
  k_OffsetFetchRequest : Codec (OffsetFetchRequest.t X);
  k_OffsetFetchResponse : Codec (OffsetFetchResponse.t X);
  k_OffsetDeleteRequest : Codec (OffsetDeleteRequest.t X);
  k_OffsetDeleteResponse : Codec (OffsetDeleteResponse.t X);
  k_JoinGroupRequest : Codec (JoinGroupRequest.t X);
  k_JoinGroupResponse : Codec (JoinGroupResponse.t X);
  k_SyncGroupRequest : Codec (SyncGroupRequest.t X);
  k_SyncGroupResponse : Codec (SyncGroupResponse.t X);
  k_HeartbeatRequest : Codec (HeartbeatRequest.t X);
  k_HeartbeatResponse : Codec (Untouched.t X);
  k_LeaveGroupRequest : Codec (LeaveGroupRequest.t X);
  k_LeaveGroupResponse : Codec (Untouched.t X);
  k_DescribeGroupsRequest : Codec (DescribeGroupsRequest.t X);
  k_DescribeGroupsResponse : Codec (DescribeGroupsResponse.t X);
  k_ListGroupsRequest : Codec (Untouched.t X);
  k_ListGroupsResponse : Codec (ListGroupsResponse.t X);
  k_DeleteGroupsRequest : Codec (DeleteGroupsRequest.t X);
  k_DeleteGroupsResponse : Codec (DeleteGroupsResponse.t X);
  k_InitProducerIDRequest : Codec (InitProducerIDRequest.t X);
  k_InitProducerIDResponse : Codec (Untouched.t X);
  k_AddPartitionsToTxnRequest : Codec (AddPartitionsToTxnRequest.t X);
  k_AddPartitionsToTxnResponse : Codec (AddPartitionsToTxnResponse.t X);
  k_AddOffsetsToTxnRequest : Codec (AddOffsetsToTxnRequest.t X);
  k_AddOffsetsToTxnResponse : Codec (Untouched.t X);
  k_EndTxnRequest : Codec (EndTxnRequest.t X);
  k_EndTxnResponse : Codec (Untouched.t X);
  k_TxnOffsetCommitRequest : Codec (TxnOffsetCommitRequest.t X);
  k_TxnOffsetCommitResponse : Codec (TxnOffsetCommitResponse.t X);
  k_CreateTopicsRequest : Codec (CreateTopicsRequest.t X);
  k_CreateTopicsResponse : Codec (CreateTopicsResponse.t X);
  k_DeleteTopicsRequest : Codec (DeleteTopicsRequest.t X);
  k_DeleteTopicsResponse : Codec (DeleteTopicsResponse.t X);
  k_DescribeConfigsRequest : Codec (DescribeConfigsRequest.t X);
  k_DescribeConfigsResponse : Codec (DescribeConfigsResponse.t X);
  k_subscription : Blob (ConsumerMemberMetadata.t X);
  k_assignment : Blob (ConsumerMemberAssignment.t X)
}.
Set Implicit Arguments.

(** The fields only the debug summaries read (Debug.v). *)
Record DebugFields (X : Type) : Type := MkDebugFields {
  errorCode : X -> Z;
  topicID : X -> list byte;
  partitions : X -> list (Z * Z)
}.

(** The fields of [ServerConfig] a connection reads. *)
Record ServerConfig : Type := MkServerConfig {
  Advertised : string;
  UpstreamSASLMechanism : string
}.

Record Env (X Session St : Type) : Type := MkEnv {
  codecs : Codecs X;
  debugFields : DebugFields X;
  AppendRequest : string -> Request -> Z -> list byte;
  avRequest : Request;
  Authenticate : string -> string -> string -> error + Session * list byte;
  Challenge : Session -> list byte -> error + bool * list byte * Session;
  store : Resolver St;
  history : nat -> St;
  cfg : ServerConfig
}.
Unset Implicit Arguments.

(** * The connection *)
Definition errSaslAuthFailed : Z := 58.
Definition errUnsupportedSaslMech : Z := 33.
Definition errIllegalSaslState : Z := 34.

Inductive connState : Set :=
| stateAwaitHandshake
| stateAwaitAuth
| stateRelaySaslInFlight
| stateAuthenticated.
#[global] Instance connState_eq_dec : EqDecision connState.
Proof. solve_decision. Defined.

Record conn : Type := MkPConn {
  client : NetConn;
  state : connState;
  clientMechanism : string;
  tenant : Tenant;
  password : string;
  upstream : option Conn;
  scramRoundsCompleted : Z;
  metrics : option Metrics;
  log : Logger;
  (* environment *)
  gets : nat;                            (* resolver lookups made so far *)
  dials : list (error + NetConn);        (* outcomes of the coming dials *)
  dialed : list string;                  (* addresses dialled so far *)
  dropped : list Conn;                   (* connections dialled and given up *)
  ctx : list (option sentinel)              (* coming results of ctx.Err() *)
}.

Definition set_client (v : NetConn) (c : conn) : conn :=
  MkPConn v (state c) (clientMechanism c) (tenant c) (password c) (upstream c)
    (scramRoundsCompleted c) (metrics c) (log c) (gets c) (dials c) (dialed c) (dropped c) (ctx c).
Definition set_state (v : connState) (c : conn) : conn :=
  MkPConn (client c) v (clientMechanism c) (tenant c) (password c) (upstream c)
    (scramRoundsCompleted c) (metrics c) (log c) (gets c) (dials c) (dialed c) (dropped c) (ctx c).
Definition set_clientMechanism (v : string) (c : conn) : conn :=
  MkPConn (client c) (state c) v (tenant c) (password c) (upstream c) (scramRoundsCompleted c)
    (metrics c) (log c) (gets c) (dials c) (dialed c) (dropped c) (ctx c).
Definition set_tenant (v : Tenant) (c : conn) : conn :=
  MkPConn (client c) (state c) (clientMechanism c) v (password c) (upstream c)
    (scramRoundsCompleted c) (metrics c) (log c) (gets c) (dials c) (dialed c) (dropped c) (ctx c).
Definition set_password (v : string) (c : conn) : conn :=
  MkPConn (client c) (state c) (clientMechanism c) (tenant c) v (upstream c)
    (scramRoundsCompleted c) (metrics c) (log c) (gets c) (dials c) (dialed c) (dropped c) (ctx c).
Definition set_upstream (v : option Conn) (c : conn) : conn :=
  MkPConn (client c) (state c) (clientMechanism c) (tenant c) (password c) v
    (scramRoundsCompleted c) (metrics c) (log c) (gets c) (dials c) (dialed c) (dropped c) (ctx c).
Definition set_scramRoundsCompleted (v : Z) (c : conn) : conn :=
  MkPConn (client c) (state c) (clientMechanism c) (tenant c) (password c) (upstream c) v
    (metrics c) (log c) (gets c) (dials c) (dialed c) (dropped c) (ctx c).
Definition set_metrics (v : option Metrics) (c : conn) : conn :=
  MkPConn (client c) (state c) (clientMechanism c) (tenant c) (password c) (upstream c)
    (scramRoundsCompleted c) v (log c) (gets c) (dials c) (dialed c) (dropped c) (ctx c).
Definition set_log (v : Logger) (c : conn) : conn :=
  MkPConn (client c) (state c) (clientMechanism c) (tenant c) (password c) (upstream c)
    (scramRoundsCompleted c) (metrics c) v (gets c) (dials c) (dialed c) (dropped c) (ctx c).
Definition set_gets (v : nat) (c : conn) : conn :=
  MkPConn (client c) (state c) (clientMechanism c) (tenant c) (password c) (upstream c)
    (scramRoundsCompleted c) (metrics c) (log c) v (dials c) (dialed c) (dropped c) (ctx c).
Definition set_dials (v : list (error + NetConn)) (c : conn) : conn :=
  MkPConn (client c) (state c) (clientMechanism c) (tenant c) (password c) (upstream c)
    (scramRoundsCompleted c) (metrics c) (log c) (gets c) v (dialed c) (dropped c) (ctx c).
Definition set_dialed (v : list string) (c : conn) : conn :=
  MkPConn (client c) (state c) (clientMechanism c) (tenant c) (password c) (upstream c)
    (scramRoundsCompleted c) (metrics c) (log c) (gets c) (dials c) v (dropped c) (ctx c).
Definition set_dropped (v : list Conn) (c : conn) : conn :=
  MkPConn (client c) (state c) (clientMechanism c) (tenant c) (password c) (upstream c)
    (scramRoundsCompleted c) (metrics c) (log c) (gets c) (dials c) (dialed c) v (ctx c).
Definition set_ctx (v : list (option sentinel)) (c : conn) : conn :=
  MkPConn (client c) (state c) (clientMechanism c) (tenant c) (password c) (upstream c)
    (scramRoundsCompleted c) (metrics c) (log c) (gets c) (dials c) (dialed c) (dropped c) v.

Definition noTenant : Tenant := MkTenant "" "" "".

(** [newConn], in an environment. *)
Definition newConn (nc : NetConn) (m : option Metrics) (lg : Logger) (dials : list (error + NetConn))
    (ctx : list (option sentinel)) : conn :=
  MkPConn nc stateAwaitHandshake "" noTenant "" None 0 m lg 0 dials [] [] ctx.

(** [close]: both sockets. *)
Definition close (c : conn) : conn :=
  set_upstream (CloseConn <$> upstream c) (set_client (Close (client c)) c).

(** ** Effects *)
Definition on_client {A} (m : M NetConn A) : M conn A := zoom client set_client m.
(** A method of [c.upstream]; a nil pointer panics. *)
Definition on_up {A} (m : M Conn A) : M conn A :=
  fun c => match upstream c with
           | None => (Panic, c)
           | Some u => let '(r, u') := m u in (r, set_upstream (Some u') c)
           end.
(** [if c.metrics != nil { ... }] *)
Definition meter (f : Metrics -> Metrics) : M conn unit :=
  modify (fun c => set_metrics (f <$> metrics c) c).
(** [c.log.InfoContext] and the like *)
Definition logs (l : Level) (msg : string) (args : list (string * attr)) : M conn unit :=
  modify (fun c => set_log (Log l msg args (log c)) c).
(** The outcome of [DialContext] on [addr]; an exhausted script is an error. *)
Definition nextDial (addr : string) : M conn (error + NetConn) :=
  fun c => (Ok (hd (inl (ErrSent (Err_env 0))) (dials c)),
            set_dialed (dialed c ++ [addr]) (set_dials (tl (dials c)) c)).
(** [up, err := Dial...(...)]: on success the connection is the result; a
    connection given up is kept in [dropped]. *)
Definition runDial (m : M (option Conn) unit) : M conn Conn :=
  fun c => match m None with
           | (Ok _, Some u) => (Ok u, c)
           | (Ok _, None) => (Panic, c)
           | (Err e, u) => (Err e, set_dropped (dropped c ++ option_list u) c)
           | (Panic, u) => (Panic, set_dropped (dropped c ++ option_list u) c)
           end.

Section Conn.
Context {X Session St : Type} (E : Env X Session St).

Definition lookupTenant (id : string) : M conn Tenant :=
  fun c => ((Get (store E) id (history E (gets c))).1, set_gets (S (gets c)) c).

Definition writeResponse (hdr : RequestHeader) (AppendTo : list byte -> list byte) : M conn unit :=
  wrap "writeResponse"
    (on_client (WriteFrame (EncodeResponse AppendTo (CorrelationID hdr) (APIKey hdr) (APIVersion hdr)))).

(** The mechanism label is bounded to the supported ones. *)
Definition mechLabel (mech : string) : string :=
  if (mech =? MechanismPlain)%string || (mech =? MechanismSCRAMSHA256)%string ||
     (mech =? MechanismSCRAMSHA512)%string
  then mech else "unknown".
Definition observeHandshake (mech result : string) : M conn unit :=
  meter (incSaslHandshake (mechLabel mech) result).

(** ** The upstream connection *)
Definition shouldTranslatePlainToSCRAM (c : conn) : bool :=
  (clientMechanism c =? MechanismPlain)%string && IsSCRAMMechanism (UpstreamSASLMechanism (cfg E)).

Definition upDial (d : error + NetConn) (username password : string) : M (option Conn) unit :=
  Dial (AppendRequest E) (k_SASLHandshakeRequest _ (codecs E)) (k_SASLHandshakeResponse _ (codecs E))
    (k_SASLAuthenticateRequest _ (codecs E)) (k_SASLAuthenticateResponse _ (codecs E)) (avRequest E)
    d username password.
Definition upDialForSCRAM (d : error + NetConn) (mechanism : string) : M (option Conn) unit :=
  DialForSCRAM (AppendRequest E) (k_SASLHandshakeRequest _ (codecs E))
    (k_SASLHandshakeResponse _ (codecs E)) (avRequest E) d mechanism.
Definition upDialSCRAM (d : error + NetConn) (mechanism username password : string)
    : M (option Conn) unit :=
  DialSCRAM (AppendRequest E) (k_SASLHandshakeRequest _ (codecs E))
    (k_SASLHandshakeResponse _ (codecs E)) (k_SASLAuthenticateRequest _ (codecs E))
    (k_SASLAuthenticateResponse _ (codecs E)) (avRequest E) (Authenticate E) (Challenge E)
    d mechanism username password.
Definition upRelay (payload : list byte) : M Conn (list byte * Z * string) :=
  RelaySASLAuthenticate (AppendRequest E) (k_SASLAuthenticateRequest _ (codecs E))
    (k_SASLAuthenticateResponse _ (codecs E)) payload.

Definition ensureUpstream : M conn unit :=
  let! c := get in
  match upstream c with
  | Some _ => ret tt
  | None =>
      let! d := nextDial (Upstream (tenant c)) in
      let! r := attempt (runDial
        (if shouldTranslatePlainToSCRAM c
         then upDialSCRAM d (UpstreamSASLMechanism (cfg E)) (ID (tenant c)) (password c)
         else upDial d (ID (tenant c)) (password c))) in
      match r with
      | inl err =>
          let! _ := meter (incUpstreamError "dial") in
          fail (Wrap err "ensureUpstream")
      | inr up =>
          let! _ := modify (set_upstream (Some up)) in
          let upstreamMech := if shouldTranslatePlainToSCRAM c then UpstreamSASLMechanism (cfg E)
                              else clientMechanism c in
          logs LevelInfo "upstream connected"
            [("addr", AStr (Upstream (tenant c))); ("tenant_id", AStr (ID (tenant c)));
             ("upstream_mechanism", AStr upstreamMech)]
      end
  end.

(** ** SASL *)
Definition advertisedVersions : list ApiVersionsResponseApiKey.t :=
  map (fun '(k, maxv) => ApiVersionsResponseApiKey.Mk k 0 maxv)
    [(ApiVersionsKey, 3); (SaslHandshakeKey, 1); (SaslAuthenticateKey, 2);
     (ProduceKey, 9); (FetchKey, 11); (ListOffsetsKey, 7); (MetadataKey, 9);
     (OffsetCommitKey, 9); (OffsetFetchKey, 9); (FindCoordinatorKey, 4); (JoinGroupKey, 9);
     (HeartbeatKey, 4); (LeaveGroupKey, 5); (SyncGroupKey, 5); (DescribeGroupsKey, 5);
     (ListGroupsKey, 4); (CreateTopicsKey, 6); (DeleteTopicsKey, 5); (InitProducerIDKey, 4);
     (AddPartitionsToTxnKey, 4); (AddOffsetsToTxnKey, 3); (EndTxnKey, 3); (TxnOffsetCommitKey, 3);
     (DescribeConfigsKey, 4); (DeleteGroupsKey, 2); (OffsetDeleteKey, 0)].

Definition handleApiVersions (hdr : RequestHeader) (body : list byte) : M conn unit :=
  writeResponse hdr (AppendTo (k_ApiVersionsResponse _ (codecs E)) (APIVersion hdr)
                       (ApiVersionsResponse.Mk advertisedVersions)).

Definition handleSaslHandshake (hdr : RequestHeader) (body : list byte) : M conn unit :=
  match ReadFrom (k_SASLHandshakeRequest _ (codecs E)) (APIVersion hdr) body with
  | inl err => fail (Wrap err "handleSaslHandshake")
  | inr req =>
      let mech := SASLHandshakeRequest.Mechanism req in
      let! c := get in
      let! code :=
        (if decide (state c <> stateAwaitHandshake) then
           let! _ := observeHandshake mech "illegal_state" in ret errIllegalSaslState
         else if negb (mech =? MechanismPlain)%string && negb (IsSCRAMMechanism mech) then
           let! _ := observeHandshake mech "unsupported" in ret errUnsupportedSaslMech
         else
           let! _ := modify (set_clientMechanism mech) in
           let! _ := modify (set_state stateAwaitAuth) in
           ret 0) in
      writeResponse hdr (AppendTo (k_SASLHandshakeResponse _ (codecs E)) (APIVersion hdr)
        (SASLHandshakeResponse.Mk code [MechanismPlain; MechanismSCRAMSHA256; MechanismSCRAMSHA512]))
  end.

(** [writeResponse] of a SaslAuthenticate response. *)
Definition replyAuth (hdr : RequestHeader) (code : Z) (msg : option string) (payload : list byte)
    : M conn unit :=
  writeResponse hdr (AppendTo (k_SASLAuthenticateResponse _ (codecs E)) (APIVersion hdr)
    (SASLAuthenticateResponse.Mk code msg payload)).

Definition handleSaslAuthenticatePlain (hdr : RequestHeader) (body : list byte) : M conn unit :=
  match ReadFrom (k_SASLAuthenticateRequest _ (codecs E)) (APIVersion hdr) body with
  | inl err => fail (Wrap err "handleSaslAuthenticatePlain")
  | inr req =>
      let! c := get in
      if decide (state c <> stateAwaitAuth) then
        let! _ := observeHandshake MechanismPlain "illegal_state" in
        replyAuth hdr errIllegalSaslState (Some "SASL handshake required") []
      else
      let! creds := attempt (lift (ParsePlain (SASLAuthenticateRequest.SASLAuthBytes req))) in
      match creds with
      | inl _ =>
          let! _ := observeHandshake MechanismPlain "malformed" in
          replyAuth hdr errSaslAuthFailed (Some "malformed PLAIN payload") []
      | inr creds =>
          let! t := attempt (lookupTenant (Username creds)) in
          match t with
          | inl err =>
              let! _ := meter (incResolverCalls "unauthorized") in
              let! _ := observeHandshake MechanismPlain "unauthorized" in
              let! _ := logs LevelInfo "sasl auth failed"
                [("tenant_id", AStr (Username creds)); ("err", AErr err)] in
              replyAuth hdr errSaslAuthFailed (Some "authentication failed") []
          | inr t =>
              let! _ := meter (incResolverCalls "ok") in
              let! _ := modify (set_tenant t) in
              let! _ := modify (set_password (Password creds)) in
              let! _ := modify (set_state stateAuthenticated) in
              let! _ := observeHandshake MechanismPlain "ok" in
              let! _ := logs LevelInfo "sasl auth ok"
                [("tenant_id", AStr (ID t)); ("mechanism", AStr MechanismPlain)] in
              replyAuth hdr 0 None []
          end
      end
  end.

(** The first SCRAM message: find the tenant and dial; the result says whether to
    go on with the relay ([false]: a response has been written). *)
Definition scramFirst (hdr : RequestHeader) (payload : list byte) : M conn bool :=
  let! c := get in
  let! username := attempt (lift (ParseSCRAMClientFirstUsername payload)) in
  match username with
  | inl err =>
      let! _ := observeHandshake (clientMechanism c) "malformed" in
      let! _ := logs LevelInfo "sasl scram parse failed" [("err", AErr err)] in
      let! _ := replyAuth hdr errSaslAuthFailed (Some "malformed SCRAM client-first-message") [] in
      ret false
  | inr username =>
      let! t := attempt (lookupTenant username) in
      match t with
      | inl err =>
          let! _ := meter (incResolverCalls "unauthorized") in
          let! _ := observeHandshake (clientMechanism c) "unauthorized" in
          let! _ := logs LevelInfo "sasl auth failed"
            [("tenant_id", AStr username); ("err", AErr err)] in
          let! _ := replyAuth hdr errSaslAuthFailed (Some "authentication failed") [] in
          ret false
      | inr t =>
          let! _ := meter (incResolverCalls "ok") in
          let! _ := modify (set_tenant t) in
          let! d := nextDial (Upstream t) in
          let! up := attempt (runDial (upDialForSCRAM d (clientMechanism c))) in
          match up with
          | inl dErr =>
              let! _ := meter (incUpstreamError "scram_dial") in
              let! _ := observeHandshake (clientMechanism c) "upstream_error" in
              let! _ := logs LevelWarn "scram upstream dial failed"
                [("tenant_id", AStr (ID t)); ("err", AErr dErr)] in
              let! _ := replyAuth hdr errSaslAuthFailed (Some "upstream unavailable") [] in
              ret false
          | inr up =>
              let! _ := modify (set_upstream (Some up)) in
              let! _ := modify (set_state stateRelaySaslInFlight) in
              ret true
          end
      end
  end.

(** One relayed round. *)
Definition scramRelay (hdr : RequestHeader) (payload : list byte) : M conn unit :=
  let! c := get in
  let! r := attempt (on_up (upRelay payload)) in
  match r with
  | inl rErr =>
      let! _ := meter (incUpstreamError "scram_relay") in
      let! _ := observeHandshake (clientMechanism c) "upstream_error" in
      fail (Wrap rErr "handleSaslAuthenticateSCRAM")
  | inr (respBytes, errCode, errMsg) =>
      let msg := if (errMsg =? "")%string then None else Some errMsg in
      if negb (errCode =? 0) then
        let! _ := observeHandshake (clientMechanism c) "unauthorized" in
        let! _ := logs LevelInfo "scram upstream rejected"
          [("tenant_id", AStr (ID (tenant c))); ("code", AInt errCode); ("msg", AStr errMsg)] in
        replyAuth hdr errCode msg respBytes
      else
      let! _ := modify (fun c => set_scramRoundsCompleted (scramRoundsCompleted c + 1) c) in
      let! c := get in
      let! _ :=
        (if 2 <=? scramRoundsCompleted c then
           let! _ := modify (set_state stateAuthenticated) in
           let! _ := observeHandshake (clientMechanism c) "ok" in
           logs LevelInfo "sasl auth ok"
             [("tenant_id", AStr (ID (tenant c))); ("mechanism", AStr (clientMechanism c))]
         else ret tt) in
      replyAuth hdr errCode msg respBytes
  end.

Definition handleSaslAuthenticateSCRAM (hdr : RequestHeader) (body : list byte) : M conn unit :=
  match ReadFrom (k_SASLAuthenticateRequest _ (codecs E)) (APIVersion hdr) body with
  | inl err => fail (Wrap err "handleSaslAuthenticateSCRAM")
  | inr req =>
      let payload := SASLAuthenticateRequest.SASLAuthBytes req in
      let! c := get in
      if decide (state c <> stateAwaitAuth /\ state c <> stateRelaySaslInFlight) then
        let! _ := observeHandshake (clientMechanism c) "illegal_state" in
        replyAuth hdr errIllegalSaslState (Some "SASL handshake required") []
      else
      let! go := (if decide (state c = stateAwaitAuth) then scramFirst hdr payload else ret true) in
      if go : bool then scramRelay hdr payload else ret tt
  end.

Definition handleSaslAuthenticate (hdr : RequestHeader) (body : list byte) : M conn unit :=
  let! c := get in
  if IsSCRAMMechanism (clientMechanism c) then handleSaslAuthenticateSCRAM hdr body
  else handleSaslAuthenticatePlain hdr body.
End Conn.
