(* ===== verification/Config.v ===== *)
(** Package [config] (config.go) and the start of the process up to its servers
    (cmd/kroxy/main.go, [run]).

    Reading a file, the YAML decoder and the X.509 loader are parameters. *)
From Stdlib Require Import ZArith Lia.
From stdpp Require Import base list gmap strings tactics.
From S2P Require Import Prelude GoStrings Auth Resolver ResolverFacts Observability ProxyConn.

Module TLSConfig.
Record t : Type := Mk { Enabled : bool; CertFile : string; KeyFile : string }.
End TLSConfig.
Module MetricsConfig.
Record t : Type := Mk { Enabled : bool; Listen : string }.
End MetricsConfig.
Module AdminConfig.
Record t : Type := Mk { Enabled : bool; Listen : string }.
End AdminConfig.
Module UpstreamSASLConfig.
Record t : Type := Mk { Mechanism : string }.
End UpstreamSASLConfig.
Module UpstreamConfig.
Record t : Type := Mk { Bootstrap : string; SASL : UpstreamSASLConfig.t }.
End UpstreamConfig.
Module LogConfig.
Record t : Type := Mk { Level : string; Format : string }.
End LogConfig.

Module Config.
Record t : Type := Mk {
  Listen : string;
  Advertised : string;
  TLS : TLSConfig.t;
  Upstream : UpstreamConfig.t;
  Resolver : Resolver.Config;
  Log : LogConfig.t;
  Metrics : MetricsConfig.t;
  Admin : AdminConfig.t
}.
End Config.

(** [if s == "" { s = d }] *)
Definition orDefault (d s : string) : string := if (s =? "")%string then d else s.

(** [t.Upstream] of a tenant that omits it. *)
Definition fillUpstream (bootstrap : string) (t : Tenant) : Tenant :=
  if (Upstream t =? "")%string then MkTenant (ID t) (TopicPrefix t) bootstrap else t.

Definition applyDefaults (c : Config.t) : Config.t :=
  Config.Mk
    (orDefault ":9092" (Config.Listen c))
    (Config.Advertised c)
    (Config.TLS c)
    (Config.Upstream c)
    (MkConfig (orDefault "memory" (Type_ (Config.Resolver c)))
       (map (fillUpstream (UpstreamConfig.Bootstrap (Config.Upstream c)))
          (Memory_Tenants (Config.Resolver c))))
    (LogConfig.Mk (orDefault "info" (LogConfig.Level (Config.Log c)))
       (orDefault "json" (LogConfig.Format (Config.Log c))))
    (MetricsConfig.Mk (MetricsConfig.Enabled (Config.Metrics c))
       (orDefault ":9090" (MetricsConfig.Listen (Config.Metrics c))))
    (AdminConfig.Mk (AdminConfig.Enabled (Config.Admin c))
       (orDefault "127.0.0.1:9095" (AdminConfig.Listen (Config.Admin c)))).

(** The loop over the tenants, with their index. *)
Fixpoint validateTenants (i : Z) (ts : list Tenant) : res unit :=
  match ts with
  | [] => Ok tt
  | t :: ts =>
      if (ID t =? "")%string
      then Err (ErrNew "config: resolver.memory.tenants[%d].id is required" [FInt i])
      else if (TopicPrefix t =? "")%string
      then Err (ErrNew "config: resolver.memory.tenants[%d].topic_prefix is required" [FInt i])
      else validateTenants (i + 1) ts
  end.
Definition validateMemoryResolver (c : Config.t) : res unit :=
  let tenants := Memory_Tenants (Config.Resolver c) in
  if (len tenants =? 0)%Z && negb (AdminConfig.Enabled (Config.Admin c))
  then Err (ErrNew "config: resolver.memory.tenants must contain at least one entry (or enable the admin RPC)" [])
  else validateTenants 0 tenants.

Definition unsupportedMechanism : string :=
  "config: upstream.sasl.mechanism %q is not supported (use SCRAM-SHA-256 or SCRAM-SHA-512, or leave empty for PLAIN pass-through)".

Definition validate (c : Config.t) : res unit :=
  if (Config.Advertised c =? "")%string then Err (ErrNew "config: advertised is required" [])
  else if (UpstreamConfig.Bootstrap (Config.Upstream c) =? "")%string
  then Err (ErrNew "config: upstream.bootstrap is required" [])
  else
  let? _ :=
    if (Type_ (Config.Resolver c) =? "memory")%string then validateMemoryResolver c
    else Err (ErrNew "config: unknown resolver.type %q" [FStr (Type_ (Config.Resolver c))]) in
  let? _ :=
    if AdminConfig.Enabled (Config.Admin c) then
      let? _ := rwrap "config: admin.listen is invalid"
                  (SplitHostPort (AdminConfig.Listen (Config.Admin c))) in Ok tt
    else Ok tt in
  if TLSConfig.Enabled (Config.TLS c) &&
     ((TLSConfig.CertFile (Config.TLS c) =? "")%string || (TLSConfig.KeyFile (Config.TLS c) =? "")%string)
  then Err (ErrNew "config: tls.cert_file and tls.key_file are required when tls.enabled" [])
  else
  let m := UpstreamSASLConfig.Mechanism (UpstreamConfig.SASL (Config.Upstream c)) in
  if negb (m =? "")%string && negb (IsSCRAMMechanism m)
  then Err (ErrNew unsupportedMechanism [FStr m])
  else Ok tt.

Section Load.
Context (ReadFile : string -> error + list byte).
Context (Unmarshal : list byte -> error + Config.t).
Context {Certificate : Type} (LoadX509KeyPair : string -> string -> error + Certificate).

Definition Load (path : string) : res Config.t :=
  match ReadFile path with
  | inl err => Err (Wrap err "Load")
  | inr raw =>
      match Unmarshal raw with
      | inl err => Err (Wrap err "Load")
      | inr c =>
          let c := applyDefaults c in
          let? _ := rwrap "Load" (validate c) in
          Ok c
      end
  end.

(** [tls.Config] with the certificate and [tls.VersionTLS12]. *)
Record tlsConfig : Type := MkTLS { Certificates : list Certificate; MinVersion : Z }.
Definition VersionTLS12 : Z := 0x0303.

(** [None] is the nil pointer: plaintext. *)
Definition Build (t : TLSConfig.t) : res (option tlsConfig) :=
  if negb (TLSConfig.Enabled t) then Ok None
  else match LoadX509KeyPair (TLSConfig.CertFile t) (TLSConfig.KeyFile t) with
       | inl err => Err (Wrap err "TLSConfig.Build")
       | inr cert => Ok (Some (MkTLS [cert] VersionTLS12))
       end.

(** ** main.go *)
Definition version : string := "dev".

(** What [run] starts its servers with. *)
Record Process : Type := MkProcess {
  logger : HandlerKind * Logger;
  tenantStore : memoryResolver;
  processMetrics : option Observability.Metrics;
  serverTLS : option tlsConfig;
  serverConfig : ServerConfig;
  serverListen : string;
  metricsServer : option string;
  adminServer : option string
}.
(** [run] up to the start of the goroutines. *)
Definition start (cfgPath : string) : res Process :=
  let? cfg := Load cfgPath in
  let (level, kind) := NewLogger (LogConfig.Level (Config.Log cfg)) (LogConfig.Format (Config.Log cfg)) in
  let log := Log LevelInfo "kroxy starting" [("version"%string, AStr version)] (quietLogger level) in
  let? store := New (Config.Resolver cfg) in
  let metrics := if MetricsConfig.Enabled (Config.Metrics cfg) then Some NewMetrics else None in
  let? tlsCfg := Build (Config.TLS cfg) in
  Ok (MkProcess (kind, log) store metrics tlsCfg
        (MkServerConfig (Config.Advertised cfg)
           (UpstreamSASLConfig.Mechanism (UpstreamConfig.SASL (Config.Upstream cfg))))
        (Config.Listen cfg)
        (if metrics then Some (MetricsConfig.Listen (Config.Metrics cfg)) else None)
        (if AdminConfig.Enabled (Config.Admin cfg) then Some (AdminConfig.Listen (Config.Admin cfg))
         else None)).
End Load.

(** * Facts *)
Lemma orDefault_ne d s : d <> ""%string -> orDefault d s <> ""%string.
Proof. unfold orDefault. by destruct (String.eqb_spec s ""). Qed.
Lemma orDefault_id d s : s <> ""%string -> orDefault d s = s.
Proof. unfold orDefault. by destruct (String.eqb_spec s ""). Qed.
Lemma orDefault_twice d s : d <> ""%string -> orDefault d (orDefault d s) = orDefault d s.
Proof. intros H. by apply orDefault_id, orDefault_ne. Qed.
Lemma fillUpstream_twice b t : fillUpstream b (fillUpstream b t) = fillUpstream b t.
Proof.
  unfold fillUpstream. destruct (String.eqb_spec (Upstream t) "") as [E|E]; simpl.
  - by destruct (String.eqb_spec b "").
  - apply String.eqb_neq in E. by rewrite E.
Qed.
Lemma fillUpstream_ID b t : ID (fillUpstream b t) = ID t.
Proof. unfold fillUpstream. by case_match. Qed.
Lemma fillUpstream_TopicPrefix b t : TopicPrefix (fillUpstream b t) = TopicPrefix t.
Proof. unfold fillUpstream. by case_match. Qed.
Lemma fillUpstream_Upstream b t : b <> ""%string -> Upstream (fillUpstream b t) <> ""%string.
Proof. unfold fillUpstream. by destruct (String.eqb_spec (Upstream t) ""). Qed.

Definition named (t : Tenant) : Prop := ID t <> ""%string /\ TopicPrefix t <> ""%string.
Lemma validateTenants_Ok i ts : validateTenants i ts = Ok tt <-> Forall named ts.
Proof.
  revert i. induction ts as [|t ts IH]; intros i; simpl; [split; [constructor|done]|].
  rewrite list.Forall_cons, <-(IH (i + 1)%Z). unfold named.
  destruct (String.eqb_spec (ID t) ""), (String.eqb_spec (TopicPrefix t) ""); naive_solver.
Qed.
Lemma validateMemoryResolver_Ok c :
  validateMemoryResolver c = Ok tt <->
  (Memory_Tenants (Config.Resolver c) <> [] \/ AdminConfig.Enabled (Config.Admin c) = true) /\
  Forall named (Memory_Tenants (Config.Resolver c)).
Proof.
  unfold validateMemoryResolver. rewrite <-(validateTenants_Ok 0).
  destruct (AdminConfig.Enabled (Config.Admin c)); cbn [negb]; rewrite ?andb_false_r, ?andb_true_r.
  - split; [by auto|by intros [_ ?]].
  - destruct (Memory_Tenants (Config.Resolver c)) as [|t ts]; [by split; [|intros [[|] _]]|].
    rewrite len_cons. pose proof (len_nonneg ts). rewrite (proj2 (Z.eqb_neq _ 0)) by lia.
    split; [by auto|by intros [_ ?]].
Qed.

(** What [validate] checks. *)
Definition checked (c : Config.t) : Prop :=
  Config.Advertised c <> ""%string /\ UpstreamConfig.Bootstrap (Config.Upstream c) <> ""%string /\
  Type_ (Config.Resolver c) = "memory"%string /\
  (Memory_Tenants (Config.Resolver c) <> [] \/ AdminConfig.Enabled (Config.Admin c) = true) /\
  Forall named (Memory_Tenants (Config.Resolver c)) /\
  (AdminConfig.Enabled (Config.Admin c) = true ->
     exists hp, SplitHostPort (AdminConfig.Listen (Config.Admin c)) = Ok hp) /\
  (TLSConfig.Enabled (Config.TLS c) = true ->
     TLSConfig.CertFile (Config.TLS c) <> ""%string /\ TLSConfig.KeyFile (Config.TLS c) <> ""%string) /\
  let m := UpstreamSASLConfig.Mechanism (UpstreamConfig.SASL (Config.Upstream c)) in
  m = ""%string \/ IsSCRAMMechanism m = true.

Lemma validate_Ok c : validate c = Ok tt <-> checked c.
Proof.
  unfold validate, checked.
  destruct (String.eqb_spec (Config.Advertised c) ""); [naive_solver|].
  destruct (String.eqb_spec (UpstreamConfig.Bootstrap (Config.Upstream c)) ""); [naive_solver|].
  rewrite rbind_Ok. setoid_rewrite rbind_Ok.
  destruct (String.eqb_spec (Type_ (Config.Resolver c)) "memory"); [|naive_solver].
  split.
  - intros ([] & Hm & [] & Ha & H). apply validateMemoryResolver_Ok in Hm as [Hm1 Hm2].
    split_and!; try done.
    + intros Hen. rewrite Hen in Ha. apply rbind_Ok in Ha as (hp & Ha & _).
      destruct (SplitHostPort _) as [hp'|e'|]; [by eexists|done..].
    + destruct (TLSConfig.Enabled _); [|done]. intros _.
      destruct (String.eqb_spec (TLSConfig.CertFile (Config.TLS c)) ""); [done|].
      by destruct (String.eqb_spec (TLSConfig.KeyFile (Config.TLS c)) "").
    + destruct (_ && _) in H; [done|].
      destruct (String.eqb_spec (UpstreamSASLConfig.Mechanism (UpstreamConfig.SASL (Config.Upstream c))) "");
        [by left|]. right. by destruct (IsSCRAMMechanism _).
  - intros (_ & _ & _ & Hm1 & Hm2 & Ha & Ht & Hs). exists tt.
    rewrite validateMemoryResolver_Ok. split; [done|]. exists tt. split.
    + destruct (AdminConfig.Enabled _); [|done]. destruct Ha as [hp ->]; done.
    + assert (TLSConfig.Enabled (Config.TLS c) && ((TLSConfig.CertFile (Config.TLS c) =? "")%string
        || (TLSConfig.KeyFile (Config.TLS c) =? "")%string) = false) as ->.
      { destruct (TLSConfig.Enabled _); [|done]. destruct Ht as [H1%String.eqb_neq H2%String.eqb_neq]; [done|].
        by rewrite H1, H2. }
      cbv zeta in Hs. destruct Hs as [-> | ->]; [done|]. by rewrite andb_false_r.
Qed.

(** Filling in the defaults again changes nothing. *)
Lemma applyDefaults_idem c : applyDefaults (applyDefaults c) = applyDefaults c.
Proof.
  unfold applyDefaults. simpl. rewrite !orDefault_twice by done. do 2 f_equal.
  rewrite map_map. apply map_ext. apply fillUpstream_twice.
Qed.
Lemma fill_valid b ts : b <> ""%string -> Forall named ts -> Forall valid (map (fillUpstream b) ts).
Proof.
  intros Hb H. induction H as [|t ts [H1 H2] _ IH]; simpl; constructor; [|done].
  unfold valid. rewrite fillUpstream_ID, fillUpstream_TopicPrefix. auto using fillUpstream_Upstream.
Qed.
Lemma named_filled b ts : Forall named (map (fillUpstream b) ts) -> Forall named ts.
Proof.
  intros H. induction ts as [|t ts IH]; [constructor|]. simpl in H.
  apply Forall_cons_1 in H as [[H1 H2] H]. rewrite fillUpstream_ID, fillUpstream_TopicPrefix in *.
  constructor; [by split|by apply IH].
Qed.

Lemma checked_valid c0 :
  checked (applyDefaults c0) -> Forall valid (Memory_Tenants (Config.Resolver (applyDefaults c0))).
Proof.
  intros (_ & Hb & _ & _ & Hn & _). simpl in *. apply fill_valid; [done|]. by eapply named_filled.
Qed.

Section Theorems.
Context (ReadFile : string -> error + list byte).
Context (Unmarshal : list byte -> error + Config.t).
Abbreviation Load := (Load ReadFile Unmarshal).

Lemma Load_Ok path c :
  Load path = Ok c <->
  exists raw c0, ReadFile path = inr raw /\ Unmarshal raw = inr c0 /\ c = applyDefaults c0 /\ checked c.
Proof.
  unfold Config.Load. destruct (ReadFile path) as [e|raw].
  { split; [done|]. by intros (? & ? & ? & _). }
  destruct (Unmarshal raw) as [e|c0] eqn:Eu.
  { split; [done|]. intros (? & ? & [= <-] & E & _). congruence. }
  rewrite rbind_Ok. split.
  - intros ([] & H & [= <-]). exists raw, c0. split_and!; [done..|]. apply validate_Ok.
    by destruct (validate (applyDefaults c0)) as [[]| |].
  - intros (raw' & c0' & [= <-] & E & -> & Hc). rewrite Eu in E. injection E as <-.
    apply validate_Ok in Hc. rewrite Hc. by exists tt.
Qed.

(** C35: a configuration file is accepted exactly when it decodes and, once the
    defaults are filled in, names an advertised address, a bootstrap address and
    the memory resolver, has tenants with an id and a prefix (or the admin RPC to
    create some), a parsable admin address when the admin RPC is enabled, the TLS
    files when TLS is, and no upstream mechanism but the two SCRAM ones.  The
    result is complete: every default is filled in, every tenant is valid, and
    loading it again would change nothing. *)
Theorem Load_spec path c :
  Load path = Ok c <->
  exists raw c0, ReadFile path = inr raw /\ Unmarshal raw = inr c0 /\ c = applyDefaults c0 /\
    checked c /\ Forall valid (Memory_Tenants (Config.Resolver c)) /\
    applyDefaults c = c /\ Config.Listen c <> ""%string.
Proof.
  rewrite Load_Ok. split; [|naive_solver]. intros (raw & c0 & E1 & E2 & -> & Hc).
  exists raw, c0. split_and!; try done.
  - by apply checked_valid.
  - apply applyDefaults_idem.
  - by apply orDefault_ne.
Qed.

Context {Certificate : Type} (LoadX509KeyPair : string -> string -> error + Certificate).
Abbreviation start := (start ReadFile Unmarshal LoadX509KeyPair).

(** Valid tenants are only refused for a repeated id. *)
Lemma first_bad_valid ts e : Forall valid ts -> first_bad ts e -> ~ NoDup (ID <$> ts).
Proof.
  intros Hv (ts1 & t & ts2 & -> & _ & _ & [[Hn _]|(_ & Hin & _)]) Hnd.
  - apply Forall_app in Hv as [_ Hv]. by apply Forall_cons_1 in Hv as [? _].
  - rewrite fmap_app, fmap_cons in Hnd. apply list.NoDup_app in Hnd as (_ & Hd & _).
    apply (Hd (ID t) Hin). apply elem_of_cons. by left.
Qed.

(** C36: a process that starts serves from a sound store: the tenants of the file, all
    valid and with distinct ids, each under its own id; its PLAIN-to-SCRAM
    mechanism is none or a supported one, and with TLS enabled the listener has
    exactly the configured certificate and a minimum version of 1.2.  A
    configuration that loads fails to start only for two tenants with one id, or
    because the certificate cannot be loaded. *)
Theorem start_spec path c :
  Load path = Ok c ->
  let ts := Memory_Tenants (Config.Resolver c) in
  let tls := Config.TLS c in
  match start path with
  | Ok p =>
      NoDup (ID <$> ts) /\ well_formed (tenants (tenantStore p)) /\
      (forall t, tenants (tenantStore p) !! ID t = Some t <-> t ∈ ts) /\
      (UpstreamSASLMechanism (serverConfig p) = ""%string \/
       IsSCRAMMechanism (UpstreamSASLMechanism (serverConfig p)) = true) /\
      match serverTLS p with
      | None => TLSConfig.Enabled tls = false
      | Some t => TLSConfig.Enabled tls = true /\ MinVersion t = VersionTLS12 /\
                  exists cert, Certificates t = [cert] /\
                    LoadX509KeyPair (TLSConfig.CertFile tls) (TLSConfig.KeyFile tls) = inr cert
      end
  | Err _ =>
      ~ NoDup (ID <$> ts) \/
      (TLSConfig.Enabled tls = true /\
       exists e, LoadX509KeyPair (TLSConfig.CertFile tls) (TLSConfig.KeyFile tls) = inl e)
  | Panic => False
  end.
Proof.
  intros HL. pose proof HL as (raw & c0 & _ & _ & Ec & Hc)%Load_Ok.
  assert (Forall valid (Memory_Tenants (Config.Resolver c))) as Hv.
  { rewrite Ec in Hc |- *. by apply checked_valid. }
  unfold Config.start. rewrite HL. cbn [rbind]. destruct (NewLogger _ _) as [level kind]. unfold New.
  destruct Hc as (_ & _ & Hty & _ & _ & _ & _ & Hs). rewrite Hty. simpl (_ || _).
  pose proof (newMemoryResolver_spec (Memory_Tenants (Config.Resolver c))) as H.
  destruct (newMemoryResolver _) as [m|e|] eqn:Em; [|cbn [rbind]; by left; apply first_bad_valid in H|done].
  cbn [rbind]. destruct H as (_ & Hnd & _).
  unfold Build. destruct (TLSConfig.Enabled (Config.TLS c)) eqn:Et; cbn [negb].
  - destruct (LoadX509KeyPair _ _) as [e|cert] eqn:Ek; cbn [rbind]; [right; eauto|].
    cbn [tenantStore serverTLS serverConfig]. split_and!; try done.
    + by eapply newMemoryResolver_wf.
    + by apply newMemoryResolver_lookup.
    + by exists cert.
  - cbn [rbind tenantStore serverTLS serverConfig]. split_and!; try done.
    + by eapply newMemoryResolver_wf.
    + by apply newMemoryResolver_lookup.
Qed.
End Theorems.

(** ** Demonstration *)
Module DemoConfig.
(** One tenant without upstream, the admin RPC and TLS enabled. *)
Definition raw : Config.t :=
  Config.Mk "" "kroxy:9092" (TLSConfig.Mk true "server.crt" "server.key")
    (UpstreamConfig.Mk "kafka:9093" (UpstreamSASLConfig.Mk "SCRAM-SHA-256"))
    (MkConfig "" [MkTenant "tenantA" "tenantA." ""]) (LogConfig.Mk "" "")
    (MetricsConfig.Mk true "") (AdminConfig.Mk true "").
Definition ReadFile (path : string) : error + list byte := inr [].
Definition Unmarshal (b : list byte) : error + Config.t := inr raw.
Definition LoadX509KeyPair (cert key : string) : error + unit := inr tt.
End DemoConfig.

Lemma start_spec_witness :
  match start DemoConfig.ReadFile DemoConfig.Unmarshal DemoConfig.LoadX509KeyPair "config.yaml" with
  | Ok p => well_formed (tenants (tenantStore p))
  | _ => False
  end.
Proof.
  pose proof (start_spec DemoConfig.ReadFile DemoConfig.Unmarshal DemoConfig.LoadX509KeyPair
    "config.yaml" (applyDefaults DemoConfig.raw) ltac:(vm_compute; reflexivity)) as H.
  cbv zeta in H.
  assert (match start DemoConfig.ReadFile DemoConfig.Unmarshal DemoConfig.LoadX509KeyPair "config.yaml"
          with Ok _ => true | _ => false end = true) as Hb by (vm_compute; reflexivity).
  destruct (start _ _ _ _) as [p|e|]; [|discriminate Hb..]. exact (proj1 (proj2 H)).
Defined.
