(* ===== verification/Handlers.v ===== *)
(** Package [proxy], the rewrite handlers (rewrite.go, rewrite_groups.go,
    rewrite_admin.go): decode the client's request, prefix its names, run the
    round trip, strip the response and answer the client. *)
From Stdlib Require Import ZArith Lia.
From stdpp Require Import base list strings tactics.
From S2P Require Import Prelude GoStrings GoNet Protocol Kmsg RewriteMsg Resolver Upstream.
From S2P Require Import Observability Debug ProxyConn.
Local Open Scope Z_scope.

Section Handlers.
Context {X Session St : Type} (E : Env X Session St).

(** ** rewrite.go *)
Definition advertised : res (string * Z) :=
  let? (host, portStr) := rwrap "advertised" (SplitHostPort (Advertised (cfg E))) in
  let? port := rwrap "advertised" (Atoi portStr) in
  Ok (host, int32 port).

(** A typed kmsg request: its key, its version and its encoding. *)
Definition typed {Q} (key : Z) (k : Codec Q) (version : Z) (req : Q) : Request :=
  MkRequest key version (AppendTo k version req).

Definition roundTripTyped {R} (req : Request) (k : Codec R) (clientID : string) : M conn R :=
  let! body := wrap "roundTripTyped" (on_up (RoundTripRequest (AppendRequest E) req clientID)) in
  match ReadFrom k (GetVersion req) body with
  | inl err => fail (Wrap err "roundTripTyped")
  | inr resp => ret resp
  end.

Definition writeTypedResponse (hdr : RequestHeader) (AppendTo : list byte -> list byte) : M conn unit :=
  on_client (WriteFrame (EncodeResponse AppendTo (CorrelationID hdr) (APIKey hdr) (APIVersion hdr))).

(** The summaries some handlers log at the debug level, under a name. *)
Record Summaries (Q R : Type) : Type := MkSummaries {
  summaryName : string;
  summaryReq : Q -> string;
  summaryResp : R -> string
}.
(** [if c.log.Enabled(c.ctx, slog.LevelDebug) { c.log.DebugContext(...) }] *)
Definition debug (msg : string) (args : list (string * attr)) : M conn unit :=
  let! c := get in
  if Enabled LevelDebug (log c) then logs LevelDebug msg args else ret tt.
Definition debugReq {Q R} (dbg : option (Summaries Q R)) (hdr : RequestHeader) (tenantID : string) (req : Q)
    : M conn unit :=
  match dbg with
  | Some d => debug (summaryName _ _ d +:+ " -> broker")
                [("v", AInt (APIVersion hdr)); ("tenant", AStr tenantID); ("req", AStr (summaryReq _ _ d req))]
  | None => ret tt
  end.
Definition debugResp {Q R} (dbg : option (Summaries Q R)) (resp : R) : M conn unit :=
  match dbg with
  | Some d => debug (summaryName _ _ d +:+ " <- broker") [("resp", AStr (summaryResp _ _ d resp))]
  | None => ret tt
  end.

(** The shape all handlers share: [fn] names the handler in errors, [key] is the
    kmsg key of the request, [guard] the check some handlers make before sending,
    [dbg] the summaries some log, [out] the rewrite of the response, which may
    fail. *)
Definition cycle {Q R} (fn : string) (key : Z) (kq : Codec Q) (kr : Codec R)
    (rin : string -> Q -> Q) (guard : Q -> res unit) (dbg : option (Summaries Q R))
    (out : string -> R -> res R)
    (hdr : RequestHeader) (body : list byte) : M conn unit :=
  match ReadFrom kq (APIVersion hdr) body with
  | inl err => fail (Wrap err fn)
  | inr req =>
      let! c := get in
      let prefix := TopicPrefix (tenant c) in
      let req := rin prefix req in
      let! _ := lift (guard req) in
      let! _ := debugReq dbg hdr (ID (tenant c)) req in
      let! resp := wrap fn (roundTripTyped (typed key kq (APIVersion hdr) req) kr (ClientID hdr)) in
      let! _ := debugResp dbg resp in
      let! resp := lift (out prefix resp) in
      writeTypedResponse hdr (AppendTo kr (APIVersion hdr) resp)
  end.
Definition noGuard {Q} (_ : Q) : res unit := Ok tt.
Definition pure_out {R} (f : string -> R -> R) (p : string) (r : R) : res R := Ok (f p r).
Definition keep {R} (_ : string) (r : R) : R := r.
(** The rewrites that need the advertised address. *)
Definition addr_out {R} (fn : string) (f : string -> string -> Z -> R -> R) (p : string) (r : R) : res R :=
  let? (host, port) := rwrap fn advertised in Ok (f p host port r).

Definition handleMetadata (hdr : RequestHeader) (body : list byte) : M conn unit :=
  cycle "handleMetadata" MetadataKey (k_MetadataRequest _ (codecs E)) (k_MetadataResponse _ (codecs E))
    MetadataRequestIn noGuard
    (Some (MkSummaries _ _ "metadata" dbgMetadataReq (dbgMetadataResp (errorCode (debugFields E))))) (addr_out "handleMetadata" MetadataResponseOut) hdr body.

(** Produce with [Acks = 0] has no response and is refused. *)
Definition rejectAcks0 (req : ProduceRequest.t X) : res unit :=
  if ProduceRequest.Acks req =? 0
  then Err (ErrNew "handleProduce: acks=0 produce is not supported by the proxy" [])
  else Ok tt.
Definition handleProduce (hdr : RequestHeader) (body : list byte) : M conn unit :=
  cycle "handleProduce" ProduceKey (k_ProduceRequest _ (codecs E)) (k_ProduceResponse _ (codecs E))
    ProduceRequestIn rejectAcks0 None (pure_out ProduceResponseOut) hdr body.
Definition handleFetch (hdr : RequestHeader) (body : list byte) : M conn unit :=
  cycle "handleFetch" FetchKey (k_FetchRequest _ (codecs E)) (k_FetchResponse _ (codecs E))
    FetchRequestIn noGuard
    (Some (MkSummaries _ _ "fetch" (dbgFetchReq (topicID (debugFields E))) (dbgFetchResp (partitions (debugFields E))))) (pure_out FetchResponseOut) hdr body.
Definition handleListOffsets (hdr : RequestHeader) (body : list byte) : M conn unit :=
  cycle "handleListOffsets" ListOffsetsKey (k_ListOffsetsRequest _ (codecs E)) (k_ListOffsetsResponse _ (codecs E))
    ListOffsetsRequestIn noGuard
    (Some (MkSummaries _ _ "listoffsets" dbgListOffsetsReq (dbgListOffsetsResp (partitions (debugFields E))))) (pure_out ListOffsetsResponseOut) hdr body.

(** ** rewrite_groups.go *)
Definition handleFindCoordinator (hdr : RequestHeader) (body : list byte) : M conn unit :=
  cycle "handleFindCoordinator" FindCoordinatorKey (k_FindCoordinatorRequest _ (codecs E))
    (k_FindCoordinatorResponse _ (codecs E)) FindCoordinatorRequestIn noGuard None
    (addr_out "handleFindCoordinator" FindCoordinatorResponseOut) hdr body.
Definition handleOffsetCommit (hdr : RequestHeader) (body : list byte) : M conn unit :=
  cycle "handleOffsetCommit" OffsetCommitKey (k_OffsetCommitRequest _ (codecs E)) (k_OffsetCommitResponse _ (codecs E))
    OffsetCommitRequestIn noGuard None (pure_out OffsetCommitResponseOut) hdr body.
Definition handleOffsetFetch (hdr : RequestHeader) (body : list byte) : M conn unit :=
  cycle "handleOffsetFetch" OffsetFetchKey (k_OffsetFetchRequest _ (codecs E)) (k_OffsetFetchResponse _ (codecs E))
    OffsetFetchRequestIn noGuard
    (Some (MkSummaries _ _ "offsetfetch" dbgOffsetFetchReq (dbgOffsetFetchResp (errorCode (debugFields E)) (partitions (debugFields E))))) (pure_out OffsetFetchResponseOut) hdr body.
Definition handleOffsetDelete (hdr : RequestHeader) (body : list byte) : M conn unit :=
  cycle "handleOffsetDelete" OffsetDeleteKey (k_OffsetDeleteRequest _ (codecs E)) (k_OffsetDeleteResponse _ (codecs E))
    OffsetDeleteRequestIn noGuard None (pure_out OffsetDeleteResponseOut) hdr body.
Definition handleJoinGroup (hdr : RequestHeader) (body : list byte) : M conn unit :=
  cycle "handleJoinGroup" JoinGroupKey (k_JoinGroupRequest _ (codecs E)) (k_JoinGroupResponse _ (codecs E))
    (JoinGroupRequestIn (k_subscription _ (codecs E))) noGuard None (pure_out (JoinGroupResponseOut (k_subscription _ (codecs E)))) hdr body.
Definition handleSyncGroup (hdr : RequestHeader) (body : list byte) : M conn unit :=
  cycle "handleSyncGroup" SyncGroupKey (k_SyncGroupRequest _ (codecs E)) (k_SyncGroupResponse _ (codecs E))
    (SyncGroupRequestIn (k_assignment _ (codecs E))) noGuard None (pure_out (SyncGroupResponseOut (k_assignment _ (codecs E)))) hdr body.
Definition handleHeartbeat (hdr : RequestHeader) (body : list byte) : M conn unit :=
  cycle "handleHeartbeat" HeartbeatKey (k_HeartbeatRequest _ (codecs E)) (k_HeartbeatResponse _ (codecs E))
    HeartbeatRequestIn noGuard None (pure_out keep) hdr body.
Definition handleLeaveGroup (hdr : RequestHeader) (body : list byte) : M conn unit :=
  cycle "handleLeaveGroup" LeaveGroupKey (k_LeaveGroupRequest _ (codecs E)) (k_LeaveGroupResponse _ (codecs E))
    LeaveGroupRequestIn noGuard None (pure_out keep) hdr body.
Definition handleDescribeGroups (hdr : RequestHeader) (body : list byte) : M conn unit :=
  cycle "handleDescribeGroups" DescribeGroupsKey (k_DescribeGroupsRequest _ (codecs E)) (k_DescribeGroupsResponse _ (codecs E))
    DescribeGroupsRequestIn noGuard None (pure_out (DescribeGroupsResponseOut (k_subscription _ (codecs E)) (k_assignment _ (codecs E)))) hdr body.
Definition handleListGroups (hdr : RequestHeader) (body : list byte) : M conn unit :=
  cycle "handleListGroups" ListGroupsKey (k_ListGroupsRequest _ (codecs E)) (k_ListGroupsResponse _ (codecs E))
    keep noGuard None (pure_out ListGroupsResponseOut) hdr body.
Definition handleDeleteGroups (hdr : RequestHeader) (body : list byte) : M conn unit :=
  cycle "handleDeleteGroups" DeleteGroupsKey (k_DeleteGroupsRequest _ (codecs E)) (k_DeleteGroupsResponse _ (codecs E))
    DeleteGroupsRequestIn noGuard None (pure_out DeleteGroupsResponseOut) hdr body.
Definition handleInitProducerID (hdr : RequestHeader) (body : list byte) : M conn unit :=
  cycle "handleInitProducerID" InitProducerIDKey (k_InitProducerIDRequest _ (codecs E)) (k_InitProducerIDResponse _ (codecs E))
    InitProducerIDRequestIn noGuard None (pure_out keep) hdr body.
Definition handleAddPartitionsToTxn (hdr : RequestHeader) (body : list byte) : M conn unit :=
  cycle "handleAddPartitionsToTxn" AddPartitionsToTxnKey (k_AddPartitionsToTxnRequest _ (codecs E)) (k_AddPartitionsToTxnResponse _ (codecs E))
    AddPartitionsToTxnRequestIn noGuard None (pure_out AddPartitionsToTxnResponseOut) hdr body.
Definition handleAddOffsetsToTxn (hdr : RequestHeader) (body : list byte) : M conn unit :=
  cycle "handleAddOffsetsToTxn" AddOffsetsToTxnKey (k_AddOffsetsToTxnRequest _ (codecs E)) (k_AddOffsetsToTxnResponse _ (codecs E))
    AddOffsetsToTxnRequestIn noGuard None (pure_out keep) hdr body.
Definition handleEndTxn (hdr : RequestHeader) (body : list byte) : M conn unit :=
  cycle "handleEndTxn" EndTxnKey (k_EndTxnRequest _ (codecs E)) (k_EndTxnResponse _ (codecs E))
    EndTxnRequestIn noGuard None (pure_out keep) hdr body.
Definition handleTxnOffsetCommit (hdr : RequestHeader) (body : list byte) : M conn unit :=
  cycle "handleTxnOffsetCommit" TxnOffsetCommitKey (k_TxnOffsetCommitRequest _ (codecs E)) (k_TxnOffsetCommitResponse _ (codecs E))
    TxnOffsetCommitRequestIn noGuard None (pure_out TxnOffsetCommitResponseOut) hdr body.

(** ** rewrite_admin.go *)
Definition handleCreateTopics (hdr : RequestHeader) (body : list byte) : M conn unit :=
  cycle "handleCreateTopics" CreateTopicsKey (k_CreateTopicsRequest _ (codecs E)) (k_CreateTopicsResponse _ (codecs E))
    CreateTopicsRequestIn noGuard None (pure_out CreateTopicsResponseOut) hdr body.
Definition handleDeleteTopics (hdr : RequestHeader) (body : list byte) : M conn unit :=
  cycle "handleDeleteTopics" DeleteTopicsKey (k_DeleteTopicsRequest _ (codecs E)) (k_DeleteTopicsResponse _ (codecs E))
    DeleteTopicsRequestIn noGuard None (pure_out DeleteTopicsResponseOut) hdr body.
Definition handleDescribeConfigs (hdr : RequestHeader) (body : list byte) : M conn unit :=
  cycle "handleDescribeConfigs" DescribeConfigsKey (k_DescribeConfigsRequest _ (codecs E)) (k_DescribeConfigsResponse _ (codecs E))
    DescribeConfigsRequestIn noGuard None (pure_out DescribeConfigsResponseOut) hdr body.
End Handlers.

(** * Computations that only log *)
Definition only_logs (m : M conn unit) : Prop := forall c, exists lg, m c = (Ok tt, set_log lg c).
Lemma set_log_log c : set_log (log c) c = c.
Proof. by destruct c. Qed.
Lemma logs_only l msg args : only_logs (logs l msg args).
Proof. intros c. by eexists. Qed.
Lemma debug_only msg args : only_logs (debug msg args).
Proof.
  intros c. unfold debug, bind, get. destruct (Enabled LevelDebug (log c)); [apply logs_only|].
  exists (log c). by rewrite set_log_log.
Qed.
Lemma debugReq_only {Q R} (dbg : option (Summaries Q R)) hdr id req : only_logs (debugReq dbg hdr id req).
Proof.
  destruct dbg as [d|]; [apply debug_only|]. intros c. exists (log c). by rewrite set_log_log.
Qed.
Lemma debugResp_only {Q R} (dbg : option (Summaries Q R)) resp : only_logs (debugResp dbg resp).
Proof.
  destruct dbg as [d|]; [apply debug_only|]. intros c. exists (log c). by rewrite set_log_log.
Qed.
Lemma only_logs_preserves (R : conn -> conn -> Prop) m :
  only_logs m -> (forall c lg, R c (set_log lg c)) -> preserves R m.
Proof. intros Hm HR c. destruct (Hm c) as [lg E]. rewrite E. apply HR. Qed.
#[export] Hint Resolve logs_only debug_only debugReq_only debugResp_only : kroxy.
