(* ===== verification/Serve.v ===== *)
(** Package [proxy], the dispatch of requests and the per-connection loop
    (conn.go), and [Server.handle] (listener.go), which runs it. *)
From Stdlib Require Import ZArith Lia.
From stdpp Require Import base list strings tactics.
From S2P Require Import Prelude GoStrings GoNet Protocol Kmsg Resolver Upstream Observability.
From S2P Require Import ProxyConn Handlers.
Local Open Scope Z_scope.

Definition Minute : Z := 60 * Second.
Definition clientIdleTimeout : Z := 10 * Minute.
Definition clientHandshakeTimeout : Z := 30 * Second.

Section Serve.
Context {X Session St : Type} (E : Env X Session St).

(** [rewriteHandler]; [None] is the nil function. *)
Definition rewriteHandler (apiKey : Z) : option (RequestHeader -> list byte -> M conn unit) :=
  if apiKey =? MetadataKey then Some (handleMetadata E)
  else if apiKey =? ProduceKey then Some (handleProduce E)
  else if apiKey =? FetchKey then Some (handleFetch E)
  else if apiKey =? ListOffsetsKey then Some (handleListOffsets E)
  else if apiKey =? FindCoordinatorKey then Some (handleFindCoordinator E)
  else if apiKey =? OffsetCommitKey then Some (handleOffsetCommit E)
  else if apiKey =? OffsetFetchKey then Some (handleOffsetFetch E)
  else if apiKey =? OffsetDeleteKey then Some (handleOffsetDelete E)
  else if apiKey =? JoinGroupKey then Some (handleJoinGroup E)
  else if apiKey =? SyncGroupKey then Some (handleSyncGroup E)
  else if apiKey =? HeartbeatKey then Some (handleHeartbeat E)
  else if apiKey =? LeaveGroupKey then Some (handleLeaveGroup E)
  else if apiKey =? DescribeGroupsKey then Some (handleDescribeGroups E)
  else if apiKey =? ListGroupsKey then Some (handleListGroups E)
  else if apiKey =? DeleteGroupsKey then Some (handleDeleteGroups E)
  else if apiKey =? InitProducerIDKey then Some (handleInitProducerID E)
  else if apiKey =? AddPartitionsToTxnKey then Some (handleAddPartitionsToTxn E)
  else if apiKey =? AddOffsetsToTxnKey then Some (handleAddOffsetsToTxn E)
  else if apiKey =? EndTxnKey then Some (handleEndTxn E)
  else if apiKey =? TxnOffsetCommitKey then Some (handleTxnOffsetCommit E)
  else if apiKey =? CreateTopicsKey then Some (handleCreateTopics E)
  else if apiKey =? DeleteTopicsKey then Some (handleDeleteTopics E)
  else if apiKey =? DescribeConfigsKey then Some (handleDescribeConfigs E)
  else None.

Definition forwardRewritten (hdr : RequestHeader) (body : list byte) : M conn unit :=
  let! _ := wrap "forwardRewritten" (ensureUpstream E) in
  match rewriteHandler (APIKey hdr) with
  | Some h => h hdr body
  | None => panic
  end.

Definition forwardPassthrough (hdr : RequestHeader) (frame : list byte) : M conn unit :=
  let! _ := wrap "forwardPassthrough" (ensureUpstream E) in
  let! respFrame := wrap "forwardPassthrough"
    (on_up (RoundTrip frame (CorrelationID hdr) (HeaderVersion hdr)
              (ResponseHeaderVersion (APIKey hdr) (APIVersion hdr)))) in
  on_client (WriteFrame respFrame).

Definition dispatch (hdr : RequestHeader) (frame body : list byte) : M conn unit :=
  if APIKey hdr =? ApiVersionsKey then handleApiVersions E hdr body
  else if APIKey hdr =? SaslHandshakeKey then handleSaslHandshake E hdr body
  else if APIKey hdr =? SaslAuthenticateKey then handleSaslAuthenticate E hdr body
  else
    let! c := get in
    if decide (state c <> stateAuthenticated)
    then let! _ := logs LevelWarn "request before auth" [("api_key", AInt (APIKey hdr))] in
         fail (ErrNew "client sent api key %d before authentication" [FInt (APIKey hdr)])
    else match rewriteHandler (APIKey hdr) with
         | Some _ => forwardRewritten hdr body
         | None => forwardPassthrough hdr frame
         end.

(** [c.ctx.Err()]; once the script is exhausted the context is never cancelled. *)
Definition ctxErr : M conn (option sentinel) :=
  fun c => (Ok (hd None (ctx c)), set_ctx (tl (ctx c)) c).

(** The part of an iteration that follows a successful read. *)
Definition serveFrame (frame : list byte) : M conn unit :=
  let! _ := wrap "serve" (on_client (SetDeadline None)) in
  let! hdr := wrap "serve" (lift (ParseRequestHeader frame)) in
  let! body := lift (slice_from frame (HeaderSize hdr)) in
  let! r := attempt (dispatch hdr frame body) in
  let! c := get in
  let tenantLabel := if (ID (tenant c) =? "")%string then "_unauth"%string else ID (tenant c) in
  let! _ := meter (ObserveRequest (APIKey hdr) tenantLabel) in
  match r with
  | inl err => fail (Wrap err "serve")
  | inr _ => ret tt
  end.

(** The read timeout of the next request. *)
Definition readTimeout (st : connState) : Z :=
  if decide (st <> stateAuthenticated) then clientHandshakeTimeout else clientIdleTimeout.

(** One iteration of the loop of [serve]; it returns [Ok] to go on. *)
Definition serveStep : M conn unit :=
  let! e := ctxErr in
  match e with
  | Some err => fail (ErrSent err)
  | None =>
      let! c := get in
      let! _ := wrap "serve" (on_client (SetDeadline (Some (readTimeout (state c))))) in
      let! f := attempt (on_client ReadFrame) in
      match f with
      | inl err => if Is err EOF then fail (ErrSent errClientClosed) else fail (Wrap err "serve")
      | inr frame => serveFrame frame
      end
  end.

(** The loop.  An iteration that goes on has read a frame, so the bytes the
    client is going to send bound the number of iterations. *)
Fixpoint serveLoop (fuel : nat) : M conn unit :=
  match fuel with
  | O => fail (ErrNew "serve: fuel" [])
  | S fuel => let! _ := serveStep in serveLoop fuel
  end.
Definition serve : M conn unit :=
  fun c => serveLoop (S (length (rx (client c)))) c.

(** [Server.handle] on the connection [newConn] made, whose logger has the client's
    address: count the connection, serve it, log how it ended, close both
    sockets. *)
Definition handle (c : conn) : res unit * conn :=
  let c := set_metrics (incConnections <$> metrics c) c in
  let '(r, c) := serve c in
  let c := match r with
           | Err err =>
               if Is err errClientClosed then c
               else set_log (Log LevelWarn "connection terminated" [("err", AErr err)] (log c)) c
           | _ => c
           end in
  let c := set_metrics (decActive <$> metrics c) c in
  (r, close c).
End Serve.
