(* ===== verification/Messages.v ===== *)
(** The messages of the rewritten APIs and their codecs: which codec decodes the
    request of an API key, which the response to it, and that every rewrite
    handler is the common [cycle] for the messages of its key. *)
From Stdlib Require Import ZArith Lia.
From stdpp Require Import base list strings tactics.
From S2P Require Import Prelude GoNet Protocol Kmsg RewriteMsg RewriteFacts Resolver Upstream.
From S2P Require Import Debug ProxyConn Handlers Serve.
Local Open Scope Z_scope.

Section Messages.
Context {X Session St : Type} (E : Env X Session St).
Abbreviation K := (codecs E).
Abbreviation subscription := (k_subscription _ K).
Abbreviation assignment := (k_assignment _ K).

(** The kmsg request of a decoded message. *)
Definition encode (version : Z) (q : KRequest (X:=X)) : Request :=
  let k := codecs E in
  match q with
  | QMetadata r => typed MetadataKey (k_MetadataRequest _ k) version r
  | QProduce r => typed ProduceKey (k_ProduceRequest _ k) version r
  | QFetch r => typed FetchKey (k_FetchRequest _ k) version r
  | QListOffsets r => typed ListOffsetsKey (k_ListOffsetsRequest _ k) version r
  | QFindCoordinator r => typed FindCoordinatorKey (k_FindCoordinatorRequest _ k) version r
  | QOffsetCommit r => typed OffsetCommitKey (k_OffsetCommitRequest _ k) version r
  | QOffsetFetch r => typed OffsetFetchKey (k_OffsetFetchRequest _ k) version r
  | QOffsetDelete r => typed OffsetDeleteKey (k_OffsetDeleteRequest _ k) version r
  | QJoinGroup r => typed JoinGroupKey (k_JoinGroupRequest _ k) version r
  | QSyncGroup r => typed SyncGroupKey (k_SyncGroupRequest _ k) version r
  | QHeartbeat r => typed HeartbeatKey (k_HeartbeatRequest _ k) version r
  | QLeaveGroup r => typed LeaveGroupKey (k_LeaveGroupRequest _ k) version r
  | QDescribeGroups r => typed DescribeGroupsKey (k_DescribeGroupsRequest _ k) version r
  | QListGroups r => typed ListGroupsKey (k_ListGroupsRequest _ k) version r
  | QDeleteGroups r => typed DeleteGroupsKey (k_DeleteGroupsRequest _ k) version r
  | QInitProducerID r => typed InitProducerIDKey (k_InitProducerIDRequest _ k) version r
  | QAddPartitionsToTxn r => typed AddPartitionsToTxnKey (k_AddPartitionsToTxnRequest _ k) version r
  | QAddOffsetsToTxn r => typed AddOffsetsToTxnKey (k_AddOffsetsToTxnRequest _ k) version r
  | QEndTxn r => typed EndTxnKey (k_EndTxnRequest _ k) version r
  | QTxnOffsetCommit r => typed TxnOffsetCommitKey (k_TxnOffsetCommitRequest _ k) version r
  | QCreateTopics r => typed CreateTopicsKey (k_CreateTopicsRequest _ k) version r
  | QDeleteTopics r => typed DeleteTopicsKey (k_DeleteTopicsRequest _ k) version r
  | QDescribeConfigs r => typed DescribeConfigsKey (k_DescribeConfigsRequest _ k) version r
  end.

(** What [f] makes of the key, the codec and the message of a request. *)
Definition with_request {B} (f : forall Q, Z -> Codec Q -> Q -> B) (q : KRequest (X:=X)) : B :=
  match q with
  | QMetadata r => f _ MetadataKey (k_MetadataRequest _ K) r
  | QProduce r => f _ ProduceKey (k_ProduceRequest _ K) r
  | QFetch r => f _ FetchKey (k_FetchRequest _ K) r
  | QListOffsets r => f _ ListOffsetsKey (k_ListOffsetsRequest _ K) r
  | QFindCoordinator r => f _ FindCoordinatorKey (k_FindCoordinatorRequest _ K) r
  | QOffsetCommit r => f _ OffsetCommitKey (k_OffsetCommitRequest _ K) r
  | QOffsetFetch r => f _ OffsetFetchKey (k_OffsetFetchRequest _ K) r
  | QOffsetDelete r => f _ OffsetDeleteKey (k_OffsetDeleteRequest _ K) r
  | QJoinGroup r => f _ JoinGroupKey (k_JoinGroupRequest _ K) r
  | QSyncGroup r => f _ SyncGroupKey (k_SyncGroupRequest _ K) r
  | QHeartbeat r => f _ HeartbeatKey (k_HeartbeatRequest _ K) r
  | QLeaveGroup r => f _ LeaveGroupKey (k_LeaveGroupRequest _ K) r
  | QDescribeGroups r => f _ DescribeGroupsKey (k_DescribeGroupsRequest _ K) r
  | QListGroups r => f _ ListGroupsKey (k_ListGroupsRequest _ K) r
  | QDeleteGroups r => f _ DeleteGroupsKey (k_DeleteGroupsRequest _ K) r
  | QInitProducerID r => f _ InitProducerIDKey (k_InitProducerIDRequest _ K) r
  | QAddPartitionsToTxn r => f _ AddPartitionsToTxnKey (k_AddPartitionsToTxnRequest _ K) r
  | QAddOffsetsToTxn r => f _ AddOffsetsToTxnKey (k_AddOffsetsToTxnRequest _ K) r
  | QEndTxn r => f _ EndTxnKey (k_EndTxnRequest _ K) r
  | QTxnOffsetCommit r => f _ TxnOffsetCommitKey (k_TxnOffsetCommitRequest _ K) r
  | QCreateTopics r => f _ CreateTopicsKey (k_CreateTopicsRequest _ K) r
  | QDeleteTopics r => f _ DeleteTopicsKey (k_DeleteTopicsRequest _ K) r
  | QDescribeConfigs r => f _ DescribeConfigsKey (k_DescribeConfigsRequest _ K) r
  end.
(** What [f] makes of the codec and the message of the response to a request;
    [None] when the response is of another API. *)
Definition with_response {B} (f : forall R, Codec R -> R -> B) (q : KRequest (X:=X)) (s : KResponse (X:=X))
    : option B :=
  match q, s with
  | QMetadata _, SMetadata r => Some (f _ (k_MetadataResponse _ K) r)
  | QProduce _, SProduce r => Some (f _ (k_ProduceResponse _ K) r)
  | QFetch _, SFetch r => Some (f _ (k_FetchResponse _ K) r)
  | QListOffsets _, SListOffsets r => Some (f _ (k_ListOffsetsResponse _ K) r)
  | QFindCoordinator _, SFindCoordinator r => Some (f _ (k_FindCoordinatorResponse _ K) r)
  | QOffsetCommit _, SOffsetCommit r => Some (f _ (k_OffsetCommitResponse _ K) r)
  | QOffsetFetch _, SOffsetFetch r => Some (f _ (k_OffsetFetchResponse _ K) r)
  | QOffsetDelete _, SOffsetDelete r => Some (f _ (k_OffsetDeleteResponse _ K) r)
  | QJoinGroup _, SJoinGroup r => Some (f _ (k_JoinGroupResponse _ K) r)
  | QSyncGroup _, SSyncGroup r => Some (f _ (k_SyncGroupResponse _ K) r)
  | QHeartbeat _, SUntouched r => Some (f _ (k_HeartbeatResponse _ K) r)
  | QLeaveGroup _, SUntouched r => Some (f _ (k_LeaveGroupResponse _ K) r)
  | QDescribeGroups _, SDescribeGroups r => Some (f _ (k_DescribeGroupsResponse _ K) r)
  | QListGroups _, SListGroups r => Some (f _ (k_ListGroupsResponse _ K) r)
  | QDeleteGroups _, SDeleteGroups r => Some (f _ (k_DeleteGroupsResponse _ K) r)
  | QInitProducerID _, SUntouched r => Some (f _ (k_InitProducerIDResponse _ K) r)
  | QAddPartitionsToTxn _, SAddPartitionsToTxn r => Some (f _ (k_AddPartitionsToTxnResponse _ K) r)
  | QAddOffsetsToTxn _, SUntouched r => Some (f _ (k_AddOffsetsToTxnResponse _ K) r)
  | QEndTxn _, SUntouched r => Some (f _ (k_EndTxnResponse _ K) r)
  | QTxnOffsetCommit _, STxnOffsetCommit r => Some (f _ (k_TxnOffsetCommitResponse _ K) r)
  | QCreateTopics _, SCreateTopics r => Some (f _ (k_CreateTopicsResponse _ K) r)
  | QDeleteTopics _, SDeleteTopics r => Some (f _ (k_DeleteTopicsResponse _ K) r)
  | QDescribeConfigs _, SDescribeConfigs r => Some (f _ (k_DescribeConfigsResponse _ K) r)
  | _, _ => None
  end.
(** The API key of a request, its decoding with that API's codec, and the decoding and
    encoding of a response with the codec of the request's API. *)
Definition requestKey : KRequest -> Z := with_request (fun _ key _ _ => key).
Definition requested (version : Z) (body : list byte) : KRequest -> Prop :=
  with_request (fun _ _ k r => ReadFrom k version body = inr r).
Definition responded (version : Z) (body : list byte) (q : KRequest) (s : KResponse) : Prop :=
  default False (with_response (fun _ k r => ReadFrom k version body = inr r) q s).
Definition appended (version : Z) (q : KRequest) (s : KResponse) : list byte -> list byte :=
  default id (with_response (fun _ k r => AppendTo k version r) q s).

(** The responses that name brokers, whose addresses are replaced. *)
Definition addressed (s : KResponse (X:=X)) : bool :=
  match s with SMetadata _ | SFindCoordinator _ => true | _ => false end.

(** The APIs kroxy answers itself. *)
Definition own_key (key : Z) : Prop :=
  key = ApiVersionsKey \/ key = SaslHandshakeKey \/ key = SaslAuthenticateKey.

(** The body of a frame with the header [h]. *)
Definition bodyOf (f : list byte) (h : RequestHeader) : list byte := drop (Z.to_nat (HeaderSize h)) f.

(** * The handlers *)

(** [cycle] for the API of [key]: its requests are of kind [C], the responses to them of
    kind [D]; they are decoded with the codecs of the API, the request is
    rewritten by [RequestIn], the response by [ResponseOut]. *)
Record handles {Q R : Type} (key : Z) (kq : Codec Q) (kr : Codec R) (rin : string -> Q -> Q)
    (out : string -> R -> res R) (C : Q -> KRequest (X:=X)) (D : R -> KResponse (X:=X)) : Prop := MkHandles {
  h_key r : requestKey (C r) = key;
  h_requested version body r : ReadFrom kq version body = inr r -> requested version body (C r);
  h_encode version p r : typed key kq version (rin p r) = encode version (RequestIn subscription assignment p (C r));
  h_responded version body q r : ReadFrom kr version body = inr r -> responded version body (C q) (D r);
  h_out version p q r r' : out p r = Ok r' ->
    exists host port, (addressed (D r) = true -> advertised E = Ok (host, port)) /\
      AppendTo kr version r' = appended version (C q) (ResponseOut subscription assignment p host port (D r))
}.

Lemma handles_pure {Q R} key kq (kr : Codec R) (rin : string -> Q -> Q) f C D :
  (forall r, requestKey (C r) = key) ->
  (forall version body r, ReadFrom kq version body = inr r -> requested version body (C r)) ->
  (forall version p r, typed key kq version (rin p r) = encode version (RequestIn subscription assignment p (C r))) ->
  (forall version body q r, ReadFrom kr version body = inr r -> responded version body (C q) (D r)) ->
  (forall version p q r, AppendTo kr version (f p r) =
     appended version (C q) (ResponseOut subscription assignment p "" 0 (D r))) ->
  (forall r, addressed (D r) = false) ->
  handles key kq kr rin (pure_out f) C D.
Proof.
  intros H1 H2 H3 H4 H5 H6. split; [done..|]. intros version p q r r' [= <-]. exists "", 0.
  split; [by rewrite H6|done].
Qed.
Lemma handles_addr {Q R} key kq (kr : Codec R) (rin : string -> Q -> Q) fn f C D :
  (forall r, requestKey (C r) = key) ->
  (forall version body r, ReadFrom kq version body = inr r -> requested version body (C r)) ->
  (forall version p r, typed key kq version (rin p r) = encode version (RequestIn subscription assignment p (C r))) ->
  (forall version body q r, ReadFrom kr version body = inr r -> responded version body (C q) (D r)) ->
  (forall version p q r host port, AppendTo kr version (f p host port r) =
     appended version (C q) (ResponseOut subscription assignment p host port (D r))) ->
  handles key kq kr rin (addr_out E fn f) C D.
Proof.
  intros H1 H2 H3 H4 H5. split; [done..|]. intros version p q r r' Ho. unfold addr_out in Ho.
  destruct (advertised E) as [[host port]|e|]; [|done..]. injection Ho as <-. exists host, port. done.
Qed.

(** Every rewrite handler is the [cycle] of its API. *)
Tactic Notation "of_kinds" uconstr(C) uconstr(D) :=
  eexists _, _, _, _, _, _, _, _, _, C, D; split; [intros; reflexivity|];
  first [apply handles_pure; try (intros; assumption); reflexivity
        |apply handles_addr; try (intros; assumption); reflexivity].
Lemma rewriteHandler_cycle key h :
  rewriteHandler E key = Some h ->
  exists Q R fn kq kr rin guard dbg out (C : Q -> KRequest) (D : R -> KResponse),
    (forall hdr body, h hdr body = cycle E fn key kq kr rin guard dbg out hdr body) /\
    handles key kq kr rin out C D.
Proof.
  unfold rewriteHandler. intros H.
  repeat match type of H with (if ?b then _ else _) = _ =>
    let Hk := fresh "Hk" in destruct b eqn:Hk; [apply Z.eqb_eq in Hk as ->|clear Hk] end; [..|done];
  injection H as <-;
  [of_kinds QMetadata SMetadata|of_kinds QProduce SProduce|of_kinds QFetch SFetch|
   of_kinds QListOffsets SListOffsets|of_kinds QFindCoordinator SFindCoordinator|
   of_kinds QOffsetCommit SOffsetCommit|of_kinds QOffsetFetch SOffsetFetch|
   of_kinds QOffsetDelete SOffsetDelete|of_kinds QJoinGroup SJoinGroup|of_kinds QSyncGroup SSyncGroup|
   of_kinds QHeartbeat SUntouched|of_kinds QLeaveGroup SUntouched|of_kinds QDescribeGroups SDescribeGroups|
   of_kinds QListGroups SListGroups|of_kinds QDeleteGroups SDeleteGroups|of_kinds QInitProducerID SUntouched|
   of_kinds QAddPartitionsToTxn SAddPartitionsToTxn|of_kinds QAddOffsetsToTxn SUntouched|
   of_kinds QEndTxn SUntouched|of_kinds QTxnOffsetCommit STxnOffsetCommit|
   of_kinds QCreateTopics SCreateTopics|of_kinds QDeleteTopics SDeleteTopics|
   of_kinds QDescribeConfigs SDescribeConfigs].
Qed.
End Messages.
