(* ===== verification/Writes.v ===== *)
(** What the operations of the network, of the protocol and of the upstream
    connection put on the wire: every write is one of a set [W] closed under
    prefixes (a failing write sends a prefix). *)
From Stdlib Require Import ZArith Lia.
From stdpp Require Import base list strings tactics.
From S2P Require Import Prelude GoNet Protocol ProtocolFacts Kmsg Auth Upstream UpstreamFacts.
Local Open Scope Z_scope.

(** A state predicate kept by every outcome of a computation. *)
Definition keeps {S A} (I : S -> Prop) (m : M S A) : Prop := preserves (fun s s' => I s -> I s') m.
#[global] Instance keeps_preorder {S} (I : S -> Prop) : PreOrder (fun s s' : S => I s -> I s').
Proof. split; [by intros s|]. intros s1 s2 s3 H1 H2 H. auto. Qed.

Section Net.
Context (W : list byte -> Prop).

Definition writesN (n n' : NetConn) : Prop := exists ws, tx n' = tx n ++ ws /\ Forall W ws.
#[global] Instance writesN_preorder : PreOrder writesN.
Proof.
  split.
  - intros n. exists []. by rewrite app_nil_r.
  - intros n1 n2 n3 (w1 & H1 & F1) (w2 & H2 & F2). exists (w1 ++ w2).
    rewrite H2, H1, app_assoc. split; [done|]. by apply Forall_app.
Qed.

Lemma same_tx n n' : tx n' = tx n -> writesN n n'.
Proof. intros E. exists []. by rewrite app_nil_r. Qed.
Lemma Write_writes b : (forall k, W (take k b)) -> preserves writesN (Write b).
Proof.
  intros HW n. destruct (Write_spec b n) as (k & Ht & _). exists [take k b]. split; [done|].
  by apply Forall_singleton.
Qed.
Lemma SetDeadline_writes d : preserves writesN (SetDeadline d).
Proof. intros n. apply same_tx. by destruct (SetDeadline_spec d n) as (-> & _). Qed.
Lemma ReadFrame_writes : preserves writesN ReadFrame.
Proof. intros n. apply same_tx, ReadFrame_tx. Qed.
Lemma WriteFrame_writes body :
  (forall k, W (take k (be_encode 4 (uint32 (len body))))) -> (forall k, W (take k body)) ->
  preserves writesN (WriteFrame body).
Proof.
  intros H1 H2. unfold WriteFrame. apply preserves_bind; [apply _| |intros _];
    apply preserves_wrap, Write_writes; done.
Qed.

(** ** The upstream connection *)
Definition writesC (c c' : Conn) : Prop := writesN (nc c) (nc c') /\ reqTO c' = reqTO c.
#[global] Instance writesC_preorder : PreOrder writesC.
Proof.
  split; [intros c; split; [reflexivity|done]|].
  intros c1 c2 c3 [H1 E1] [H2 E2]. split; [by etrans|congruence].
Qed.
Lemma on_nc_writes {A} (m : M NetConn A) : preserves writesN m -> preserves writesC (on_nc m).
Proof.
  intros H c. unfold on_nc, zoom. specialize (H (nc c)). by destruct (m (nc c)) as [r n].
Qed.
Lemma nextCorrelationID_writes : preserves writesC nextCorrelationID.
Proof. intros c. simpl. split; [reflexivity|done]. Qed.
End Net.
#[export] Hint Resolve Write_writes SetDeadline_writes ReadFrame_writes on_nc_writes
  nextCorrelationID_writes : kroxy.

Section Ops.
Context (W : list byte -> Prop).
Context (AppendRequest : string -> Request -> Z -> list byte).
Context (hsReq : Codec SASLHandshakeRequest.t) (hsResp : Codec SASLHandshakeResponse.t).
Context (authReq : Codec SASLAuthenticateRequest.t) (authResp : Codec SASLAuthenticateResponse.t).
Context (avReq : Request).

Lemma readResponse_writes fn cid k v : preserves (writesC W) (readResponse fn cid k v).
Proof. unfold readResponse. walk. Qed.
Lemma applyRequestDeadline_writes : preserves (writesC W) applyRequestDeadline.
Proof. unfold applyRequestDeadline. walk. Qed.
#[local] Hint Resolve readResponse_writes applyRequestDeadline_writes : kroxy.

Lemma RoundTripRequest_writes req id :
  (forall cid k, W (take k (AppendRequest id req cid))) ->
  preserves (writesC W) (RoundTripRequest AppendRequest req id).
Proof. intros HW. unfold RoundTripRequest. walk. Qed.
Lemma RoundTrip_writes frame cid hv rhv :
  (forall k, W (take k (be_encode 4 (uint32 (len frame))))) ->
  (forall id k, W (take k (putUint32 frame 4 id))) ->
  preserves (writesC W) (RoundTrip frame cid hv rhv).
Proof.
  intros H1 H2. unfold RoundTrip. destruct (len frame <? 8) eqn:E8; [walk|]. apply Z.ltb_ge in E8.
  apply preserves_bind; [apply _|eauto with kroxy|]. intros id.
  apply preserves_bind; [apply _|eauto with kroxy|]. intros _.
  apply preserves_bind; [apply _| |intros; walk].
  apply preserves_wrap, on_nc_writes, WriteFrame_writes; [|done].
  intros k. unfold len. replace (length (putUint32 frame 4 id)) with (length frame); [apply H1|].
  unfold putUint32, len in *. rewrite !length_app, be_encode_length, length_take, length_drop. lia.
Qed.

(** ** Kroxy's own requests *)
Context (Hown : forall req cid k,
  req = avReq \/ (exists m, req = handshakeRequest hsReq m) \/
  (exists p, req = authenticateRequest authReq p) -> W (take k (AppendRequest "kroxy" req cid))).

Lemma directRoundTrip_writes req k v :
  req = avReq \/ (exists m, req = handshakeRequest hsReq m) \/
  (exists p, req = authenticateRequest authReq p) ->
  preserves (writesC W) (directRoundTrip AppendRequest req k v).
Proof. intros Hr. unfold directRoundTrip. walk. Qed.
Lemma apiVersions_writes : preserves (writesC W) (apiVersions AppendRequest avReq).
Proof.
  unfold apiVersions. apply preserves_bind; [apply _| |eauto with kroxy typeclass_instances].
  apply preserves_wrap, directRoundTrip_writes. auto.
Qed.
Lemma saslHandshake_writes m : preserves (writesC W) (saslHandshake AppendRequest hsReq hsResp m).
Proof.
  unfold saslHandshake. apply preserves_bind; [apply _| |intros; walk].
  apply preserves_wrap, directRoundTrip_writes. eauto.
Qed.
Lemma plainAuthenticate_writes u p :
  preserves (writesC W) (plainAuthenticate AppendRequest authReq authResp u p).
Proof.
  unfold plainAuthenticate. apply preserves_bind; [apply _| |intros; walk].
  apply preserves_wrap, directRoundTrip_writes. eauto.
Qed.
Lemma RelaySASLAuthenticate_writes payload :
  preserves (writesC W) (RelaySASLAuthenticate AppendRequest authReq authResp payload).
Proof.
  unfold RelaySASLAuthenticate. apply preserves_bind; [apply _|eauto with kroxy|]. intros _.
  apply preserves_bind; [apply _| |intros; walk].
  apply preserves_wrap, directRoundTrip_writes. eauto.
Qed.
#[local] Hint Resolve apiVersions_writes saslHandshake_writes plainAuthenticate_writes
  RelaySASLAuthenticate_writes : kroxy.

Context {Session : Type}.
Context (Authenticate : string -> string -> string -> error + Session * list byte).
Context (Challenge : Session -> list byte -> error + bool * list byte * Session).

Lemma scramLoop_writes fuel session msg :
  preserves (writesC W) (scramLoop AppendRequest authReq authResp Challenge fuel session msg).
Proof.
  revert session msg. induction fuel as [|fuel IH]; intros session msg; simpl; walk.
Qed.
#[local] Hint Resolve scramLoop_writes : kroxy.
Lemma scramAuthenticate_writes m u p :
  preserves (writesC W) (scramAuthenticate AppendRequest authReq authResp Authenticate Challenge m u p).
Proof. unfold scramAuthenticate. walk. Qed.

(** ** Dialling: the connection being set up has only written [W]. *)
Definition onlyW (s : option Conn) : Prop :=
  match s with
  | None => True
  | Some c => Forall W (tx (nc c)) /\ reqTO c = DefaultRequestTimeout
  end.

Lemma on_conn_only {A} (m : M Conn A) : preserves (writesC W) m -> keeps onlyW (on_conn m).
Proof.
  intros Hm [c|] Hs; [|done]. simpl. destruct Hs as [Hw Ht]. specialize (Hm c).
  destruct (m c) as [r c']. simpl in *. destruct Hm as [(ws & E & F) Ht']. split; [|congruence].
  rewrite E. by apply Forall_app.
Qed.
Lemma closing_only {A} (m : M (option Conn) A) : keeps onlyW m -> keeps onlyW (closing m).
Proof.
  intros Hm. apply preserves_on_err; [apply _|done|]. intros [c|] H; [|done]. exact H.
Qed.

Definition freshDial (d : error + NetConn) : Prop :=
  match d with inl _ => True | inr n => tx n = [] end.

Lemma dialAndNegotiate_only d mech :
  freshDial d -> keeps onlyW (dialAndNegotiate AppendRequest hsReq hsResp avReq d mech).
Proof.
  intros Hd. unfold dialAndNegotiate. destruct d as [e|n]; [apply preserves_fail; apply _|].
  apply preserves_bind; [apply _| |intros _].
  { intros s _. simpl in *. by rewrite Hd. }
  apply preserves_bind; [apply _| |intros _; apply preserves_bind; [apply _| |intros _]];
    apply closing_only, preserves_wrap, on_conn_only; eauto with kroxy.
Qed.
Lemma Dial_only d u p :
  freshDial d -> keeps onlyW (Dial AppendRequest hsReq hsResp authReq authResp avReq d u p).
Proof.
  intros Hd. unfold Dial. apply preserves_bind; [apply _| |intros _].
  { by apply preserves_wrap, dialAndNegotiate_only. }
  apply preserves_bind; [apply _| |intros _];
    apply closing_only, preserves_wrap, on_conn_only; eauto with kroxy.
Qed.
Lemma DialForSCRAM_only d m :
  freshDial d -> keeps onlyW (DialForSCRAM AppendRequest hsReq hsResp avReq d m).
Proof.
  intros Hd. unfold DialForSCRAM. case_match; [apply preserves_fail; apply _|].
  apply preserves_bind; [apply _| |intros _].
  { by apply preserves_wrap, dialAndNegotiate_only. }
  apply closing_only, preserves_wrap, on_conn_only; eauto with kroxy.
Qed.
Lemma DialSCRAM_only d m u p :
  freshDial d ->
  keeps onlyW (DialSCRAM AppendRequest hsReq hsResp authReq authResp avReq Authenticate Challenge d m u p).
Proof.
  intros Hd. unfold DialSCRAM. case_match; [apply preserves_fail; apply _|].
  apply preserves_bind; [apply _| |intros _].
  { by apply preserves_wrap, dialAndNegotiate_only. }
  apply preserves_bind; [apply _| |intros _]; apply closing_only, preserves_wrap, on_conn_only;
    eauto using scramAuthenticate_writes with kroxy.
Qed.
End Ops.
