(* ===== verification/ProxyFacts.v ===== *)
(** The invariant of a client connection and its preservation by every step:
    the SASL state machine, where the tenant comes from, and what reaches the
    broker. *)
From Stdlib Require Import ZArith Lia.
From stdpp Require Import base list gmap strings tactics.
From S2P Require Import Prelude GoStrings GoNet Protocol ProtocolFacts Kmsg Auth Rewrite.
From S2P Require Import RewriteMsg RewriteFacts Resolver Upstream UpstreamFacts Completion Writes.
From S2P Require Import Observability ProxyConn Handlers Serve Messages.
Local Open Scope Z_scope.

Section Inv.
Context {X Session St : Type} (E : Env X Session St).

(** * What may be written to a broker *)

(** Kroxy's own requests: ApiVersions and the SASL exchange. *)
Definition own (req : Request) : Prop :=
  req = avRequest E \/ (exists m, req = handshakeRequest (k_SASLHandshakeRequest _ (codecs E)) m) \/
  exists p, req = authenticateRequest (k_SASLAuthenticateRequest _ (codecs E)) p.
Definition own_write (w : list byte) : Prop :=
  exists req cid k, own req /\ w = take k (AppendRequest E "kroxy" req cid).

(** A frame [frame] of the client with the header [hdr] whose key has a rewrite: the
    request decoded from its body, rewritten for the prefix of [t]. *)
Definition rewritten_write (t : Tenant) (hdr : RequestHeader) (frame w : list byte) : Prop :=
  exists q cid k, requestKey E q = APIKey hdr /\ requested E (APIVersion hdr) (bodyOf frame hdr) q /\
    w = take k (AppendRequest E (ClientID hdr) (encode E (APIVersion hdr)
          (RequestIn (k_subscription _ (codecs E)) (k_assignment _ (codecs E)) (TopicPrefix t) q)) cid).
(** A frame whose key has none: its length, or its bytes with the correlation id
    replaced. *)
Definition passthrough_write (hdr : RequestHeader) (frame w : list byte) : Prop :=
  ~ own_key (APIKey hdr) /\ rewriteHandler E (APIKey hdr) = None /\
  exists k, w = take k (be_encode 4 (uint32 (len frame))) \/ exists id, w = take k (putUint32 frame 4 id).
Definition forwarded (t : Tenant) (hdr : RequestHeader) (frame w : list byte) : Prop :=
  rewritten_write t hdr frame w \/ passthrough_write hdr frame w.

(** What an authenticated connection of a tenant may have forwarded ([fwd] is
    instantiated with "the forwarding of a frame this client sent"). *)
Context (fwd : Tenant -> list byte -> Prop).
Definition granted (frame : list byte) : Prop :=
  forall hdr, ParseRequestHeader frame = Ok hdr -> forall t w, forwarded t hdr frame w -> fwd t w.

(** What a connection of tenant [t] in state [st] may have sent. *)
Definition may_send (st : connState) (t : Tenant) (w : list byte) : Prop :=
  own_write w \/ (st = stateAuthenticated /\ fwd t w).

(** * The invariant *)
Definition supported (mech : string) : Prop :=
  mech = MechanismPlain \/ IsSCRAMMechanism mech = true.

(** The tenant was returned by a lookup made on this connection. *)
Definition resolved (c : conn) : Prop :=
  exists k id, (k < gets c)%nat /\ (Get (store E) id (history E k)).1 = Ok (tenant c).

(** [u] was made by a SCRAM dial with the mechanism [mech] and has since done nothing but
    relayed rounds, [k] of which the broker answered with error code 0. *)
Definition round_accepted (r : res (list byte * Z * string)) : bool :=
  match r with Ok (_, code, _) => code =? 0 | _ => false end.
Inductive scram_rounds (mech : string) : Z -> Conn -> Prop :=
| rounds_dialled n u : upDialForSCRAM E (inr n) mech None = (Ok tt, Some u) -> scram_rounds mech 0 u
| rounds_relayed k u payload :
    scram_rounds mech k u ->
    scram_rounds mech (if round_accepted (upRelay E payload u).1 then k + 1 else k) (upRelay E payload u).2.

Definition last_dialed (addr : string) (c : conn) : Prop := exists ds, dialed c = ds ++ [addr].
(** A SCRAM login in progress after [k] accepted rounds, on the connection of the last
    dial, which was to the tenant's upstream. *)
Definition relay_inv (k : Z) (c : conn) : Prop :=
  IsSCRAMMechanism (clientMechanism c) = true /\ resolved c /\ 0 <= k /\
  last_dialed (Upstream (tenant c)) c /\
  exists u, upstream c = Some u /\ scram_rounds (clientMechanism c) k u.
Definition sasl_inv (c : conn) : Prop :=
  match state c with
  | stateAwaitHandshake => upstream c = None /\ tenant c = noTenant /\ scramRoundsCompleted c = 0
  | stateAwaitAuth => upstream c = None /\ supported (clientMechanism c) /\ scramRoundsCompleted c = 0
  | stateRelaySaslInFlight => relay_inv (scramRoundsCompleted c) c /\ scramRoundsCompleted c < 2
  | stateAuthenticated =>
      supported (clientMechanism c) /\ resolved c /\
      (IsSCRAMMechanism (clientMechanism c) = true ->
         scramRoundsCompleted c = 2 /\ last_dialed (Upstream (tenant c)) c /\
         exists u0 u, upstream c = Some u /\ scram_rounds (clientMechanism c) 2 u0 /\ evolvesC u0 u)
  end.

Definition wire_inv (c : conn) : Prop :=
  Forall freshDial (dials c) /\
  Forall (fun u => Forall own_write (tx (nc u))) (dropped c) /\
  match upstream c with
  | None => True
  | Some u => Forall (may_send (state c) (tenant c)) (tx (nc u)) /\ reqTO u = DefaultRequestTimeout
  end.

Definition Inv (c : conn) : Prop := sasl_inv c /\ wire_inv c.
(** The invariant in the authenticated state, with the tenant fixed. *)
Definition InvA (t : Tenant) (c : conn) : Prop :=
  Inv c /\ state c = stateAuthenticated /\ tenant c = t.

(** ** Effects that do not touch what the invariant mentions *)
Lemma on_client_keeps {A} (m : M NetConn A) : keeps Inv (on_client m).
Proof. intros c H. unfold on_client, zoom. by destruct (m (client c)). Qed.
Lemma meter_keeps f : keeps Inv (meter f).
Proof. intros c H. exact H. Qed.
Lemma on_client_keepsA {A} t (m : M NetConn A) : keeps (InvA t) (on_client m).
Proof. intros c H. unfold on_client, zoom. by destruct (m (client c)). Qed.
Lemma meter_keepsA t f : keeps (InvA t) (meter f).
Proof. intros c H. exact H. Qed.
Lemma logs_keeps m : only_logs m -> keeps Inv m.
Proof. intros Hm. by apply only_logs_preserves. Qed.
Lemma logs_keepsA t m : only_logs m -> keeps (InvA t) m.
Proof. intros Hm. by apply only_logs_preserves. Qed.
Lemma ctxErr_keeps : keeps Inv ctxErr.
Proof. intros c H. exact H. Qed.
Lemma writeResponse_keeps hdr e : keeps Inv (writeResponse hdr e).
Proof. apply preserves_wrap, on_client_keeps. Qed.
Lemma observeHandshake_keeps m r : keeps Inv (observeHandshake m r).
Proof. apply meter_keeps. Qed.
Lemma replyAuth_keeps hdr code msg p : keeps Inv (replyAuth E hdr code msg p).
Proof. apply writeResponse_keeps. Qed.

(** ** Triples and invariants *)
Lemma keeps_triple {A} (I : conn -> Prop) (m : M conn A) : keeps I m -> triple I m (fun _ => I) I.
Proof. intros H c Hc. specialize (H c Hc). by destruct (m c) as [[]]. Qed.
Lemma triple_keeps {A} (I : conn -> Prop) (m : M conn A) : triple I m (fun _ => I) I -> keeps I m.
Proof. intros H c Hc. specialize (H c Hc). by destruct (m c) as [[]]. Qed.
Lemma keeps_get {A} (I : conn -> Prop) (k : conn -> M conn A) :
  (forall c, I c -> keeps I (k c)) -> keeps I (bind get k).
Proof. intros H c Hc. exact (H c Hc c Hc). Qed.
Lemma triple_get' {A} (I : conn -> Prop) (k : conn -> M conn A) Q F :
  (forall c, I c -> triple (fun c' => c' = c) (k c) Q F) -> triple I (bind get k) Q F.
Proof. intros H c Hc. exact (H c Hc c eq_refl). Qed.

(** ** Dialling *)
Lemma own_W : forall req cid k,
  req = avRequest E \/ (exists m, req = handshakeRequest (k_SASLHandshakeRequest _ (codecs E)) m) \/
  (exists p, req = authenticateRequest (k_SASLAuthenticateRequest _ (codecs E)) p) ->
  own_write (take k (AppendRequest E "kroxy" req cid)).
Proof. intros req cid k H. by exists req, cid, k. Qed.

Lemma own_may_send st t ws : Forall own_write ws -> Forall (may_send st t) ws.
Proof. apply Forall_impl. intros w Hw. by left. Qed.

(** [runDial] of a function that only writes kroxy's own requests. *)
Lemma runDial_spec m c :
  keeps (onlyW own_write) m -> wire_inv c ->
  match runDial m c with
  | (Ok u, c') => c' = c /\ Forall own_write (tx (nc u)) /\ reqTO u = DefaultRequestTimeout
  | (_, c') => wire_inv c' /\ exists l, c' = set_dropped l c
  end.
Proof.
  intros Hm Hc. unfold runDial. specialize (Hm None I).
  destruct (m None) as [[[]|e|] [u|]]; simpl in *; try done.
  all: destruct Hc as (Hd & Hdr & Hu).
  all: split; [|by destruct c; eexists].
  all: split_and!; [done| |done].
  all: simpl; first [exact Hdr|apply Forall_app; split; [done|]; repeat constructor; try apply Hm].
Qed.

Lemma ensureUpstream_triple t :
  triple (InvA t) (ensureUpstream E) (fun _ c => InvA t c /\ is_Some (upstream c)) (InvA t).
Proof.
  intros c [[Hs Hw] [Est Et]]. unfold ensureUpstream, bind at 1, get.
  destruct (upstream c) as [u|] eqn:Eu; [by split; [split|rewrite Eu]|].
  unfold sasl_inv in Hs. rewrite Est in Hs. destruct Hs as (Hsup & Hres & Hscr).
  assert (IsSCRAMMechanism (clientMechanism c) = false) as Hns.
  { destruct (IsSCRAMMechanism _); [|done]. destruct Hscr as (_ & _ & u0 & u & Hu & _); [done|]. congruence. }
  destruct Hw as (Hd & Hdr & _).
  set (c1 := set_dialed (dialed c ++ [Upstream (tenant c)]) (set_dials (tl (dials c)) c)).
  assert (wire_inv c1) as Hw1.
  { split_and!; [|done|simpl; by rewrite Eu]. simpl. destruct (dials c); [done|].
    by apply Forall_cons_1 in Hd as [_ Hd]. }
  assert (freshDial (hd (inl (ErrSent (Err_env 0))) (dials c))) as Hfd.
  { destruct (dials c); [done|]. by apply Forall_cons_1 in Hd as [Hd _]. }
  unfold bind at 1, nextDial. cbn iota. fold c1.
  set (m := if shouldTranslatePlainToSCRAM E c then _ else _).
  assert (keeps (onlyW own_write) m) as Hm.
  { unfold m, upDialSCRAM, upDial. destruct (shouldTranslatePlainToSCRAM E c);
      [apply DialSCRAM_only|apply Dial_only]; first [exact Hfd|apply own_W]. }
  pose proof (runDial_spec m c1 Hm Hw1) as Hr. unfold bind, attempt.
  assert (forall l, wire_inv (set_dropped l c1) -> InvA t (set_dropped l c1)) as HA.
  { intros l Hl. split; [split; [|done]|done]. unfold sasl_inv. simpl. rewrite Est.
    split_and!; [done|done|]. by rewrite Hns. }
  destruct (runDial m c1) as [[u|e|] c2].
  - destruct Hr as (-> & Hu & Hto). simpl. split; [|by eexists]. split; [split|done].
    + unfold sasl_inv. simpl. rewrite Est. split_and!; [done|done|]. by rewrite Hns.
    + destruct Hw1 as (? & ? & _). split_and!; [done|done|]. simpl.
      split; [by apply own_may_send|done].
  - destruct Hr as (Hr & l & ->). simpl. by apply HA.
  - destruct Hr as (Hr & l & ->). simpl. by apply HA.
Qed.

(** ** Requests *)
Lemma on_up_keepsA {A} t (m : M Conn A) :
  preserves (writesC (may_send stateAuthenticated t)) m -> preserves evolvesC m -> keeps (InvA t) (on_up m).
Proof.
  intros Hm He c [[Hs Hw] [Est Et]]. unfold on_up. destruct (upstream c) as [u|] eqn:Eu; [|done].
  specialize (Hm u). specialize (He u). destruct (m u) as [r u']. simpl in *.
  destruct Hm as [(ws & Htx & Hws) Hto]. split; [split|done].
  - unfold sasl_inv in *. simpl. rewrite Est in *. destruct Hs as (H1 & H2 & H3).
    split_and!; [done|done|]. intros H. destruct (H3 H) as (Hn & Hl & u0 & u1 & Hu & Hr & Hev).
    split_and!; [done..|]. exists u0, u'. split_and!; [done..|]. etrans; [exact Hev|]. congruence.
  - destruct Hw as (H1 & H2 & H3). rewrite Eu in H3. destruct H3 as [H3 H4].
    split_and!; [done|done|]. simpl. rewrite Htx, Est, Et in *. split; [|congruence].
    by apply Forall_app.
Qed.

Lemma cycle_keepsA {Q R} fn key kq kr rin guard dbg out hdr frame t (C : Q -> KRequest) (D : R -> KResponse) :
  handles E key kq kr rin out C D -> APIKey hdr = key ->
  (forall w, rewritten_write t hdr frame w -> fwd t w) ->
  keeps (InvA t) (cycle E fn key kq kr rin guard dbg out hdr (bodyOf frame hdr)).
Proof.
  intros [Hkey Hreq Henc _ _] Hk Hf. unfold cycle.
  destruct (ReadFrom kq (APIVersion hdr) _) as [e|req] eqn:Er; [apply preserves_fail; apply _|].
  apply keeps_get. intros c [_ [_ Et]]. rewrite Et.
  apply preserves_bind; [apply _|apply preserves_lift; apply _|intros _].
  apply preserves_bind; [apply _|apply logs_keepsA; auto with kroxy|intros _].
  apply preserves_bind; [apply _| |intros resp].
  - apply preserves_wrap. unfold roundTripTyped. apply preserves_bind; [apply _| |intros b].
    + apply preserves_wrap, on_up_keepsA; [|auto with kroxy]. apply RoundTripRequest_writes.
      intros cid k. right. split; [done|]. apply Hf. rewrite Henc. exists (C req), cid, k.
      split_and!; [by rewrite Hkey|by apply Hreq|done].
    + case_match; [apply preserves_fail|apply preserves_ret]; apply _.
  - apply preserves_bind; [apply _|apply logs_keepsA; auto with kroxy|intros _].
    apply preserves_bind; [apply _|apply preserves_lift; apply _|intros resp'].
    apply on_client_keepsA.
Qed.
Lemma rewriteHandler_keepsA t h hdr frame :
  rewriteHandler E (APIKey hdr) = Some h -> (forall w, rewritten_write t hdr frame w -> fwd t w) ->
  keeps (InvA t) (h hdr (bodyOf frame hdr)).
Proof.
  intros (Q & R & fn & kq & kr & rin & guard & dbg & out & C & D & -> & Hh)%rewriteHandler_cycle Hf.
  by eapply cycle_keepsA.
Qed.

Lemma forward_keepsA t hdr frame :
  ~ own_key (APIKey hdr) -> (forall w, forwarded t hdr frame w -> fwd t w) ->
  keeps (InvA t) (match rewriteHandler E (APIKey hdr) with
                  | Some _ => forwardRewritten E hdr (bodyOf frame hdr)
                  | None => forwardPassthrough E hdr frame
                  end).
Proof.
  intros Hno Hf. assert (keeps (InvA t) (ensureUpstream E)) as Hup.
  { apply triple_keeps. eapply triple_conseq; [apply ensureUpstream_triple|done| |done].
    by intros _ c [? _]. }
  destruct (rewriteHandler E (APIKey hdr)) as [h|] eqn:Eh.
  - unfold forwardRewritten. apply preserves_bind; [apply _|by apply preserves_wrap|intros _].
    rewrite Eh. apply rewriteHandler_keepsA; [done|]. intros w Hw. apply Hf. by left.
  - unfold forwardPassthrough. apply preserves_bind; [apply _|by apply preserves_wrap|intros _].
    apply preserves_bind; [apply _| |intros; apply on_client_keepsA].
    apply preserves_wrap, on_up_keepsA; [|auto with kroxy]. apply RoundTrip_writes.
    + intros k. right. split; [done|]. apply Hf. right. split_and!; [done..|]. exists k. auto.
    + intros id k. right. split; [done|]. apply Hf. right. split_and!; [done..|]. exists k. eauto.
Qed.

(** ** SASL *)
Lemma keepsI_meter f : keeps Inv (meter f).
Proof. intros c H. exact H. Qed.
Lemma keepsI_reply hdr code msg p : keeps Inv (replyAuth E hdr code msg p).
Proof. apply preserves_wrap. intros c H. unfold on_client, zoom. by destruct (WriteFrame _ _). Qed.
Lemma observe_reply_keeps mech r hdr code msg p :
  keeps Inv (let! _ := observeHandshake mech r in replyAuth E hdr code msg p).
Proof. apply preserves_bind; [apply _|apply keepsI_meter|intros; apply keepsI_reply]. Qed.

Lemma observe_log_reply_keeps mech r l msg0 args hdr code msg p :
  keeps Inv (let! _ := observeHandshake mech r in let! _ := logs l msg0 args in replyAuth E hdr code msg p).
Proof.
  apply preserves_bind; [apply _|apply keepsI_meter|intros _].
  apply preserves_bind; [apply _|apply logs_keeps; auto with kroxy|intros; apply keepsI_reply].
Qed.

(** A computation that keeps [I], from one state satisfying it. *)
Lemma keeps_at {A} (I : conn -> Prop) (m : M conn A) c :
  I c -> keeps I m -> triple (fun c' => c' = c) m (fun _ => I) I.
Proof. intros Hc Hm c' ->. by apply (keeps_triple I m Hm c Hc). Qed.

Lemma handleSaslHandshake_keeps hdr body : keeps Inv (handleSaslHandshake E hdr body).
Proof.
  unfold handleSaslHandshake. destruct (ReadFrom _ _ _) as [e|req]; [apply preserves_fail; apply _|].
  apply triple_keeps, triple_get'. intros c Hc. apply (triple_bind _ _ _ (fun _ => Inv));
    [|intros; apply keeps_triple, writeResponse_keeps].
  case_decide as Hst.
  { apply keeps_at; [done|].
    apply preserves_bind; [apply _|apply keepsI_meter|intros; apply preserves_ret; apply _]. }
  destruct (negb (_ =? MechanismPlain)%string && negb (IsSCRAMMechanism _)) eqn:Em.
  { apply keeps_at; [done|].
    apply preserves_bind; [apply _|apply keepsI_meter|intros; apply preserves_ret; apply _]. }
  intros c' ->. simpl. destruct Hc as [Hs Hw]. unfold sasl_inv in Hs. rewrite Hst in Hs.
  destruct Hs as (Hu & _ & Hr). split.
  - unfold sasl_inv. simpl. split_and!; [done| |done]. unfold supported.
    destruct (String.eqb_spec (SASLHandshakeRequest.Mechanism req) MechanismPlain); [by left|].
    right. by destruct (IsSCRAMMechanism _).
  - destruct Hw as (? & ? & _). split_and!; [done..|]. simpl. by rewrite Hu.
Qed.

(** The tenant just looked up. *)
Definition found (t : Tenant) (c : conn) : Prop :=
  exists k id, (k < gets c)%nat /\ (Get (store E) id (history E k)).1 = Ok t.

Definition awaiting (mech : string) (c : conn) : Prop :=
  Inv c /\ state c = stateAwaitAuth /\ clientMechanism c = mech.

Lemma lookupTenant_triple b id :
  triple (awaiting b) (attempt (lookupTenant E id))
    (fun r c => awaiting b c /\ match r with inl _ => True | inr t => found t c end) (awaiting b).
Proof.
  intros c Hc. unfold attempt, lookupTenant.
  assert (awaiting b (set_gets (S (gets c)) c)) as Hc'.
  { destruct Hc as [[Hs Hw] [Hst Hm]]. split_and!; [split| |]; try done.
    unfold sasl_inv in *. simpl. by rewrite Hst in *. }
  destruct (Get (store E) id (history E (gets c))).1 as [t|e|] eqn:Eg; [|done..].
  split; [done|]. exists (gets c), id. split; [simpl; lia|done].
Qed.

Lemma set_tenant_awaiting b t c : awaiting b c -> awaiting b (set_tenant t c).
Proof.
  intros [[Hs Hw] [Hst Hm]]. split; [split|done].
  - unfold sasl_inv in *. simpl. by rewrite Hst in *.
  - unfold sasl_inv in Hs. rewrite Hst in Hs. destruct Hs as (Hu & _).
    destruct Hw as (? & ? & _). unfold wire_inv. simpl. rewrite Hu. by split_and!.
Qed.
Lemma found_meter t f : keeps (found t) (meter f).
Proof. intros c H. exact H. Qed.

Lemma handleSaslAuthenticatePlain_keeps hdr body :
  triple (fun c => Inv c /\ IsSCRAMMechanism (clientMechanism c) = false)
    (handleSaslAuthenticatePlain E hdr body) (fun _ => Inv) Inv.
Proof.
  unfold handleSaslAuthenticatePlain.
  destruct (ReadFrom _ _ _) as [e|req]; [apply triple_fail; by intros c [? _]|].
  apply triple_get'. intros c [Hc Hm]. case_decide as Hst.
  { apply keeps_at; [done|apply observe_reply_keeps]. }
  remember (clientMechanism c) as mech eqn:Em. symmetry in Em.
  apply (triple_bind _ _ _ (fun _ => awaiting mech)).
  { intros c' ->. unfold attempt, lift. by destruct (ParsePlain _); simpl; try (split_and!; done). }
  intros [e|creds].
  { eapply triple_conseq; [apply keeps_triple, observe_reply_keeps| |done|done]. by intros c' [? _]. }
  eapply triple_bind; [eapply triple_conseq; [apply lookupTenant_triple|done|done|by intros c' [? _]]|].
  intros [e|t].
  { eapply triple_conseq; [apply (keeps_triple Inv)| |done|done].
    - apply preserves_bind; [apply _|apply keepsI_meter|intros; apply observe_log_reply_keeps].
    - by intros c' [[? _] _]. }
  apply (triple_bind _ _ _ (fun _ c => awaiting mech c /\ found t c)); [by intros c' H|].
  intros []. apply (triple_bind _ _ _ (fun _ c => awaiting mech c /\ found t c /\ tenant c = t)).
  { intros c' [Hc' Hf]. split; [by apply set_tenant_awaiting|done]. }
  intros []. apply (triple_bind _ _ _ (fun _ c => awaiting mech c /\ found t c /\ tenant c = t)).
  { by intros c' H. }
  intros []. apply (triple_bind _ _ _ (fun _ => Inv)).
  { intros c' ([[Hs Hw] [Hst' Hm']] & Hf & Et). unfold sasl_inv in Hs. rewrite Hst' in Hs.
    destruct Hs as (Hu & Hsup & _). split.
    - unfold sasl_inv. simpl. split_and!; [done|by rewrite <-Et in Hf|]. rewrite Hm', Hm. done.
    - destruct Hw as (? & ? & _). unfold wire_inv. simpl. rewrite Hu. by split_and!. }
  intros []. apply keeps_triple, observe_log_reply_keeps.
Qed.

(** *** SCRAM *)
Definition relaying (c : conn) : Prop := Inv c /\ state c = stateRelaySaslInFlight.

Lemma awaiting_reply b mech r l msg0 args hdr code msg p (v : bool) :
  triple (awaiting b)
    (let! _ := observeHandshake mech r in
     let! _ := logs l msg0 args in
     let! _ := replyAuth E hdr code msg p in ret v)
    (fun v' c => v' = v /\ Inv c) Inv.
Proof.
  eapply triple_bind; [eapply triple_conseq; [apply (keeps_triple Inv), keepsI_meter|..]|].
  - by intros c [? _].
  - done.
  - done.
  - intros []. eapply triple_bind; [apply (keeps_triple Inv), logs_keeps; auto with kroxy|].
    intros []. eapply triple_bind; [apply (keeps_triple Inv), keepsI_reply|].
    intros []. by apply triple_ret.
Qed.

Lemma set_upstream_relaying mech c u n :
  IsSCRAMMechanism mech = true -> awaiting mech c -> resolved c -> last_dialed (Upstream (tenant c)) c ->
  upDialForSCRAM E (inr n) mech None = (Ok tt, Some u) ->
  Forall own_write (tx (nc u)) -> reqTO u = DefaultRequestTimeout ->
  relaying (set_state stateRelaySaslInFlight (set_upstream (Some u) c)).
Proof.
  intros Hsc [[Hs Hw] [Hst Hm]] Hres Hl Hn Hu Ht. unfold sasl_inv in Hs. rewrite Hst in Hs.
  destruct Hs as (_ & _ & Hr). destruct Hw as (? & ? & _). split; [split|done].
  - unfold sasl_inv, relay_inv. simpl. rewrite Hr, Hm. split; [|lia]. split_and!; [done|done|lia|done|].
    exists u. split; [done|]. by eapply rounds_dialled.
  - unfold wire_inv. simpl. split_and!; [done..|by apply own_may_send|done].
Qed.

Lemma scramFirst_triple hdr payload :
  triple (fun c => IsSCRAMMechanism (clientMechanism c) = true /\ awaiting (clientMechanism c) c)
    (scramFirst E hdr payload) (fun go c => if go : bool then relaying c else Inv c) Inv.
Proof.
  unfold scramFirst. apply triple_get'. intros c [Hsc Hc].
  remember (clientMechanism c) as mech eqn:Em. clear Em.
  apply (triple_bind _ _ _ (fun _ => awaiting mech)).
  { intros c' ->. unfold attempt, lift. destruct (ParseSCRAMClientFirstUsername payload); [done..|].
    by destruct Hc. }
  intros [e|username].
  { eapply triple_conseq; [apply awaiting_reply|done|by intros v c' [-> ?]|done]. }
  eapply triple_bind; [eapply triple_conseq; [apply lookupTenant_triple|done|done|by intros c' [? _]]|].
  intros [e|t].
  { eapply triple_bind; [apply (triple_modify _ _ (fun _ => awaiting mech)); by intros c' [? _]|].
    intros []. eapply triple_conseq; [apply awaiting_reply|done|by intros v c' [-> ?]|done]. }
  apply (triple_bind _ _ _ (fun _ c => awaiting mech c /\ found t c)); [by intros c' H|].
  intros []. apply (triple_bind _ _ _ (fun _ c => awaiting mech c /\ resolved c /\ tenant c = t)).
  { intros c' [Hc' Hf]. split; [by apply set_tenant_awaiting|done]. }
  intros []. apply (triple_bind _ _ _ (fun d c => awaiting mech c /\ (resolved c /\ last_dialed (Upstream (tenant c)) c) /\ freshDial d)).
  { intros c' ([[Hs Hw] [Hst' Hm']] & Hres & Et). unfold nextDial. destruct Hw as (Hd & Hdr & Hu).
    assert (Forall freshDial (tl (dials c')) /\
      freshDial (hd (inl (ErrSent (Err_env 0))) (dials c'))) as [H1 H2].
    { destruct (dials c'); [done|]. by apply Forall_cons_1 in Hd as [? ?]. }
    split; [|split; [split; [done|]|done]].
    - split; [split|done]; [unfold sasl_inv in *; simpl; by rewrite Hst' in *|by split_and!].
    - exists (dialed c'). simpl. by rewrite Et. }
  intros d. eapply (triple_bind _ _ _ (fun r c => awaiting mech c /\ match r with
    | inl _ => True
    | inr u => (resolved c /\ last_dialed (Upstream (tenant c)) c) /\
        (exists n, upDialForSCRAM E (inr n) mech None = (Ok tt, Some u)) /\ Forall own_write (tx (nc u)) /\ reqTO u = DefaultRequestTimeout end)).
  { intros c' ([[Hs Hw] [Hst' Hm']] & Hres & Hd).
    assert (keeps (onlyW own_write) (upDialForSCRAM E d mech)) as Hk.
    { eapply DialForSCRAM_only; [apply own_W|done]. }
    pose proof (runDial_spec _ c' Hk Hw) as Hr. unfold attempt.
    assert (forall l, wire_inv (set_dropped l c') -> awaiting mech (set_dropped l c')) as HA.
    { intros l Hl. split; [split|done]; [|done]. unfold sasl_inv in *. simpl. by rewrite Hst' in *. }
    destruct (runDial _ c') as [[u|e|] c2] eqn:Erun.
    - destruct Hr as (-> & ? & ?). split; [split; [by split|done]|]. split; [done|]. split; [|done].
      unfold runDial in Erun. destruct (upDialForSCRAM E d mech None) as [[[]|e|] [u1|]] eqn:Ed; try done.
      injection Erun as ->. destruct d as [e|n]; [|by exists n]. unfold upDialForSCRAM, DialForSCRAM in Ed.
      by destruct (negb _).
    - destruct Hr as (Hr & l & ->). split; [by apply HA|done].
    - destruct Hr as (Hr & l & ->). by destruct (HA l Hr). }
  intros [e|u].
  { eapply triple_bind; [apply (triple_modify _ _ (fun _ => awaiting mech)); by intros c' [? _]|].
    intros []. eapply triple_conseq; [apply awaiting_reply|done|by intros v c' [-> ?]|done]. }
  intros c' (Hc' & [Hres Hl] & [n Hn] & Hu & Ht). simpl. by eapply set_upstream_relaying.
Qed.

(** The state of a relay whose next [k] rounds are to be counted. *)
Definition relayed (k : Z) (c : conn) : Prop :=
  wire_inv c /\ state c = stateRelaySaslInFlight /\ scramRoundsCompleted c < 2 /\
  relay_inv (scramRoundsCompleted c + k) c.
Lemma relayed_relaying c : relayed 0 c <-> relaying c.
Proof.
  unfold relayed, relaying, Inv, sasl_inv. rewrite Z.add_0_r. split.
  - intros (? & Hst & ? & ?). rewrite Hst. done.
  - intros [[Hs ?] Hst]. rewrite Hst in Hs. by destruct Hs.
Qed.
Lemma on_up_relay payload c :
  relaying c ->
  let '(r, c') := on_up (upRelay E payload) c in relayed (if round_accepted r then 1 else 0) c'.
Proof.
  intros (Hw & Hst & Hlt & Hsc & Hres & H0 & Hl & u & Eu & Hr)%relayed_relaying. unfold on_up. rewrite Eu.
  pose proof (RelaySASLAuthenticate_writes own_write (AppendRequest E) (k_SASLHandshakeRequest _ (codecs E))
    (k_SASLAuthenticateRequest _ (codecs E)) (k_SASLAuthenticateResponse _ (codecs E)) (avRequest E)
    own_W payload u) as [(ws & Htx & Hws) Hto].
  pose proof (rounds_relayed (clientMechanism c) _ u payload Hr) as Hr'. rewrite Z.add_0_r in Hr'.
  unfold upRelay in *. destruct (RelaySASLAuthenticate _ _ _ payload u) as [r u']. simpl in *.
  destruct Hw as (H1 & H2 & H3). rewrite Eu in H3. destruct H3 as [H3 H4]. split; [|split; [done|split; [done|]]].
  - split_and!; [done..|]. simpl. split; [|congruence]. rewrite Htx. apply Forall_app.
    split; [done|by apply own_may_send].
  - rewrite Z.add_0_r in H0. simpl. destruct (round_accepted r); split_and!; try done; try lia; exists u'; (split; [done|]);
      by rewrite ?Z.add_0_r.
Qed.

(** The round accepted by the broker is counted, and the second ends the login. *)
Lemma count_round c :
  relayed 1 c ->
  let c' := set_scramRoundsCompleted (scramRoundsCompleted c + 1) c in
  if 2 <=? scramRoundsCompleted c' then Inv (set_state stateAuthenticated c') else Inv c'.
Proof.
  intros (Hw & Hst & Hlt & Hsc & Hres & H0 & Hl & u & Eu & Hr). simpl.
  destruct Hw as (H1 & H2 & H3). rewrite Eu in H3.
  destruct (Z.leb_spec 2 (scramRoundsCompleted c + 1)); split.
  - unfold sasl_inv. simpl. split_and!; [by right|done|]. intros _.
    assert (scramRoundsCompleted c + 1 = 2) as E2 by lia. rewrite E2 in *. split_and!; [done..|].
    exists u, u. split_and!; [done..|reflexivity].
  - split_and!; [done..|]. simpl. rewrite Eu. destruct H3 as [H3 ?]. split; [|done].
    revert H3. apply Forall_impl. intros w [Ho|[Hx _]]; [by left|]. congruence.
  - unfold sasl_inv. simpl. rewrite Hst. split; [|done]. split_and!; [done..|]. by exists u.
  - split_and!; [done..|]. simpl. by rewrite Eu.
Qed.

Lemma scramRelay_triple hdr payload : triple relaying (scramRelay E hdr payload) (fun _ => Inv) Inv.
Proof.
  unfold scramRelay. apply triple_get'. intros c Hc.
  apply (triple_bind _ _ _ (fun r c' => relayed (if round_accepted (match r with inl e => Err e | inr x => Ok x end)
    then 1 else 0) c')).
  { intros c' ->. unfold attempt. pose proof (on_up_relay payload c Hc) as H.
    destruct (on_up _ c) as [[x|e|] c']; [done|done|]. by apply relayed_relaying in H as [? _]. }
  intros [e|[[rb ec] em]]; simpl.
  { eapply triple_conseq; [apply (keeps_triple Inv)|by intros c' [? _]%relayed_relaying|done|done].
    apply preserves_bind; [apply _|apply keepsI_meter|intros _].
    apply preserves_bind; [apply _|apply keepsI_meter|intros _]. apply preserves_fail. apply _. }
  destruct (ec =? 0); cbn [negb].
  2: { eapply triple_conseq; [apply (keeps_triple Inv), observe_log_reply_keeps
         |by intros c' [? _]%relayed_relaying|done|done]. }
  apply (triple_bind _ _ _ (fun _ c' => exists c0, relayed 1 c0 /\
    c' = set_scramRoundsCompleted (scramRoundsCompleted c0 + 1) c0)).
  { intros c' Hc'. by exists c'. }
  intros []. apply triple_get'. intros c' (c0 & Hc0%count_round & ->). cbv zeta in Hc0.
  eapply (triple_bind _ _ _ (fun _ => Inv)); [|intros []; apply keeps_triple, keepsI_reply].
  destruct (2 <=? _); intros c' ->; exact Hc0.
Qed.

Lemma handleSaslAuthenticateSCRAM_keeps hdr body :
  triple (fun c => Inv c /\ IsSCRAMMechanism (clientMechanism c) = true)
    (handleSaslAuthenticateSCRAM E hdr body) (fun _ => Inv) Inv.
Proof.
  unfold handleSaslAuthenticateSCRAM.
  destruct (ReadFrom _ _ _) as [e|req]; [apply triple_fail; by intros c [? _]|].
  apply triple_get'. intros c [Hc Hm]. case_decide as Hst.
  { apply keeps_at; [done|apply observe_reply_keeps]. }
  apply (triple_bind _ _ _ (fun go c' => if go : bool then relaying c' else Inv c')).
  - case_decide as Ha.
    + eapply triple_conseq; [apply scramFirst_triple| |done|done]. by intros c' ->.
    + apply triple_ret. intros c' ->. split; [done|]. destruct (decide (state c = stateRelaySaslInFlight));
        [done|]. by destruct Hst.
  - intros [|]; [apply scramRelay_triple|by apply triple_ret].
Qed.

Lemma handleSaslAuthenticate_keeps hdr body : keeps Inv (handleSaslAuthenticate E hdr body).
Proof.
  apply triple_keeps. unfold handleSaslAuthenticate. apply triple_get'. intros c Hc.
  destruct (IsSCRAMMechanism (clientMechanism c)) eqn:Em.
  - eapply triple_conseq; [apply handleSaslAuthenticateSCRAM_keeps|by intros c' ->|done|done].
  - eapply triple_conseq; [apply handleSaslAuthenticatePlain_keeps|by intros c' ->|done|done].
Qed.

(** ** The loop *)
Lemma dispatch_keeps hdr frame :
  ParseRequestHeader frame = Ok hdr -> granted frame -> keeps Inv (dispatch E hdr frame (bodyOf frame hdr)).
Proof.
  intros Hp Hg. unfold dispatch.
  destruct (Z.eqb_spec (APIKey hdr) ApiVersionsKey) as [_|N1]; [apply writeResponse_keeps|].
  destruct (Z.eqb_spec (APIKey hdr) SaslHandshakeKey) as [_|N2]; [apply handleSaslHandshake_keeps|].
  destruct (Z.eqb_spec (APIKey hdr) SaslAuthenticateKey) as [_|N3]; [apply handleSaslAuthenticate_keeps|].
  apply triple_keeps, triple_get'. intros c Hc. case_decide as Hst.
  { apply keeps_at; [done|]. apply preserves_bind; [apply _|apply logs_keeps; auto with kroxy|].
    intros _. apply preserves_fail. apply _. }
  eapply triple_conseq; [apply (keeps_triple (InvA (tenant c))), (forward_keepsA _ hdr frame)
    |by intros c' ->|by intros ? c' [? _]|by intros c' [? _]]; [by intros [?|[?|?]]|by apply Hg].
Qed.

Lemma preserves_lift_Ok {A B} (R : conn -> conn -> Prop) msg (a : A) (k : A -> M conn B) :
  preserves R (k a) -> preserves R (bind (wrap msg (lift (Ok a))) k).
Proof. intros H c. exact (H c). Qed.
(** The body of the frame. *)
Lemma preserves_body {B} (R : conn -> conn -> Prop) `{!PreOrder R} frame hdr (k : list byte -> M conn B) :
  preserves R (k (bodyOf frame hdr)) ->
  preserves R (bind (lift (slice_from frame (HeaderSize hdr))) k).
Proof.
  intros H c. unfold bind, lift. destruct (slice_from frame (HeaderSize hdr)) as [b|e|] eqn:Es; [|reflexivity..].
  apply slice_from_inv in Es as [_ ->]. exact (H c).
Qed.

Lemma serveFrame_keeps frame : granted frame -> keeps Inv (serveFrame E frame).
Proof.
  intros Hg. unfold serveFrame. apply preserves_bind; [apply _|apply preserves_wrap, on_client_keeps|intros _].
  destruct (ParseRequestHeader frame) as [hdr|e|] eqn:Ep; [|intros c' H; exact H..].
  apply preserves_lift_Ok, preserves_body; [apply _|].
  apply preserves_bind; [apply _|by apply preserves_attempt, dispatch_keeps|intros r].
  apply preserves_bind; [apply _|apply preserves_get; apply _|intros c'].
  apply preserves_bind; [apply _|apply keepsI_meter|intros _].
  destruct r; [apply preserves_fail|apply preserves_ret]; apply _.
Qed.

(** The next frame of the client. *)
Definition next_frame (c : conn) (frame : list byte) : Prop :=
  legal frame /\ exists rest, rx (client c) = frame_bytes frame ++ rest.
(** What holds at the end of an iteration if the handling of the next frame keeps it. *)
Lemma serveStep_with (I : conn -> Prop) c :
  (forall n cx, I c -> I (set_client n (set_ctx cx c))) -> I c ->
  (forall frame n cx, next_frame c frame -> rx (client c) = frame_bytes frame ++ rx n ->
     let c1 := set_client n (set_ctx cx c) in I c1 -> I (serveFrame E frame c1).2) ->
  I (serveStep E c).2.
Proof.
  intros HI Hc Hf. unfold serveStep, bind at 1, ctxErr. destruct (hd None (ctx c)) as [e|].
  { simpl. specialize (HI (client c) (tl (ctx c)) Hc). by destruct c. }
  unfold bind at 1, get. unfold bind at 1, wrap at 1, on_client at 1, zoom at 1. cbn [client set_ctx].
  pose proof (SetDeadline_spec (Some (readTimeout (state (set_ctx (tl (ctx c)) c)))) (client c)) as (_ & Hx & _).
  destruct (SetDeadline _ (client c)) as [[[]|e|] n1]; simpl in Hx; [|by apply HI..].
  unfold bind at 1, attempt at 1, on_client at 1, zoom at 1. cbn [rwrap client set_client].
  pose proof (fun b => ReadFrame_sound b n1) as Hx2. rewrite Hx in Hx2.
  destruct (ReadFrame n1) as [[frame|e|] n2]; simpl in Hx2;
    [|destruct (Is e EOF); by apply HI|by apply HI].
  destruct (Hx2 frame eq_refl) as [Hl Hr]. apply (Hf frame n2 (tl (ctx c))); [|done|by apply HI].
  split; [done|]. by exists (rx n2).
Qed.
Lemma serveStep_keeps c : (forall frame, next_frame c frame -> granted frame) -> Inv c -> Inv (serveStep E c).2.
Proof.
  intros Hg Hc. apply (serveStep_with Inv); [done..|]. intros frame n cx Hn _ c1 H1.
  by apply (serveFrame_keeps frame (Hg frame Hn) c1).
Qed.

Lemma newConn_Inv nc m lg ds cx : Forall freshDial ds -> Inv (newConn nc m lg ds cx).
Proof. intros H. split; [done|]. by split_and!. Qed.

(** ** Once authenticated *)
Lemma replyA t hdr code msg p : keeps (InvA t) (replyAuth E hdr code msg p).
Proof. apply preserves_wrap, on_client_keepsA. Qed.
Lemma observe_replyA t mech r hdr code msg p :
  keeps (InvA t) (let! _ := observeHandshake mech r in replyAuth E hdr code msg p).
Proof. apply preserves_bind; [apply _|apply meter_keepsA|intros; apply replyA]. Qed.

Lemma dispatch_keepsA t hdr frame :
  ParseRequestHeader frame = Ok hdr -> granted frame ->
  keeps (InvA t) (dispatch E hdr frame (bodyOf frame hdr)).
Proof.
  intros Hp Hg. unfold dispatch.
  destruct (Z.eqb_spec (APIKey hdr) ApiVersionsKey) as [_|N1]; [apply preserves_wrap, on_client_keepsA|].
  destruct (Z.eqb_spec (APIKey hdr) SaslHandshakeKey) as [_|N2].
  { unfold handleSaslHandshake. destruct (ReadFrom _ _ _) as [e|req]; [apply preserves_fail; apply _|].
    apply keeps_get. intros c [_ [Hst _]]. rewrite decide_True by congruence.
    apply preserves_bind; [apply _| |intros; apply preserves_wrap, on_client_keepsA].
    apply preserves_bind; [apply _|apply meter_keepsA|intros; apply preserves_ret; apply _]. }
  destruct (Z.eqb_spec (APIKey hdr) SaslAuthenticateKey) as [_|N3].
  { unfold handleSaslAuthenticate. apply keeps_get. intros c [_ [Hst _]]. case_match.
    - unfold handleSaslAuthenticateSCRAM.
      destruct (ReadFrom _ _ _) as [e|req]; [apply preserves_fail; apply _|].
      apply keeps_get. intros c' [_ [Hst' _]]. rewrite decide_True by (split; congruence).
      apply observe_replyA.
    - unfold handleSaslAuthenticatePlain.
      destruct (ReadFrom _ _ _) as [e|req]; [apply preserves_fail; apply _|].
      apply keeps_get. intros c' [_ [Hst' _]]. rewrite decide_True by congruence.
      apply observe_replyA. }
  apply keeps_get. intros c [_ [Hst _]]. rewrite decide_False by (intros H; by apply H).
  apply forward_keepsA; [by intros [?|[?|?]]|by apply Hg].
Qed.
Lemma serveFrame_keepsA t frame : granted frame -> keeps (InvA t) (serveFrame E frame).
Proof.
  intros Hg. unfold serveFrame. apply preserves_bind; [apply _|apply preserves_wrap, on_client_keepsA|intros _].
  destruct (ParseRequestHeader frame) as [hdr|e|] eqn:Ep; [|intros c' H; exact H..].
  apply preserves_lift_Ok, preserves_body; [apply _|].
  apply preserves_bind; [apply _|by apply preserves_attempt, dispatch_keepsA|intros r].
  apply preserves_bind; [apply _|apply preserves_get; apply _|intros c'].
  apply preserves_bind; [apply _|apply meter_keepsA|intros _].
  destruct r; [apply preserves_fail|apply preserves_ret]; apply _.
Qed.
Lemma serveStep_keepsA t c :
  (forall frame, next_frame c frame -> granted frame) -> InvA t c -> InvA t (serveStep E c).2.
Proof.
  intros Hg Hc. apply (serveStep_with (InvA t)); [done..|]. intros frame n cx Hn _ c1 H1.
  by apply (serveFrame_keepsA t frame (Hg frame Hn) c1).
Qed.
End Inv.

(** When what is forwarded does not matter. *)
Definition anything (t : Tenant) (w : list byte) : Prop := True.
Lemma all_granted {X Session St} (E : Env X Session St) frame : granted E anything frame.
Proof. done. Qed.
#[export] Hint Resolve all_granted : kroxy.
#[export] Hint Resolve on_client_keeps meter_keeps on_client_keepsA meter_keepsA ctxErr_keeps
  writeResponse_keeps observeHandshake_keeps replyAuth_keeps : kroxy.

(** * The client's socket *)
Section Client.
Context {X Session St : Type} (E : Env X Session St).

(** The labels the SASL counter may have. *)
Definition mechLabels : list string :=
  [MechanismPlain; MechanismSCRAMSHA256; MechanismSCRAMSHA512; "unknown"].
Definition resultLabels : list string :=
  ["ok"; "unsupported"; "malformed"; "unauthorized"; "upstream_error"; "illegal_state"].
Definition labels_ok (m : Metrics) : Prop :=
  map_Forall (fun ls _ => exists mech r, ls = [mech; r] /\ mech ∈ mechLabels /\ r ∈ resultLabels)
    (SaslHandshakeTotal m).
Definition metrics_ok (c : conn) : Prop :=
  match metrics c with None => True | Some m => labels_ok m end.

(** The effects of a handler on the client's socket and the metrics: what was
    sent stays sent, no client byte is read, the labels stay bounded. *)
Definition clientR (c c' : conn) : Prop :=
  evolves (client c) (client c') /\ rx (client c') = rx (client c) /\
  reads (client c') = reads (client c) /\ (metrics_ok c -> metrics_ok c').
#[global] Instance clientR_preorder : PreOrder clientR.
Proof.
  split; [intros c; split_and!; [reflexivity|done..]|].
  intros c1 c2 c3 (H1 & E1 & F1 & G1) (H2 & E2 & F2 & G2). split_and!; [by etrans|congruence..|auto].
Qed.

Lemma on_client_Write_R body : preserves clientR (on_client (WriteFrame body)).
Proof.
  intros c. unfold on_client, zoom. pose proof (WriteFrame_evolves body (client c)) as He.
  destruct (WriteFrame_spec body (client c)) as (_ & Hr & _).
  pose proof (WriteFrame_reads body (client c)) as Hrd.
  destruct (WriteFrame body (client c)) as [r n]. by split_and!.
Qed.
Lemma same_client {A} (m : M conn A) :
  (forall c, client (m c).2 = client c /\ metrics (m c).2 = metrics c) -> preserves clientR m.
Proof.
  intros H c. destruct (H c) as [H1 H2]. unfold clientR, metrics_ok. rewrite H1, H2. by split_and!.
Qed.
Lemma meter_R f : (forall m, labels_ok m -> labels_ok (f m)) -> preserves clientR (meter f).
Proof.
  intros Hf c. split_and!; [reflexivity|done..|]. unfold metrics_ok. simpl.
  destruct (metrics c); simpl; auto.
Qed.
Lemma only_logs_R m : only_logs m -> preserves clientR m.
Proof. intros Hm. apply same_client. intros c. destruct (Hm c) as [lg E0]. by rewrite E0. Qed.
Lemma on_up_R {A} (m : M Conn A) : preserves clientR (on_up m).
Proof.
  apply same_client. intros c. unfold on_up. destruct (upstream c); [|done]. by destruct (m _).
Qed.
Lemma runDial_R m : preserves clientR (runDial m).
Proof. apply same_client. intros c. unfold runDial. by destruct (m None) as [[] []]. Qed.
Lemma nextDial_R a : preserves clientR (nextDial a).
Proof. by apply same_client. Qed.
Lemma lookupTenant_R id : preserves clientR (lookupTenant E id).
Proof. by apply same_client. Qed.
Lemma modify_R f :
  (forall c, client (f c) = client c /\ metrics (f c) = metrics c) -> preserves clientR (modify f).
Proof. intros H. by apply same_client. Qed.
Lemma writeResponse_R hdr e : preserves clientR (writeResponse hdr e).
Proof. apply preserves_wrap, on_client_Write_R. Qed.
Lemma replyAuth_R hdr a b c : preserves clientR (replyAuth E hdr a b c).
Proof. apply writeResponse_R. Qed.
Lemma mechLabel_ok m : mechLabel m ∈ mechLabels.
Proof.
  unfold mechLabel, mechLabels.
  destruct (String.eqb_spec m MechanismPlain) as [->|]; [set_solver|].
  destruct (String.eqb_spec m MechanismSCRAMSHA256) as [->|]; [set_solver|].
  destruct (String.eqb_spec m MechanismSCRAMSHA512) as [->|]; set_solver.
Qed.
Lemma observeHandshake_R m r : r ∈ resultLabels -> preserves clientR (observeHandshake m r).
Proof.
  intros Hr. apply meter_R. intros mt Hm. unfold labels_ok in *. simpl. unfold Inc.
  apply map_Forall_insert_2; [|done]. eexists _, _. split_and!; [done|apply mechLabel_ok|done].
Qed.

Ltac leafR := idtac; match goal with
  | |- preserves _ (on_client (WriteFrame _)) => apply on_client_Write_R
  | |- preserves _ (meter _) => apply meter_R; let Hm := fresh in intros ? Hm; exact Hm
  | |- preserves _ (observeHandshake _ _) => apply observeHandshake_R; unfold resultLabels; set_solver
  | |- preserves _ (replyAuth _ _ _ _ _) => apply replyAuth_R
  | |- preserves _ (writeResponse _ _) => apply writeResponse_R
  | |- preserves _ (logs _ _ _) => by apply same_client
  | |- preserves _ (debugReq _ _ _ _) => apply only_logs_R; auto with kroxy
  | |- preserves _ (debugResp _ _) => apply only_logs_R; auto with kroxy
  | |- preserves _ (modify _) => apply modify_R; intros ?; split; reflexivity
  | |- preserves _ (on_up _) => apply on_up_R
  | |- preserves _ (runDial _) => apply runDial_R
  | |- preserves _ (nextDial _) => apply nextDial_R
  | |- preserves _ (lookupTenant _ _) => apply lookupTenant_R
  end.
Ltac walkR := walk_with leafR.

Lemma ensureUpstream_R : preserves clientR (ensureUpstream E).
Proof. unfold ensureUpstream. walkR. Qed.
Lemma handleSaslHandshake_R hdr body : preserves clientR (handleSaslHandshake E hdr body).
Proof. unfold handleSaslHandshake. walkR. Qed.
Lemma handleSaslAuthenticatePlain_R hdr body :
  preserves clientR (handleSaslAuthenticatePlain E hdr body).
Proof. unfold handleSaslAuthenticatePlain. walkR. Qed.
Lemma scramFirst_R hdr p : preserves clientR (scramFirst E hdr p).
Proof. unfold scramFirst. walkR. Qed.
Lemma scramRelay_R hdr p : preserves clientR (scramRelay E hdr p).
Proof. unfold scramRelay. walkR. Qed.
Lemma handleSaslAuthenticate_R hdr body : preserves clientR (handleSaslAuthenticate E hdr body).
Proof.
  unfold handleSaslAuthenticate, handleSaslAuthenticateSCRAM. walkR;
    auto using handleSaslAuthenticatePlain_R, scramFirst_R, scramRelay_R.
Qed.
Lemma cycle_R {Q R} fn key (kq : Codec Q) (kr : Codec R) rin guard dbg out hdr body :
  preserves clientR (cycle E fn key kq kr rin guard dbg out hdr body).
Proof. unfold cycle, roundTripTyped, writeTypedResponse. walkR. Qed.
Lemma rewriteHandler_R key h hdr body :
  rewriteHandler E key = Some h -> preserves clientR (h hdr body).
Proof.
  unfold rewriteHandler. intros H.
  repeat match type of H with (if ?b then _ else _) = _ => destruct b end; [..|done];
    injection H as <-; apply cycle_R.
Qed.
Lemma dispatch_R hdr frame body : preserves clientR (dispatch E hdr frame body).
Proof.
  unfold dispatch. destruct (_ =? ApiVersionsKey); [apply writeResponse_R|].
  destruct (_ =? SaslHandshakeKey); [apply handleSaslHandshake_R|].
  destruct (_ =? SaslAuthenticateKey); [apply handleSaslAuthenticate_R|].
  apply preserves_bind; [apply _|apply preserves_get; apply _|intros c].
  case_decide; [walkR|].
  destruct (rewriteHandler E (APIKey hdr)) as [h|] eqn:Eh.
  - unfold forwardRewritten. apply preserves_bind; [apply _|apply preserves_wrap, ensureUpstream_R|].
    intros _. rewrite Eh. by eapply rewriteHandler_R.
  - unfold forwardPassthrough. walkR. apply ensureUpstream_R.
Qed.

(** After the read of a frame the client's socket is not read any more. *)
Definition tailR (c c' : conn) : Prop :=
  rx (client c') = rx (client c) /\ reads (client c') = reads (client c) /\
  (metrics_ok c -> metrics_ok c').
#[global] Instance tailR_preorder : PreOrder tailR.
Proof.
  split; [intros c; by split_and!|]. intros c1 c2 c3 (E1 & F1 & G1) (E2 & F2 & G2).
  split_and!; [congruence..|auto].
Qed.
Lemma clientR_tailR {A} (m : M conn A) : preserves clientR m -> preserves tailR m.
Proof. intros H c. destruct (H c) as (_ & ? & ? & ?). by split_and!. Qed.

Lemma serveFrame_R frame : preserves tailR (serveFrame E frame).
Proof.
  unfold serveFrame. apply preserves_bind; [apply _| |intros _].
  { apply preserves_wrap. intros c. unfold on_client, zoom.
    pose proof (SetDeadline_spec None (client c)) as (_ & Hr & Hrs & _).
    destruct (SetDeadline None (client c)). by split_and!. }
  apply preserves_bind; [apply _|apply preserves_wrap, preserves_lift; apply _|intros hdr].
  apply preserves_bind; [apply _|apply preserves_lift; apply _|intros body].
  apply preserves_bind; [apply _|apply preserves_attempt, clientR_tailR, dispatch_R|intros r].
  apply preserves_bind; [apply _|apply preserves_get; apply _|intros c'].
  apply preserves_bind; [apply _|apply clientR_tailR, meter_R; intros ? Hm; exact Hm|intros _].
  destruct r; [apply preserves_fail|apply preserves_ret]; apply _.
Qed.

(** An iteration: the reads it makes, and, if it goes on, a frame consumed. *)
Lemma serveStep_spec c r c' :
  serveStep E c = (r, c') ->
  (exists k, reads (client c') = reads (client c) ++ replicate k (Some (readTimeout (state c)))) /\
  (r = Ok tt -> (length (rx (client c')) < length (rx (client c)))%nat) /\
  (metrics_ok c -> metrics_ok c').
Proof.
  intros H. unfold serveStep, bind at 1, ctxErr in H.
  destruct (hd None (ctx c)) as [e|].
  { injection H as <- <-. split_and!; [exists 0%nat; by rewrite app_nil_r|done|done]. }
  unfold bind at 1, get in H. simpl in H. set (to := readTimeout (state c)) in *.
  unfold bind at 1, wrap at 1, on_client at 1, zoom at 1 in H. simpl in H.
  pose proof (SetDeadline_spec (Some to) (client c)) as (_ & Hx1 & Hr1 & _ & Hd1 & _).
  destruct (SetDeadline (Some to) (client c)) as [[[]|e|] n1]; simpl in *;
    [|injection H as <- <-; split_and!; [exists 0%nat; by rewrite app_nil_r|done|done]..].
  unfold bind at 1, attempt at 1, on_client at 1, zoom at 1 in H. simpl in H.
  pose proof (ReadFrame_reads_under n1) as [Hd2 [k Hr2]]. rewrite Hd1, Hr1 in Hr2 by done.
  destruct (ReadFrame n1) as [[frame|e|] n2] eqn:Er; simpl in *.
  - pose proof (serveFrame_R frame (set_client n2 (set_client n1 (set_ctx (tl (ctx c)) c))))
      as (Hx & Hrd & Hm). rewrite H in *. simpl in *.
    pose proof (ReadFrame_sound frame n1) as Hs. rewrite Er in Hs.
    destruct Hs as [_ Hs]; [done|]. cbn [snd] in Hs. split_and!; [exists k; by rewrite Hrd|intros _|done].
    apply (f_equal length) in Hs. rewrite Hx, <-Hx1, Hs, length_app. unfold frame_bytes.
    rewrite length_app, be_encode_length. lia.
  - destruct (Is e EOF); injection H as <- <-; (split_and!; [by exists k|done|done]).
  - injection H as <- <-. split_and!; [by exists k|done|done].
Qed.

(** An iteration that goes on has read one frame. *)
Lemma serveStep_reads c c' :
  serveStep E c = (Ok tt, c') -> exists frame, legal frame /\ rx (client c) = frame_bytes frame ++ rx (client c').
Proof.
  intros H. unfold serveStep, bind at 1, ctxErr in H. destruct (hd None (ctx c)) as [e|]; [done|].
  unfold bind at 1, get in H. unfold bind at 1, wrap at 1, on_client at 1, zoom at 1 in H. cbn [client set_ctx] in H.
  pose proof (SetDeadline_spec (Some (readTimeout (state (set_ctx (tl (ctx c)) c)))) (client c)) as (_ & Hx & _).
  destruct (SetDeadline _ (client c)) as [[[]|e|] n1]; simpl in Hx; [|done..].
  unfold bind at 1, attempt at 1, on_client at 1, zoom at 1 in H. cbn [rwrap client set_client] in H.
  pose proof (fun b => ReadFrame_sound b n1) as Hx2. rewrite Hx in Hx2.
  destruct (ReadFrame n1) as [[frame|e|] n2]; simpl in Hx2; [|by destruct (Is e EOF)|done].
  destruct (Hx2 frame eq_refl) as [Hl Hr]. exists frame. split; [done|].
  pose proof (serveFrame_R frame (set_client n2 (set_client n1 (set_ctx (tl (ctx c)) c)))) as (Hx3 & _).
  rewrite H in Hx3. simpl in Hx3. by rewrite Hx3.
Qed.

(** The errors of an iteration: the context's, the clean close, or wrapped. *)
Lemma serveStep_errors c e c' :
  serveStep E c = (Err e, c') -> (exists s, e = ErrSent s) \/ exists e0, e = Wrap e0 "serve".
Proof.
  intros H. unfold serveStep in H.
  apply bind_Err in H as [H|(x & c1 & _ & H)]; [done|].
  destruct x; [injection H as <- _; by eauto|].
  apply bind_Err in H as [H|(x & c2 & _ & H)]; [done|].
  apply bind_Err in H as [(e0 & -> & _)%wrap_Err|(y & c3 & _ & H)]; [by eauto|].
  apply bind_Err in H as [H|(f & c4 & _ & H)].
  { unfold attempt in H. by destruct (on_client ReadFrame c3) as [[]]. }
  destruct f as [e1|frame]; [destruct (Is e1 EOF); injection H as <- _; by eauto|].
  unfold serveFrame in H.
  apply bind_Err in H as [(e0 & -> & _)%wrap_Err|(z & c5 & _ & H)]; [by eauto|].
  apply bind_Err in H as [(e0 & -> & _)%wrap_Err|(hdr & c6 & _ & H)]; [by eauto|].
  apply bind_Err in H as [H|(body & c7 & _ & H)].
  { unfold lift, slice_from, slice in H. by case_match. }
  apply bind_Err in H as [H|(r & c8 & _ & H)].
  { unfold attempt in H. by destruct (dispatch E hdr frame body c7) as [[]]. }
  apply bind_Err in H as [H|(c9 & c9' & _ & H)]; [done|].
  apply bind_Err in H as [H|(u & c10 & _ & H)]; [done|].
  destruct r; [injection H as <- _; by eauto|done].
Qed.
End Client.
