(* ===== verification/Answers.v ===== *)
(** What the client of a connection sees: one response per request, in the order
    of the requests and under the client's correlation ids. *)
From Stdlib Require Import ZArith Lia.
From stdpp Require Import base list strings tactics.
From S2P Require Import Prelude GoStrings GoNet Protocol ProtocolFacts Kmsg Auth RewriteMsg.
From S2P Require Import Resolver Upstream UpstreamFacts Writes Observability ProxyConn.
From S2P Require Import Handlers Serve ProxyFacts.
Local Open Scope Z_scope.

(** kmsg's responses append to the header kroxy has written. *)
Class ResponsesAppend {X} (k : Codecs X) : Prop := {
  #[global] a_ApiVersions :: Appends (k_ApiVersionsResponse _ k);
  #[global] a_SASLHandshake :: Appends (k_SASLHandshakeResponse _ k);
  #[global] a_SASLAuthenticate :: Appends (k_SASLAuthenticateResponse _ k);
  #[global] a_Metadata :: Appends (k_MetadataResponse _ k);
  #[global] a_Produce :: Appends (k_ProduceResponse _ k);
  #[global] a_Fetch :: Appends (k_FetchResponse _ k);
  #[global] a_ListOffsets :: Appends (k_ListOffsetsResponse _ k);
  #[global] a_FindCoordinator :: Appends (k_FindCoordinatorResponse _ k);
  #[global] a_OffsetCommit :: Appends (k_OffsetCommitResponse _ k);
  #[global] a_OffsetFetch :: Appends (k_OffsetFetchResponse _ k);
  #[global] a_OffsetDelete :: Appends (k_OffsetDeleteResponse _ k);
  #[global] a_JoinGroup :: Appends (k_JoinGroupResponse _ k);
  #[global] a_SyncGroup :: Appends (k_SyncGroupResponse _ k);
  #[global] a_Heartbeat :: Appends (k_HeartbeatResponse _ k);
  #[global] a_LeaveGroup :: Appends (k_LeaveGroupResponse _ k);
  #[global] a_DescribeGroups :: Appends (k_DescribeGroupsResponse _ k);
  #[global] a_ListGroups :: Appends (k_ListGroupsResponse _ k);
  #[global] a_DeleteGroups :: Appends (k_DeleteGroupsResponse _ k);
  #[global] a_InitProducerID :: Appends (k_InitProducerIDResponse _ k);
  #[global] a_AddPartitionsToTxn :: Appends (k_AddPartitionsToTxnResponse _ k);
  #[global] a_AddOffsetsToTxn :: Appends (k_AddOffsetsToTxnResponse _ k);
  #[global] a_EndTxn :: Appends (k_EndTxnResponse _ k);
  #[global] a_TxnOffsetCommit :: Appends (k_TxnOffsetCommitResponse _ k);
  #[global] a_CreateTopics :: Appends (k_CreateTopicsResponse _ k);
  #[global] a_DeleteTopics :: Appends (k_DeleteTopicsResponse _ k);
  #[global] a_DescribeConfigs :: Appends (k_DescribeConfigsResponse _ k)
}.

(** * Computations that leave the client alone *)
Definition sameClient (c c' : conn) : Prop := client c' = client c.
#[global] Instance sameClient_preorder : PreOrder sameClient.
Proof. unfold sameClient. split; [by intros c|]. intros c1 c2 c3 H1 H2. congruence. Qed.
Abbreviation quiet := (preserves sameClient).

(** A response frame that answers the request with correlation id [cid]. *)
Definition answer (cid : Z) (payload : list byte) : Prop :=
  take 4 payload = be_encode 4 (uint32 cid).

(** On success exactly one response with correlation id [cid] has been sent. *)
Definition answered (cid : Z) (c c' : conn) : Prop :=
  rx (client c') = rx (client c) /\
  exists payload, wire (client c') = wire (client c) ++ frame_bytes payload /\ answer cid payload.
Definition answers {A} (cid : Z) (m : M conn A) : Prop :=
  forall c a c', m c = (Ok a, c') -> answered cid c c'.

Lemma answers_bind {A B} cid (m : M conn A) (k : A -> M conn B) :
  quiet m -> (forall a, answers cid (k a)) -> answers cid (bind m k).
Proof.
  intros Hm Hk c b c' H. unfold bind in H. specialize (Hm c). unfold sameClient in Hm.
  destruct (m c) as [[a|e|] c1]; [|done..]. simpl in Hm. apply Hk in H.
  unfold answered in *. by rewrite Hm in H.
Qed.
(** The response first, then the rest. *)
Lemma answers_then {A B} cid (m : M conn A) (k : A -> M conn B) :
  answers cid m -> (forall a, quiet (k a)) -> answers cid (bind m k).
Proof.
  intros Hm Hk c b c' H. unfold bind in H. destruct (m c) as [[a|e|] c1] eqn:Em; [|done..].
  apply Hm in Em. specialize (Hk a c1). unfold sameClient in Hk. rewrite H in Hk. simpl in Hk.
  unfold answered in *. by rewrite Hk.
Qed.
Lemma answers_fail {A} cid e : answers cid (fail (A:=A) e).
Proof. by intros c a c'. Qed.
Lemma answers_wrap {A} cid msg (m : M conn A) : answers cid m -> answers cid (wrap msg m).
Proof.
  intros Hm c a c' H. unfold wrap in H. destruct (m c) as [[a'|e|] c1] eqn:Em; [|done..].
  injection H as <- <-. eauto.
Qed.
Lemma answers_WriteFrame cid body : answer cid body -> answers cid (on_client (WriteFrame body)).
Proof.
  intros Hb c [] c' H. unfold on_client, zoom in H.
  destruct (WriteFrame_spec body (client c)) as (_ & Hr & Hw).
  destruct (WriteFrame body (client c)) as [r n]. injection H as -> <-. simpl in *.
  split; [done|]. exists body. auto.
Qed.

Lemma take_be4 z l : take 4 (be_encode 4 z ++ l) = be_encode 4 z.
Proof. rewrite <-(be_encode_length 4 z) at 1. apply take_app_length. Qed.

Lemma EncodeResponse_answer {T} (k : Codec T) `{!Appends k} v m cid key ver :
  answer cid (EncodeResponse (AppendTo k v m) cid key ver).
Proof.
  unfold EncodeResponse. cbv zeta.
  destruct (AppendTo_appends (k:=k) v m (AppendResponseHeader [] cid (ResponseHeaderVersion key ver)))
    as (enc & ->).
  unfold answer, AppendResponseHeader. rewrite app_nil_l.
  destruct (1 <=? _); rewrite <-?app_assoc; apply take_be4.
Qed.

(** ** Quiet computations *)
Section Quiet.
Context {X Session St : Type} (E : Env X Session St).

Lemma quiet_same {A} (m : M conn A) : (forall c, client (m c).2 = client c) -> quiet m.
Proof. done. Qed.
Lemma on_up_quiet {A} (m : M Conn A) : quiet (on_up m).
Proof. intros c. unfold on_up. destruct (upstream c); [|done]. by destruct (m _). Qed.
Lemma runDial_quiet m : quiet (runDial m).
Proof. intros c. unfold runDial. by destruct (m None) as [[] []]. Qed.
Lemma nextDial_quiet a : quiet (nextDial a).
Proof. done. Qed.
Lemma lookupTenant_quiet id : quiet (lookupTenant E id).
Proof. done. Qed.
Lemma meter_quiet f : quiet (meter f).
Proof. done. Qed.
Lemma observeHandshake_quiet a b : quiet (observeHandshake a b).
Proof. done. Qed.
Lemma only_logs_quiet m : only_logs m -> quiet m.
Proof. intros Hm. by apply only_logs_preserves. Qed.
End Quiet.

Ltac leafQ := idtac; match goal with
  | |- quiet (meter _) => apply meter_quiet
  | |- quiet (observeHandshake _ _) => apply observeHandshake_quiet
  | |- quiet (logs _ _ _) => apply only_logs_quiet; auto with kroxy
  | |- quiet (debugReq _ _ _ _) => apply only_logs_quiet; auto with kroxy
  | |- quiet (debugResp _ _) => apply only_logs_quiet; auto with kroxy
  | |- quiet (on_up _) => apply on_up_quiet
  | |- quiet (runDial _) => apply runDial_quiet
  | |- quiet (nextDial _) => apply nextDial_quiet
  | |- quiet (lookupTenant _ _) => apply lookupTenant_quiet
  | |- quiet (modify _) => apply preserves_modify; intros ?; reflexivity
  end.
Ltac walkQ := walk_with leafQ.

Section Answers.
Context {X Session St : Type} (E : Env X Session St).

Lemma ensureUpstream_quiet : quiet (ensureUpstream E).
Proof. unfold ensureUpstream. walkQ. Qed.

(** ** Handlers *)
Context `{!ResponsesAppend (codecs E)}.
Implicit Types hdr : RequestHeader.

Lemma writeResponse_answers {T} (k : Codec T) `{!Appends k} hdr v m :
  answers (CorrelationID hdr) (writeResponse hdr (AppendTo k v m)).
Proof. apply answers_wrap, answers_WriteFrame, EncodeResponse_answer. apply _. Qed.
Lemma replyAuth_answers hdr code msg p : answers (CorrelationID hdr) (replyAuth E hdr code msg p).
Proof. apply writeResponse_answers. apply _. Qed.

(** Walk to the response of a handler: what precedes it is quiet. *)
Ltac walkA := repeat match goal with
  | |- answers _ (bind _ _) => apply answers_bind; [solve [walkQ]|intros ?]
  | |- answers _ (fail _) => apply answers_fail
  | |- answers _ (replyAuth _ _ _ _ _) => apply replyAuth_answers
  | |- answers _ (writeResponse _ _) => apply writeResponse_answers; typeclasses eauto
  | |- answers _ _ => progress case_match
  end.

Lemma handleSaslHandshake_answers hdr body : answers (CorrelationID hdr) (handleSaslHandshake E hdr body).
Proof. unfold handleSaslHandshake. walkA. Qed.
Lemma handleSaslAuthenticatePlain_answers hdr body :
  answers (CorrelationID hdr) (handleSaslAuthenticatePlain E hdr body).
Proof. unfold handleSaslAuthenticatePlain. walkA. Qed.
Lemma scramRelay_answers hdr p : answers (CorrelationID hdr) (scramRelay E hdr p).
Proof. unfold scramRelay. walkA. Qed.

(** [scramFirst] answers exactly when it says not to go on. *)
Definition decides (cid : Z) (m : M conn bool) : Prop :=
  forall c go c', m c = (Ok go, c') -> if go then sameClient c c' else answered cid c c'.
Lemma decides_bind {A} cid (m : M conn A) (k : A -> M conn bool) :
  quiet m -> (forall a, decides cid (k a)) -> decides cid (bind m k).
Proof.
  intros Hm Hk c go c' H. unfold bind in H. specialize (Hm c). unfold sameClient in Hm.
  destruct (m c) as [[a|e|] c1]; [|done..]. simpl in Hm. apply Hk in H.
  unfold answered, sameClient in *. by rewrite Hm in H.
Qed.
Lemma decides_reply hdr code msg p :
  decides (CorrelationID hdr) (let! _ := replyAuth E hdr code msg p in ret false).
Proof.
  intros c go c' H. unfold bind in H.
  destruct (replyAuth E hdr code msg p c) as [[a|e|] c1] eqn:Em; [|done..].
  apply replyAuth_answers in Em. by injection H as <- <-.
Qed.
Lemma decides_true cid : decides cid (ret true).
Proof. intros c go c' [= <- <-]. reflexivity. Qed.
Lemma scramFirst_decides hdr p : decides (CorrelationID hdr) (scramFirst E hdr p).
Proof.
  unfold scramFirst. repeat match goal with
  | |- decides _ (bind (replyAuth _ _ _ _ _) _) => apply decides_reply
  | |- decides _ (bind _ _) => apply decides_bind; [solve [walkQ]|intros ?]
  | |- decides _ (ret true) => apply decides_true
  | |- decides _ _ => progress case_match
  end.
Qed.

Lemma answers_decided cid m (k : M conn unit) :
  decides cid m -> answers cid k -> answers cid (let! go := m in if go : bool then k else ret tt).
Proof.
  intros Hm Hk c [] c' H. unfold bind in H. destruct (m c) as [[go|e|] c1] eqn:Ef; [|done..].
  apply Hm in Ef. destruct go; [|by injection H as <-].
  apply Hk in H. unfold answered, sameClient in *. by rewrite Ef in H.
Qed.
Lemma handleSaslAuthenticate_answers hdr body :
  answers (CorrelationID hdr) (handleSaslAuthenticate E hdr body).
Proof.
  unfold handleSaslAuthenticate, handleSaslAuthenticateSCRAM.
  apply answers_bind; [walkQ|intros c0].
  destruct (IsSCRAMMechanism _); [|apply handleSaslAuthenticatePlain_answers].
  destruct (ReadFrom _ _ _) as [e|req]; [apply answers_fail|]. apply answers_bind; [walkQ|intros c].
  case_decide; [walkA|]. apply answers_decided; [|apply scramRelay_answers].
  case_decide; [apply scramFirst_decides|apply decides_true].
Qed.

Lemma cycle_answers {Q R} fn key (kq : Codec Q) (kr : Codec R) `{!Appends kr} rin guard dbg out hdr body :
  answers (CorrelationID hdr) (cycle E fn key kq kr rin guard dbg out hdr body).
Proof.
  unfold cycle. destruct (ReadFrom _ _ _) as [e|req]; [apply answers_fail|].
  repeat (apply answers_bind; [solve [unfold roundTripTyped; walkQ]|intros ?]).
  apply answers_WriteFrame, EncodeResponse_answer. done.
Qed.
Lemma rewriteHandler_answers key h hdr body :
  rewriteHandler E key = Some h -> answers (CorrelationID hdr) (h hdr body).
Proof.
  unfold rewriteHandler. intros H.
  repeat match type of H with (if ?b then _ else _) = _ => destruct b end; [..|done];
    injection H as <-; apply cycle_answers; apply _.
Qed.

(** [RoundTrip] gives the response back under the client's correlation id. *)
Lemma RoundTrip_answer frame cid hv rhv u resp u' :
  RoundTrip frame cid hv rhv u = (Ok resp, u') -> answer cid resp.
Proof.
  unfold RoundTrip. intros H.
  repeat match type of H with
  | (if ?b then _ else _) _ = _ => destruct b; [discriminate H|]
  | bind ?m _ ?s = _ => unfold bind at 1 in H; destruct (m s) as [[?|?|] ?]; [|discriminate H..]
  end.
  injection H as <- _. unfold answer, putUint32. rewrite take_0. apply take_be4.
Qed.
Lemma on_up_result {A} (m : M Conn A) (P : A -> Prop) c a c' :
  (forall u a u', m u = (Ok a, u') -> P a) -> on_up m c = (Ok a, c') -> P a /\ sameClient c c'.
Proof.
  intros HP H. unfold on_up in H. destruct (upstream c) as [u|]; [|done].
  destruct (m u) as [r u'] eqn:Em. injection H as -> <-. split; [eauto|reflexivity].
Qed.
Lemma forwardPassthrough_answers hdr frame :
  answers (CorrelationID hdr) (forwardPassthrough E hdr frame).
Proof.
  unfold forwardPassthrough. apply answers_bind; [apply preserves_wrap, ensureUpstream_quiet|intros _].
  intros c [] c' H. unfold bind, wrap in H.
  destruct (on_up _ c) as [[resp|e|] c1] eqn:Eu; [|done..]. simpl in H.
  apply (on_up_result _ (answer (CorrelationID hdr))) in Eu as [Hr Hs]; [|intros; by eapply RoundTrip_answer].
  apply answers_WriteFrame with (cid := CorrelationID hdr) in H; [|done].
  unfold answered, sameClient in *. by rewrite Hs in H.
Qed.

Lemma dispatch_answers hdr frame body : answers (CorrelationID hdr) (dispatch E hdr frame body).
Proof.
  unfold dispatch. destruct (_ =? ApiVersionsKey); [apply writeResponse_answers; apply _|].
  destruct (_ =? SaslHandshakeKey); [apply handleSaslHandshake_answers|].
  destruct (_ =? SaslAuthenticateKey); [apply handleSaslAuthenticate_answers|].
  apply answers_bind; [walkQ|intros c]. case_decide; [walkA|].
  destruct (rewriteHandler E (APIKey hdr)) as [h|] eqn:Eh; [|apply forwardPassthrough_answers].
  unfold forwardRewritten. rewrite Eh.
  apply answers_bind; [apply preserves_wrap, ensureUpstream_quiet|intros _].
  by apply rewriteHandler_answers with (key := APIKey hdr).
Qed.

(** ** The loop *)

(** The response [r] answers the request [q]. *)
Definition answers_request (q r : list byte) : Prop :=
  exists hdr, ParseRequestHeader q = Ok hdr /\ answer (CorrelationID hdr) r.

(** From [c] to [c'] the client sent the requests [qs] and got the responses [rs]. *)
Definition exchanged (c c' : NetConn) (qs rs : list (list byte)) : Prop :=
  rx c = concat (map frame_bytes qs) ++ rx c' /\ wire c' = wire c ++ concat (map frame_bytes rs) /\
  Forall2 answers_request qs rs.
Lemma exchanged_trans c1 c2 c3 q1 q2 r1 r2 :
  exchanged c1 c2 q1 r1 -> exchanged c2 c3 q2 r2 -> exchanged c1 c3 (q1 ++ q2) (r1 ++ r2).
Proof.
  intros (E1 & W1 & F1) (E2 & W2 & F2). unfold exchanged. rewrite !map_app, !concat_app.
  split_and!; [by rewrite E1, E2, app_assoc|by rewrite W2, W1, app_assoc|by apply Forall2_app].
Qed.

Lemma SetDeadline_wire d n : rx (SetDeadline d n).2 = rx n /\ wire (SetDeadline d n).2 = wire n.
Proof. destruct (SetDeadline_spec d n) as (Ht & Hr & _). unfold wire. by rewrite Ht. Qed.

Lemma serveFrame_answers frame c c' :
  serveFrame E frame c = (Ok tt, c') ->
  exists hdr, ParseRequestHeader frame = Ok hdr /\ answered (CorrelationID hdr) c c'.
Proof.
  intros H. unfold serveFrame, bind at 1, wrap at 1, on_client, zoom in H.
  destruct (SetDeadline_wire None (client c)) as [Hr Hw].
  destruct (SetDeadline None (client c)) as [[[]|e|] n]; [|done..]. simpl in Hr, Hw.
  cbn [rwrap] in H. unfold bind at 1, wrap at 1, lift at 1 in H.
  destruct (ParseRequestHeader frame) as [hdr|e|] eqn:Eh; [|done..]. cbn [rwrap] in H.
  unfold bind at 1, lift at 1 in H. destruct (slice_from frame (HeaderSize hdr)) as [body|e|]; [|done..].
  exists hdr. split; [done|]. unfold bind at 1, attempt in H.
  destruct (dispatch E hdr frame body (set_client n c)) as [[[]|e|] c2] eqn:Ed; [|done..].
  apply dispatch_answers in Ed. injection H as <-. unfold answered in *. simpl in Ed |- *.
  by rewrite Hr, Hw in Ed.
Qed.

Lemma serveStep_answers c c' :
  serveStep E c = (Ok tt, c') -> exists q r, exchanged (client c) (client c') [q] [r].
Proof.
  intros H. unfold serveStep, bind at 1, ctxErr in H. destruct (hd None (ctx c)) as [e|]; [done|].
  unfold bind at 1, get in H. unfold bind at 1, wrap at 1, on_client at 1, zoom in H.
  cbn [client set_ctx] in H.
  destruct (SetDeadline_wire (Some (readTimeout (state c))) (client c)) as [Hr Hw].
  change (state (set_ctx (tl (ctx c)) c)) with (state c) in H.
  destruct (SetDeadline _ (client c)) as [[[]|e|] n]; [|done..]. simpl in Hr, Hw. cbn [rwrap] in H.
  unfold bind at 1, attempt, on_client, zoom in H. cbn [client set_client] in H.
  pose proof (ReadFrame_tx n) as Ht. pose proof (fun b => ReadFrame_sound b n) as Hs.
  destruct (ReadFrame n) as [[frame|e|] n'] eqn:Ef; [|by destruct (Is e EOF)|done].
  destruct (Hs frame eq_refl) as [_ Hrx]. simpl in Ht, Hrx.
  apply serveFrame_answers in H as (hdr & Eh & Hr' & payload & Hw' & Ha). simpl in Hr', Hw'.
  exists frame, payload. unfold exchanged. simpl. rewrite !app_nil_r. split_and!.
  - by rewrite <-Hr, Hrx, Hr'.
  - rewrite Hw'. unfold wire in *. by rewrite Ht, Hw.
  - constructor; [by exists hdr|constructor].
Qed.
End Answers.
