(* ===== verification/ProxyDemo.v ===== *)
(** A concrete deployment: the in-memory store with the tenants bob and alice,
    demonstration codecs, a broker that accepts PLAIN logins, and a client of
    either tenant that logs in and asks for the metadata of the topic "orders".  The theorems on connections are
    instantiated at its run. *)
From Stdlib Require Import ZArith Lia.
From stdpp Require Import base list gmap strings tactics.
From S2P Require Import Prelude GoNet Protocol ProtocolFacts Kmsg Auth RewriteFacts Resolver.
From S2P Require Import ResolverFacts Upstream UpstreamTheorems Writes Observability ProxyConn.
From S2P Require Import Handlers Serve Answers.
Local Open Scope Z_scope.

Module DemoProxy.
(** A message the run does not use. *)
Definition unused {A} : Codec A :=
  MkCodec (fun _ _ => inl (ErrNew "unused" [])) (fun _ _ dst => dst).
Definition apiVersionsResponse : Codec ApiVersionsResponse.t :=
  MkCodec (fun _ _ => inr (ApiVersionsResponse.Mk [])) (fun _ _ dst => dst ++ be_encode 2 0).
(** A metadata request is the name of one topic, a response nothing. *)
Definition metadataRequest : Codec (MetadataRequest.t unit) := MkCodec
  (fun _ b => inr (MetadataRequest.Mk (Some [MkTopicPtr (Some (string_of_bytes b)) tt]) tt))
  (fun _ m dst => dst ++ concat (map (fun t => bytes_of_string (default "" (TopicP t)))
                                   (default [] (MetadataRequest.Topics m)))).
Definition metadataResponse : Codec (MetadataResponse.t unit) := MkCodec
  (fun _ _ => inr (MetadataResponse.Mk [] 0 [] tt)) (fun _ _ dst => dst ++ [Byte.x2a]).

Definition codecs : Codecs unit :=
  MkCodecs unit apiVersionsResponse DemoBroker.hsReq DemoBroker.hsResp DemoBroker.authReq
    DemoBroker.authResp metadataRequest metadataResponse
    unused unused unused unused unused unused unused unused unused unused unused unused unused unused
    unused unused unused unused unused unused unused unused unused unused unused unused unused unused
    unused unused unused unused unused unused unused unused unused unused unused unused unused unused
    unused unused DemoBlob.subscription DemoBlob.assignment.

Definition both : memoryResolver :=
  MkMemory (<["alice" := DemoTenants.alice]> (tenants DemoTenants.m0)).
Definition env : Env unit unit memoryResolver :=
  MkEnv codecs (MkDebugFields (fun _ => 0) (fun _ => []) (fun _ => [])) DemoBroker.AppendRequest DemoBroker.avReq
    (fun _ _ _ => inl (ErrSent EOF)) (fun _ _ => inl (ErrSent EOF))
    (memory id) (fun _ => both) (MkServerConfig "proxy.example:9092" "").

(** The client: a request header of version 1 without client id, then the body. *)
Definition request (key version cid : Z) (body : list byte) : list byte :=
  be_encode 2 key ++ be_encode 2 version ++ be_encode 4 cid ++ be_encode 2 (2^16 - 1) ++ body.
Definition client_of (user : string) : NetConn := DemoBroker.broker
  [request SaslHandshakeKey 1 11 (bytes_of_string MechanismPlain);
   request SaslAuthenticateKey 1 12 (plainPayload user "pw");
   request MetadataKey 1 13 (bytes_of_string "orders")].
Definition client : NetConn := client_of "bob".
(** The broker accepts the login, and answers the fourth request. *)
Definition broker : NetConn := DemoBroker.broker
  [be_encode 4 1; be_encode 4 2 ++ be_encode 2 0; be_encode 4 3 ++ be_encode 2 0; be_encode 4 4].

(** The log, at the debug level. *)
Definition logger : Logger := quietLogger LevelDebug.
Definition c0 : conn := newConn client (Some NewMetrics) logger [inr broker] [].
Definition c1 : conn := (serveStep env c0).2.
Definition c2 : conn := (serveStep env c1).2.
Definition c3 : conn := (serveStep env c2).2.
(** The fourth write to the broker. *)
Definition sent (topic : string) : list byte :=
  DemoBroker.AppendRequest "" (typed MetadataKey metadataRequest 1
    (MetadataRequest.Mk (Some [MkTopicPtr (Some topic) tt]) tt)) 4.
Definition metadata_sent : list byte := sent "bob-orders".

#[global] Instance unused_appends {A} : Appends (unused (A:=A)).
Proof. intros v m dst. exists []. by rewrite app_nil_r. Qed.
#[global] Instance responses_append : ResponsesAppend codecs.
Proof. split; try apply unused_appends; intros v m dst; by eexists. Qed.

Lemma dial_fresh : Forall freshDial [inr broker].
Proof. by repeat constructor. Qed.
Lemma store_well_formed (k : nat) : well_formed (tenants (history env k)).
Proof. apply (well_formed_insert _ DemoTenants.alice); [by apply map_Forall_singleton|done]. Qed.
#[global] Instance store_laws :
  ResolverLaws (store env) tenants (fun s => well_formed (tenants s)).
Proof. apply memory_laws. by intros l. Qed.
#[global] Instance subscription_laws : BlobLaws (k_subscription _ (ProxyConn.codecs env)) sub_topics sub_rename.
Proof. apply DemoBlob.subscription_laws. Qed.
#[global] Instance assignment_laws : BlobLaws (k_assignment _ (ProxyConn.codecs env)) asg_topics asg_rename.
Proof. apply DemoBlob.assignment_laws. Qed.
End DemoProxy.
