(* ===== verification/Lifecycle.v ===== *)
(** The life of a connection under [Server.handle]: the connection counters and
    the sockets it opens, which are all closed at its end. *)
From Stdlib Require Import ZArith Lia.
From stdpp Require Import base list strings tactics.
From S2P Require Import Prelude GoNet Protocol ProtocolFacts Kmsg Auth Resolver.
From S2P Require Import Upstream UpstreamFacts UpstreamTheorems Observability ProxyConn.
From S2P Require Import Handlers Serve ProxyDemo.
Local Open Scope Z_scope.

(** A state predicate kept by every outcome but a panic. *)
Definition clean {S A} (I : S -> Prop) (m : M S A) : Prop :=
  forall s r s', m s = (r, s') -> r <> Panic -> I s -> I s'.

Section Clean.
Context {S : Type} (I : S -> Prop).
Lemma clean_bind {A B} (m : M S A) (k : A -> M S B) :
  clean I m -> (forall a, clean I (k a)) -> clean I (bind m k).
Proof.
  intros Hm Hk s r s' H Hr Hs. unfold bind in H. destruct (m s) as [[a|e|] s1] eqn:Em.
  - eapply Hk; [done..|]. by eapply Hm.
  - injection H as <- <-. by eapply Hm.
  - by injection H as <- <-.
Qed.
Lemma clean_wrap {A} msg (m : M S A) : clean I m -> clean I (wrap msg m).
Proof.
  intros Hm s r s' H Hr. unfold wrap in H. destruct (m s) as [r0 s1] eqn:Em.
  injection H as <- <-. eapply Hm; [done|]. by destruct r0.
Qed.
Lemma clean_attempt {A} (m : M S A) : clean I m -> clean I (attempt m).
Proof.
  intros Hm s r s' H Hr. unfold attempt in H. specialize (Hm s).
  destruct (m s) as [[a|e|] s1]; simplify_eq/=; try done; by eapply Hm.
Qed.
Lemma clean_lift {A} (r : res A) : clean I (lift r).
Proof. intros s r' s' H. by injection H as _ <-. Qed.
Lemma clean_ret {A} (a : A) : clean I (ret a).
Proof. intros s r' s' H. by injection H as _ <-. Qed.
Lemma clean_fail {A} e : clean I (fail (A:=A) e).
Proof. intros s r' s' H. by injection H as _ <-. Qed.
Lemma clean_get : clean I get.
Proof. intros s r' s' H. by injection H as _ <-. Qed.
Lemma clean_modify f : (forall s, I s -> I (f s)) -> clean I (modify f).
Proof. intros Hf s r' s' H _. injection H as _ <-. apply Hf. Qed.
End Clean.

Section Lifecycle.
Context {X Session St : Type} (E : Env X Session St).

(** The counters [handle] keeps, and the connections given up, all closed. *)
Definition counts (m : Metrics) : Z * Z := (ConnectionsActive m, ConnectionsTotal m).
Definition tidy (k : option (Z * Z)) (c : conn) : Prop :=
  counts <$> metrics c = k /\ Forall (fun u => closed (nc u) = true) (dropped c).

Context (k : option (Z * Z)).
Abbreviation tidily := (clean (tidy k)).

Lemma meter_tidy f : (forall m, counts (f m) = counts m) -> tidily (meter f).
Proof.
  intros Hf. apply clean_modify. intros c [H1 H2]. split; [|done]. simpl. rewrite <-H1.
  destruct (metrics c); [|done]. simpl. by rewrite Hf.
Qed.
Lemma observeHandshake_tidy a b : tidily (observeHandshake a b).
Proof. by apply meter_tidy. Qed.
Lemma only_logs_tidy m : only_logs m -> tidily m.
Proof. intros Hm c r c' H _ Ht. destruct (Hm c) as [lg E0]. rewrite E0 in H. by injection H as _ <-. Qed.
Lemma on_client_tidy {A} (m : M NetConn A) : tidily (on_client m).
Proof.
  intros c r c' H _ Ht. unfold on_client, zoom in H. destruct (m (client c)). by injection H as _ <-.
Qed.
Lemma on_up_tidy {A} (m : M Conn A) : tidily (on_up m).
Proof.
  intros c r c' H _ Ht. unfold on_up in H. destruct (upstream c); [|by injection H as _ <-].
  destruct (m _). by injection H as _ <-.
Qed.
Lemma nextDial_tidy a : tidily (nextDial a).
Proof. intros c r c' H _ Ht. by injection H as _ <-. Qed.
Lemma lookupTenant_tidy id : tidily (lookupTenant E id).
Proof. intros c r c' H _ Ht. by injection H as _ <-. Qed.
Lemma ctxErr_tidy : tidily ctxErr.
Proof. intros c r c' H _ Ht. by injection H as _ <-. Qed.
Lemma runDial_tidy m :
  (forall e u, m None = (Err e, Some u) -> closed (nc u) = true) -> tidily (runDial m).
Proof.
  intros Hm c r c' H Hr [H1 H2]. unfold runDial in H.
  destruct (m None) as [[a|e|] [u|]] eqn:Em; injection H as <- <-; try done; (split; [done|]); simpl.
  - apply Forall_app. split; [done|]. constructor; [by eapply Hm|constructor].
  - by rewrite app_nil_r.
Qed.

Ltac walkT := repeat match goal with
  | |- tidily (bind _ _) => apply clean_bind; [|intros ?]
  | |- tidily (wrap _ _) => apply clean_wrap
  | |- tidily (attempt _) => apply clean_attempt
  | |- tidily (modify _) => apply clean_modify; intros ? ?; assumption
  | |- tidily (meter _) => apply meter_tidy; reflexivity
  | |- tidily (observeHandshake _ _) => apply observeHandshake_tidy
  | |- tidily (logs _ _ _) => apply only_logs_tidy; auto with kroxy
  | |- tidily (debugReq _ _ _ _) => apply only_logs_tidy; auto with kroxy
  | |- tidily (debugResp _ _) => apply only_logs_tidy; auto with kroxy
  | |- tidily (on_up _) => apply on_up_tidy
  | |- tidily (on_client _) => apply on_client_tidy
  | |- tidily (writeResponse _ _) => apply clean_wrap, on_client_tidy
  | |- tidily (replyAuth _ _ _ _ _) => apply clean_wrap, on_client_tidy
  | |- tidily (nextDial _) => apply nextDial_tidy
  | |- tidily (lookupTenant _ _) => apply lookupTenant_tidy
  | |- tidily ctxErr => apply ctxErr_tidy
  | |- tidily get => apply clean_get
  | |- tidily (ret _) => apply clean_ret
  | |- tidily (fail _) => apply clean_fail
  | |- tidily (lift _) => apply clean_lift
  | |- tidily _ => progress case_match
  end.

Lemma ensureUpstream_tidy : tidily (ensureUpstream E).
Proof.
  unfold ensureUpstream. walkT; apply runDial_tidy; intros e0 u Hd;
    [by eapply DialSCRAM_Err|by eapply Dial_Err].
Qed.
Lemma scramFirst_tidy hdr p : tidily (scramFirst E hdr p).
Proof. unfold scramFirst. walkT. apply runDial_tidy. intros e0 u Hd. by eapply DialForSCRAM_Err. Qed.
Lemma handleSaslAuthenticate_tidy hdr body : tidily (handleSaslAuthenticate E hdr body).
Proof.
  unfold handleSaslAuthenticate, handleSaslAuthenticateSCRAM, handleSaslAuthenticatePlain, scramRelay.
  walkT; apply scramFirst_tidy.
Qed.
Lemma cycle_tidy {Q R} fn key (kq : Codec Q) (kr : Codec R) rin guard dbg out hdr body :
  tidily (cycle E fn key kq kr rin guard dbg out hdr body).
Proof. unfold cycle, roundTripTyped, writeTypedResponse. walkT. Qed.
Lemma rewriteHandler_tidy key h hdr body : rewriteHandler E key = Some h -> tidily (h hdr body).
Proof.
  unfold rewriteHandler. intros H.
  repeat match type of H with (if ?b then _ else _) = _ => destruct b end; [..|done];
    injection H as <-; apply cycle_tidy.
Qed.
Lemma dispatch_tidy hdr frame body : tidily (dispatch E hdr frame body).
Proof.
  unfold dispatch. destruct (_ =? ApiVersionsKey); [apply clean_wrap, on_client_tidy|].
  destruct (_ =? SaslHandshakeKey); [unfold handleSaslHandshake; walkT|].
  destruct (_ =? SaslAuthenticateKey); [apply handleSaslAuthenticate_tidy|].
  apply clean_bind; [apply clean_get|intros c]. case_decide; [walkT|].
  destruct (rewriteHandler E (APIKey hdr)) as [h|] eqn:Eh.
  - unfold forwardRewritten. apply clean_bind; [apply clean_wrap, ensureUpstream_tidy|intros _].
    rewrite Eh. by eapply rewriteHandler_tidy.
  - unfold forwardPassthrough. walkT. apply ensureUpstream_tidy.
Qed.
Lemma serveStep_tidy : tidily (serveStep E).
Proof. unfold serveStep, serveFrame. walkT. apply dispatch_tidy. Qed.
Lemma serve_tidy : tidily (serve E).
Proof.
  intros c. unfold serve. generalize (S (length (rx (client c)))). intros fuel. revert c.
  change (tidily (serveLoop E fuel)). induction fuel as [|fuel IH]; [apply clean_fail|].
  apply clean_bind; [apply serveStep_tidy|by intros _].
Qed.
End Lifecycle.

Section Handle.
Context {X Session St : Type} (E : Env X Session St).

(** A handler leaves nothing behind: when it returns (anything but a crash of the
    process), the client's socket, the broker connection if there is one and
    every connection dialled and given up on the way are closed, the
    active-connections gauge is back where it was and exactly one connection has
    been counted. *)
Lemma handle_leaves_nothing nc m lg ds cx r c' :
  handle E (newConn nc m lg ds cx) = (r, c') -> r <> Panic ->
  closed (client c') = true /\
  (forall u, upstream c' = Some u -> closed (Upstream.nc u) = true) /\
  Forall (fun u => closed (Upstream.nc u) = true) (dropped c') /\
  counts <$> metrics c' = (fun m => (ConnectionsActive m, ConnectionsTotal m + 1)) <$> m.
Proof.
  intros H Hr. unfold handle in H.
  destruct (serve E _) as [r0 c1] eqn:Es in H. injection H as -> <-.
  destruct (serve_tidy E ((fun m => (ConnectionsActive m + 1, ConnectionsTotal m + 1)) <$> m) _ _ _ Es Hr)
    as [Hm Hd]; [by destruct m; split; constructor|].
  set (c2 := match r with Err _ => _ | _ => _ end).
  assert (exists lg, c2 = set_log lg c1) as [lg1 ->].
  { unfold c2. destruct r as [|err|]; [|destruct (Is err _)|]; eauto using set_log_log, eq_sym. }
  split_and!; simpl; [done| |done|].
  - intros u. destruct (upstream c1); simpl; [|done]. by intros [= <-].
  - destruct (metrics c1), m; simpl in *; try done. injection Hm as H1 H2.
    unfold counts. simpl. rewrite H1, H2. repeat f_equal. lia.
Qed.
End Handle.

Definition demo_handled : res unit * conn :=
  handle DemoProxy.env (newConn DemoProxy.client (Some NewMetrics) DemoProxy.logger [inr DemoProxy.broker] []).
Lemma handle_leaves_nothing_witness :
  closed (client demo_handled.2) = true /\ counts <$> metrics demo_handled.2 = Some (0, 1).
Proof.
  destruct (handle_leaves_nothing DemoProxy.env DemoProxy.client (Some NewMetrics) DemoProxy.logger [inr DemoProxy.broker]
    [] demo_handled.1 demo_handled.2 (surjective_pairing _)) as (H1 & _ & _ & H2).
  - assert (bool_decide (demo_handled.1 = Panic) = false) as Hb by (vm_compute; reflexivity).
    intros Hp. rewrite Hp in Hb. discriminate Hb.
  - split; [exact H1|exact H2].
Defined.
