(* ===== verification/ProxyTheorems.v ===== *)
(** What the proxy guarantees for one client connection, whatever the client, the
    broker and the other users of the tenant store do. *)
From Stdlib Require Import ZArith Lia.
From stdpp Require Import base list gmap sets strings tactics.
From S2P Require Import Prelude GoStrings GoNet Protocol ProtocolFacts Kmsg Auth AuthFacts.
From S2P Require Import Rewrite RewriteMsg RewriteFacts RewriteTheorems Resolver ResolverFacts.
From S2P Require Import Upstream UpstreamFacts UpstreamTheorems Completion Writes Observability ProxyConn.
From S2P Require Import Handlers Serve Messages ProxyFacts Answers ProxyDemo.
Local Open Scope Z_scope.

Section Theorems.
Context {X Session St : Type} (E : Env X Session St).

(** A run of [serve] on a new connection. *)
Definition runConn (nc : NetConn) (m : option Metrics) (lg : Logger) (ds : list (error + NetConn))
    (cx : list (option sentinel)) : res unit * conn := serve E (newConn nc m lg ds cx).

(** ** The loop *)

(** The states the loop goes through. *)
Inductive reachable : conn -> Prop :=
| reach_new nc m lg ds cx : Forall freshDial ds -> reachable (newConn nc m lg ds cx)
| reach_step c c' : reachable c -> serveStep E c = (Ok tt, c') -> reachable c'.

Lemma reachable_Inv c : reachable c -> Inv E anything c.
Proof.
  induction 1 as [nc m lg ds cx Hd|c c' _ IH Hst]; [by apply newConn_Inv|].
  pose proof (serveStep_keeps E anything c (fun _ _ => all_granted E _) IH) as H. by rewrite Hst in H.
Qed.

(** The steps of the loop. *)
Definition step (c c' : conn) : Prop := serveStep E c = (Ok tt, c').

Lemma steps_exchanged `{!ResponsesAppend (codecs E)} c c' :
  rtc step c c' -> exists qs rs, exchanged (client c) (client c') qs rs.
Proof.
  induction 1 as [c|c c1 c' Hs _ (qs & rs & IH)].
  - exists [], []. split_and!; [done|by rewrite app_nil_r|constructor].
  - apply serveStep_answers in Hs as (q & r & Hx); [|done]. eauto using exchanged_trans.
Qed.
Lemma serveLoop_steps fuel c r c' :
  (length (rx (client c)) < fuel)%nat -> serveLoop E fuel c = (r, c') ->
  exists c1, rtc step c c1 /\ serveStep E c1 = (r, c') /\ r <> Ok tt.
Proof.
  revert c. induction fuel as [|fuel IH]; [lia|]. intros c Hf H. simpl in H. unfold bind in H.
  destruct (serveStep E c) as [[[]|e|] c1] eqn:Es; [|injection H as <- <-; by eauto using rtc..].
  pose proof (serveStep_spec E c _ _ Es) as (_ & Hlt & _). specialize (Hlt eq_refl).
  destruct (IH c1 ltac:(lia) H) as (c2 & ? & ? & ?). exists c2. split_and!; [|done..].
  by eapply rtc_l.
Qed.

(** ** The requests of the client *)

(** [frame] is one of the requests in the bytes [input] of a client, which sends
    frames of a length kroxy accepts. *)
Definition sent (input frame : list byte) : Prop :=
  exists qs rest, Forall legal qs /\ legal frame /\
    input = concat (map frame_bytes qs) ++ frame_bytes frame ++ rest.
(** The requests read so far, and the bytes still to come. *)
Definition reading (input : list byte) (c : conn) : Prop :=
  exists qs, Forall legal qs /\ input = concat (map frame_bytes qs) ++ rx (client c).
Lemma reading_next input c frame : reading input c -> next_frame c frame -> sent input frame.
Proof. intros (qs & Hq & ->) (Hl & rest & ->). by exists qs, rest. Qed.
Lemma reading_step input c c' : reading input c -> step c c' -> reading input c'.
Proof.
  intros (qs & Hq & ->) (frame & Hl & ->)%serveStep_reads. exists (qs ++ [frame]).
  split; [by apply Forall_app; auto|]. rewrite map_app, concat_app. simpl. by rewrite app_nil_r, <-app_assoc.
Qed.

(** What is forwarded comes from a request of the client. *)
Definition of_client (input : list byte) (t : Tenant) (w : list byte) : Prop :=
  exists frame hdr, sent input frame /\ ParseRequestHeader frame = Ok hdr /\ forwarded E t hdr frame w.
Lemma of_client_granted input c frame :
  reading input c -> next_frame c frame -> granted E (of_client input) frame.
Proof. intros Hr Hn hdr Hp t w Hw. exists frame, hdr. split_and!; [by eapply reading_next|done..]. Qed.
Lemma serveStep_of_client input c :
  reading input c -> Inv E (of_client input) c -> Inv E (of_client input) (serveStep E c).2.
Proof. intros Hr. apply serveStep_keeps. intros frame. by apply of_client_granted. Qed.
Lemma runConn_Inv nc m lg ds cx :
  Forall freshDial ds -> Inv E (of_client (rx nc)) (runConn nc m lg ds cx).2.
Proof.
  intros Hd. unfold runConn. destruct (serve E _) as [r c'] eqn:Es. unfold serve in Es.
  apply serveLoop_steps in Es as (c1 & Hs & Hl & _); [|lia]. simpl.
  pose proof (newConn_Inv E (of_client (rx nc)) nc m lg ds cx Hd) as HI.
  assert (reading (rx nc) (newConn nc m lg ds cx)) as Hr by (by exists []).
  revert HI Hr Hs. generalize (newConn nc m lg ds cx). intros c0 HI Hr Hs.
  induction Hs as [c|c c2 c1 H1 _ IH].
  - pose proof (serveStep_of_client _ c Hr HI) as H. by rewrite Hl in H.
  - apply IH; [done| |by eapply reading_step].
    pose proof (serveStep_of_client _ c Hr HI) as H. by rewrite H1 in H.
Qed.
Lemma authenticated_resolved fwd c : Inv E fwd c -> state c = stateAuthenticated -> resolved E c.
Proof. intros [Hs _] Hst. unfold sasl_inv in Hs. rewrite Hst in Hs. by destruct Hs as (_ & ? & _). Qed.

(** C1: whatever a client sends, what kroxy writes to a broker on its behalf is
    kroxy's own ApiVersions and SASL requests and, only once the connection is
    authenticated as a tenant found in the store, a request that this client sent:
    decoded from its frame with the codec of its API and rewritten with that
    tenant's prefix, or, for an API key that has no rewrite, its frame.  A
    connection that was dialled and given up has carried only kroxy's own
    requests. *)
Theorem broker_traffic nc m lg ds cx :
  Forall freshDial ds ->
  let c := (runConn nc m lg ds cx).2 in
  (forall u w, upstream c = Some u -> w ∈ tx (Upstream.nc u) ->
     own_write E w \/
     (state c = stateAuthenticated /\ resolved E c /\
      exists frame hdr, sent (rx nc) frame /\ ParseRequestHeader frame = Ok hdr /\
        (rewritten_write E (tenant c) hdr frame w \/ passthrough_write E hdr frame w))) /\
  (forall u w, u ∈ dropped c -> w ∈ tx (Upstream.nc u) -> own_write E w).
Proof.
  intros Hd c. pose proof (runConn_Inv nc m lg ds cx Hd) as HI. fold c in HI.
  pose proof HI as [Hs (_ & Hdr & Hu)]. split.
  - intros u w Eu Hw. rewrite Eu in Hu. destruct Hu as [Hu _].
    destruct (proj1 (list.Forall_forall _ _) Hu w Hw) as [|[Hst ?]]; [by left|].
    right. split_and!; [done|by eapply authenticated_resolved|done].
  - intros u w Hin Hw. pose proof (proj1 (list.Forall_forall _ _) Hdr u Hin) as H. simpl in H.
    exact (proj1 (list.Forall_forall _ _) H w Hw).
Qed.

(** A write that is not kroxy's own is the forwarding of a request of the client. *)
Lemma sent_forwarded nc m lg ds cx u w :
  Forall freshDial ds ->
  let c := (runConn nc m lg ds cx).2 in
  upstream c = Some u -> w ∈ tx (Upstream.nc u) -> ~ own_write E w ->
  resolved E c /\ of_client (rx nc) (tenant c) w.
Proof.
  intros Hd c Hu Hw Hno. pose proof (runConn_Inv nc m lg ds cx Hd) as HI. fold c in HI.
  pose proof HI as [_ (_ & _ & Hwi)]. rewrite Hu in Hwi. destruct Hwi as [Hwi _].
  destruct (proj1 (list.Forall_forall _ _) Hwi w Hw) as [|[Hst Hf]]; [done|].
  split; [by eapply authenticated_resolved|done].
Qed.

Section WithStore.
Context (table : St -> gmap string Tenant) (StInv : St -> Prop).
Context `{!ResolverLaws (store E) table StInv}.
Context (Hhist : forall k, StInv (history E k)).

(** The tenant was registered under its own id, and valid, when it was looked up. *)
Definition registered (t : Tenant) : Prop :=
  valid t /\ exists k, table (history E k) !! ID t = Some t.

Lemma Get_registered id k t : (Get (store E) id (history E k)).1 = Ok t -> registered t /\ ID t = id.
Proof.
  rewrite (Get_law _ id (Hhist k)). simpl. destruct (table (history E k) !! id) as [t'|] eqn:Et; [|done].
  intros [= ->]. pose proof (table_wf _ (Hhist k)) as Hwf. destruct (Hwf _ _ Et) as [Hid Hv].
  split; [|done]. split; [done|]. exists k. by rewrite Hid.
Qed.
Lemma resolved_registered c : resolved E c -> registered (tenant c).
Proof. intros (k & id & _ & Hg). by apply Get_registered in Hg as [? _]. Qed.

(** C10: a connection only ever reaches the authenticated state with a supported
    mechanism, as a valid tenant that was registered under its own id when the
    connection looked it up.  With SCRAM, the last dial was to that tenant's
    upstream address and succeeded with the client's mechanism, exactly two of the
    rounds relayed on it were answered by the broker with error code 0, and it is
    the connection that has carried the requests since.  Before that there is no
    upstream connection, except during a SCRAM relay, when fewer than two rounds
    have been accepted. *)
Theorem authenticated_means nc m lg ds cx :
  Forall freshDial ds ->
  let c := (runConn nc m lg ds cx).2 in
  match state c with
  | stateAuthenticated =>
      supported (clientMechanism c) /\ registered (tenant c) /\ TopicPrefix (tenant c) <> "" /\
      (IsSCRAMMechanism (clientMechanism c) = true ->
         scramRoundsCompleted c = 2 /\ last_dialed (Upstream (tenant c)) c /\
         exists u0 u, upstream c = Some u /\ scram_rounds E (clientMechanism c) 2 u0 /\ evolvesC u0 u)
  | stateRelaySaslInFlight =>
      IsSCRAMMechanism (clientMechanism c) = true /\ registered (tenant c) /\
      last_dialed (Upstream (tenant c)) c /\ 0 <= scramRoundsCompleted c < 2 /\
      exists u, upstream c = Some u /\ scram_rounds E (clientMechanism c) (scramRoundsCompleted c) u
  | _ => upstream c = None
  end.
Proof.
  intros Hd c. destruct (runConn_Inv nc m lg ds cx Hd) as [Hs _]. fold c in Hs.
  unfold sasl_inv in Hs. destruct (state c).
  - by destruct Hs.
  - by destruct Hs.
  - destruct Hs as [(Hm & Hr & H0 & Hl & Hu) Hn]. split_and!; [done|by apply resolved_registered|done..].
  - destruct Hs as (Hsup & Hr & Hn). pose proof (resolved_registered c Hr) as Hreg.
    split_and!; [done|done| |done]. by destruct Hreg as [(_ & ? & _) _].
Qed.

Abbreviation rin := (RequestIn (k_subscription _ (codecs E)) (k_assignment _ (codecs E))).
Abbreviation prefixed_names := (names (k_subscription _ (codecs E)) (k_assignment _ (codecs E))).
Abbreviation fits_in := (fits_in (k_subscription _ (codecs E)) (k_assignment _ (codecs E))).

(** The write [w] is (part of) the request [q], decoded from a frame of the client and
    rewritten with the prefix [p]. *)
Definition carries (input : list byte) (p : string) (w : list byte) (q : KRequest) : Prop :=
  exists frame hdr cid k, sent input frame /\ ParseRequestHeader frame = Ok hdr /\
    requestKey E q = APIKey hdr /\ requested E (APIVersion hdr) (bodyOf frame hdr) q /\
    w = take k (AppendRequest E (ClientID hdr) (encode E (APIVersion hdr) (rin p q)) cid).

Context `{!BlobLaws (k_subscription _ (codecs E)) sub_topics sub_rename}.
Context `{!BlobLaws (k_assignment _ (codecs E)) asg_topics asg_rename}.

(** C7: end to end, the names that reach the broker.  Every write to it is part of one
    of kroxy's own requests, or the connection is authenticated as a registered
    tenant with a non-empty prefix and it is the passing on of a frame of an API
    without a rewrite, or the encoding of a request the client sent with the
    names in the fields kroxy prefixes empty or carrying the tenant's prefix (those
    inside a consumer blob if they fit it with the prefix) and with the [bare] names
    (transactional id of Produce, forgotten topics of Fetch, keys and resources of
    other kinds) as the client sent them. *)
Theorem broker_names_isolated nc m lg ds cx u w :
  Forall freshDial ds ->
  let c := (runConn nc m lg ds cx).2 in
  let p := TopicPrefix (tenant c) in
  upstream c = Some u -> w ∈ tx (Upstream.nc u) ->
  own_write E w \/
  (registered (tenant c) /\ p <> "" /\
   ((exists frame hdr, sent (rx nc) frame /\ ParseRequestHeader frame = Ok hdr /\
       passthrough_write E hdr frame w) \/
    (exists q, carries (rx nc) p w q /\ bare (rin p q) = bare q /\
       (fits_in p q -> forall n, n ∈ prefixed_names (rin p q) -> n = "" \/ exists n0, n = p +:+ n0)))).
Proof.
  intros Hd c p Hu Hw. pose proof (runConn_Inv nc m lg ds cx Hd) as HI. fold c in HI.
  pose proof HI as [_ (_ & _ & Hwi)]. rewrite Hu in Hwi. destruct Hwi as [Hwi _].
  destruct (proj1 (list.Forall_forall _ _) Hwi w Hw) as [|[Hst (frame & hdr & Hs & Hp & Hf)]]; [by left|right].
  pose proof (resolved_registered _ (authenticated_resolved _ _ HI Hst)) as Hreg.
  split_and!; [done|by destruct Hreg as [(_ & ? & _) _]|].
  destruct Hf as [(q & cid & k & Hk & Hq & ->)|Hf]; [right|left; by exists frame, hdr].
  exists q. split_and!; [by exists frame, hdr, cid, k|apply bare_RequestIn|].
  intros Hfit n Hn. destruct (RequestIn_names_belong _ _ _ _ _ Hfit Hn) as [|Hb]; [by left|right].
  assert (p <> "") as Hp0%String.eqb_neq by (by destruct Hreg as [(_ & ? & _) _]).
  unfold BelongsToTenant in Hb. rewrite Hp0 in Hb. by apply HasPrefix_spec.
Qed.

(** The client keeps to the APIs kroxy rewrites, besides those kroxy answers itself. *)
Definition rewritten_only (input : list byte) : Prop :=
  forall frame hdr, sent input frame -> ParseRequestHeader frame = Ok hdr ->
    own_key (APIKey hdr) \/ rewriteHandler E (APIKey hdr) <> None.
Lemma sent_carried nc m lg ds cx u w :
  Forall freshDial ds -> rewritten_only (rx nc) ->
  let c := (runConn nc m lg ds cx).2 in
  upstream c = Some u -> w ∈ tx (Upstream.nc u) -> ~ own_write E w ->
  exists q, carries (rx nc) (TopicPrefix (tenant c)) w q.
Proof.
  intros Hd Hro c Hu Hw Hno.
  destruct (sent_forwarded nc m lg ds cx u w Hd Hu Hw Hno) as (_ & frame & hdr & Hs & Hp & [Hf|(Hk & Hn & _)]).
  - destruct Hf as (q & cid & k & Hf). exists q, frame, hdr, cid, k. by split.
  - by destruct (Hro frame hdr Hs Hp).
Qed.

(** C9: two connections of one deployment, whatever their brokers and dial outcomes,
    whose clients keep to the rewritten APIs and whose tenants' prefixes are
    incomparable.  What they send to the brokers, besides kroxy's own requests, are
    rewritten requests, and the only names both can carry are the empty name and
    names that at least one of the clients sent in a [bare] field (the transactional
    id of Produce, the forgotten topics of Fetch, keys and resources of other
    kinds), provided that the topics inside consumer blobs fit with the prefix. *)
Theorem tenants_isolated nc1 m1 lg1 ds1 cx1 u1 w1 nc2 m2 lg2 ds2 cx2 u2 w2 :
  Forall freshDial ds1 -> Forall freshDial ds2 ->
  rewritten_only (rx nc1) -> rewritten_only (rx nc2) ->
  let c1 := (runConn nc1 m1 lg1 ds1 cx1).2 in
  let c2 := (runConn nc2 m2 lg2 ds2 cx2).2 in
  upstream c1 = Some u1 -> w1 ∈ tx (Upstream.nc u1) -> ~ own_write E w1 ->
  upstream c2 = Some u2 -> w2 ∈ tx (Upstream.nc u2) -> ~ own_write E w2 ->
  let p1 := TopicPrefix (tenant c1) in
  let p2 := TopicPrefix (tenant c2) in
  incomparable p1 p2 ->
  exists q1 q2, carries (rx nc1) p1 w1 q1 /\ carries (rx nc2) p2 w2 q2 /\
    (fits_in p1 q1 -> fits_in p2 q2 ->
     forall n, n ∈ prefixed_names (rin p1 q1) ++ bare (rin p1 q1) ->
       n ∈ prefixed_names (rin p2 q2) ++ bare (rin p2 q2) ->
       n = "" \/ n ∈ bare q1 \/ n ∈ bare q2).
Proof.
  intros Hd1 Hd2 Hk1 Hk2 c1 c2 Hu1 Hw1 Ho1 Hu2 Hw2 Ho2 p1 p2 Hpp.
  destruct (sent_carried _ _ _ _ _ _ _ Hd1 Hk1 Hu1 Hw1 Ho1) as [q1 Hq1].
  destruct (sent_carried _ _ _ _ _ _ _ Hd2 Hk2 Hu2 Hw2 Ho2) as [q2 Hq2].
  exists q1, q2. split_and!; [done..|]. intros Hf1 Hf2 n. rewrite !bare_RequestIn, !elem_of_app.
  intros [H1|?] [H2|?]; try tauto.
  destruct (RequestIn_names_belong _ _ _ _ _ Hf1 H1) as [|Hb1]; [by left|].
  destruct (RequestIn_names_belong _ _ _ _ _ Hf2 H2) as [|Hb2]; [by left|].
  exfalso. by eapply BelongsToTenant_disjoint.
Qed.
End WithStore.


(** C11: the client is answered like by a broker: until the loop ends, every request
    frame it sent has got exactly one response frame, in the order of the
    requests, whose correlation id is the request's; and the loop does end, by
    the error of one last iteration. *)
Theorem responses_match_requests `{!ResponsesAppend (codecs E)} c r c' :
  serve E c = (r, c') ->
  exists c1 qs rs, exchanged (client c) (client c1) qs rs /\
    rtc step c c1 /\ serveStep E c1 = (r, c') /\ r <> Ok tt.
Proof.
  intros H. apply serveLoop_steps in H as (c1 & Hs & ? & ?); [|lia].
  destruct (steps_exchanged c c1 Hs) as (qs & rs & Hx). by exists c1, qs, rs.
Qed.

(** An authenticated connection stays authenticated, as the same tenant,
    through every further request, SASL requests included: no message can switch
    a connection to another tenant or send it back to the SASL phase. *)
Theorem authenticated_frozen c r c' :
  reachable c -> state c = stateAuthenticated -> serveStep E c = (r, c') ->
  state c' = stateAuthenticated /\ tenant c' = tenant c.
Proof.
  intros Hc Hst Hs. assert (InvA E anything (tenant c) c) as HA by (split; [by apply reachable_Inv|done]).
  pose proof (serveStep_keepsA E anything (tenant c) c (fun _ _ => all_granted E _) HA) as H. rewrite Hs in H. by destruct H as [_ ?].
Qed.

(** Enough fuel is enough. *)
Lemma serveLoop_fuel k fuel fuel' c :
  (length (rx (client c)) < k)%nat ->
  (length (rx (client c)) < fuel)%nat -> (length (rx (client c)) < fuel')%nat ->
  serveLoop E fuel c = serveLoop E fuel' c /\
  (serveLoop E fuel c).1 <> Err (ErrNew "serve: fuel" []) /\ (serveLoop E fuel c).1 <> Ok tt.
Proof.
  revert fuel fuel' c. induction k as [|k IH]; [lia|]. intros fuel fuel' c Hk Hf Hf'.
  destruct fuel as [|fuel], fuel' as [|fuel']; [lia..|]. simpl. unfold bind.
  destruct (serveStep E c) as [[[]|e|] c1] eqn:Est.
  - pose proof (serveStep_spec E c _ _ Est) as (_ & Hlt & _). specialize (Hlt eq_refl). apply IH; lia.
  - split_and!; [done| |done]. simpl. intros [= ->].
    apply serveStep_errors in Est. naive_solver.
  - done.
Qed.

(** C21: [serve] terminates on every finite input: each iteration that goes on has consumed
    a frame of the client, so the bound on the iterations is never reached and
    does not influence the outcome; the loop ends with an error (or a panic),
    never by falling through. *)
Theorem serve_terminates fuel c :
  (length (rx (client c)) < fuel)%nat ->
  serveLoop E fuel c = serve E c /\ (serve E c).1 <> Err (ErrNew "serve: fuel" []) /\
  (serve E c).1 <> Ok tt.
Proof.
  intros Hf. unfold serve. destruct (serveLoop_fuel fuel fuel (S (length (rx (client c)))) c) as (E1 & E2 & E3);
    [lia..|]. rewrite <-E1. done.
Qed.

(** ** The advertised API *)

(** C39: the API keys kroxy advertises are exactly those it answers itself and those
    its table has a rewriting handler for, each once and from version 0 on. *)
Theorem advertised_keys_rewritten :
  (forall key, (exists a, a ∈ advertisedVersions /\ ApiVersionsResponseApiKey.ApiKey a = key) <->
     key = ApiVersionsKey \/ key = SaslHandshakeKey \/ key = SaslAuthenticateKey \/
     rewriteHandler E key <> None) /\
  Forall (fun a => ApiVersionsResponseApiKey.MinVersion a = 0 /\
                   0 <= ApiVersionsResponseApiKey.MaxVersion a) advertisedVersions /\
  NoDup (ApiVersionsResponseApiKey.ApiKey <$> advertisedVersions).
Proof.
  split_and!.
  - intros key. split.
    + intros (a & Ha & <-).
      repeat (apply elem_of_cons in Ha as [->|Ha]; [|]);
        [first [left; reflexivity|right; left; reflexivity|right; right; left; reflexivity
               |right; right; right; discriminate]..|].
      by apply elem_of_nil in Ha.
    + intros H. 
      assert (key ∈ (ApiVersionsResponseApiKey.ApiKey <$> advertisedVersions)) as Hin.
      { destruct H as [->|[->|[->|H]]]; [by apply (bool_decide_unpack _); vm_compute..|].
        unfold rewriteHandler in H.
        repeat match type of H with
        | (if ?k =? ?c then _ else _) <> _ =>
            destruct (Z.eqb_spec k c) as [Hk|_]; [rewrite Hk; by apply (bool_decide_unpack _); vm_compute|]
        end. done. }
      apply list_elem_of_fmap in Hin as (a & -> & Ha). eauto.
  - by repeat constructor.
  - apply (bool_decide_unpack _). by vm_compute.
Qed.

(** ** Logging in *)

(** The SaslAuthenticate response [code], [msg] is the next frame of the client. *)
Definition replied (hdr : RequestHeader) (code : Z) (msg : option string) (n n' : NetConn) : Prop :=
  wire n' = wire n ++ frame_bytes (EncodeResponse
    (AppendTo (k_SASLAuthenticateResponse _ (codecs E)) (APIVersion hdr)
       (SASLAuthenticateResponse.Mk code msg [])) (CorrelationID hdr) (APIKey hdr) (APIVersion hdr)).

Lemma replyAuth_Ok hdr code msg c c' :
  replyAuth E hdr code msg [] c = (Ok tt, c') ->
  exists n, c' = set_client n c /\ replied hdr code msg (client c) n.
Proof.
  unfold replyAuth, writeResponse. intros H%wrap_Ok. unfold on_client, zoom in H.
  match type of H with context [WriteFrame ?b] => destruct (WriteFrame_spec b (client c)) as (_ & _ & Hw) end.
  destruct (WriteFrame _ (client c)) as [r n]. injection H as -> <-. exists n. split; [done|].
  by apply Hw.
Qed.

(** C12: a SaslAuthenticate request of a client that has not chosen SCRAM, on every
    branch that answers.  Outside the state between handshake and login (before a
    handshake or once authenticated) it is answered with code 34.  In it the client
    becomes the tenant the store has for the authentication identity of its payload,
    with the password of the payload kept for the broker, and is told success; a
    malformed payload or an unknown identity is answered with code 58.  All but
    success leave the connection as unauthenticated as it was, and nothing is
    dialled.  A request that does not decode ends the connection unanswered. *)
Theorem plain_login hdr body c r c' :
  IsSCRAMMechanism (clientMechanism c) = false -> handleSaslAuthenticate E hdr body c = (r, c') ->
  let unchanged := state c' = state c /\ tenant c' = tenant c /\ password c' = password c in
  match ReadFrom (k_SASLAuthenticateRequest _ (codecs E)) (APIVersion hdr) body with
  | inl err => r = Err (Wrap err "handleSaslAuthenticatePlain") /\ c' = c
  | inr req =>
      r = Ok tt ->
      (if decide (state c = stateAwaitAuth) then
         match ParsePlain (SASLAuthenticateRequest.SASLAuthBytes req) with
         | Ok creds =>
             match (Get (store E) (Username creds) (history E (gets c))).1 with
             | Ok t => state c' = stateAuthenticated /\ tenant c' = t /\ password c' = Password creds /\
                       replied hdr 0 None (client c) (client c')
             | Err _ => unchanged /\
                        replied hdr errSaslAuthFailed (Some "authentication failed") (client c) (client c')
             | Panic => False
             end
         | Err _ => unchanged /\
                    replied hdr errSaslAuthFailed (Some "malformed PLAIN payload") (client c) (client c')
         | Panic => False
         end
       else unchanged /\
            replied hdr errIllegalSaslState (Some "SASL handshake required") (client c) (client c')) /\
      clientMechanism c' = clientMechanism c /\ upstream c' = upstream c /\ dialed c' = dialed c
  end.
Proof.
  intros Hm H. cbv zeta. unfold handleSaslAuthenticate, bind at 1, get in H. rewrite Hm in H.
  unfold handleSaslAuthenticatePlain in H.
  destruct (ReadFrom _ _ body) as [err|req]; [injection H as <- <-; done|]. intros ->.
  unfold bind at 1, get in H. destruct (decide (state c = stateAwaitAuth)) as [Hst|Hst].
  2: { rewrite decide_True in H by done. by apply replyAuth_Ok in H as (n & -> & ?). }
  rewrite decide_False in H by tauto. unfold bind at 1, attempt at 1, lift in H.
  destruct (ParsePlain _) as [creds|e|]; [|by apply replyAuth_Ok in H as (n & -> & ?)|done].
  unfold bind at 1, attempt, lookupTenant in H.
  destruct (Get (store E) (Username creds) (history E (gets c))).1 as [t|e|];
    [by apply replyAuth_Ok in H as (n & -> & ?)..|done].
Qed.

(** C14: the lazy dial, which happens once a PLAIN client is authenticated: the
    connection opened is to the upstream address of the tenant the client
    authenticated as, and kroxy logged in there as that tenant with the very
    password the client sent: with PLAIN, or, when the configuration asks for a
    SCRAM mechanism upstream, by the exchange the SCRAM client makes of the same
    tenant id and password for that mechanism; the broker accepted every step.
    Nothing changed but the connection, the script of dials and the log, which got
    one record, without the password. *)
Theorem upstream_login c c' :
  ensureUpstream E c = (Ok tt, c') -> upstream c = None ->
  let translated := shouldTranslatePlainToSCRAM E c in
  let hsq := k_SASLHandshakeRequest _ (codecs E) in
  let hsr := k_SASLHandshakeResponse _ (codecs E) in
  let auq := k_SASLAuthenticateRequest _ (codecs E) in
  let aur := k_SASLAuthenticateResponse _ (codecs E) in
  exists n u, dials c = inr n :: dials c' /\
    dialed c' = dialed c ++ [Upstream (tenant c)] /\ upstream c' = Some u /\
    (if translated
     then scram_logged_in (AppendRequest E) hsq hsr auq aur (avRequest E) (Authenticate E) (Challenge E)
            n (UpstreamSASLMechanism (cfg E)) (ID (tenant c)) (password c) u
     else logged_in (AppendRequest E) hsq hsr auq aur (avRequest E) n (ID (tenant c)) (password c) u) /\
    c' = set_log (Log LevelInfo "upstream connected"
           [("addr", AStr (Upstream (tenant c))); ("tenant_id", AStr (ID (tenant c)));
            ("upstream_mechanism",
               AStr (if translated then UpstreamSASLMechanism (cfg E) else clientMechanism c))] (log c))
         (set_upstream (Some u) (set_dialed (dialed c') (set_dials (dials c') c))).
Proof.
  intros H Hu. cbv zeta. unfold ensureUpstream, bind at 1, get in H. rewrite Hu in H.
  unfold bind at 1, nextDial in H. unfold bind at 1, attempt, runDial, upDial, upDialSCRAM in H.
  destruct (shouldTranslatePlainToSCRAM E c) eqn:Et.
  - destruct (dials c) as [|[e|n] ds] eqn:Ed; cbn [hd tl] in H; [unfold DialSCRAM in H; by destruct (negb _)..|].
    destruct (DialSCRAM _ _ _ _ _ _ _ _ (inr n) _ _ _ None) as [[[]|e|] s] eqn:Edial; [|done..].
    apply DialSCRAM_Ok in Edial as (u & -> & Hl). injection H as <-. exists n, u. by split_and!.
  - destruct (dials c) as [|[e|n] ds] eqn:Ed; cbn [hd tl] in H; [done..|].
    destruct (Dial _ _ _ _ _ _ (inr n) _ _ None) as [[[]|e|] s] eqn:Edial; [|done..].
    apply Dial_Ok in Edial as (u & -> & Hl). injection H as <-. exists n, u. by split_and!.
Qed.

(** C22: kroxy never waits for a client without a deadline: every read from the
    client is made with a deadline of 30 seconds until the connection is
    authenticated and of ten minutes afterwards. *)
Theorem client_reads_bounded c r c' :
  serveStep E c = (r, c') ->
  exists k, reads (client c') = reads (client c) ++
    replicate k (Some (if decide (state c = stateAuthenticated) then clientIdleTimeout
                       else clientHandshakeTimeout)).
Proof.
  intros H. apply serveStep_spec in H as ((k & Hk) & _). exists k. rewrite Hk. unfold readTimeout.
  repeat case_decide; done || tauto.
Qed.

Lemma serveLoop_metrics fuel c : metrics_ok c -> metrics_ok (serveLoop E fuel c).2.
Proof.
  revert c. induction fuel as [|fuel IH]; intros c Hc; [done|]. simpl. unfold bind.
  destruct (serveStep E c) as [r c1] eqn:Es. apply serveStep_spec in Es as (_ & _ & Hm).
  destruct r as [[]|e|]; [apply IH|..]; auto.
Qed.

(** No client can create metric labels: whatever mechanism names and payloads it
    sends, the SASL counter of a process that started with empty metrics only has
    the three supported mechanisms or "unknown", and the six fixed results, as
    labels. *)
Theorem sasl_labels_bounded nc lg ds cx m ls :
  metrics (runConn nc (Some NewMetrics) lg ds cx).2 = Some m -> is_Some (SaslHandshakeTotal m !! ls) ->
  exists mech r, ls = [mech; r] /\ mech ∈ mechLabels /\ r ∈ resultLabels.
Proof.
  intros Hm [v Hv].
  pose proof (serveLoop_metrics (S (length (rx nc))) (newConn nc (Some NewMetrics) lg ds cx)) as H.
  unfold runConn, serve in Hm. unfold metrics_ok in H. simpl client in Hm. rewrite Hm in H.
  apply (H (map_Forall_empty _) ls v Hv).
Qed.
End Theorems.

(** The API key of a frame that parses. *)
Lemma ParseRequestHeader_key frame hdr :
  ParseRequestHeader frame = Ok hdr ->
  8 <= len frame /\ APIKey hdr = int16 (be_decode (take 2 frame)).
Proof.
  unfold ParseRequestHeader. destruct (Z.ltb_spec (len frame) 8) as [|Hlen]; [done|].
  rewrite slice_Ok by lia. intros H. split; [done|]. cbn [rbind] in H.
  apply rbind_Ok in H as (v & _ & H). apply rbind_Ok in H as (c & _ & H).
  apply rbind_Ok in H as ([id off] & _ & H). apply rbind_Ok in H as (off' & _ & H).
  by injection H as <-.
Qed.

(** The frames of a stream are determined by it. *)
Lemma frame_bytes_nonempty b x : frame_bytes b ++ x <> [].
Proof. intros H%(f_equal length). unfold frame_bytes in H. rewrite !length_app, be_encode_length in H. simpl in H. lia. Qed.
Lemma sent_elem qs0 frame : Forall legal qs0 -> sent (concat (map frame_bytes qs0)) frame -> frame ∈ qs0.
Proof.
  intros Hl (qs & rest & Hq & Hf & H). revert qs0 Hl H. induction Hq as [|q qs Hq _ IH]; intros qs0 Hl H.
  - destruct Hl as [|q0 qs0 Hq0 _]; simpl in H; [by symmetry in H; apply frame_bytes_nonempty in H|].
    apply frame_bytes_inj in H as [-> _]; [|done..]. left.
  - simpl in H. rewrite <-app_assoc in H.
    destruct Hl as [|q0 qs0 Hq0 Hl]; simpl in H; [by symmetry in H; apply frame_bytes_nonempty in H|].
    apply frame_bytes_inj in H as [_ H]; [|done..]. right. by apply IH.
Qed.

(** ** The demonstration run *)

(** Its clients keep to the advertised APIs. *)
Lemma demo_keys_of user :
  Forall legal [DemoProxy.request SaslHandshakeKey 1 11 (bytes_of_string MechanismPlain);
                DemoProxy.request SaslAuthenticateKey 1 12 (plainPayload user "pw");
                DemoProxy.request MetadataKey 1 13 (bytes_of_string "orders")] ->
  rewritten_only DemoProxy.env (rx (DemoProxy.client_of user)).
Proof.
  intros Hl frame hdr Hs Hp. apply ParseRequestHeader_key in Hp as [_ Hk].
  change (rx (DemoProxy.client_of user)) with (concat (map frame_bytes
    [DemoProxy.request SaslHandshakeKey 1 11 (bytes_of_string MechanismPlain);
     DemoProxy.request SaslAuthenticateKey 1 12 (plainPayload user "pw");
     DemoProxy.request MetadataKey 1 13 (bytes_of_string "orders")])) in Hs.
  apply sent_elem in Hs; [|done].
  repeat (apply elem_of_cons in Hs as [->|Hs]); [..|by apply elem_of_nil in Hs]; rewrite Hk.
  - left. right. left. by vm_compute.
  - left. right. right. by vm_compute.
  - right. replace (int16 _) with MetadataKey by (vm_compute; reflexivity). discriminate.
Qed.
Lemma demo_keys : rewritten_only DemoProxy.env (rx DemoProxy.client).
Proof. apply (demo_keys_of "bob"). by repeat constructor. Qed.
Abbreviation demo_run :=
  (runConn DemoProxy.env DemoProxy.client (Some NewMetrics) DemoProxy.logger [inr DemoProxy.broker] []).

(** The fourth write of the run, a metadata request, is not one of kroxy's own
    requests: their API keys differ. *)
Lemma key_not_own w : w !! 5%nat = Some Byte.x03 -> ~ own_write DemoProxy.env w.
Proof.
  intros H5 (req & cid & k & Hown & Hw). apply (f_equal (lookup 5%nat)) in Hw. rewrite H5 in Hw.
  assert (5 < k)%nat as Hk.
  { apply Nat.nle_gt. intros Hk. by rewrite lookup_take_ge in Hw by lia. }
  rewrite lookup_take_lt in Hw by lia.
  assert (Key req = ApiVersionsKey \/ Key req = SaslHandshakeKey \/ Key req = SaslAuthenticateKey) as HK
    by (destruct Hown as [->|[[m ->]|[p ->]]]; auto).
  assert (Some Byte.x03 = be_encode 2 (Key req) !! 1%nat) as Hw'.
  { rewrite Hw. change (AppendRequest DemoProxy.env) with DemoBroker.AppendRequest.
    unfold DemoBroker.AppendRequest, frame_bytes.
    rewrite lookup_app_r by (rewrite be_encode_length; lia). rewrite be_encode_length.
    by rewrite lookup_app_l by (rewrite be_encode_length; lia). }
  destruct HK as [HK|[HK|HK]]; rewrite HK in Hw'; by vm_compute in Hw'.
Qed.
Lemma metadata_sent_not_own : ~ own_write DemoProxy.env DemoProxy.metadata_sent.
Proof. apply key_not_own. by vm_compute. Qed.

Lemma demo_fourth_write :
  exists u, upstream demo_run.2 = Some u /\ DemoProxy.metadata_sent ∈ tx (Upstream.nc u).
Proof.
  assert ((u ← upstream demo_run.2; tx (Upstream.nc u) !! 3%nat) = Some DemoProxy.metadata_sent) as H
    by (vm_compute; reflexivity).
  destruct (upstream demo_run.2) as [u|]; [|done]. exists u. split; [done|].
  by apply list_elem_of_lookup_2 in H.
Qed.
Abbreviation alice_run :=
  (runConn DemoProxy.env (DemoProxy.client_of "alice") None DemoProxy.logger [inr DemoProxy.broker] []).
Lemma alice_fourth_write :
  exists u, upstream alice_run.2 = Some u /\ DemoProxy.sent "alice-orders" ∈ tx (Upstream.nc u).
Proof.
  assert ((u ← upstream alice_run.2; tx (Upstream.nc u) !! 3%nat) = Some (DemoProxy.sent "alice-orders")) as H
    by (vm_compute; reflexivity).
  destruct (upstream alice_run.2) as [u|]; [|done]. exists u. split; [done|].
  by apply list_elem_of_lookup_2 in H.
Qed.

Lemma tenants_isolated_witness :
  exists q1 q2,
    carries DemoProxy.env (rx DemoProxy.client) "bob-" DemoProxy.metadata_sent q1 /\
    carries DemoProxy.env (rx (DemoProxy.client_of "alice")) "alice-" (DemoProxy.sent "alice-orders") q2.
Proof.
  destruct demo_fourth_write as (u1 & Hu1 & Hw1). destruct alice_fourth_write as (u2 & Hu2 & Hw2).
  assert (TopicPrefix (tenant demo_run.2) = "bob-"%string) as Ep1 by (vm_compute; reflexivity).
  assert (TopicPrefix (tenant alice_run.2) = "alice-"%string) as Ep2 by (vm_compute; reflexivity).
  pose proof (tenants_isolated DemoProxy.env _ _ _ _ _ u1 _ _ _ _ _ _ u2 _ DemoProxy.dial_fresh
    DemoProxy.dial_fresh demo_keys
    (demo_keys_of "alice" ltac:(by repeat constructor)) Hu1 Hw1 metadata_sent_not_own Hu2 Hw2
    ltac:(apply key_not_own; by vm_compute)) as H.
  cbv zeta in H. rewrite Ep1, Ep2 in H. destruct H as (q1 & q2 & H1 & H2 & _).
  { split; vm_compute; reflexivity. }
  exists q1, q2. exact (conj H1 H2).
Defined.

Lemma broker_traffic_witness :
  exists frame hdr, sent (rx DemoProxy.client) frame /\ ParseRequestHeader frame = Ok hdr /\
    (rewritten_write DemoProxy.env (tenant demo_run.2) hdr frame DemoProxy.metadata_sent \/
     passthrough_write DemoProxy.env hdr frame DemoProxy.metadata_sent).
Proof.
  destruct demo_fourth_write as (u & Hu & Hw).
  destruct (proj1 (broker_traffic DemoProxy.env DemoProxy.client (Some NewMetrics) DemoProxy.logger [inr DemoProxy.broker] []
    DemoProxy.dial_fresh) u _ Hu Hw) as [H|(_ & _ & H)]; [destruct (metadata_sent_not_own H)|exact H].
Defined.

Lemma authenticated_means_witness :
  registered DemoProxy.env tenants (tenant demo_run.2).
Proof.
  pose proof (authenticated_means DemoProxy.env tenants (fun s => well_formed (tenants s)) DemoProxy.store_well_formed DemoProxy.client
    (Some NewMetrics) DemoProxy.logger [inr DemoProxy.broker] [] DemoProxy.dial_fresh) as H.
  assert (state demo_run.2 = stateAuthenticated) as E by (vm_compute; reflexivity).
  cbv zeta in H. rewrite E in H. exact (proj1 (proj2 H)).
Defined.

Lemma broker_names_isolated_witness :
  registered DemoProxy.env tenants (tenant demo_run.2) /\ TopicPrefix (tenant demo_run.2) <> "".
Proof.
  destruct demo_fourth_write as (u & Hu & Hw).
  destruct (broker_names_isolated DemoProxy.env tenants (fun s => well_formed (tenants s)) DemoProxy.store_well_formed DemoProxy.client
    (Some NewMetrics) DemoProxy.logger [inr DemoProxy.broker] [] u _ DemoProxy.dial_fresh Hu Hw)
    as [H|(H1 & H2 & _)]; [destruct (metadata_sent_not_own H)|exact (conj H1 H2)].
Defined.

(** The three iterations of the run, each answered. *)
Lemma demo_step1 : serveStep DemoProxy.env DemoProxy.c0 = (Ok tt, DemoProxy.c1).
Proof. by vm_compute. Qed.
Lemma demo_step2 : serveStep DemoProxy.env DemoProxy.c1 = (Ok tt, DemoProxy.c2).
Proof. by vm_compute. Qed.
Lemma demo_step3 : serveStep DemoProxy.env DemoProxy.c2 = (Ok tt, DemoProxy.c3).
Proof. by vm_compute. Qed.
Lemma demo_reachable : reachable DemoProxy.env DemoProxy.c2.
Proof.
  eapply reach_step, demo_step2. eapply reach_step, demo_step1. apply reach_new, DemoProxy.dial_fresh.
Qed.

Lemma authenticated_frozen_witness :
  state DemoProxy.c3 = stateAuthenticated /\ tenant DemoProxy.c3 = tenant DemoProxy.c2.
Proof.
  apply (authenticated_frozen DemoProxy.env DemoProxy.c2 (Ok tt) DemoProxy.c3 demo_reachable);
    [vm_compute; reflexivity|exact demo_step3].
Defined.

Lemma serve_terminates_witness :
  serveLoop DemoProxy.env 100 DemoProxy.c0 = serve DemoProxy.env DemoProxy.c0.
Proof. apply (serve_terminates DemoProxy.env 100 DemoProxy.c0). vm_compute. lia. Defined.

Lemma responses_match_requests_witness :
  exists c1 qs rs, exchanged (client DemoProxy.c0) (client c1) qs rs /\
    rtc (step DemoProxy.env) DemoProxy.c0 c1.
Proof.
  destruct (responses_match_requests DemoProxy.env DemoProxy.c0
    (serve DemoProxy.env DemoProxy.c0).1 (serve DemoProxy.env DemoProxy.c0).2
    (surjective_pairing _)) as (c1 & qs & rs & H & Hs & _).
  exists c1, qs, rs. split; [exact H|exact Hs].
Defined.

Lemma client_reads_bounded_witness :
  exists k, reads (client DemoProxy.c1) =
    reads (client DemoProxy.c0) ++ replicate k (Some clientHandshakeTimeout).
Proof. exact (client_reads_bounded DemoProxy.env DemoProxy.c0 _ _ demo_step1). Defined.

Lemma sasl_labels_bounded_witness :
  exists mech r, [MechanismPlain; "ok"] = [mech; r] /\ mech ∈ mechLabels /\ r ∈ resultLabels.
Proof.
  assert (exists m, metrics demo_run.2 = Some m /\ is_Some (SaslHandshakeTotal m !! [MechanismPlain; "ok"]))
    as (m & Hm & Hl).
  { assert ((m ← metrics demo_run.2; SaslHandshakeTotal m !! [MechanismPlain; "ok"]) = Some 1) as H
      by (vm_compute; reflexivity).
    destruct (metrics demo_run.2) as [m|]; [|done]. exists m. split; [done|]. by exists 1. }
  exact (sasl_labels_bounded DemoProxy.env _ _ _ _ _ _ Hm Hl).
Defined.

Definition demo_auth : RequestHeader := MkHeader SaslAuthenticateKey 1 12 "" 1 10.
Lemma plain_login_witness :
  let c := (handleSaslAuthenticate DemoProxy.env demo_auth (plainPayload "bob" "pw") DemoProxy.c1).2 in
  state c = stateAuthenticated /\ password c = "pw".
Proof.
  pose proof (plain_login DemoProxy.env demo_auth (plainPayload "bob" "pw") DemoProxy.c1 _ _
    ltac:(vm_compute; reflexivity) (surjective_pairing _)) as H.
  cbv zeta in H. change (ReadFrom _ _ (plainPayload "bob" "pw"))
    with (inr (A:=error) (SASLAuthenticateRequest.Mk (plainPayload "bob" "pw"))) in H.
  cbv iota in H. destruct (H ltac:(vm_compute; reflexivity)) as [H1 _]. clear H.
  rewrite decide_True in H1 by (vm_compute; reflexivity).
  change (ParsePlain _) with (Ok (MkPlain "" "bob" "pw")) in H1.
  cbv beta iota delta [Username] in H1.
  assert ((Get (store DemoProxy.env) "bob" (history DemoProxy.env (gets DemoProxy.c1))).1
          = Ok DemoTenants.bob) as Eg by (vm_compute; reflexivity).
  rewrite Eg in H1.
  exact (conj (proj1 H1) (proj1 (proj2 (proj2 H1)))).
Defined.

Lemma upstream_login_witness :
  dialed (ensureUpstream DemoProxy.env DemoProxy.c2).2 = ["kafka:9092"%string].
Proof.
  destruct (upstream_login DemoProxy.env DemoProxy.c2 (ensureUpstream DemoProxy.env DemoProxy.c2).2
    ltac:(vm_compute; reflexivity) ltac:(vm_compute; reflexivity))
    as (n & u & _ & Hd & _).
  rewrite Hd. reflexivity.
Defined.
