(* ===== verification/ScramLogin.v ===== *)
(** A SCRAM login on a connection (conn.go, handleSaslAuthenticateSCRAM), on every
    branch: what becomes of the connection and what the client is told. *)
From Stdlib Require Import ZArith Lia.
From stdpp Require Import base list gmap strings tactics.
From S2P Require Import Prelude GoStrings GoNet Protocol ProtocolFacts Kmsg Auth Resolver ResolverFacts.
From S2P Require Import Upstream UpstreamTheorems Observability ProxyConn Serve ProxyDemo ProxyTheorems.
Local Open Scope Z_scope.

Section Scram.
Context {X Session St : Type} (E : Env X Session St).

(** The response to the client: code, message and SASL payload. *)
Definition repliedWith (hdr : RequestHeader) (code : Z) (msg : option string) (payload : list byte)
    (n n' : NetConn) : Prop :=
  wire n' = wire n ++ frame_bytes (EncodeResponse
    (AppendTo (k_SASLAuthenticateResponse _ (codecs E)) (APIVersion hdr)
       (SASLAuthenticateResponse.Mk code msg payload)) (CorrelationID hdr) (APIKey hdr) (APIVersion hdr)).
Lemma replyAuth_with hdr code msg p c c' :
  replyAuth E hdr code msg p c = (Ok tt, c') ->
  exists n, c' = set_client n c /\ repliedWith hdr code msg p (client c) n.
Proof.
  unfold replyAuth, writeResponse. intros H%wrap_Ok. unfold on_client, zoom in H.
  match type of H with context [WriteFrame ?b] => destruct (WriteFrame_spec b (client c)) as (_ & _ & Hw) end.
  destruct (WriteFrame _ (client c)) as [r n]. injection H as -> <-. exists n. split; [done|]. by apply Hw.
Qed.

(** One relayed round from [c] to [c']: the broker's answer to the client's payload
    is passed back as it is; an accepted round is counted, and the second one
    authenticates the connection. *)
Definition relayed (hdr : RequestHeader) (payload : list byte) (c c' : conn) : Prop :=
  exists u u' resp code msg,
    upstream c = Some u /\ upRelay E payload u = (Ok (resp, code, msg), u') /\ upstream c' = Some u' /\
    tenant c' = tenant c /\ dialed c' = dialed c /\
    repliedWith hdr code (if (msg =? "")%string then None else Some msg) resp (client c) (client c') /\
    if code =? 0 then
      scramRoundsCompleted c' = scramRoundsCompleted c + 1 /\
      state c' = (if 2 <=? scramRoundsCompleted c + 1 then stateAuthenticated else state c)
    else scramRoundsCompleted c' = scramRoundsCompleted c /\ state c' = state c.

Lemma scramRelay_Ok hdr payload c c' :
  scramRelay E hdr payload c = (Ok tt, c') -> relayed hdr payload c c'.
Proof.
  unfold scramRelay, bind at 1, get. intros H. unfold bind at 1, attempt, on_up in H.
  destruct (upstream c) as [u|] eqn:Eu; [|done].
  destruct (upRelay E payload u) as [[[[resp code] msg]|e|] u'] eqn:Er; [|done..]. cbn iota in H.
  exists u, u', resp, code, msg. split; [done|]. split; [done|].
  destruct (code =? 0) eqn:Ec; cbn [negb] in H.
  - unfold bind at 1, modify in H. unfold bind at 1, get in H. cbn [scramRoundsCompleted set_scramRoundsCompleted
      set_upstream] in H.
    destruct (2 <=? scramRoundsCompleted c + 1);
      apply replyAuth_with in H as (n & -> & Hn); by split_and!.
  - apply replyAuth_with in H as (n & -> & Hn). by split_and!.
Qed.

(** The dial of the first message. *)
Definition scramDial (c : conn) : res unit * option Conn :=
  upDialForSCRAM E (hd (inl (ErrSent (Err_env 0))) (dials c)) (clientMechanism c) None.

(** What the first message does, for the tenant [t] it names. *)
Definition first_round (hdr : RequestHeader) (payload : list byte) (t : Tenant) (c c' : conn) : Prop :=
  dialed c' = dialed c ++ [Upstream t] /\ tenant c' = t /\
  match scramDial c with
  | (Ok _, Some u) =>
      exists c1, upstream c1 = Some u /\ tenant c1 = t /\ client c1 = client c /\
        dialed c1 = dialed c ++ [Upstream t] /\ state c1 = stateRelaySaslInFlight /\
        scramRoundsCompleted c1 = scramRoundsCompleted c /\ relayed hdr payload c1 c'
  | (Err _, _) =>
      state c' = stateAwaitAuth /\ upstream c' = upstream c /\
      repliedWith hdr errSaslAuthFailed (Some "upstream unavailable"%string) [] (client c) (client c')
  | _ => False
  end.

(** The connection after a reply that refuses the login. *)
Definition refused (hdr : RequestHeader) (code : Z) (msg : string) (c c' : conn) : Prop :=
  state c' = state c /\ tenant c' = tenant c /\ upstream c' = upstream c /\ dialed c' = dialed c /\
  repliedWith hdr code (Some msg) [] (client c) (client c').
Lemma reply_refused hdr code msg f c c' :
  (let! _ := meter f in replyAuth E hdr code (Some msg) []) c = (Ok tt, c') -> refused hdr code msg c c'.
Proof. intros H. apply replyAuth_with in H as (n & -> & Hn). by split_and!. Qed.

(** A reply after which the relay is not entered. *)
Lemma reply_false mech res l txt args hdr code msg c go c' :
  (let! _ := observeHandshake mech res in
   let! _ := logs l txt args in
   let! _ := replyAuth E hdr code (Some msg) [] in ret false) c = (Ok go, c') ->
  go = false /\ exists m lg n, c' = set_client n (set_log lg (set_metrics m c)) /\
    repliedWith hdr code (Some msg) [] (client c) n.
Proof.
  intros H. apply bind_Ok in H as (? & c1 & [= _ <-] & H). apply bind_Ok in H as (? & c1 & [= _ <-] & H).
  apply bind_Ok in H as ([] & c1 & H1 & H). injection H as <- <-.
  apply replyAuth_with in H1 as (n & -> & Hn). split; [done|]. by eexists _, _, n.
Qed.

(** The first message, up to the relay. *)
Lemma scramFirst_Ok hdr payload c go c' :
  scramFirst E hdr payload c = (Ok go, c') ->
  match ParseSCRAMClientFirstUsername payload with
  | Ok user =>
      match (Get (store E) user (history E (gets c))).1 with
      | Ok t =>
          dialed c' = dialed c ++ [Upstream t] /\ tenant c' = t /\
          match scramDial c with
          | (Ok _, Some u) => go = true /\ upstream c' = Some u /\ client c' = client c /\
              state c' = stateRelaySaslInFlight /\ scramRoundsCompleted c' = scramRoundsCompleted c
          | (Err _, _) => go = false /\ state c' = state c /\ upstream c' = upstream c /\
              repliedWith hdr errSaslAuthFailed (Some "upstream unavailable"%string) [] (client c) (client c')
          | _ => False
          end
      | Err _ => go = false /\ refused hdr errSaslAuthFailed "authentication failed" c c'
      | Panic => False
      end
  | Err _ => go = false /\ refused hdr errSaslAuthFailed "malformed SCRAM client-first-message" c c'
  | Panic => False
  end.
Proof.
  unfold scramFirst, bind at 1, get. intros H. unfold bind at 1, attempt at 1, lift in H.
  destruct (ParseSCRAMClientFirstUsername payload) as [user|e|]; [| |done]; cbn iota in H.
  2: { apply reply_false in H as (-> & m & lg & n & -> & Hn). by split_and!. }
  unfold bind at 1, attempt at 1, lookupTenant in H.
  destruct (Get (store E) user (history E (gets c))).1 as [t|e|]; [| |done]; cbn iota in H.
  2: { apply bind_Ok in H as (? & c1 & [= _ <-] & H).
       apply reply_false in H as (-> & m & lg & n & -> & Hn). by split_and!. }
  unfold bind at 1, meter at 1, modify at 1 in H. unfold bind at 1, modify at 1 in H.
  unfold bind at 1, nextDial in H. unfold bind at 1, attempt, runDial in H. unfold scramDial.
  change (dials (set_tenant _ _)) with (dials c) in H.
  destruct (upDialForSCRAM E _ _ None) as [[a|e|] [u|]]; cbn iota in H; try done.
  - injection H as <- <-. by split_and!.
  - apply bind_Ok in H as (? & c1 & [= _ <-] & H).
    apply reply_false in H as (-> & m & lg & n & -> & Hn). by split_and!.
  - apply bind_Ok in H as (? & c1 & [= _ <-] & H).
    apply reply_false in H as (-> & m & lg & n & -> & Hn). by split_and!.
Qed.

(** C13: a SCRAM login, on every branch.  The first message must name a tenant of the
    store; kroxy dials that tenant's broker with the client's mechanism and relays
    the message, and from then on every payload is passed to that broker and its
    answer back to the client unchanged; the second accepted round authenticates
    the connection.  A malformed first message, an unknown user and a failed dial
    are answered with code 58 and leave the connection waiting for a login; in any
    other state the answer is code 34 and nothing changes. *)
Theorem scram_login hdr body req c c' :
  ReadFrom (k_SASLAuthenticateRequest _ (codecs E)) (APIVersion hdr) body = inr req ->
  IsSCRAMMechanism (clientMechanism c) = true ->
  handleSaslAuthenticate E hdr body c = (Ok tt, c') ->
  let payload := SASLAuthenticateRequest.SASLAuthBytes req in
  match state c with
  | stateAwaitAuth =>
      match ParseSCRAMClientFirstUsername payload with
      | Ok user =>
          match (Get (store E) user (history E (gets c))).1 with
          | Ok t => first_round hdr payload t c c'
          | Err _ => refused hdr errSaslAuthFailed "authentication failed" c c'
          | Panic => False
          end
      | Err _ => refused hdr errSaslAuthFailed "malformed SCRAM client-first-message" c c'
      | Panic => False
      end
  | stateRelaySaslInFlight => relayed hdr payload c c'
  | _ => refused hdr errIllegalSaslState "SASL handshake required" c c'
  end.
Proof.
  intros Hreq Hm H payload. unfold handleSaslAuthenticate, bind at 1, get in H. rewrite Hm in H.
  unfold handleSaslAuthenticateSCRAM in H. rewrite Hreq in H. unfold bind at 1, get in H. fold payload in H.
  destruct (state c) eqn:Est.
  - rewrite decide_True in H by done. by apply reply_refused in H.
  - rewrite decide_False, decide_True in H by (done || tauto).
    apply bind_Ok in H as (go & c1 & H1 & H). apply scramFirst_Ok in H1.
    destruct (ParseSCRAMClientFirstUsername payload) as [user|e|]; [| |done].
    2: { destruct H1 as [-> H1]. by injection H as ->. }
    destruct (Get (store E) user (history E (gets c))).1 as [t|e|]; [| |done].
    2: { destruct H1 as [-> H1]. by injection H as ->. }
    destruct H1 as (Hd & Ht & H1). unfold first_round. destruct (scramDial c) as [[a|e|] [u|]]; try done.
    + destruct H1 as (-> & ? & ? & ? & ?). apply scramRelay_Ok in H. pose proof H as (u1 & u2 & r & co & ms & _ & _ & _ & Ht' & Hd' & _).
      split_and!; [congruence|congruence|]. by exists c1.
    + destruct H1 as (-> & ? & ? & ?). injection H as ->. rewrite Est in *. by split_and!.
    + destruct H1 as (-> & ? & ? & ?). injection H as ->. rewrite Est in *. by split_and!.
  - rewrite decide_False, decide_False in H by (done || tauto). by apply scramRelay_Ok in H.
  - rewrite decide_True in H by done. by apply reply_refused in H.
Qed.
End Scram.

(** * Witness: the first round of a SCRAM login of bob *)
Module DemoScram.
Definition hdr : RequestHeader := MkHeader SaslAuthenticateKey 1 12 "" 1 10.
Definition message : list byte := bytes_of_string "n,,n=bob,r=fyko".
Definition broker : NetConn := DemoBroker.broker
  [be_encode 4 1; be_encode 4 2 ++ be_encode 2 0;
   be_encode 4 3 ++ be_encode 2 0 ++ bytes_of_string "r=fyko3rf,s=QSXC,i=4096"].
Definition c : conn :=
  set_state stateAwaitAuth (set_clientMechanism MechanismSCRAMSHA256
    (newConn DemoProxy.client None DemoProxy.logger [inr broker] [])).
End DemoScram.

Lemma scram_login_witness :
  let c' := (handleSaslAuthenticate DemoProxy.env DemoScram.hdr DemoScram.message DemoScram.c).2 in
  first_round DemoProxy.env DemoScram.hdr DemoScram.message DemoTenants.bob DemoScram.c c' /\
  state c' = stateRelaySaslInFlight /\ scramRoundsCompleted c' = 1 /\ dialed c' = ["kafka:9092"%string].
Proof.
  pose proof (scram_login DemoProxy.env DemoScram.hdr DemoScram.message
    (SASLAuthenticateRequest.Mk DemoScram.message) DemoScram.c
    (handleSaslAuthenticate DemoProxy.env DemoScram.hdr DemoScram.message DemoScram.c).2
    eq_refl eq_refl ltac:(vm_compute; reflexivity)) as H.
  cbv zeta in H. change (state DemoScram.c) with stateAwaitAuth in H. cbv iota in H.
  assert (ParseSCRAMClientFirstUsername (SASLAuthenticateRequest.SASLAuthBytes
            (SASLAuthenticateRequest.Mk DemoScram.message)) = Ok "bob"%string) as Ep
    by (vm_compute; reflexivity).
  rewrite Ep in H.
  assert ((Get (store DemoProxy.env) "bob" (history DemoProxy.env (gets DemoScram.c))).1
          = Ok DemoTenants.bob) as Eg by (vm_compute; reflexivity).
  rewrite Eg in H. split; [exact H|]. split_and!; vm_compute; reflexivity.
Defined.
