(* ===== verification/Lookups.v ===== *)
(** What a connection depends on of the tenant store: the states its lookups find, in
    order, each iteration of [serve] only on the lookup it makes, and a connection
    past its login on none. *)
From Stdlib Require Import ZArith Lia.
From stdpp Require Import base list strings relations tactics.
From S2P Require Import Prelude GoNet Protocol Kmsg Auth Resolver Upstream Observability.
From S2P Require Import ProxyConn Handlers Serve ProxyFacts Answers ProxyTheorems.

Section Lookups.
Context {X Session St : Type} (E : Env X Session St).

Definition with_history (h : nat -> St) : Env X Session St :=
  MkEnv (codecs E) (debugFields E) (AppendRequest E) (avRequest E) (Authenticate E) (Challenge E)
    (store E) h (cfg E).

(** A computation of a connection whose lookups find the states [h]: it makes them
    in order, and depends on those it makes only. *)
Definition local {A} (m : (nat -> St) -> M conn A) : Prop :=
  forall h c, gets c <= gets (m h c).2 /\
    forall h', (forall k, gets c <= k < gets (m h c).2 -> h' k = h k) -> m h' c = m h c.

(** No lookup, the same tenant, and no way back to the SASL phase. *)
Definition past (c : conn) : Prop := state c = stateRelaySaslInFlight \/ state c = stateAuthenticated.
Definition steady (c c' : conn) : Prop := gets c' = gets c /\ tenant c' = tenant c /\ (past c -> past c').
#[local] Instance steady_pre : PreOrder steady.
Proof.
  split; [done|]. intros a b c (H1 & H2 & H3) (H4 & H5 & H6). split_and!; [congruence|congruence|auto].
Qed.

Lemma local_const {A} (m : M conn A) : (forall c, gets (m c).2 = gets c) -> local (fun _ => m).
Proof. intros Hm h c. split; [rewrite (Hm c); lia|done]. Qed.
Lemma local_steady {A} (m : M conn A) : preserves steady m -> local (fun _ => m).
Proof. intros Hm. apply local_const. intros c. apply (Hm c). Qed.
Lemma local_bind {A B} (m : (nat -> St) -> M conn A) (k : (nat -> St) -> A -> M conn B) :
  local m -> (forall a, local (fun h => k h a)) -> local (fun h => bind (m h) (k h)).
Proof.
  intros Hm Hk h c. destruct (Hm h c) as [Hle He]. unfold bind.
  destruct (m h c) as [[a|e|] c1] eqn:Em; simpl in *.
  - destruct (Hk a h c1) as [Hle' He']. split; [lia|]. intros h' Hh.
    rewrite He by (intros j ?; apply Hh; lia). apply He'. intros j ?. apply Hh. lia.
  - split; [done|]. intros h' Hh. by rewrite He.
  - split; [done|]. intros h' Hh. by rewrite He.
Qed.
Lemma local_wrap {A} msg (m : (nat -> St) -> M conn A) : local m -> local (fun h => wrap msg (m h)).
Proof.
  intros Hm h c. rewrite wrap_state. destruct (Hm h c) as [Hle He]. split; [done|].
  intros h' Hh. unfold wrap. by rewrite He.
Qed.
Lemma local_attempt {A} (m : (nat -> St) -> M conn A) : local m -> local (fun h => attempt (m h)).
Proof.
  intros Hm h c. rewrite attempt_state. destruct (Hm h c) as [Hle He]. split; [done|].
  intros h' Hh. unfold attempt. by rewrite He.
Qed.
Lemma local_lookup id : local (fun h => lookupTenant (with_history h) id).
Proof.
  intros h c. unfold lookupTenant. simpl. split; [lia|]. intros h' Hh. by rewrite (Hh (gets c)) by lia.
Qed.

Lemma only_logs_steady m : only_logs m -> preserves steady m.
Proof. intros Hm c. destruct (Hm c) as [lg Ec]. by rewrite Ec. Qed.
Lemma on_client_steady {A} (m : M NetConn A) : preserves steady (on_client m).
Proof. intros c. unfold on_client, zoom. by destruct (m (client c)). Qed.
Lemma on_up_steady {A} (m : M Conn A) : preserves steady (on_up m).
Proof. intros c. unfold on_up. destruct (upstream c); [|done]. by destruct (m c0). Qed.
Lemma runDial_steady m : preserves steady (runDial m).
Proof. intros c. unfold runDial. by destruct (m None) as [[] []]. Qed.
Ltac steadily := intros ?; split; [reflexivity|split; [reflexivity|first [exact (fun H => H)|by right]]].
Ltac leafS := idtac; match goal with
  | |- preserves _ (modify _) => steadily
  | |- preserves _ (meter _) => steadily
  | |- preserves _ (observeHandshake _ _) => steadily
  | |- preserves _ (nextDial _) => steadily
  | |- preserves _ ctxErr => steadily
  | |- preserves _ (logs _ _ _) => apply only_logs_steady; auto with kroxy
  | |- preserves _ (debugReq _ _ _ _) => apply only_logs_steady; auto with kroxy
  | |- preserves _ (debugResp _ _) => apply only_logs_steady; auto with kroxy
  | |- preserves _ (on_up _) => apply on_up_steady
  | |- preserves _ (on_client _) => apply on_client_steady
  | |- preserves _ (runDial _) => apply runDial_steady
  | |- preserves _ (writeResponse _ _) => apply preserves_wrap, on_client_steady
  | |- preserves _ (replyAuth _ _ _ _ _) => apply preserves_wrap, on_client_steady
  | |- preserves _ panic => intros ?; reflexivity
  end.
Ltac walkS := walk_with leafS.
Ltac steady_run := match goal with
  | |- steady ?c (?m ?c).2 => let H := fresh in assert (preserves steady m) as H by walkS; exact (H c)
  end.

Lemma ensureUpstream_steady : preserves steady (ensureUpstream E).
Proof. unfold ensureUpstream. walkS. Qed.
Lemma cycle_steady {Q R} fn key (kq : Codec Q) (kr : Codec R) rin guard dbg out hdr body :
  preserves steady (cycle E fn key kq kr rin guard dbg out hdr body).
Proof. unfold cycle, roundTripTyped, writeTypedResponse. walkS. Qed.
Lemma rewriteHandler_steady key h hdr body : rewriteHandler E key = Some h -> preserves steady (h hdr body).
Proof.
  unfold rewriteHandler. intros H.
  repeat match type of H with (if ?b then _ else _) = _ => destruct b end; [..|done];
    injection H as <-; apply cycle_steady.
Qed.
Lemma scramRelay_steady hdr p : preserves steady (scramRelay E hdr p).
Proof. unfold scramRelay. walkS. Qed.
(** The requests of an authenticated client. *)
Lemma forward_steady hdr frame body :
  preserves steady (match rewriteHandler E (APIKey hdr) with
                    | Some _ => forwardRewritten E hdr body
                    | None => forwardPassthrough E hdr frame
                    end).
Proof.
  destruct (rewriteHandler E (APIKey hdr)) as [h|] eqn:Eh.
  - unfold forwardRewritten. rewrite Eh. walkS; [apply ensureUpstream_steady|by eapply rewriteHandler_steady].
  - unfold forwardPassthrough. walkS. apply ensureUpstream_steady.
Qed.

(** ** A connection that is past its login *)
Definition onward (c c' : conn) : Prop := past c -> steady c c'.
#[local] Instance onward_pre : PreOrder onward.
Proof.
  split; [done|]. intros a b c H1 H2 Ha. specialize (H1 Ha). etrans; [done|]. apply H2. by apply H1.
Qed.
Lemma steady_onward {A} (m : M conn A) : preserves steady m -> preserves onward m.
Proof. intros Hm c _. apply Hm. Qed.

Lemma handshake_onward hdr body : preserves onward (handleSaslHandshake E hdr body).
Proof.
  intros c Hp. unfold handleSaslHandshake. destruct (ReadFrom _ _ _) as [e|req]; [done|].
  unfold bind at 1, get. rewrite decide_True by (destruct Hp as [-> | ->]; done).
  steady_run.
Qed.
Lemma authenticate_onward hdr body : preserves onward (handleSaslAuthenticate E hdr body).
Proof.
  intros c Hp. unfold handleSaslAuthenticate, bind at 1, get. destruct (IsSCRAMMechanism _).
  - unfold handleSaslAuthenticateSCRAM. destruct (ReadFrom _ _ _) as [e|req]; [done|].
    unfold bind at 1, get. case_decide as Hd.
    + steady_run.
    + rewrite decide_False by (destruct Hp as [-> | ->]; done).
      unfold bind, ret. apply (scramRelay_steady hdr _ c).
  - unfold handleSaslAuthenticatePlain. destruct (ReadFrom _ _ _) as [e|req]; [done|].
    unfold bind at 1, get. rewrite decide_True by (destruct Hp as [-> | ->]; done).
    steady_run.
Qed.
Lemma dispatch_onward hdr frame body : preserves onward (dispatch E hdr frame body).
Proof.
  unfold dispatch. destruct (_ =? ApiVersionsKey)%Z; [apply steady_onward, preserves_wrap, on_client_steady|].
  destruct (_ =? SaslHandshakeKey)%Z; [apply handshake_onward|].
  destruct (_ =? SaslAuthenticateKey)%Z; [apply authenticate_onward|].
  apply preserves_bind; [apply _|apply preserves_get, _|intros c].
  apply steady_onward. case_decide; [walkS|apply forward_steady].
Qed.
(** A connection that is past its login stays so, as the same tenant, and never looks
    the store up again. *)
Lemma serveStep_onward : preserves onward (serveStep E).
Proof.
  unfold serveStep, serveFrame. walk_with (first [apply dispatch_onward|apply steady_onward; leafS]).
Qed.

(** ** How often *)
Definition same_gets (c c' : conn) : Prop := gets c' = gets c.
#[local] Instance same_gets_pre : PreOrder same_gets.
Proof. unfold same_gets. split; [done|]. intros a b c. congruence. Qed.
Lemma steady_same_gets {A} (m : M conn A) : preserves steady m -> preserves same_gets m.
Proof. intros Hm c. apply (Hm c). Qed.
Ltac walkG := walk_with (first [intros ?; reflexivity|apply steady_same_gets; leafS]).

(** At most one lookup. *)
Definition once {A} (m : M conn A) : Prop := forall c, gets (m c).2 <= S (gets c).
Lemma once_none {A} (m : M conn A) : preserves same_gets m -> once m.
Proof. intros Hm c. specialize (Hm c). unfold same_gets in Hm. lia. Qed.
Lemma once_late {A B} (m : M conn A) (k : A -> M conn B) :
  preserves same_gets m -> (forall a, once (k a)) -> once (bind m k).
Proof.
  intros Hm Hk c. specialize (Hm c). unfold same_gets in Hm. unfold bind.
  destruct (m c) as [[a|e|] c1]; simpl in *; [|lia..]. rewrite <-Hm. apply Hk.
Qed.
Lemma once_early {A B} (m : M conn A) (k : A -> M conn B) :
  once m -> (forall a, preserves same_gets (k a)) -> once (bind m k).
Proof.
  intros Hm Hk c. specialize (Hm c). unfold bind.
  destruct (m c) as [[a|e|] c1]; simpl in *; [|lia..]. specialize (Hk a c1). unfold same_gets in Hk. lia.
Qed.
Lemma once_attempt {A} (m : M conn A) : once m -> once (attempt m).
Proof. intros Hm c. rewrite attempt_state. apply Hm. Qed.
Lemma once_lookup id : once (attempt (lookupTenant E id)).
Proof. apply once_attempt. intros c. simpl. lia. Qed.

Lemma scramFirst_once hdr p : once (scramFirst E hdr p).
Proof.
  unfold scramFirst. apply once_late; [walkG|intros c]. apply once_late; [walkG|intros [err|user]].
  - apply once_none. walkG.
  - apply once_early; [apply once_lookup|intros ?; walkG].
Qed.
Lemma handleSaslAuthenticate_once hdr body : once (handleSaslAuthenticate E hdr body).
Proof.
  unfold handleSaslAuthenticate. apply once_late; [walkG|intros c]. destruct (IsSCRAMMechanism _).
  - unfold handleSaslAuthenticateSCRAM. destruct (ReadFrom _ _ _); [apply once_none; walkG|].
    apply once_late; [walkG|intros c']. case_decide; [apply once_none; walkG|].
    apply once_early; [case_decide; [apply scramFirst_once|apply once_none; walkG]|].
    intros [|]; [apply steady_same_gets, scramRelay_steady|walkG].
  - unfold handleSaslAuthenticatePlain. destruct (ReadFrom _ _ _); [apply once_none; walkG|].
    apply once_late; [walkG|intros c']. case_decide; [apply once_none; walkG|].
    apply once_late; [walkG|intros [err|creds]]; [apply once_none; walkG|].
    apply once_early; [apply once_lookup|intros ?; walkG].
Qed.
Lemma dispatch_once hdr frame body : once (dispatch E hdr frame body).
Proof.
  unfold dispatch. destruct (_ =? ApiVersionsKey)%Z.
  { apply once_none, steady_same_gets, preserves_wrap, on_client_steady. }
  destruct (_ =? SaslHandshakeKey)%Z; [apply once_none; unfold handleSaslHandshake; walkG|].
  destruct (_ =? SaslAuthenticateKey)%Z; [apply handleSaslAuthenticate_once|].
  apply once_none. apply preserves_bind; [apply _|apply preserves_get, _|intros c].
  apply steady_same_gets. case_decide; [walkS|apply forward_steady].
Qed.
(** An iteration of [serve] looks the store up at most once: it is one step of a
    system in which the store changes between such steps. *)
Lemma serveStep_once : once (serveStep E).
Proof.
  unfold serveStep. apply once_late; [walkG|intros [err|]]; [apply once_none; walkG|].
  apply once_late; [walkG|intros c]. apply once_late; [walkG|intros _].
  apply once_late; [walkG|intros [err|frame]]; [apply once_none; walkG|].
  unfold serveFrame. do 3 (apply once_late; [walkG|intros ?]).
  apply once_early; [apply once_attempt, dispatch_once|intros r; walkG].
Qed.
End Lookups.

(** ** Whole steps *)
Section Steps.
Context {X Session St : Type} (E : Env X Session St).
Implicit Types h : nat -> St.
Abbreviation at_history h := (with_history E h).

(** What does not look the store up does not depend on the history. *)
Lemma replyAuth_local hdr code msg p : local (fun h => replyAuth (at_history h) hdr code msg p).
Proof. exact (local_steady (replyAuth E hdr code msg p) (preserves_wrap _ _ _ (on_client_steady _))). Qed.
Lemma scramDial_local d mech : local (fun h => runDial (upDialForSCRAM (at_history h) d mech)).
Proof. exact (local_steady (runDial (upDialForSCRAM E d mech)) (runDial_steady _)). Qed.
Lemma scramRelay_local hdr p : local (fun h => scramRelay (at_history h) hdr p).
Proof. exact (local_steady (scramRelay E hdr p) (scramRelay_steady E hdr p)). Qed.
Lemma forward_local hdr frame body :
  local (fun h => match rewriteHandler (at_history h) (APIKey hdr) with
                  | Some _ => forwardRewritten (at_history h) hdr body
                  | None => forwardPassthrough (at_history h) hdr frame
                  end).
Proof. exact (local_steady _ (forward_steady E hdr frame body)). Qed.
Lemma handleSaslHandshake_local hdr body : local (fun h => handleSaslHandshake (at_history h) hdr body).
Proof.
  apply (local_const (handleSaslHandshake E hdr body)). intros c. unfold handleSaslHandshake.
  destruct (ReadFrom _ _ _) as [e|req]; [done|]. unfold bind at 1, get. unfold bind at 1.
  case_decide; [|destruct (_ && _)]; simpl;
    match goal with |- context [writeResponse hdr ?f ?c1] =>
      apply (preserves_wrap steady _ _ (on_client_steady _) c1) end.
Qed.

Ltac leafL := idtac; match goal with
  | |- local (fun h => replyAuth _ _ _ _ _) => apply replyAuth_local
  | |- local (fun h => lookupTenant _ _) => apply local_lookup
  | |- local (fun h => scramRelay _ _ _) => apply scramRelay_local
  | |- local (fun h => runDial _) => apply scramDial_local
  | |- local (fun h => on_client _) => apply (local_steady (on_client _)), on_client_steady
  | |- local (fun h => logs _ _ _) => apply (local_steady (logs _ _ _)), only_logs_steady; auto with kroxy
  | |- local (fun h => get) => apply (local_const get); intros ?; reflexivity
  | |- local (fun h => ret ?a) => apply (local_const (ret a)); intros ?; reflexivity
  | |- local (fun h => fail ?e) => apply (local_const (fail e)); intros ?; reflexivity
  | |- local (fun h => lift ?r) => apply (local_const (lift r)); intros ?; reflexivity
  | |- local (fun h => modify ?f) => apply (local_const (modify f)); intros ?; reflexivity
  | |- local (fun h => meter ?f) => apply (local_const (meter f)); intros ?; reflexivity
  | |- local (fun h => observeHandshake ?a ?b) => apply (local_const (observeHandshake a b)); intros ?; reflexivity
  | |- local (fun h => nextDial ?a) => apply (local_const (nextDial a)); intros ?; reflexivity
  | |- local (fun h => ctxErr) => apply (local_const ctxErr); intros ?; reflexivity
  end.
Ltac walkL := repeat match goal with
  | |- local (fun h => bind _ _) => apply local_bind; [|intros ?]
  | |- local (fun h => wrap _ _) => apply local_wrap
  | |- local (fun h => attempt _) => apply local_attempt
  | |- local _ => first [leafL | progress case_match]
  end.

Lemma scramFirst_local hdr p : local (fun h => scramFirst (at_history h) hdr p).
Proof. unfold scramFirst. walkL. Qed.
Lemma handleSaslAuthenticate_local hdr body : local (fun h => handleSaslAuthenticate (at_history h) hdr body).
Proof.
  unfold handleSaslAuthenticate, handleSaslAuthenticateSCRAM, handleSaslAuthenticatePlain.
  cbn [codecs with_history]. walkL. apply scramFirst_local.
Qed.
Lemma dispatch_local hdr frame body : local (fun h => dispatch (at_history h) hdr frame body).
Proof.
  unfold dispatch. destruct (_ =? ApiVersionsKey)%Z.
  { exact (local_steady (handleApiVersions E hdr body) (preserves_wrap _ _ _ (on_client_steady _))). }
  destruct (_ =? SaslHandshakeKey)%Z; [apply handleSaslHandshake_local|].
  destruct (_ =? SaslAuthenticateKey)%Z; [apply handleSaslAuthenticate_local|].
  apply local_bind; [leafL|intros c]. case_decide; [walkL|apply forward_local].
Qed.
Lemma serveStep_local : local (fun h => serveStep (at_history h)).
Proof. unfold serveStep, serveFrame. walkL. apply dispatch_local. Qed.

Lemma serveStep_history h h' c r c' :
  serveStep (at_history h) c = (r, c') -> (forall k, gets c <= k < gets c' -> h' k = h k) ->
  serveStep (at_history h') c = (r, c').
Proof. intros Hs Hh. destruct (serveStep_local h c) as [_ He]. rewrite Hs in He. by apply He. Qed.
Lemma serveStep_gets h c r c' : serveStep (at_history h) c = (r, c') -> gets c <= gets c'.
Proof. intros Hs. destruct (serveStep_local h c) as [Hle _]. by rewrite Hs in Hle. Qed.
Lemma steps_gets h c c' : rtc (step (at_history h)) c c' -> gets c <= gets c'.
Proof. induction 1 as [|c c1 c' Hs%serveStep_gets]; lia. Qed.
Lemma steps_history h h' c c' :
  rtc (step (at_history h)) c c' -> (forall k, gets c <= k < gets c' -> h' k = h k) ->
  rtc (step (at_history h')) c c'.
Proof.
  induction 1 as [|c c1 c' Hs Hr IH]; intros Hh; [constructor|].
  pose proof (serveStep_gets _ _ _ _ Hs). pose proof (steps_gets _ _ _ Hr).
  eapply rtc_l; [|apply IH; intros k ?; apply Hh; lia].
  eapply serveStep_history; [exact Hs|]. intros k ?. apply Hh. lia.
Qed.
(** A connection past its login does not depend on the store. *)
Lemma past_history h h' c : past c -> serveStep (at_history h') c = serveStep (at_history h) c.
Proof.
  intros Hp. destruct (serveStep (at_history h) c) as [r c'] eqn:Hs. eapply serveStep_history; [exact Hs|].
  pose proof (serveStep_onward (at_history h) c Hp) as (Hg & _). rewrite Hs in Hg. simpl in Hg. lia.
Qed.

(** Iterations that go on, and one that does not, are the loop. *)
Lemma steps_serve h c c1 r c' :
  rtc (step (at_history h)) c c1 -> serveStep (at_history h) c1 = (r, c') -> r <> Ok tt ->
  serve (at_history h) c = (r, c').
Proof.
  intros Hr He Hne. unfold serve.
  cut (forall fuel, (length (rx (client c)) < fuel)%nat -> serveLoop (at_history h) fuel c = (r, c')).
  { intros H. apply H. lia. }
  induction Hr as [c1|c c2 c1 Hs _ IH]; intros [|fuel] Hf; try lia; simpl; unfold bind.
  - rewrite He. by destruct r as [[]|e|].
  - pose proof (serveStep_spec _ _ _ _ Hs) as (_ & Hlt & _). specialize (Hlt eq_refl). rewrite Hs.
    apply IH; [done|lia].
Qed.
End Steps.

