(* ===== verification/System.v ===== *)
(** The running proxy: connections, the administration and the store they share.

    Everything else about a connection is proved for one connection against any
    sequence of states its lookups find in the store ([history]).  Here any number
    of connections and of RPC handlers run interleaved on one store.  The store is
    all they share: an iteration of [serve] calls it at most once ([serveStep_once]),
    and everything else it does (reading, dialling for seconds, answering) is
    private to its connection.  So an iteration is two events, its lookup and its
    completion, with any events of others in between; likewise an RPC is its call
    of the store and its log record.  Every connection is shown to be a run alone
    against states the store really had, in order.  On that rests the documented
    effect of administration on clients. *)
From Stdlib Require Import ZArith Lia.
From stdpp Require Import base list gmap strings relations tactics.
From S2P Require Import Prelude GoNet Protocol Kmsg Auth Resolver ResolverFacts Upstream.
From S2P Require Import UpstreamTheorems Http Observability Admin ProxyConn Serve Messages Writes ProxyFacts.
From S2P Require Import ProxyDemo ProxyTheorems Lookups.

(** * The system *)

(** [Server.handle] before and after [serve]. *)
Definition opened (c : conn) : conn := set_metrics (incConnections <$> metrics c) c.
Definition finished (r : res unit) (c : conn) : conn :=
  let c := match r with
           | Err err =>
               if Is err errClientClosed then c
               else set_log (Log LevelWarn "connection terminated" [("err", AErr err)] (log c)) c
           | _ => c
           end in
  close (set_metrics (decActive <$> metrics c) c).
Lemma handle_parts {X Session St} (E : Env X Session St) c r c' :
  serve E (opened c) = (r, c') -> handle E c = (r, finished r c').
Proof. intros H. unfold handle. fold (opened c). rewrite H. by destruct r. Qed.

(** An RPC between its call of the store and its log record: the reply it will give,
    and the record it will write (message and tenant). *)
Record pending : Type := MkPending { answer : reply; note : option (string * string) }.

Record System (St : Type) : Type := MkSystem {
  svc : Service St;
  rpcs : gmap nat pending;
  serving : gmap nat conn;                    (* as the last completed iteration left it *)
  looked : gmap nat St;                       (* what the iteration in progress found in the store *)
  ended : gmap nat (res unit * conn);         (* [handle] has returned *)
  up : bool                                   (* no handler has panicked *)
}.
Arguments MkSystem {St} svc rpcs serving looked ended up.
Arguments svc {St} _.
Arguments rpcs {St} _.
Arguments serving {St} _.
Arguments looked {St} _.
Arguments ended {St} _.
Arguments up {St} _.

Inductive sysevent : Type :=
| ERpc (i : nat) (method : string) (ps : Params)  (* an RPC calls the store *)
| EReply (i : nat)                                (* it logs and replies *)
| EConnect (n : nat) (nc : NetConn) (m : option Metrics) (lg : Logger) (ds : list (error + NetConn))
    (cx : list (option sentinel))
| EGet (n : nat)                                  (* an iteration of [serve] calls [Get], if it does *)
| EServe (n : nat).                               (* it completes *)

Section System.
Context {X Session St : Type} (E : Env X Session St) (Error : error -> string).
Context (BindSet : Params -> error + SetParams.t) (BindDelete : Params -> error + DeleteParams.t).

(** A method up to and including its call of the store, and the rest of it. *)
Definition noted (msg id : string) (r : error + unit) : pending :=
  match r with
  | inl err => MkPending (RErr (mapErr Error err)) None
  | inr _ => MkPending (ROK (OKResult.Mk true)) (Some (msg, id))
  end.
Definition refused (err : error) : pending := MkPending (RErr (RPCError CodeInvalid (Error err))) None.
Definition begin_ (method : string) (ps : Params) : option (M St pending) :=
  if (method =? "Tenants.Set")%string then
    Some (match BindSet ps with
          | inl err => ret (refused err)
          | inr in_ =>
              let! r := attempt (Set_ (store E) (MkTenant (SetParams.ID in_) (SetParams.TopicPrefix in_)
                                                   (SetParams.Upstream in_))) in
              ret (noted "tenant created" (SetParams.ID in_) r)
          end)
  else if (method =? "Tenants.Delete")%string then
    Some (match BindDelete ps with
          | inl err => ret (refused err)
          | inr in_ =>
              let! r := attempt (Delete (store E) (DeleteParams.ID in_)) in
              ret (noted "tenant deleted" (DeleteParams.ID in_) r)
          end)
  else if (method =? "Tenants.List")%string then
    Some (let! r := attempt (List (store E)) in
          ret (MkPending (match r with
                          | inl err => RErr (mapErr Error err)
                          | inr tenants => RList (ListResult.Mk (map viewOf tenants))
                          end) None))
  else None.
Definition conclude (p : pending) (lg : Logger) : Logger :=
  match note p with
  | Some (msg, id) => Log LevelInfo msg [("tenant_id"%string, AStr id)] lg
  | None => lg
  end.

(** The two halves, with nothing in between, are the method. *)
Lemma Registry_halves method ps h :
  Registry (store E) Error BindSet BindDelete method ps = Some h ->
  exists m, begin_ method ps = Some m /\ forall s,
    h s = match m (svcStore s) with
          | (Ok p, st) => (Ok (answer p), MkService st (conclude p (svcLog s)))
          | (Err e, st) => (Err e, MkService st (svcLog s))
          | (Panic, st) => (Panic, MkService st (svcLog s))
          end.
Proof.
  unfold Registry, begin_. intros H.
  repeat match type of H with (if ?b then _ else _) = _ => destruct b end; [..|done];
    injection H as <-; (eexists; split; [reflexivity|]); intros [st lg];
    unfold ServiceSet, ServiceDelete, ServiceList, bind, attempt, on_store, zoom, ret; cbn [svcStore];
    repeat (case_match; simplify_eq/=); done.
Qed.

Definition env_at (st : St) : Env X Session St := with_history E (fun _ => st).

Definition sys_act (e : sysevent) (s : System St) : option (System St) :=
  if negb (up s) then None
  else match e with
  | ERpc i method ps =>
      match rpcs s !! i, begin_ method ps with
      | None, Some m =>
          match m (svcStore (svc s)) with
          | (Ok p, st) => Some (MkSystem (MkService st (svcLog (svc s))) (<[i := p]> (rpcs s)) (serving s) (looked s)
                                     (ended s) true)
          | _ => None                              (* not for a lawful store: [begin_returns] *)
          end
      | _, _ => None
      end
  | EReply i =>
      p ← rpcs s !! i;
      Some (MkSystem (MkService (svcStore (svc s)) (conclude p (svcLog (svc s)))) (delete i (rpcs s))
              (serving s) (looked s) (ended s) true)
  | EConnect n nc m lg ds cx =>
      match serving s !! n, ended s !! n with
      | None, None =>
          Some (MkSystem (svc s) (rpcs s) (<[n := opened (newConn nc m lg ds cx)]> (serving s)) (looked s)
                  (ended s) true)
      | _, _ => None
      end
  | EGet n =>
      match serving s !! n, looked s !! n with
      | Some _, None =>
          Some (MkSystem (svc s) (rpcs s) (serving s) (<[n := svcStore (svc s)]> (looked s)) (ended s) true)
      | _, _ => None
      end
  | EServe n =>
      c ← serving s !! n;
      st ← looked s !! n;
      match serveStep (env_at st) c with
      | (Ok _, c') =>
          Some (MkSystem (svc s) (rpcs s) (<[n := c']> (serving s)) (delete n (looked s)) (ended s) true)
      | (r, c') =>
          Some (MkSystem (svc s) (rpcs s) (delete n (serving s)) (delete n (looked s))
                  (<[n := (r, finished r c')]> (ended s)) (match r with Panic => false | _ => true end))
      end
  end.
Fixpoint sys_acts (es : list sysevent) (s : System St) : option (System St) :=
  match es with
  | [] => Some s
  | e :: es => s1 ← sys_act e s; sys_acts es s1
  end.

(** The system when the process has started its servers. *)
Definition boot (s : Service St) : System St := MkSystem s ∅ ∅ ∅ ∅ true.
(** The store after the first [n] events of a run. *)
Definition store_at (es : list sysevent) (s0 : System St) (n : nat) : St :=
  match sys_acts (take n es) s0 with
  | Some s => svcStore (svc s)
  | None => svcStore (svc s0)
  end.

(** * What the administration does to the store *)
Context (table : St -> gmap string Tenant) (StInv : St -> Prop) `{!ResolverLaws (store E) table StInv}.

(** The effect a pending RPC has had. *)
Definition effect (method : string) (ps : Params) (p : pending) (m m' : gmap string Tenant) : Prop :=
  match note p with
  | None => m' = m
  | Some (msg, id) =>
      (msg = "tenant created"%string /\ m !! id = None /\ (exists t, ID t = id /\ m' = <[id := t]> m) /\
       method = "Tenants.Set"%string /\ exists in_, BindSet ps = inr in_ /\ SetParams.ID in_ = id) \/
      (msg = "tenant deleted"%string /\ is_Some (m !! id) /\ m' = delete id m)
  end.
(** A mutator that was refused, and one that was not. *)
Lemma attempt_refused {A B} (op : M St A) st x (k : error + A -> B) :
  outcome (op st).1 (Some x) -> exists err, bind (attempt op) (fun r => ret (k r)) st = (Ok (k (inl err)), (op st).2).
Proof.
  intros (err & He & _). exists err. unfold bind, attempt. destruct (op st) as [r st']. simpl in He. by rewrite He.
Qed.
Lemma attempt_done {B} (op : M St unit) st (k : error + unit -> B) :
  outcome (op st).1 None -> bind (attempt op) (fun r => ret (k r)) st = (Ok (k (inr tt)), (op st).2).
Proof. intros ([] & He). unfold bind, attempt. destruct (op st) as [r st']. simpl in He. by rewrite He. Qed.

Lemma begin_returns method ps m st :
  begin_ method ps = Some m -> StInv st ->
  exists p st', m st = (Ok p, st') /\ StInv st' /\ effect method ps p (table st) (table st').
Proof.
  unfold begin_. intros H HI. destruct (String.eqb_spec method "Tenants.Set") as [Em|_].
  { injection H as <-. destruct (BindSet ps) as [err|in_] eqn:Eb; [by eexists _, _|].
    set (t := MkTenant _ _ _). pose proof (Set_law st t HI) as Hs. unfold spec_Set in Hs.
    case_decide; [destruct (table st !! ID t) eqn:El|]; destruct Hs as (Ho & Ht & Hi);
      [destruct (attempt_refused _ _ _ (noted "tenant created" (SetParams.ID in_)) Ho) as [err ->]; by eexists _, _| |
       destruct (attempt_refused _ _ _ (noted "tenant created" (SetParams.ID in_)) Ho) as [err ->]; by eexists _, _].
    rewrite attempt_done by done. eexists _, _. split_and!; [done..|].
    left. split_and!; [done|done|by exists t|done|by exists in_]. }
  destruct (_ =? "Tenants.Delete")%string.
  { injection H as <-. destruct (BindDelete ps) as [err|in_] eqn:Eb; [by eexists _, _|].
    pose proof (Delete_law st (DeleteParams.ID in_) HI) as Hs. unfold spec_Delete in Hs.
    case_decide; [|destruct (table st !! DeleteParams.ID in_) eqn:El]; destruct Hs as (Ho & Ht & Hi);
      [destruct (attempt_refused _ _ _ (noted "tenant deleted" (DeleteParams.ID in_)) Ho) as [err ->]; by eexists _, _| |
       destruct (attempt_refused _ _ _ (noted "tenant deleted" (DeleteParams.ID in_)) Ho) as [err ->]; by eexists _, _].
    rewrite attempt_done by done. eexists _, _. split_and!; [done..|]. right. by rewrite El. }
  destruct (_ =? "Tenants.List")%string; [|done]. injection H as <-.
  destruct (List_law st HI) as (l & El & _). unfold bind, attempt. rewrite El. by eexists _, _.
Qed.

(** ** Runs *)
Lemma sys_acts_app es1 es2 s : sys_acts (es1 ++ es2) s = (s1 ← sys_acts es1 s; sys_acts es2 s1).
Proof. revert s. induction es1 as [|e es IH]; intros s; simpl; [done|]. by destruct (sys_act e s); simpl; [apply IH|]. Qed.
Lemma sys_acts_snoc es e s s' :
  sys_acts (es ++ [e]) s = Some s' -> exists s1, sys_acts es s = Some s1 /\ sys_act e s1 = Some s'.
Proof.
  rewrite sys_acts_app. destruct (sys_acts es s) as [s1|]; [|done]. simpl.
  destruct (sys_act e s1) as [s2|] eqn:Es; [|done]. intros [= ->]. eauto.
Qed.
Lemma sys_act_StInv e s s' : sys_act e s = Some s' -> StInv (svcStore (svc s)) -> StInv (svcStore (svc s')).
Proof.
  unfold sys_act. intros H HI. destruct (up s); [|done]. destruct e as [i method ps|i|n nc m lg ds cx|n|n]; simpl in H.
  - destruct (rpcs s !! i); [done|]. destruct (begin_ method ps) as [m|] eqn:Eb; [|done].
    destruct (begin_returns _ _ _ _ Eb HI) as (p & st' & Em & Hi & _). rewrite Em in H. by injection H as <-.
  - destruct (rpcs s !! i); [|done]. by injection H as <-.
  - by destruct (serving s !! n), (ended s !! n); simplify_eq.
  - by destruct (serving s !! n), (looked s !! n); simplify_eq.
  - destruct (serving s !! n), (looked s !! n); try done. simpl in H.
    destruct (serveStep _ _) as [[] ?]; by injection H as <-.
Qed.
Lemma sys_acts_StInv es s s' : sys_acts es s = Some s' -> StInv (svcStore (svc s)) -> StInv (svcStore (svc s')).
Proof.
  revert s. induction es as [|e es IH]; intros s H HI; simpl in H; [by simplify_eq|].
  destruct (sys_act e s) as [s1|] eqn:Es; [|done]. eauto using sys_act_StInv.
Qed.
Lemma store_at_StInv es s0 n : StInv (svcStore (svc s0)) -> StInv (store_at es s0 n).
Proof. intros HI. unfold store_at. destruct (sys_acts _ s0) eqn:Es; [|done]. by eapply sys_acts_StInv. Qed.
Lemma store_at_app es es' s0 n : n <= length es -> store_at (es ++ es') s0 n = store_at es s0 n.
Proof. intros Hn. unfold store_at. by rewrite take_app_le. Qed.
Lemma store_at_end es es' s0 s :
  sys_acts es s0 = Some s -> store_at (es ++ es') s0 (length es) = svcStore (svc s).
Proof. intros H. unfold store_at. by rewrite take_app_length, H. Qed.

(** ** One connection of the system *)

(** Moments of a run, one for each lookup, in order. *)
Definition moments (es : list sysevent) (t : nat -> nat) : Prop :=
  (forall j k, j <= k -> t j <= t k) /\ forall k, t k <= length es.
(** [P] holds of a connection [n] alone, whose lookups find the states the store had
    at some moments of the run. *)
Definition alone_at (es : list sysevent) (s0 : System St) (n : nat)
    (P : (nat -> nat) -> (nat -> St) -> conn -> Prop) : Prop :=
  exists nc m lg ds cx t, EConnect n nc m lg ds cx ∈ es /\ moments es t /\
    P t (fun k => store_at es s0 (t k)) (newConn nc m lg ds cx).
Definition alone (es : list sysevent) (s0 : System St) (n : nat) (P : (nat -> St) -> conn -> Prop) : Prop :=
  alone_at es s0 n (fun _ => P).

Definition conn_serving (c : conn) (h : nat -> St) (c0 : conn) : Prop :=
  rtc (step (with_history E h)) (opened c0) c.
Definition conn_ended (r : res unit) (c : conn) (h : nat -> St) (c0 : conn) : Prop :=
  exists c1 c2, conn_serving c1 h c0 /\ serveStep (with_history E h) c1 = (r, c2) /\ r <> Ok tt /\
    c = finished r c2.

Lemma alone_snoc es e s0 n (P : (nat -> St) -> conn -> Prop) :
  (forall h h' c, (forall k, h' k = h k) -> P h c -> P h' c) ->
  alone es s0 n P -> alone (es ++ [e]) s0 n P.
Proof.
  intros HP (nc & m & lg & ds & cx & t & Hin & [Hmono Hle] & H). exists nc, m, lg, ds, cx, t.
  split_and!; [apply elem_of_app; by left| |].
  - split; [done|]. intros k. specialize (Hle k). rewrite length_app. lia.
  - eapply HP; [|exact H]. intros k. by rewrite store_at_app.
Qed.
Lemma conn_serving_ext c h h' c0 : (forall k, h' k = h k) -> conn_serving c h c0 -> conn_serving c h' c0.
Proof. intros Hh H. eapply steps_history; [exact H|auto]. Qed.
Lemma conn_ended_ext r c h h' c0 : (forall k, h' k = h k) -> conn_ended r c h c0 -> conn_ended r c h' c0.
Proof.
  intros Hh (c1 & c2 & H1 & H2 & H3 & H4). exists c1, c2.
  split; [by eapply conn_serving_ext|]. split; [eapply serveStep_history; [exact H2|auto]|by split].
Qed.

(** The state [st] is the one of a moment of the run, not before the moments [t] of the
    lookups [c] has made. *)
Definition found_at (es : list sysevent) (s0 : System St) (st : St) (c : conn) (t : nat -> nat) : Prop :=
  exists i, i <= length es /\ store_at es s0 i = st /\ forall k, k < gets c -> t k <= i.
Definition conn_looked (es : list sysevent) (s0 : System St) (st : St) (c : conn)
    (t : nat -> nat) (h : nat -> St) (c0 : conn) : Prop :=
  conn_serving c h c0 /\ found_at es s0 st c t.
Lemma looked_snoc es e s0 n st c :
  alone_at es s0 n (conn_looked es s0 st c) -> alone_at (es ++ [e]) s0 n (conn_looked (es ++ [e]) s0 st c).
Proof.
  intros (nc & m & lg & ds & cx & t & Hin & [Hmono Hle] & H & i & Hi & Hst & Ht). exists nc, m, lg, ds, cx, t.
  split_and!; [apply elem_of_app; by left| |split].
  - split; [done|]. intros k. specialize (Hle k). rewrite length_app. lia.
  - eapply conn_serving_ext; [|exact H]. intros k. by rewrite store_at_app.
  - exists i. rewrite length_app, store_at_app by done. split_and!; [lia|done..].
Qed.
(** The lookup of an iteration. *)
Lemma alone_look es e s0 s n c :
  sys_acts es s0 = Some s -> alone es s0 n (conn_serving c) ->
  alone_at (es ++ [e]) s0 n (conn_looked (es ++ [e]) s0 (svcStore (svc s)) c).
Proof.
  intros Hes (nc & m & lg & ds & cx & t & Hin & [Hmono Hle] & H). apply looked_snoc.
  exists nc, m, lg, ds, cx, t. split_and!; [done..|]. split; [done|]. exists (length es).
  split; [done|]. split; [by rewrite <-(store_at_end es [] s0 s Hes), app_nil_r|by intros k _].
Qed.
(** Its completion, against what the lookup found. *)
Lemma alone_step es e s0 n st c r c' :
  alone_at es s0 n (conn_looked es s0 st c) -> serveStep (env_at st) c = (r, c') ->
  alone (es ++ [e]) s0 n (fun h c0 => conn_serving c h c0 /\ serveStep (with_history E h) c = (r, c')).
Proof.
  intros (nc & m & lg & ds & cx & t & Hin & [Hmono Hle] & H & i & Hi & <- & Ht) Hs.
  exists nc, m, lg, ds, cx, (fun k => if decide (k < gets c) then t k else i).
  split_and!; [apply elem_of_app; by left|split|..].
  - intros j k Hjk. repeat case_decide; auto; lia.
  - intros k. pose proof (Hle k). rewrite length_app. case_decide; lia.
  - eapply steps_history; [exact H|]. intros k [_ Hk]. rewrite decide_True by done. by rewrite store_at_app.
  - eapply serveStep_history; [exact Hs|]. intros k [Hk _]. rewrite decide_False by lia.
    by rewrite store_at_app.
Qed.

Record SysInv (es : list sysevent) (s0 s : System St) : Prop := MkSysInv {
  si_serving : forall n c, serving s !! n = Some c -> alone es s0 n (conn_serving c);
  si_looked : forall n st, looked s !! n = Some st ->
    exists c, serving s !! n = Some c /\ alone_at es s0 n (conn_looked es s0 st c);
  si_ended : forall n r c, ended s !! n = Some (r, c) -> alone es s0 n (conn_ended r c)
}.
Lemma boot_SysInv sv : SysInv [] (boot sv) (boot sv).
Proof. split; simpl; intros n *; by rewrite lookup_empty. Qed.
Lemma SysInv_snoc es e s0 s s' :
  SysInv es s0 s -> serving s' = serving s -> looked s' = looked s -> ended s' = ended s ->
  SysInv (es ++ [e]) s0 s'.
Proof.
  intros [H1 H2 H3] E1 E2 E3. split; rewrite ?E1, ?E2, ?E3.
  - intros n c Hn. apply (alone_snoc _ _ _ _ (conn_serving c)); [intros *; apply conn_serving_ext|by apply H1].
  - intros n st Hn. destruct (H2 n st Hn) as (c & Hc & Ha). exists c. split; [done|by apply looked_snoc].
  - intros n r c Hn. apply (alone_snoc _ _ _ _ (conn_ended r c)); [intros *; apply conn_ended_ext|by apply H3].
Qed.
(** The completed iteration of the connection [n]. *)
Lemma serve_SysInv es s0 s s' n :
  sys_act (EServe n) s = Some s' -> SysInv es s0 s -> SysInv (es ++ [EServe n]) s0 s'.
Proof.
  intros H HI. unfold sys_act in H. destruct (up s); [|done]. cbn [negb] in H.
  destruct (serving s !! n) as [c|] eqn:Ec; [|done]. destruct (looked s !! n) as [st|] eqn:El; [|done]. simpl in H.
  destruct (si_looked _ _ _ HI n st El) as (c0 & [= <-]%(eq_trans (eq_sym Ec)) & Ha).
  destruct (serveStep _ c) as [r c'] eqn:Es. apply (alone_step es (EServe n) s0 n st c r c') in Ha; [|done].
  pose proof (SysInv_snoc es (EServe n) s0 s s HI eq_refl eq_refl eq_refl) as [H1 H2 H3]. clear HI.
  destruct Ha as (nc & m & lg & ds & cx & t & Hin & Ht & Hc & Hs).
  assert (forall (f : gmap nat conn) n' st', (forall j, j <> n -> f !! j = serving s !! j) ->
    delete n (looked s) !! n' = Some st' -> exists c1, f !! n' = Some c1 /\
      alone_at (es ++ [EServe n]) s0 n' (conn_looked (es ++ [EServe n]) s0 st' c1)) as H2'.
  { intros f n' st' Hf [Hne Hl]%lookup_delete_Some. rewrite Hf by done. by apply H2. }
  assert (forall n' r0 c1, r <> Ok tt -> <[n := (r, finished r c')]> (ended s) !! n' = Some (r0, c1) ->
    alone (es ++ [EServe n]) s0 n' (conn_ended r0 c1)) as H3'.
  { intros n' r0 c1 Hr [[<- [= <- <-]]|[_ Hl]]%lookup_insert_Some; [|by apply H3].
    exists nc, m, lg, ds, cx, t. split_and!; [done..|]. by exists c, c'. }
  destruct r as [[]|err|]; injection H as <-; split; simpl; try done; try (intros; by apply H3').
  3,5: intros n' c1 [_ Hl]%lookup_delete_Some; by apply H1.
  - intros n' c1 [[<- <-]|[_ Hl]]%lookup_insert_Some; [|by apply H1].
    exists nc, m, lg, ds, cx, t. split_and!; [done..|]. eapply rtc_r; [exact Hc|exact Hs].
  - intros n' st'. apply H2'. intros j Hj. by apply lookup_insert_ne.
  - intros n' st'. apply H2'. intros j Hj. by apply lookup_delete_ne.
  - intros n' st'. apply H2'. intros j Hj. by apply lookup_delete_ne.
Qed.
Lemma sys_act_SysInv es e s0 s s' :
  sys_acts es s0 = Some s -> sys_act e s = Some s' -> SysInv es s0 s -> SysInv (es ++ [e]) s0 s'.
Proof.
  intros Hes H HI. destruct e as [i method ps|i|n nc m lg ds cx|n|n]; [..|by eapply serve_SysInv];
    unfold sys_act in H; (destruct (up s); [|done]); cbn [negb] in H.
  - destruct (rpcs s !! i), (begin_ method ps) as [b|]; try done. destruct (b _) as [[] ?]; try done.
    injection H as <-. by eapply SysInv_snoc.
  - destruct (rpcs s !! i); [|done]. injection H as <-. by eapply SysInv_snoc.
  - destruct (serving s !! n) eqn:E1, (ended s !! n) eqn:E2; try done. injection H as <-.
    pose proof (SysInv_snoc es (EConnect n nc m lg ds cx) s0 s s HI eq_refl eq_refl eq_refl) as [H1 H2 H3].
    split; simpl; [| |done].
    + intros n' c' [[<- <-]|[Hne Hl]]%lookup_insert_Some; [|by apply H1]. exists nc, m, lg, ds, cx, (fun _ => 0).
      split_and!; [apply elem_of_app; right; by left|split; intros; lia|constructor].
    + intros n' st Hl. destruct (H2 n' st Hl) as (c & Hc & Ha). exists c. split; [|done].
      rewrite lookup_insert_ne; [done|]. intros ->. congruence.
  - destruct (serving s !! n) as [c|] eqn:E1, (looked s !! n) eqn:E2; try done. injection H as <-.
    pose proof (SysInv_snoc es (EGet n) s0 s s HI eq_refl eq_refl eq_refl) as [H1 H2 H3].
    split; simpl; [done| |done]. intros n' st [[<- <-]|[_ Hl]]%lookup_insert_Some; [|by apply H2].
    exists c. split; [done|]. eapply alone_look; [done|]. by apply (si_serving _ _ _ HI).
Qed.
Lemma sys_acts_SysInv es sv s : sys_acts es (boot sv) = Some s -> SysInv es (boot sv) s.
Proof.
  revert s. induction es as [|e es IH] using rev_ind; intros s H.
  - injection H as <-. apply boot_SysInv.
  - apply sys_acts_snoc in H as (s1 & H1 & H2). eauto using sys_act_SysInv.
Qed.

(** ** Logins and the store *)
Definition fresh_event (e : sysevent) : Prop :=
  match e with EConnect _ _ _ _ ds _ => Forall freshDial ds | _ => True end.
Lemma alone_Inv es s0 n c :
  Forall fresh_event es -> alone es s0 n (conn_serving c) -> exists h, Inv (with_history E h) anything c.
Proof.
  intros Hf (nc & m & lg & ds & cx & t & Hin & _ & H).
  assert (Forall freshDial ds) as Hd by exact (proj1 (list.Forall_forall _ _) Hf _ Hin).
  unfold conn_serving in H. set (h := fun k => _) in H. exists h.
  assert (Inv (with_history E h) anything (opened (newConn nc m lg ds cx))) as HI
    by exact (newConn_Inv _ anything nc m lg ds cx Hd).
  clearbody h. revert HI H. generalize (opened (newConn nc m lg ds cx)). intros c0 HI H.
  induction H as [c|c c1 c' Hs _ IH]; [exact HI|]. apply IH.
  pose proof (serveStep_keeps _ anything c (fun _ _ => all_granted _ _) HI) as H. by rewrite Hs in H.
Qed.

(** A login finds its tenant in the store as the lookup found it. *)
Lemma step_login h st c r c' :
  Inv (with_history E h) anything c -> serveStep (env_at st) c = (r, c') -> StInv st -> past c' ->
  (past c /\ tenant c' = tenant c) \/ table st !! ID (tenant c') = Some (tenant c').
Proof.
  intros HI Hs Hst Hp'. assert (past c \/ ~ past c) as [Hp|Hn].
  { unfold past. destruct (state c); intuition congruence. }
  - left. pose proof (serveStep_onward (env_at st) c Hp) as (_ & Ht & _). by rewrite Hs in Ht.
  - right. assert (Inv (env_at st) anything c) as HI'.
    { destruct HI as [H1 H2]. split; [|exact H2]. unfold sasl_inv in *. unfold past in Hn.
      destruct (state c); [exact H1|exact H1|by destruct Hn; left|by destruct Hn; right]. }
    pose proof (serveStep_keeps _ anything c (fun _ _ => all_granted _ _) HI') as [Hc' _]. rewrite Hs in Hc'.
    assert (resolved (env_at st) c') as (k & id & _ & Hg).
    { unfold sasl_inv in Hc'. simpl in Hc'. destruct Hp' as [E0|E0]; rewrite E0 in Hc'; apply Hc'. }
    simpl in Hg. rewrite (Get_law st id Hst) in Hg. simpl in Hg.
    destruct (table st !! id) as [t|] eqn:Et; [|done]. injection Hg as <-.
    by rewrite (well_formed_ID _ _ _ (table_wf _ Hst) Et).
Qed.

(** The connection [n], being served or ended. *)
Definition conn_at (s : System St) (n : nat) : option conn :=
  match serving s !! n with Some c => Some c | None => snd <$> ended s !! n end.
Definition creates (id : string) (e : sysevent) : Prop :=
  match e with
  | ERpc _ method ps => method = "Tenants.Set"%string /\ exists in_, BindSet ps = inr in_ /\ SetParams.ID in_ = id
  | _ => False
  end.

Lemma finished_login r c : state (finished r c) = state c /\ tenant (finished r c) = tenant c.
Proof. unfold finished. destruct r as [|err|]; [done| |done]. by destruct (Is err errClientClosed). Qed.

Lemma act_table id e s s' :
  sys_act e s = Some s' -> StInv (svcStore (svc s)) -> ~ creates id e ->
  table (svcStore (svc s)) !! id = None -> table (svcStore (svc s')) !! id = None.
Proof.
  intros H HI Hc Hid. unfold sys_act in H. destruct (up s); [|done]. cbn [negb] in H.
  destruct e as [i method ps|i|n nc m lg ds cx|n|n].
  - destruct (rpcs s !! i), (begin_ method ps) as [b|] eqn:Eb; try done.
    destruct (begin_returns _ _ _ _ Eb HI) as (p & st' & Em & _ & Hef). rewrite Em in H. injection H as <-. simpl.
    unfold effect in Hef. destruct (note p) as [[msg id']|]; [|by rewrite Hef].
    destruct Hef as [(_ & _ & (t & _ & ->) & Hm & Hp)|(_ & _ & ->)].
    + rewrite lookup_insert_ne; [done|]. intros ->. by apply Hc.
    + apply lookup_delete_None. by right.
  - destruct (rpcs s !! i); [|done]. by injection H as <-.
  - by destruct (serving s !! n), (ended s !! n); simplify_eq.
  - by destruct (serving s !! n), (looked s !! n); simplify_eq.
  - destruct (serving s !! n), (looked s !! n); try done. simpl in H.
    destruct (serveStep _ _) as [[] ?]; by injection H as <-.
Qed.

(** A connection past its login was so before, as the same tenant, or its iteration in
    progress found the tenant when it looked. *)
Definition logging_in (s : System St) (n : nat) (t : Tenant) : Prop :=
  exists c st, serving s !! n = Some c /\ ~ past c /\ looked s !! n = Some st /\ table st !! ID t = Some t.
Lemma past_dec c : past c \/ ~ past c.
Proof. unfold past. destruct (state c); intuition congruence. Qed.
Lemma act_logins es e sv s s' n c' :
  Forall fresh_event es -> StInv (svcStore sv) -> SysInv es (boot sv) s -> sys_act e s = Some s' ->
  conn_at s' n = Some c' -> past c' ->
  (exists c, conn_at s n = Some c /\ past c /\ tenant c' = tenant c) \/ logging_in s n (tenant c').
Proof.
  intros Hf HI HS H Hc' Hp. unfold sys_act in H. destruct (up s); [|done]. cbn [negb] in H.
  destruct e as [i method ps|i|n0 nc m lg ds cx|n0|n0].
  - destruct (rpcs s !! i), (begin_ method ps) as [b|]; try done. destruct (b _) as [[] ?]; try done.
    injection H as <-. left. eauto.
  - destruct (rpcs s !! i); [|done]. injection H as <-. left. eauto.
  - destruct (serving s !! n0) eqn:E1, (ended s !! n0) eqn:E2; try done. injection H as <-.
    unfold conn_at in Hc'. simpl in Hc'. destruct (decide (n = n0)) as [->|Hne].
    + rewrite lookup_insert_eq in Hc'. injection Hc' as <-. by destruct Hp.
    + rewrite lookup_insert_ne in Hc' by done. left. eauto.
  - destruct (serving s !! n0), (looked s !! n0); try done. injection H as <-. left. eauto.
  - destruct (serving s !! n0) as [c|] eqn:Ec, (looked s !! n0) as [st|] eqn:El; try done. simpl in H.
    destruct (alone_Inv _ _ _ _ Hf (si_serving _ _ _ HS n0 c Ec)) as [h HInv].
    assert (StInv st) as Hst.
    { destruct (si_looked _ _ _ HS n0 st El) as (_ & _ & _ & _ & _ & _ & _ & _ & _ & _ & _ & i & _ & <- & _).
      by apply store_at_StInv. }
    destruct (serveStep _ c) as [r c1] eqn:Es. destruct (decide (n = n0)) as [->|Hne].
    + assert (state c' = state c1 /\ tenant c' = tenant c1) as [Hs1 Ht].
      { unfold conn_at in Hc'. destruct (finished_login r c1).
        destruct r as [[]|err|]; injection H as <-; simpl in Hc';
          rewrite ?lookup_insert_eq, ?lookup_delete_eq in Hc'; simpl in Hc'; by injection Hc' as <-. }
      unfold past in Hp. rewrite Hs1 in Hp. rewrite Ht.
      assert (past c -> exists c2, conn_at s n0 = Some c2 /\ past c2 /\ tenant c1 = tenant c2) as Hpast.
      { intros Hpc. exists c. split_and!; [unfold conn_at; by rewrite Ec|done|].
        pose proof (serveStep_onward (env_at st) c Hpc) as (_ & Ht' & _). by rewrite Es in Ht'. }
      destruct (past_dec c) as [Hpc|Hpc]; [left; auto|].
      destruct (step_login h _ c r c1 HInv Es Hst Hp) as [[? _]|Hl]; [done|right]. by exists c, st.
    + left. exists c'. split_and!; [|done|done]. rewrite <-Hc'. unfold conn_at.
      destruct r as [[]|err|]; injection H as <-; simpl;
        by rewrite ?lookup_insert_ne, ?lookup_delete_ne by done.
Qed.
(** A login in progress was so before, unless it looks just now. *)
Lemma act_logging_in es e s0 s s' n t :
  SysInv es s0 s -> sys_act e s = Some s' -> logging_in s' n t ->
  logging_in s n t \/ table (svcStore (svc s)) !! ID t = Some t.
Proof.
  intros HS H (c & st & Hc & Hp & Hl & Ht). unfold sys_act in H. destruct (up s); [|done]. cbn [negb] in H.
  destruct e as [i method ps|i|n0 nc m lg ds cx|n0|n0].
  - destruct (rpcs s !! i), (begin_ method ps) as [b|]; try done. destruct (b _) as [[] ?]; try done.
    injection H as <-. left. by exists c, st.
  - destruct (rpcs s !! i); [|done]. injection H as <-. left. by exists c, st.
  - destruct (serving s !! n0) eqn:E1, (ended s !! n0) eqn:E2; try done. injection H as <-. simpl in *.
    destruct (si_looked _ _ _ HS n st Hl) as (c1 & Hc1 & _).
    rewrite lookup_insert_ne in Hc by congruence. left. by exists c, st.
  - destruct (serving s !! n0) eqn:E1, (looked s !! n0) eqn:E2; try done. injection H as <-. simpl in *.
    apply lookup_insert_Some in Hl as [[<- <-]|[Hne Hl]]; [by right|left]. by exists c, st.
  - destruct (serving s !! n0) as [c0|] eqn:E1, (looked s !! n0) as [st0|] eqn:E2; try done. simpl in H.
    left. exists c, st. destruct (serveStep _ c0) as [[[]|err|] c1]; injection H as <-; simpl in *;
      apply lookup_delete_Some in Hl as [Hne Hl]; rewrite ?lookup_insert_ne, ?lookup_delete_ne in Hc by done; done.
Qed.

Lemma acts_table id es s s' :
  sys_acts es s = Some s' -> StInv (svcStore (svc s)) -> Forall (fun e => ~ creates id e) es ->
  table (svcStore (svc s)) !! id = None -> table (svcStore (svc s')) !! id = None.
Proof.
  revert s. induction es as [|e es IH]; intros s H HI Hc Hid; simpl in H; [by simplify_eq|].
  destruct (sys_act e s) as [s1|] eqn:Es; [|done]. apply Forall_cons_1 in Hc as [Hc1 Hc2].
  eapply IH; eauto using sys_act_StInv, act_table.
Qed.
Lemma acts_logging_in id es0 sv es s s' n t :
  sys_acts es0 (boot sv) = Some s -> sys_acts es s = Some s' -> StInv (svcStore (svc s)) -> Forall (fun e => ~ creates id e) es ->
  table (svcStore (svc s)) !! id = None -> ID t = id -> logging_in s' n t -> logging_in s n t.
Proof.
  intros H0. revert s'. induction es as [|e es IH] using rev_ind; intros s' H HI Hc Hid Ht Hl; [by injection H as <-|].
  apply sys_acts_snoc in H as (s1 & H1 & H2). apply Forall_app in Hc as [Hc _].
  assert (sys_acts (es0 ++ es) (boot sv) = Some s1) as H01 by (by rewrite sys_acts_app, H0).
  destruct (act_logging_in _ _ _ _ _ _ _ (sys_acts_SysInv _ _ _ H01) H2 Hl) as [Hl1|Hl1]; [by apply (IH s1)|].
  rewrite Ht, (acts_table id es s s1) in Hl1; done.
Qed.
Lemma acts_logins id es0 sv s es s' n c' :
  StInv (svcStore sv) -> Forall fresh_event (es0 ++ es) -> sys_acts es0 (boot sv) = Some s ->
  table (svcStore (svc s)) !! id = None ->
  sys_acts es s = Some s' -> Forall (fun e => ~ creates id e) es ->
  conn_at s' n = Some c' -> past c' -> ID (tenant c') = id ->
  (exists c, conn_at s n = Some c /\ past c /\ tenant c' = tenant c) \/ logging_in s n (tenant c').
Proof.
  intros HI Hf H0 Hid. revert s' c'. induction es as [|e es IH] using rev_ind; intros s' c' H Hc Hn Hp Ht.
  { injection H as <-. eauto. }
  apply sys_acts_snoc in H as (s1 & H1 & H2). rewrite app_assoc in Hf.
  apply Forall_app in Hf as [Hf _]. apply Forall_app in Hc as [Hc _].
  assert (StInv (svcStore (svc s))) as HIs by (by eapply sys_acts_StInv).
  assert (sys_acts (es0 ++ es) (boot sv) = Some s1) as H01 by (by rewrite sys_acts_app, H0).
  destruct (act_logins _ _ _ _ _ n c' Hf HI (sys_acts_SysInv _ _ _ H01) H2 Hn Hp)
    as [(c & Hcn & Hpc & Htc)|Hl].
  - rewrite Htc. apply (IH Hf s1 c H1 Hc Hcn Hpc). congruence.
  - right. by eapply acts_logging_in.
Qed.

(** ** The log of the administration *)

(** How often the log says [msg] of the tenant [id]; how many RPCs are about to. *)
Definition said (msg id : string) (lg : Logger) : Z :=
  Z.of_nat (length (filter (fun r => r = MkLogRecord LevelInfo msg (withAttrs lg ++ [("tenant_id"%string, AStr id)]))
                      (records lg))).
Definition to_say (msg id : string) (ps : gmap nat pending) : Z :=
  Z.of_nat (size (filter (fun kv : nat * pending => note kv.2 = Some (msg, id)) ps)).
Definition present (id : string) (s : System St) : Z :=
  if table (svcStore (svc s)) !! id then 1 else 0.
Definition one (msg id : string) (n : option (string * string)) : Z :=
  if decide (n = Some (msg, id)) then 1 else 0.

Lemma said_conclude msg id p lg :
  Enabled LevelInfo lg = true -> said msg id (conclude p lg) = (said msg id lg + one msg id (note p))%Z.
Proof.
  intros He. unfold conclude, one. destruct (note p) as [[msg' id']|]; [|simpl; lia].
  unfold Log. rewrite He. unfold said. simpl. rewrite list.filter_app, length_app.
  match goal with |- context [filter ?P [?x]] => destruct (decide (P x)) as [Hx|Hx] end.
  - rewrite filter_cons_True by done. injection Hx as <- [= <-]%app_inj_tail%proj2.
    rewrite decide_True by done. simpl. lia.
  - rewrite filter_cons_False by done. rewrite decide_False by congruence. simpl. lia.
Qed.
Lemma conclude_level p lg : Enabled LevelInfo (conclude p lg) = Enabled LevelInfo lg.
Proof. unfold conclude, Log. destruct (note p) as [[]|]; [|done]. by destruct (Enabled LevelInfo lg) eqn:He. Qed.
Lemma to_say_insert msg id i p ps :
  ps !! i = None -> to_say msg id (<[i := p]> ps) = (to_say msg id ps + one msg id (note p))%Z.
Proof.
  intros Hi. unfold to_say, one. case_decide as Hn.
  - rewrite map_filter_insert_True by done. rewrite map_size_insert_None; [lia|].
    apply map_lookup_filter_None. by left.
  - rewrite map_filter_insert_False by done. rewrite delete_id by done. lia.
Qed.
Lemma to_say_delete msg id i p ps :
  ps !! i = Some p -> to_say msg id ps = (to_say msg id (delete i ps) + one msg id (note p))%Z.
Proof.
  intros Hi. rewrite <-(to_say_insert msg id i) by apply lookup_delete_eq. by rewrite insert_delete_id.
Qed.
(** What every step of the system leaves as it is. *)
Definition balance (id : string) (s : System St) : Z :=
  present id s + said "tenant deleted" id (svcLog (svc s)) + to_say "tenant deleted" id (rpcs s)
  - said "tenant created" id (svcLog (svc s)) - to_say "tenant created" id (rpcs s).
Lemma effect_present id method ps p m m' :
  effect method ps p m m' ->
  ((if m' !! id then 1 else 0) + one "tenant deleted" id (note p))%Z =
  ((if m !! id then 1 else 0) + one "tenant created" id (note p))%Z.
Proof.
  unfold effect, one. destruct (note p) as [[msg id']|]; [|by intros ->].
  intros [(-> & Hn & (t & _ & ->) & _)|(-> & [t Hs] & ->)]; destruct (decide (id' = id)) as [->|Hne].
  - rewrite lookup_insert_eq, Hn, decide_False, decide_True by (done || congruence). done.
  - rewrite lookup_insert_ne, !decide_False by congruence. done.
  - rewrite lookup_delete_eq, Hs, decide_True, decide_False by (done || congruence). done.
  - rewrite lookup_delete_ne, !decide_False by congruence. done.
Qed.
Lemma act_balance id e s s' :
  sys_act e s = Some s' -> StInv (svcStore (svc s)) -> Enabled LevelInfo (svcLog (svc s)) = true ->
  balance id s' = balance id s /\ Enabled LevelInfo (svcLog (svc s')) = true.
Proof.
  intros H HI He. unfold sys_act in H. destruct (up s); [|done]. cbn [negb] in H.
  destruct e as [i method ps|i|n nc m lg ds cx|n|n].
  - destruct (rpcs s !! i) eqn:Ei, (begin_ method ps) as [b|] eqn:Eb; try done.
    destruct (begin_returns _ _ _ _ Eb HI) as (p & st' & Em & _ & Hef). rewrite Em in H. injection H as <-.
    split; [|done]. apply (effect_present id) in Hef. unfold balance, present. simpl.
    rewrite !to_say_insert by done. lia.
  - destruct (rpcs s !! i) as [p|] eqn:Ei; [|done]. injection H as <-. simpl.
    split; [|by rewrite conclude_level]. unfold balance, present. simpl.
    rewrite !said_conclude, !(to_say_delete _ id i p (rpcs s)) by done. lia.
  - by destruct (serving s !! n), (ended s !! n); simplify_eq.
  - by destruct (serving s !! n), (looked s !! n); simplify_eq.
  - destruct (serving s !! n), (looked s !! n); try done. simpl in H.
    destruct (serveStep _ _) as [[] ?]; by injection H as <-.
Qed.
Lemma acts_balance id es s s' :
  sys_acts es s = Some s' -> StInv (svcStore (svc s)) -> Enabled LevelInfo (svcLog (svc s)) = true ->
  balance id s' = balance id s.
Proof.
  revert s. induction es as [|e es IH]; intros s H HI He; simpl in H; [by simplify_eq|].
  destruct (sys_act e s) as [s1|] eqn:Es; [|done]. destruct (act_balance id e s s1 Es HI He) as [<- He1].
  eapply IH; eauto using sys_act_StInv.
Qed.

(** * Theorems *)

(** The connections of the running proxy, however they interleave with each other and
    with the administration, are the connections the other theorems are about:
    each is a run of one connection alone, whose lookups find states the store
    had at moments of the run, in order, all of them states the store's contract
    allows; and one that has ended is a run of [handle] to its end. *)
Theorem system_refines es sv s :
  StInv (svcStore sv) -> sys_acts es (boot sv) = Some s ->
  (forall k, StInv (store_at es (boot sv) k)) /\
  (forall n c, serving s !! n = Some c ->
     alone es (boot sv) n (fun h c0 => rtc (step (with_history E h)) (opened c0) c)) /\
  (forall n r c, ended s !! n = Some (r, c) ->
     alone es (boot sv) n (fun h c0 => handle (with_history E h) c0 = (r, c))).
Proof.
  intros HI H. destruct (sys_acts_SysInv es sv s H) as [H1 _ H2]. split_and!; [|exact H1|].
  - intros k. by apply store_at_StInv.
  - intros n r c Hn. destruct (H2 n r c Hn) as (nc & m & lg & ds & cx & t & Hin & Ht & c1 & c2 & Hs & He & Hr & ->).
    exists nc, m, lg, ds, cx, t. split_and!; [done..|]. apply handle_parts. by eapply steps_serve.
Qed.

(** C15: what deleting a tenant does to clients, documented as "existing client
    connections are not forcibly closed; only future authentications fail".  From a
    moment at which the tenant is not in the store, and as long as no RPC creates
    it: a connection that is logged in as that tenant, or relays its SCRAM login,
    already was at that moment, or an iteration of it was in progress then that had
    looked the tenant up while it was still in the store (the dial to the broker of
    a SCRAM login, for one, comes after the lookup); no other gets there.  And a
    connection that is there is not disturbed: what it does next does not depend on
    the store. *)
Theorem revocation es0 sv s es s' id :
  StInv (svcStore sv) -> Forall fresh_event (es0 ++ es) -> sys_acts es0 (boot sv) = Some s ->
  table (svcStore (svc s)) !! id = None ->
  sys_acts es s = Some s' -> Forall (fun e => ~ creates id e) es ->
  table (svcStore (svc s')) !! id = None /\
  (forall n c', conn_at s' n = Some c' -> past c' -> ID (tenant c') = id ->
     (exists c, conn_at s n = Some c /\ past c /\ tenant c' = tenant c) \/
     (exists c st, serving s !! n = Some c /\ ~ past c /\ looked s !! n = Some st /\
        table st !! id = Some (tenant c'))) /\
  (forall n c st, serving s !! n = Some c -> past c ->
     serveStep (env_at st) c = serveStep (env_at (svcStore (svc s))) c).
Proof.
  intros HI Hf H0 Hid H Hc. split_and!.
  - eapply acts_table; [done| |done|done]. by eapply sys_acts_StInv.
  - intros n c' Hn Hp Ht. destruct (acts_logins id es0 sv s es s' n c') as [?|Hl]; [done..|by left|right].
    unfold logging_in in Hl. by rewrite Ht in Hl.
  - intros n c st _ Hp. by apply past_history.
Qed.

(** C16: the log of the administration is complete.  With a log level of info or below,
    and whatever RPCs and connections run concurrently: a tenant is in the store
    exactly according to the creations and deletions the log reports since the
    start, corrected by those RPCs that have changed the store and are about to
    log it; when none is in progress, by the log alone. *)
Theorem audit_trail es sv s id :
  StInv (svcStore sv) -> Enabled LevelInfo (svcLog sv) = true -> sys_acts es (boot sv) = Some s ->
  let reported msg := (said msg id (svcLog (svc s)) - said msg id (svcLog sv))%Z in
  let due msg := to_say msg id (rpcs s) in
  present id s = (present id (boot sv)
    + (reported "tenant created"%string + due "tenant created"%string)
    - (reported "tenant deleted"%string + due "tenant deleted"%string))%Z /\
  (rpcs s = ∅ -> present id s =
     (present id (boot sv) + reported "tenant created"%string - reported "tenant deleted"%string)%Z).
Proof.
  intros HI He H. pose proof (acts_balance id es _ s H HI He) as Hb. unfold balance in Hb. simpl in Hb.
  assert (forall msg, to_say msg id ∅ = 0%Z) as H0.
  { intros msg. unfold to_say. by rewrite map_filter_empty, map_size_empty. }
  rewrite !H0 in Hb. cbv zeta. split; [lia|]. intros Er. rewrite Er, !H0 in Hb. lia.
Qed.
End System.

(** * Witnesses *)
Module DemoSystem.
(** The store has bob and alice; the log is at the info level. *)
Definition service : Service memoryResolver := NewService (quietLogger LevelInfo) DemoProxy.both None.
Abbreviation acts := (sys_acts DemoProxy.env DemoWire.Error DemoWire.BindSet DemoWire.BindDelete).
Definition connect (n : nat) (user : string) : sysevent :=
  EConnect n (DemoProxy.client_of user) (Some NewMetrics) DemoProxy.logger [inr DemoProxy.broker] [].
Definition deletion (i : nat) (id : string) : sysevent := ERpc i "Tenants.Delete" (PDelete (DeleteParams.Mk id)).
Definition creation (i : nat) (id : string) : sysevent :=
  ERpc i "Tenants.Set" (PSet (SetParams.Mk id (id +:+ "-") "kafka:9092")).
Definition iterate (n : nat) : list sysevent := [EGet n; EServe n].
(** Bob logs in, a second and a third connection of bob have sent their handshake, and
    the third has looked bob up, when bob is deleted; then all go on: the first is
    served, the second is refused, the third gets in. *)
Definition before : list sysevent :=
  connect 0 "bob" :: iterate 0 ++ iterate 0 ++ connect 1 "bob" :: iterate 1 ++ connect 2 "bob" :: iterate 2 ++
  [EGet 2; deletion 7 "bob"; EReply 7].
Definition later : list sysevent := iterate 1 ++ EServe 2 :: iterate 0.
(** A tenant is created and deleted by two RPCs; the second logs first. *)
Definition race : list sysevent := [creation 1 "carol"; deletion 2 "carol"; EReply 2; EReply 1].

Lemma service_wf : well_formed (tenants (svcStore service)).
Proof. exact (DemoProxy.store_well_formed 0). Qed.
Lemma all_fresh : Forall fresh_event (before ++ later).
Proof. by repeat constructor. Qed.
Lemma none_creates : Forall (fun e => ~ creates DemoWire.BindSet "bob" e) later.
Proof. repeat constructor; by intros ?. Qed.
(** What is looked at of a state. *)
Definition view (s : System memoryResolver) : list (option (connState * string)) :=
  map (fun n => (fun c => (state c, ID (tenant c))) <$> conn_at s n) [0; 1; 2].
End DemoSystem.

(** At the deletion bob is logged in on connection 0 and on no other; after it connection
    0 has been served, connection 1 is as it was, and the login in progress on
    connection 2 has completed. *)
Example demo_views :
  (DemoSystem.view <$> DemoSystem.acts DemoSystem.before (boot DemoSystem.service)) =
    Some [Some (stateAuthenticated, "bob"%string); Some (stateAwaitAuth, ""%string);
          Some (stateAwaitAuth, ""%string)] /\
  (DemoSystem.view <$> DemoSystem.acts (DemoSystem.before ++ DemoSystem.later) (boot DemoSystem.service)) =
    Some [Some (stateAuthenticated, "bob"%string); Some (stateAwaitAuth, ""%string);
          Some (stateAuthenticated, "bob"%string)].
Proof. split; vm_compute; reflexivity. Qed.
Lemma revocation_witness :
  exists s s', DemoSystem.acts DemoSystem.before (boot DemoSystem.service) = Some s /\
    DemoSystem.acts DemoSystem.later s = Some s' /\ tenants (svcStore (svc s')) !! "bob"%string = None.
Proof.
  destruct (DemoSystem.acts DemoSystem.before (boot DemoSystem.service)) as [s|] eqn:E; [|by vm_compute in E].
  assert (tenants (svcStore (svc s)) !! "bob"%string = None) as Hb.
  { assert ((fun s => tenants (svcStore (svc s)) !! "bob"%string) <$>
      DemoSystem.acts DemoSystem.before (boot DemoSystem.service) = Some None) as H by (vm_compute; reflexivity).
    rewrite E in H. by injection H. }
  destruct (DemoSystem.acts DemoSystem.later s) as [s'|] eqn:E'.
  2: { assert (is_Some (DemoSystem.acts (DemoSystem.before ++ DemoSystem.later) (boot DemoSystem.service))) as [x Hx]
         by (vm_compute; eauto). rewrite sys_acts_app, E in Hx. cbn [mbind option_bind] in Hx. rewrite E' in Hx. discriminate Hx. }
  exists s, s'. split; [reflexivity|]. split; [exact E'|].
  exact (proj1 (revocation DemoProxy.env DemoWire.Error DemoWire.BindSet DemoWire.BindDelete tenants
    (fun s => well_formed (tenants s)) DemoSystem.before DemoSystem.service s DemoSystem.later s' "bob"
    DemoSystem.service_wf DemoSystem.all_fresh E Hb E' DemoSystem.none_creates)).
Defined.

(** The records of concurrent RPCs may be in another order than their effects: here
    the last record is of a creation, and the tenant is gone. *)
Example audit_order :
  ((fun s => (map recordMsg (records (svcLog (svc s))), tenants (svcStore (svc s)) !! "carol"%string)) <$>
     DemoSystem.acts DemoSystem.race (boot DemoSystem.service)) =
  Some (["tenant deleted"; "tenant created"]%string, None).
Proof. vm_compute. reflexivity. Qed.
Lemma audit_trail_witness :
  exists s, DemoSystem.acts DemoSystem.before (boot DemoSystem.service) = Some s /\
    present tenants "bob" s = (1 + 0 - said "tenant deleted" "bob" (svcLog (svc s)))%Z.
Proof.
  destruct (DemoSystem.acts DemoSystem.before (boot DemoSystem.service)) as [s|] eqn:E; [|by vm_compute in E].
  exists s. split; [reflexivity|].
  destruct (audit_trail DemoProxy.env DemoWire.Error DemoWire.BindSet DemoWire.BindDelete tenants
    (fun s => well_formed (tenants s)) DemoSystem.before DemoSystem.service s "bob" DemoSystem.service_wf
    eq_refl E) as [_ H].
  assert ((fun s => (rpcs s, said "tenant created" "bob" (svcLog (svc s)))) <$>
    DemoSystem.acts DemoSystem.before (boot DemoSystem.service) = Some (∅, 0%Z)) as Hv
    by (vm_compute; reflexivity).
  rewrite E in Hv. injection Hv as Hr Hc. rewrite (H Hr), Hc.
  change (present tenants "bob" (boot DemoSystem.service)) with 1%Z.
  change (said _ _ (svcLog DemoSystem.service)) with 0%Z. lia.
Defined.
