(* ===== verification/ClientTraffic.v ===== *)
(** What reaches the client, iteration by iteration: every write to its socket is part of
    a reply of kroxy's own, or, only once the connection is authenticated, of the
    response that the broker has just sent to the request just forwarded,
    rewritten for the tenant or, for an API without a rewrite, passed on. *)
From Stdlib Require Import ZArith Lia.
From stdpp Require Import base list gmap sets strings tactics.
From S2P Require Import Prelude GoStrings GoNet Protocol ProtocolFacts Kmsg Auth.
From S2P Require Import Rewrite RewriteMsg RewriteFacts RewriteTheorems Resolver ResolverFacts.
From S2P Require Import Upstream UpstreamFacts UpstreamTheorems Completion Writes Observability ProxyConn.
From S2P Require Import Handlers Serve Messages ProxyFacts Answers ProxyDemo ProxyTheorems.
Local Open Scope Z_scope.

(** A write of [WriteFrame] on a payload that satisfies [P]: its length or its
    bytes, or a prefix of either when the socket fails. *)
Definition framed (P : list byte -> Prop) (w : list byte) : Prop :=
  exists b k, P b /\ (w = take k (be_encode 4 (uint32 (len b))) \/ w = take k b).
Lemma framed_mono (P Q : list byte -> Prop) w : (forall b, P b -> Q b) -> framed P w -> framed Q w.
Proof. intros H (b & k & Hb & Hw). exists b, k. auto. Qed.

(** The client's socket has only been written with frames of [P]. *)
Definition clientW (P : list byte -> Prop) (c c' : conn) : Prop :=
  writesN (framed P) (client c) (client c').
#[global] Instance clientW_preorder P : PreOrder (clientW P).
Proof.
  unfold clientW. split; [by intros c|].
  intros c1 c2 c3 H1 H2. by transitivity (client c2).
Qed.
Lemma quiet_clientW {A} P (m : M conn A) : quiet m -> preserves (clientW P) m.
Proof. intros H c. unfold clientW. by rewrite (H c). Qed.
Lemma WriteFrame_clientW (P : list byte -> Prop) b :
  P b -> preserves (clientW P) (on_client (WriteFrame b)).
Proof.
  intros Hb c. unfold clientW, on_client, zoom.
  pose proof (WriteFrame_writes (framed P) b) as H.
  specialize (H (fun k => ex_intro _ b (ex_intro _ k (conj Hb (or_introl eq_refl))))
                (fun k => ex_intro _ b (ex_intro _ k (conj Hb (or_intror eq_refl)))) (client c)).
  by destruct (WriteFrame b (client c)).
Qed.
Lemma clientW_mono (P Q : list byte -> Prop) c c' :
  (forall b, P b -> Q b) -> clientW P c c' -> clientW Q c c'.
Proof.
  intros H (ws & E & F). exists ws. split; [done|]. revert F. apply Forall_impl. intros w. by apply framed_mono.
Qed.
(** After quiet work whose result is [a] in the state [c1], the rest. *)
Lemma clientW_bind {A B} P c (m : M conn A) (k : A -> M conn B) :
  quiet m -> (forall a c1, m c = (Ok a, c1) -> clientW P c1 (k a c1).2) -> clientW P c (bind m k c).2.
Proof.
  intros Hm Hk. unfold bind. specialize (Hm c). unfold sameClient in Hm.
  destruct (m c) as [[a|e|] c1]; simpl in *; [|by unfold clientW; rewrite Hm..].
  specialize (Hk a c1 eq_refl). unfold clientW in *. by rewrite Hm in Hk.
Qed.

Section Client.
Context {X Session St : Type} (E : Env X Session St).
Abbreviation K := (codecs E).
Abbreviation subscription := (k_subscription _ K).
Abbreviation assignment := (k_assignment _ K).

(** * The payloads *)

(** Kroxy's own replies: its ApiVersions response and the SASL responses. *)
Definition own_reply (hdr : RequestHeader) (b : list byte) : Prop :=
  exists enc, b = EncodeResponse enc (CorrelationID hdr) (APIKey hdr) (APIVersion hdr) /\
    (APIKey hdr = ApiVersionsKey /\
       enc = AppendTo (k_ApiVersionsResponse _ K) (APIVersion hdr) (ApiVersionsResponse.Mk advertisedVersions) \/
     APIKey hdr = SaslHandshakeKey /\
       (exists code, enc = AppendTo (k_SASLHandshakeResponse _ K) (APIVersion hdr)
          (SASLHandshakeResponse.Mk code [MechanismPlain; MechanismSCRAMSHA256; MechanismSCRAMSHA512])) \/
     APIKey hdr = SaslAuthenticateKey /\
       exists r, enc = AppendTo (k_SASLAuthenticateResponse _ K) (APIVersion hdr) r).

(** The connection to the broker on which the iteration from [c] forwards: the one there
    is, or the one the dial made in this iteration. *)
Definition dialling (c : conn) (d : error + NetConn) : M (option Conn) unit :=
  if shouldTranslatePlainToSCRAM E c
  then upDialSCRAM E d (UpstreamSASLMechanism (cfg E)) (ID (tenant c)) (password c)
  else upDial E d (ID (tenant c)) (password c).
Definition connected (c : conn) (u : Conn) : Prop :=
  match upstream c with
  | Some u0 => u = u0
  | None => exists d ds, dials c = d :: ds /\ dialling c d None = (Ok tt, Some u)
  end.

(** A round trip on the connection [u], which is then [u']: [sent] was written, with the next
    correlation id in it, and [got], the next frame of the broker, was read and
    carries that id. *)
Definition round_trip (u u' : Conn) (sent : Z -> list byte) (got : list byte) : Prop :=
  let id := int32 (corrIDGen u + 1) in
  wire (nc u') = wire (nc u) ++ sent id /\ rx (nc u) = frame_bytes got ++ rx (nc u') /\
  int32 (be_decode (take 4 got)) = id.

(** The request [q] decoded from the client's frame was sent rewritten for the prefix [p],
    and the broker's answer decodes, with the codec of the same API, to [s]. *)
Definition brokered (p : string) (hdr : RequestHeader) (frame : list byte) (u u' : Conn)
    (q : KRequest) (s : KResponse) : Prop :=
  requestKey E q = APIKey hdr /\ requested E (APIVersion hdr) (bodyOf frame hdr) q /\
  exists got,
    round_trip u u' (AppendRequest E (ClientID hdr)
      (encode E (APIVersion hdr) (RequestIn subscription assignment p q))) got /\
    responded E (APIVersion hdr)
      (drop (if 1 <=? ResponseHeaderVersion (APIKey hdr) (APIVersion hdr) then 5 else 4) got) q s.
(** The reply: that answer, rewritten for [p] and encoded for the client. *)
Definition reply_of (p : string) (hdr : RequestHeader) (q : KRequest) (s : KResponse) (host : string) (port : Z)
    : list byte :=
  EncodeResponse (appended E (APIVersion hdr) q (ResponseOut subscription assignment p host port s))
    (CorrelationID hdr) (APIKey hdr) (APIVersion hdr).
Definition rewritten_reply (p : string) (hdr : RequestHeader) (frame : list byte) (u u' : Conn) (b : list byte)
    : Prop :=
  exists q s host port, brokered p hdr frame u u' q s /\
    (addressed s = true -> advertised E = Ok (host, port)) /\ b = reply_of p hdr q s host port.

(** The answer to a request of an API without a rewrite: the client's frame was sent with
    another correlation id, and the broker's frame is given back with the client's. *)
Definition passthrough_reply (hdr : RequestHeader) (frame : list byte) (u u' : Conn) (b : list byte) : Prop :=
  ~ own_key (APIKey hdr) /\ rewriteHandler E (APIKey hdr) = None /\
  exists got, round_trip u u' (fun id => frame_bytes (putUint32 frame 4 id)) got /\
    b = putUint32 got 0 (CorrelationID hdr).

(** How the iteration from [c] to [c'] may answer the request [frame] with header [hdr]. *)
Definition may_show (c c' : conn) (frame : list byte) (hdr : RequestHeader) (b : list byte) : Prop :=
  own_reply hdr b \/
  (state c = stateAuthenticated /\ exists u u', connected c u /\ upstream c' = Some u' /\
     (rewritten_reply (TopicPrefix (tenant c)) hdr frame u u' b \/ passthrough_reply hdr frame u u' b)).

(** * The handlers *)
Section Handlers.
Context (P : list byte -> Prop) (hdr : RequestHeader) (Hown : forall b, own_reply hdr b -> P b).

Lemma replyAuth_W code msg p :
  APIKey hdr = SaslAuthenticateKey -> preserves (clientW P) (replyAuth E hdr code msg p).
Proof.
  intros Hk. apply preserves_wrap, WriteFrame_clientW, Hown. eexists. split; [done|].
  right. right. split; [done|by eexists].
Qed.

(** The SASL handlers: quiet but for kroxy's own replies. *)
Ltac leafW := idtac; match goal with
  | |- preserves _ (replyAuth _ _ _ _ _) => apply replyAuth_W; assumption
  | |- preserves _ _ => apply quiet_clientW; leafQ
  end.
Ltac walkW := walk_with leafW.

Lemma handleApiVersions_W body :
  APIKey hdr = ApiVersionsKey -> preserves (clientW P) (handleApiVersions E hdr body).
Proof. intros Hk. apply preserves_wrap, WriteFrame_clientW, Hown. eexists. split; [done|]. by left. Qed.
Lemma handleSaslHandshake_W body :
  APIKey hdr = SaslHandshakeKey -> preserves (clientW P) (handleSaslHandshake E hdr body).
Proof.
  intros Hk. unfold handleSaslHandshake. walkW. apply preserves_wrap, WriteFrame_clientW, Hown.
  eexists. split; [done|]. right. left. split; [done|by eexists].
Qed.
Lemma scramFirst_W p : APIKey hdr = SaslAuthenticateKey -> preserves (clientW P) (scramFirst E hdr p).
Proof. intros Hk. unfold scramFirst. walkW. Qed.
Lemma handleSaslAuthenticate_W body :
  APIKey hdr = SaslAuthenticateKey -> preserves (clientW P) (handleSaslAuthenticate E hdr body).
Proof.
  intros Hk.
  unfold handleSaslAuthenticate, handleSaslAuthenticateSCRAM, handleSaslAuthenticatePlain, scramRelay.
  walkW; by apply scramFirst_W.
Qed.

End Handlers.

(** ** Forwarded requests *)

(** Nothing shown yet, or the answer shown is one the round trip on [u] allows. *)
Definition shows (P : Conn -> list byte -> Prop) (c c' : conn) : Prop :=
  client c' = client c \/
  exists u' b, upstream c' = Some u' /\ P u' b /\ clientW (fun x => x = b) c c'.
Lemma shows_bind {A B} P c0 c (m : M conn A) (k : A -> M conn B) :
  quiet m -> client c = client c0 ->
  (forall a c1, m c = (Ok a, c1) -> client c1 = client c0 -> shows P c0 (k a c1).2) ->
  shows P c0 (bind m k c).2.
Proof.
  intros Hm Hc Hk. unfold bind. specialize (Hm c). unfold sameClient in Hm. rewrite Hc in Hm.
  destruct (m c) as [[a|e|] c1]; simpl in *; [by apply Hk|by left..].
Qed.
(** The final write. *)
Lemma shows_write (P : Conn -> list byte -> Prop) c c1 u' b :
  client c1 = client c -> upstream c1 = Some u' -> P u' b ->
  shows P c (on_client (WriteFrame b) c1).2.
Proof.
  intros Hc Hu HP. right. exists u', b. pose proof (WriteFrame_clientW (fun x => x = b) b eq_refl c1) as H.
  unfold clientW in *. rewrite Hc in H. split_and!; [|done..].
  unfold on_client, zoom. by destruct (WriteFrame b (client c1)).
Qed.
Lemma only_logs_upstream m c u1 c1 :
  only_logs m -> m c = (Ok u1, c1) -> upstream c1 = upstream c /\ tenant c1 = tenant c.
Proof. intros Hm H. destruct (Hm c) as [lg E0]. rewrite H in E0. by injection E0 as -> ->. Qed.
Lemma on_up_Ok {A} (m : M Conn A) c u a c1 :
  upstream c = Some u -> on_up m c = (Ok a, c1) -> exists u', m u = (Ok a, u') /\ upstream c1 = Some u'.
Proof.
  intros Hu. unfold on_up. rewrite Hu. destruct (m u) as [r u']. intros [= -> <-]. by exists u'.
Qed.

Lemma roundTripTyped_Ok {R} req (k : Codec R) id c u r c' :
  upstream c = Some u -> roundTripTyped E req k id c = (Ok r, c') ->
  exists u' got, upstream c' = Some u' /\ round_trip u u' (AppendRequest E id req) got /\
    ReadFrom k (GetVersion req) (drop (if 1 <=? ResponseHeaderVersion (Key req) (GetVersion req) then 5 else 4) got)
      = inr r.
Proof.
  intros Hu H. unfold roundTripTyped in H. apply bind_Ok in H as (body & c1 & H1%wrap_Ok & H).
  apply (on_up_Ok _ _ _ _ _ Hu) in H1 as (u' & H1 & Hu').
  apply RoundTripRequest_Ok in H1 as (Hg & Ht & got & Hr & Hid & ->).
  destruct (ReadFrom k _ _) as [e|r'] eqn:Er; [done|]. injection H as -> <-.
  exists u', got. split_and!; [done| |done]. unfold round_trip. split_and!; [|done..].
  unfold wire. rewrite Ht, concat_app. simpl. by rewrite app_nil_r.
Qed.

Lemma cycle_shows {Q R} fn key (kq : Codec Q) (kr : Codec R) rin guard dbg out C D hdr frame c u :
  handles E key kq kr rin out C D -> APIKey hdr = key -> upstream c = Some u ->
  shows (rewritten_reply (TopicPrefix (tenant c)) hdr frame u) c
    (cycle E fn key kq kr rin guard dbg out hdr (bodyOf frame hdr) c).2.
Proof.
  intros [Hkey Hreq Henc Hresp Hout] Hk Hu. unfold cycle.
  destruct (ReadFrom kq _ _) as [e|req] eqn:Eq; [by left|]. unfold bind at 1, get.
  set (p := TopicPrefix (tenant c)) in *. apply shows_bind; [walkQ|done|]. intros u1 c1 [= _ <-] _.
  apply shows_bind; [walkQ|done|]. intros u2 c2 H2 Hc2. apply only_logs_upstream in H2 as [Hu2 _]; [|auto with kroxy].
  apply shows_bind; [unfold roundTripTyped; walkQ|done|]. intros r c3 H3%wrap_Ok Hc3.
  apply (roundTripTyped_Ok _ _ _ _ u) in H3 as (u' & got & Hu3 & Hrt & Er); [|congruence].
  apply shows_bind; [walkQ|done|]. intros u4 c4 H4 Hc4. apply only_logs_upstream in H4 as [Hu4 _]; [|auto with kroxy].
  apply shows_bind; [walkQ|done|]. intros r' c5 [= Hr' <-] _. apply (shows_write _ _ _ u'); [congruence..|].
  destruct (Hout (APIVersion hdr) p req r r' Hr') as (host & port & Had & Henc').
  exists (C req), (D r), host, port. split_and!; [|done|unfold reply_of; by rewrite Henc'].
  split_and!; [by rewrite Hkey|by apply Hreq|]. exists got. rewrite <-Henc, Hk. split; [exact Hrt|].
  by apply Hresp.
Qed.
Lemma RoundTrip_Ok frame cid hv rhv u resp u' :
  RoundTrip frame cid hv rhv u = (Ok resp, u') ->
  exists got, round_trip u u' (fun id => frame_bytes (putUint32 frame 4 id)) got /\ resp = putUint32 got 0 cid.
Proof.
  intros H. unfold RoundTrip in H. destruct (len frame <? 8) eqn:E8; [done|].
  apply bind_Ok in H as (id & c1 & H1 & H). apply nextCorrelationID_Ok in H1 as [-> ->].
  apply bind_Ok in H as ([] & c2 & H1%wrap_Ok & H). apply applyRequestDeadline_Ok in H1 as (Ht1 & Hr1 & _).
  apply bind_Ok in H as ([] & c3 & H1%wrap_Ok & H). apply on_nc_Ok in H1 as (n3 & H1 & ->).
  destruct (WriteFrame_spec (putUint32 frame 4 (int32 (corrIDGen u + 1))) (nc c2)) as (_ & Hr2 & Hw2).
  rewrite H1 in *. simpl in *.
  apply bind_Ok in H as (got & c4 & H2%wrap_Ok & H). apply on_nc_Ok in H2 as (n4 & H2 & ->).
  apply ReadFrame_Ok in H2 as (Hr3 & Ht3 & _). change (nc (set_nc n3 c2)) with n3 in Hr3, Ht3.
  destruct (len got <? 4) eqn:E4; [done|]. apply Z.ltb_ge in E4.
  apply bind_Ok in H as (h & c5 & H2 & H). unfold lift in H2. injection H2 as H2 <-.
  rewrite slice_Ok in H2 by lia. injection H2 as <-.
  destruct (int32 _ =? _) eqn:Ec in H; simpl in H; [|done]. apply Z.eqb_eq in Ec. injection H as <- <-.
  exists got. split; [|done]. unfold round_trip. change (nc (set_nc n4 (set_nc n3 c2))) with n4.
  split_and!; [|by rewrite <-Hr3, Hr2, Hr1|exact Ec].
  unfold wire in *. rewrite Ht3, Hw2 by done. by rewrite Ht1.
Qed.

Lemma ensureUpstream_connected c c' :
  ensureUpstream E c = (Ok tt, c') ->
  client c' = client c /\ tenant c' = tenant c /\ exists u, upstream c' = Some u /\ connected c u.
Proof.
  intros H. unfold connected, dialling. unfold ensureUpstream, bind at 1, get in H.
  destruct (upstream c) as [u|] eqn:Eu; [injection H as <-; split_and!; [done..|by exists u]|].
  unfold bind at 1, nextDial in H. unfold bind at 1, attempt, runDial in H.
  set (m := if shouldTranslatePlainToSCRAM E c then _ else _) in H.
  destruct (m None) as [[[]|e|] [u|]] eqn:Em; try done. injection H as <-. split_and!; [done..|].
  exists u. split; [done|]. unfold m in Em. destruct (dials c) as [|d ds]; [|by exists d, ds].
  exfalso. simpl in Em. unfold upDialSCRAM, DialSCRAM in Em.
  destruct (shouldTranslatePlainToSCRAM E c); [by destruct (negb _)|done].
Qed.

(** The answer of the forwarding handlers of an authenticated connection. *)
Lemma forward_shows hdr frame c :
  ~ own_key (APIKey hdr) ->
  let d := (match rewriteHandler E (APIKey hdr) with
            | Some _ => forwardRewritten E hdr (bodyOf frame hdr)
            | None => forwardPassthrough E hdr frame
            end c).2 in
  client d = client c \/
  exists u, connected c u /\
    shows (fun u' b => rewritten_reply (TopicPrefix (tenant c)) hdr frame u u' b \/
                       passthrough_reply hdr frame u u' b) c d.
Proof.
  intros Hno. cbv zeta.
  assert (forall A (k : unit -> M conn A) fn,
    (forall c1 u, client c1 = client c -> tenant c1 = tenant c -> upstream c1 = Some u -> connected c u ->
       client (k tt c1).2 = client c \/ exists u, connected c u /\
       shows (fun u' b => rewritten_reply (TopicPrefix (tenant c)) hdr frame u u' b \/
                          passthrough_reply hdr frame u u' b) c (k tt c1).2) ->
    let d := (bind (wrap fn (ensureUpstream E)) k c).2 in
    client d = client c \/ exists u, connected c u /\
      shows (fun u' b => rewritten_reply (TopicPrefix (tenant c)) hdr frame u u' b \/
                         passthrough_reply hdr frame u u' b) c d) as Hbind.
  { intros A k fn Hk. cbv zeta. unfold bind, wrap. pose proof (ensureUpstream_quiet E c) as Hq. unfold sameClient in Hq.
    destruct (ensureUpstream E c) as [[[]|e|] c1] eqn:Ee; [|by left..]. simpl.
    destruct (ensureUpstream_connected c c1 Ee) as (Hc & Ht & u & Hu & Hcon). by eapply Hk. }
  destruct (rewriteHandler E (APIKey hdr)) as [h|] eqn:Eh.
  - unfold forwardRewritten. rewrite Eh. apply Hbind. intros c1 u Hc Ht Hu Hcon. right. exists u. split; [done|].
    apply rewriteHandler_cycle in Eh as (Q & R & fn & kq & kr & rin & guard & dbg & out & C & D & -> & Hh).
    pose proof (cycle_shows fn (APIKey hdr) kq kr rin guard dbg out C D hdr frame c1 u Hh eq_refl Hu) as Hs.
    rewrite Ht in Hs. unfold shows, clientW in *. rewrite Hc in Hs.
    destruct Hs as [|(u' & b & ? & ? & ?)]; [by left|right]. exists u', b. auto.
  - unfold forwardPassthrough. apply Hbind. intros c1 u Hc Ht Hu Hcon. right. exists u. split; [done|].
    unfold bind at 1, wrap.
    match goal with |- context [on_up ?m c1] => pose proof (on_up_quiet m c1) as Hq; destruct (on_up m c1) as [[resp|e|] c2] eqn:Er end;
      unfold sameClient in Hq; simpl in Hq; [|left; simpl; congruence..].
    apply (on_up_Ok _ _ _ _ _ Hu) in Er as (u' & Er & Hu'). apply RoundTrip_Ok in Er as (got & Hrt & ->).
    apply (shows_write _ _ _ u'); [simpl; congruence|done|]. right. split_and!; [done..|]. by exists got.
Qed.

Lemma dispatch_W hdr frame c :
  let d := (dispatch E hdr frame (bodyOf frame hdr) c).2 in clientW (may_show c d frame hdr) c d.
Proof.
  intros d. assert (d = (dispatch E hdr frame (bodyOf frame hdr) c).2) as Hd by done. clearbody d.
  unfold dispatch in Hd.
  destruct (Z.eqb_spec (APIKey hdr) ApiVersionsKey) as [|N1];
    [subst d; apply handleApiVersions_W; [by left|done]|].
  destruct (Z.eqb_spec (APIKey hdr) SaslHandshakeKey) as [|N2];
    [subst d; apply handleSaslHandshake_W; [by left|done]|].
  destruct (Z.eqb_spec (APIKey hdr) SaslAuthenticateKey) as [|N3];
    [subst d; apply handleSaslAuthenticate_W; [by left|done]|].
  unfold bind at 1, get in Hd. case_decide as Hst; [subst d; apply quiet_clientW; walkQ|].
  destruct (decide (state c = stateAuthenticated)) as [Ha|]; [|done].
  destruct (forward_shows hdr frame c) as [Hf|(u & Hu & [Hf|(u' & b & Hu' & Hb & Hf)])];
    [by intros [?|[?|?]]|rewrite <-Hd in Hf; unfold clientW; by rewrite Hf..|]. rewrite <-Hd in Hf, Hu'.
  eapply clientW_mono; [|exact Hf]. intros x ->. right. split; [done|]. exists u, u'. auto.
Qed.

(** * The loop *)

(** An iteration dispatches one frame, read from the client, from a state that
    differs in the socket's deadline and read position, or shows nothing. *)
Lemma serveStep_shape c r c' :
  serveStep E c = (r, c') ->
  tx (client c') = tx (client c) \/
  exists n cx hdr frame, tx n = tx (client c) /\ ParseRequestHeader frame = Ok hdr /\
    legal frame /\ rx (client c) = frame_bytes frame ++ rx n /\
    let d := (dispatch E hdr frame (bodyOf frame hdr) (set_client n (set_ctx cx c))).2 in
    client c' = client d /\ upstream c' = upstream d.
Proof.
  intros H. unfold serveStep, bind at 1, ctxErr in H.
  destruct (hd None (ctx c)) as [e|]; [injection H as <- <-; by left|].
  unfold bind at 1, get in H. unfold bind at 1, wrap at 1, on_client at 1, zoom at 1 in H.
  cbn [client set_ctx] in H.
  pose proof (SetDeadline_spec (Some (readTimeout (state (set_ctx (tl (ctx c)) c)))) (client c)) as (Ht & Hx & _).
  destruct (SetDeadline _ (client c)) as [[[]|e|] n1]; simpl in Ht, Hx; [|injection H as <- <-; by left..].
  unfold bind at 1, attempt at 1, on_client at 1, zoom at 1 in H. cbn [rwrap client set_client] in H.
  pose proof (ReadFrame_tx n1) as Ht2. rewrite Ht in Ht2.
  pose proof (fun b => ReadFrame_sound b n1) as Hx2. rewrite Hx in Hx2.
  destruct (ReadFrame n1) as [[frame|e|] n2]; simpl in Ht2, Hx2;
    [|destruct (Is e EOF); injection H as <- <-; by left|injection H as <- <-; by left].
  unfold serveFrame, bind at 1, wrap at 1, on_client at 1, zoom at 1 in H. cbn [client set_client] in H.
  pose proof (SetDeadline_spec None n2) as (Ht3 & Hx3 & _). rewrite Ht2 in Ht3.
  destruct (SetDeadline None n2) as [[[]|e|] n3]; simpl in Ht3, Hx3; [|injection H as <- <-; by left..].
  cbn [rwrap] in H. unfold bind at 1, wrap at 1, lift at 1 in H.
  destruct (ParseRequestHeader frame) as [hdr|e|] eqn:Eh; [|injection H as <- <-; by left..].
  cbn [rwrap] in H. unfold bind at 1, lift at 1 in H.
  destruct (slice_from frame (HeaderSize hdr)) as [body|e|] eqn:Eb; [|injection H as <- <-; by left..].
  apply slice_from_inv in Eb as [_ ->].
  right. exists n3, (tl (ctx c)), hdr, frame. rewrite Hx3.
  destruct (Hx2 frame eq_refl) as [Hlf Hx2'].
  split_and!; [done..|]. unfold bind at 1, attempt in H. fold (bodyOf frame hdr) in H.
  change (set_client n3 (set_client n2 (set_client n1 (set_ctx (tl (ctx c)) c))))
    with (set_client n3 (set_ctx (tl (ctx c)) c)) in H.
  destruct (dispatch E hdr frame _ _) as [[[]|e|] d]; injection H as _ <-; done.
Qed.

(** What an iteration shows. *)
Lemma serveStep_shows c r c' :
  serveStep E c = (r, c') ->
  exists ws, tx (client c') = tx (client c) ++ ws /\
    (ws = [] \/
     exists frame hdr, legal frame /\ rx (client c) = frame_bytes frame ++ rx (client c') /\
       ParseRequestHeader frame = Ok hdr /\ Forall (framed (may_show c c' frame hdr)) ws).
Proof.
  intros [Ht|(n & cx & hdr & frame & Ht & Hp & Hl & Hx & Hd)]%serveStep_shape;
    [exists []; rewrite app_nil_r; by auto|].
  set (c1 := set_client n (set_ctx cx c)) in *. cbv zeta in Hd. destruct Hd as [Hcl Hup].
  destruct (dispatch_W hdr frame c1) as (ws & Htx & Hws).
  destruct (dispatch_R E hdr frame (bodyOf frame hdr) c1) as (_ & Hrx & _).
  exists ws. rewrite Hcl, Htx. change (tx (client c1)) with (tx n). rewrite Ht. split; [done|]. right.
  exists frame, hdr. rewrite Hrx. split_and!; [done..|]. revert Hws. apply Forall_impl. intros w.
  apply framed_mono. intros b [Ho|(Hst & u & u' & Hcon & Hu' & Hb)]; [by left|right].
  split; [exact Hst|]. exists u, u'. rewrite Hup. done.
Qed.

(** * Theorems *)

(** C2: what an iteration of the loop writes to the client, in any state a connection
    can get into and whatever the client and the broker send: nothing, or part of
    the answer to the frame it has just read, under that frame's correlation id.
    That is kroxy's own reply to an ApiVersions or SASL request, or, only if the
    connection is authenticated as a tenant found in the store: for an API with a
    rewrite, the client's request, decoded with the API's codec and rewritten, was
    written to the broker under a new correlation id, the next frame of the broker
    carried this id, and the answer is that frame decoded with the same API's
    codec and rewritten for the tenant's prefix (with kroxy's address for the
    brokers'); for another API the same with the client's and the broker's frames
    passed on. *)
Theorem client_traffic c r c' :
  reachable E c -> serveStep E c = (r, c') ->
  exists ws, tx (client c') = tx (client c) ++ ws /\
    (ws = [] \/
     exists frame hdr, legal frame /\ rx (client c) = frame_bytes frame ++ rx (client c') /\
       ParseRequestHeader frame = Ok hdr /\
       Forall (framed (fun b => own_reply hdr b \/
         (state c = stateAuthenticated /\ resolved E c /\
          exists u u', connected c u /\ upstream c' = Some u' /\
            (rewritten_reply (TopicPrefix (tenant c)) hdr frame u u' b \/
             passthrough_reply hdr frame u u' b)))) ws).
Proof.
  intros Hre H. destruct (serveStep_shows c r c' H) as (ws & Ht & Hws). exists ws. split; [done|].
  destruct Hws as [|(frame & hdr & Hl & Hx & Hp & Hws)]; [by left|right]. exists frame, hdr.
  split_and!; [done..|]. revert Hws. apply Forall_impl. intros w. apply framed_mono.
  intros b [Ho|(Hst & Hb)]; [by left|right]. split_and!; [done| |done].
  by eapply authenticated_resolved; [apply reachable_Inv|].
Qed.

Section WithStore.
Context (table : St -> gmap string Tenant) (StInv : St -> Prop).
Context `{!ResolverLaws (store E) table StInv} (Hhist : forall k, StInv (history E k)).
Context `{!BlobLaws subscription sub_topics sub_rename}.
Context `{!BlobLaws assignment asg_topics asg_rename}.

(** C8: the names a client sees in the answer to a request of an API kroxy rewrites.
    What the iteration writes to the client is part of the encoding of the response
    that the broker gave to this request in this iteration, rewritten for the
    registered tenant of the connection; its names are those of the broker's
    response with the prefix stripped where it is there, and in the responses that
    list what the broker has (Metadata, ListGroups, scoped DescribeConfigs) a name
    appears exactly when the broker reported it with the tenant's prefix in
    front. *)
Theorem client_names_own c r c' frame hdr ws w :
  reachable E c -> serveStep E c = (r, c') ->
  next_frame c frame -> ParseRequestHeader frame = Ok hdr -> rewriteHandler E (APIKey hdr) <> None ->
  tx (client c') = tx (client c) ++ ws -> w ∈ ws ->
  let p := TopicPrefix (tenant c) in
  state c = stateAuthenticated /\ registered E table (tenant c) /\ p <> "" /\
  exists u u' q s host port, connected c u /\ upstream c' = Some u' /\
    brokered p hdr frame u u' q s /\ (addressed s = true -> advertised E = Ok (host, port)) /\
    framed (fun b => b = reply_of p hdr q s host port) w /\
    forall n, n ∈ resp_names subscription assignment (ResponseOut subscription assignment p host port s) <->
      if filtered s then (p +:+ n)%string ∈ resp_names subscription assignment s
      else exists n0, n0 ∈ resp_names subscription assignment s /\ n = StripOut p n0.
Proof.
  intros Hre H [Hlf (rest & Hx)] Hp Hk Hws Hw p.
  destruct (serveStep_shows c r c' H) as (ws' & Ht & [->|(frame' & hdr' & Hl' & Hx' & Hp' & Hsh)]).
  { rewrite Ht in Hws. apply app_inv_head in Hws as <-. by apply elem_of_nil in Hw. }
  rewrite Ht in Hws. apply app_inv_head in Hws as ->. rewrite Hx in Hx'.
  apply frame_bytes_inj in Hx' as [<- _]; [|done..]. rewrite Hp in Hp'. injection Hp' as <-.
  destruct (proj1 (list.Forall_forall _ _) Hsh w Hw) as (b & k & Hb & Hwb).
  destruct Hb as [(enc & _ & Ho)|(Hst & u & u' & Hcon & Hu' & [Hb|(_ & Hn & _)])]; [| |done].
  { exfalso. destruct Ho as [[Ho _]|[[Ho _]|[Ho _]]]; rewrite Ho in Hk; done. }
  pose proof (reachable_Inv E c Hre) as HI.
  pose proof (resolved_registered E table StInv Hhist c (authenticated_resolved E anything c HI Hst)) as Hreg.
  assert (p <> "") as Hne by (by destruct Hreg as [(_ & ? & _) _]).
  split_and!; [done..|]. destruct Hb as (q & s & host & port & Hb & Had & ->).
  exists u, u', q, s, host, port. split_and!; [done..|by eexists _, k|].
  intros n. rewrite resp_names_ResponseOut, list_elem_of_omap by done. destruct (filtered s).
  - setoid_rewrite view_Some; [|done]. naive_solver.
  - unfold view. naive_solver.
Qed.
End WithStore.
End Client.

(** * Witnesses: the third iteration of the demonstration run *)

(** Its last write: the payload of the Metadata response. *)
Definition demo_shown : list byte := be_encode 4 13 ++ [Byte.x2a].
Definition demo_frame : list byte := DemoProxy.request MetadataKey 1 13 (bytes_of_string "orders").
Lemma demo_writes :
  tx (client DemoProxy.c3) = tx (client DemoProxy.c2) ++ [be_encode 4 5; demo_shown].
Proof. vm_compute. reflexivity. Qed.
Lemma client_traffic_witness :
  exists ws, tx (client DemoProxy.c3) = tx (client DemoProxy.c2) ++ ws /\ ws <> [].
Proof.
  destruct (client_traffic DemoProxy.env DemoProxy.c2 (Ok tt) DemoProxy.c3 demo_reachable demo_step3)
    as (ws & Hws & _).
  exists ws. split; [exact Hws|]. intros ->. rewrite demo_writes in Hws.
  apply app_inv_head in Hws. discriminate Hws.
Defined.
Lemma client_names_own_witness :
  registered DemoProxy.env tenants (tenant DemoProxy.c2) /\ TopicPrefix (tenant DemoProxy.c2) <> "".
Proof.
  destruct (client_names_own DemoProxy.env tenants (fun s => well_formed (tenants s))
    DemoProxy.store_well_formed DemoProxy.c2 (Ok tt) DemoProxy.c3 demo_frame
    (MkHeader MetadataKey 1 13 "" 1 10) _ demo_shown demo_reachable demo_step3
    ltac:(split; [by vm_compute|exists []; vm_compute; reflexivity]) ltac:(vm_compute; reflexivity)
    ltac:(discriminate) demo_writes ltac:(set_solver)) as (_ & H1 & H2 & _).
  exact (conj H1 H2).
Defined.
