(* ===== verification/Session.v ===== *)
(** Whole sessions that succeed.

    A client that logs in and sends requests kroxy can serve, a broker that
    accepts the login and answers: [serve] returns only when the client has closed
    the connection, and both sockets carry exactly the bytes of the reference
    session, a function of the messages of the two peers. *)
From Stdlib Require Import ZArith Lia.
From stdpp Require Import base list gmap strings tactics.
From S2P Require Import Prelude GoStrings GoNet Protocol ProtocolFacts Kmsg Auth Rewrite.
From S2P Require Import RewriteMsg RewriteFacts Resolver ResolverFacts Upstream UpstreamTheorems.
From S2P Require Import Completion Observability ProxyConn Handlers Serve Messages ProxyFacts Answers.
From S2P Require Import ProxyDemo ProxyTheorems ClientTraffic.
Local Open Scope Z_scope.
#[local] Arguments frame_bytes : simpl never.
#[local] Arguments response : simpl never.

Section Session.
Context {X Session St : Type} (E : Env X Session St).
Abbreviation K := (codecs E).
Abbreviation subscription := (k_subscription _ K).
Abbreviation assignment := (k_assignment _ K).
Abbreviation requestKey := (Messages.requestKey E).
Abbreviation requested := (Messages.requested E).
Abbreviation responded := (Messages.responded E).
Abbreviation appended := (Messages.appended E).
Abbreviation dialling := (ClientTraffic.dialling E).

(** * The reference session *)

(** What becomes of a request: kroxy answers it itself, the broker answers the
    rewritten request [q] with the body [b], which decodes to [s], or the broker
    answers the forwarded frame with its own after the correlation id. *)
Inductive service : Type :=
| Versions
| Rewritten (q : KRequest (X:=X)) (b : list byte) (s : KResponse (X:=X)) (host : string) (port : Z)
| Forwarded (rest : list byte).
Record exchange : Type := MkExchange { frame : list byte; hdr : RequestHeader; service_of : service }.

Definition parsed (f : list byte) (h : RequestHeader) : Prop :=
  legal f /\ ParseRequestHeader f = Ok h /\ 0 <= HeaderSize h <= len f.

(** The exchange can take place when the last request to the broker had id [g]. *)
Definition servable (g : Z) (x : exchange) : Prop :=
  let h := hdr x in
  parsed (frame x) h /\
  match service_of x with
  | Versions => APIKey h = ApiVersionsKey
  | Rewritten q b s host port =>
      APIKey h = requestKey q /\ requested (APIVersion h) (bodyOf (frame x) h) q /\
      (forall r, q = QProduce r -> ProduceRequest.Acks r <> 0) /\
      responded (APIVersion h) b q s /\ (addressed s = true -> advertised E = Ok (host, port)) /\
      legal (response (nextID g) (APIKey h) (APIVersion h) b)
  | Forwarded rest =>
      ~ own_key (APIKey h) /\ rewriteHandler E (APIKey h) = None /\
      legal (be_encode 4 (uint32 (nextID g)) ++ rest)
  end.

(** The bytes of an exchange: from the broker, to the broker, to the client. *)
Definition fromBroker (g : Z) (x : exchange) : list byte :=
  match service_of x with
  | Versions => []
  | Rewritten _ b _ _ _ => frame_bytes (response (nextID g) (APIKey (hdr x)) (APIVersion (hdr x)) b)
  | Forwarded rest => frame_bytes (be_encode 4 (uint32 (nextID g)) ++ rest)
  end.
Definition toBroker (p : string) (g : Z) (x : exchange) : list byte :=
  match service_of x with
  | Versions => []
  | Rewritten q _ _ _ _ =>
      AppendRequest E (ClientID (hdr x))
        (encode E (APIVersion (hdr x)) (RequestIn subscription assignment p q)) (nextID g)
  | Forwarded _ => frame_bytes (putUint32 (frame x) 4 (nextID g))
  end.
Definition reply (p : string) (x : exchange) : list byte :=
  let h := hdr x in
  let encode enc := EncodeResponse enc (CorrelationID h) (APIKey h) (APIVersion h) in
  match service_of x with
  | Versions => encode (AppendTo (k_ApiVersionsResponse _ K) (APIVersion h) (ApiVersionsResponse.Mk advertisedVersions))
  | Rewritten q _ s host port =>
      encode (appended (APIVersion h) q (ResponseOut subscription assignment p host port s))
  | Forwarded rest => be_encode 4 (uint32 (CorrelationID h)) ++ rest
  end.
Definition afterID (g : Z) (x : exchange) : Z :=
  match service_of x with Versions => g | _ => nextID g end.
Definition usesBroker (x : exchange) : bool :=
  match service_of x with Versions => false | _ => true end.

(** The same for a sequence of exchanges. *)
Fixpoint servables (g : Z) (xs : list exchange) : Prop :=
  match xs with [] => True | x :: xs => servable g x /\ servables (afterID g x) xs end.
Fixpoint fromBrokers (g : Z) (xs : list exchange) : list byte :=
  match xs with [] => [] | x :: xs => fromBroker g x ++ fromBrokers (afterID g x) xs end.
Fixpoint toBrokers (p : string) (g : Z) (xs : list exchange) : list byte :=
  match xs with [] => [] | x :: xs => toBroker p g x ++ toBrokers p (afterID g x) xs end.
Definition afterIDs (g : Z) (xs : list exchange) : Z := foldl afterID g xs.
Definition requests (xs : list exchange) : list byte := concat (map (fun x => frame_bytes (frame x)) xs).
Definition replies (p : string) (xs : list exchange) : list byte :=
  concat (map (fun x => frame_bytes (reply p x)) xs).

(** * The connection during a session *)

(** The broker's side: the connection is there, or ([live] false) the next dial is
    going to make it. *)
Definition upside (live : bool) (g : Z) (e : error) (r w : list byte) (c : conn) : Prop :=
  (exists u, upstream c = Some u /\ link g e r w u) \/
  (live = false /\ upstream c = None /\
   exists d ds, dials c = d :: ds /\ runs (eq None) (dialling c d) tt (linked g e r w)).
Record during (t : Tenant) (rc wc : list byte) (live : bool) (g : Z) (e : error) (r w : list byte)
    (c : conn) : Prop := MkDuring {
  d_state : state c = stateAuthenticated;
  d_tenant : tenant c = t;
  d_ctx : ctx c = [];
  d_client : sock (ErrSent EOF) rc wc (client c);
  d_up : upside live g e r w c
}.

Lemma upside_client n live g e r w c : upside live g e r w c -> upside live g e r w (set_client n c).
Proof. done. Qed.
Lemma during_client {A} (m : M NetConn A) a t rc wc rc' wc' live g e r w :
  runs (sock (ErrSent EOF) rc wc) m a (sock (ErrSent EOF) rc' wc') ->
  runs (during t rc wc live g e r w) (on_client m) a (during t rc' wc' live g e r w).
Proof. intros H. eapply runs_zoom; [exact H|]. intros c [? ? ? ? ?]. split; [done|]. by split. Qed.
Lemma during_up {A} (m : M Conn A) a t rc wc g e r w g' r' w' :
  runs (link g e r w) m a (link g' e r' w') ->
  runs (during t rc wc true g e r w) (on_up m) a (during t rc wc true g' e r' w').
Proof.
  intros H c [Hs Ht Hx Hc [(u & Hu & Hl)|(? & _)]]; [|done]. destruct (H u Hl) as (u' & Eu & Hl').
  eexists. unfold on_up. rewrite Hu, Eu. split; [done|]. split; [done..|]. left. by exists u'.
Qed.
Lemma during_meter f t rc wc live g e r w :
  runs (during t rc wc live g e r w) (meter f) tt (during t rc wc live g e r w).
Proof. apply runs_modify. intros c [? ? ? ? ?]. by split. Qed.

Lemma during_logs m t rc wc live g e r w :
  only_logs m -> runs (during t rc wc live g e r w) m tt (during t rc wc live g e r w).
Proof. intros Hm c [? ? ? ? ?]. destruct (Hm c) as [lg E0]. eexists. split; [exact E0|]. by split. Qed.

Lemma ensureUpstream_runs t rc wc live g e r w :
  runs (during t rc wc live g e r w) (ensureUpstream E) tt (during t rc wc true g e r w).
Proof.
  intros c [Hs Ht Hx Hc Hup]. unfold ensureUpstream, bind at 1, get.
  destruct Hup as [(u & Hu & Hl)|(_ & Hu & d & ds & Hd & Hr)]; rewrite Hu.
  { exists c. split; [done|]. split; [done..|]. left. by exists u. }
  unfold bind at 1, nextDial. rewrite Hd. simpl.
  destruct (Hr None eq_refl) as (s & Es & u & -> & Hl). unfold dialling in Es.
  unfold bind, attempt, runDial. rewrite Es. eexists. split; [done|]. split; [done..|].
  left. by exists u.
Qed.

Lemma writeTyped_runs h enc t rc wc live g e r w :
  runs (during t rc wc live g e r w) (writeTypedResponse h enc) tt
    (during t rc (wc ++ frame_bytes (EncodeResponse enc (CorrelationID h) (APIKey h) (APIVersion h))) live g e r w).
Proof. apply during_client, WriteFrame_runs. Qed.

Lemma cycle_runs {Q R} fn key (kq : Codec Q) (kr : Codec R) rin guard dbg out h body req b resp resp' t
    rc wc wc' g e r w w' :
  let p := TopicPrefix t in
  let id := nextID g in
  APIKey h = key -> ReadFrom kq (APIVersion h) body = inr req -> guard (rin p req) = Ok tt ->
  ReadFrom kr (APIVersion h) b = inr resp -> out p resp = Ok resp' ->
  legal (response id key (APIVersion h) b) ->
  wc' = wc ++ frame_bytes (EncodeResponse (AppendTo kr (APIVersion h) resp') (CorrelationID h) key (APIVersion h)) ->
  w' = w ++ AppendRequest E (ClientID h) (typed key kq (APIVersion h) (rin p req)) id ->
  runs (during t rc wc true g e (frame_bytes (response id key (APIVersion h) b) ++ r) w)
    (cycle E fn key kq kr rin guard dbg out h body) tt (during t rc wc' true id e r w').
Proof.
  intros p id <- Hq Hg Hb Ho Hl -> ->. unfold cycle. rewrite Hq. apply runs_get. intros c Hc.
  eapply runs_conseq; [|intros ? <-; exact Hc|intros ? H; exact H].
  destruct Hc as [_ Ht _ _ _]. rewrite Ht. fold p. cbv zeta.
  eapply runs_bind; [apply runs_lift, Hg|].
  eapply runs_bind; [apply during_logs; auto with kroxy|]. eapply runs_bind.
  { apply runs_wrap. unfold roundTripTyped. eapply runs_bind.
    { apply runs_wrap, during_up.
      exact (RoundTripRequest_runs (AppendRequest E) (typed (APIKey h) kq (APIVersion h) (rin p req)) (ClientID h)
        b g e r w Hl). }
    simpl. rewrite Hb. apply runs_ret. }
  eapply runs_bind; [apply during_logs; auto with kroxy|].
  eapply runs_bind; [apply runs_lift, Ho|]. apply writeTyped_runs.
Qed.

(** The handler of a request, by its codecs and rewrites. *)
Lemma rewriteHandler_runs h body q b s host port t rc wc g e r w :
  let p := TopicPrefix t in
  let id := nextID g in
  APIKey h = requestKey q -> requested (APIVersion h) body q ->
  (forall r, q = QProduce r -> ProduceRequest.Acks r <> 0) ->
  responded (APIVersion h) b q s -> (addressed s = true -> advertised E = Ok (host, port)) ->
  legal (response id (APIKey h) (APIVersion h) b) ->
  exists hd, rewriteHandler E (APIKey h) = Some hd /\
    runs (during t rc wc true g e (frame_bytes (response id (APIKey h) (APIVersion h) b) ++ r) w) (hd h body) tt
      (during t rc (wc ++ frame_bytes (EncodeResponse
          (appended (APIVersion h) q (ResponseOut subscription assignment p host port s))
          (CorrelationID h) (APIKey h) (APIVersion h))) true id e r
        (w ++ AppendRequest E (ClientID h)
               (encode E (APIVersion h) (RequestIn subscription assignment p q)) id)).
Proof.
  intros p id Hk Hq Ha Hs Had Hl.
  destruct q, s; try done; cbn in Hk, Hq, Hs; rewrite Hk in Hl |- *; (eexists; split; [reflexivity|]);
    (eapply cycle_runs; [exact Hk|exact Hq| |exact Hs| |exact Hl|reflexivity|reflexivity]).
  all: try reflexivity.
  - unfold addr_out. by rewrite Had.
  - unfold rejectAcks0. simpl. by rewrite (proj2 (Z.eqb_neq _ 0)) by (by apply Ha).
  - unfold addr_out. by rewrite Had.
Qed.

Lemma parse_long f h : ParseRequestHeader f = Ok h -> 8 <= len f.
Proof. unfold ParseRequestHeader. destruct (len f <? 8) eqn:E8; [done|]. by apply Z.ltb_ge in E8. Qed.

(** One request of an authenticated client. *)
Lemma dispatch_runs x t rc wc live g e r w :
  servable g x ->
  runs (during t rc wc live g e (fromBroker g x ++ r) w)
    (dispatch E (hdr x) (frame x) (bodyOf (frame x) (hdr x))) tt
    (during t rc (wc ++ frame_bytes (reply (TopicPrefix t) x)) (usesBroker x || live) (afterID g x) e r
       (w ++ toBroker (TopicPrefix t) g x)).
Proof.
  destruct x as [f h s]. intros [(_ & Hp & _) Hx]. simpl in *. unfold dispatch.
  unfold fromBroker, toBroker, reply, afterID, usesBroker. simpl.
  destruct s as [|q b s host port|rest]; simpl.
  - rewrite Hx, Z.eqb_refl, app_nil_r, <-Hx. apply runs_wrap, during_client, WriteFrame_runs.
  - destruct Hx as (Hk & Hq & Ha & Hs & Had & Hl).
    destruct (rewriteHandler_runs h (bodyOf f h) q b s host port t rc wc g e r w Hk Hq Ha Hs Had Hl) as (hd & Eh & Hr).
    assert (APIKey h <> ApiVersionsKey /\ APIKey h <> SaslHandshakeKey /\ APIKey h <> SaslAuthenticateKey)
      as (N1 & N2 & N3) by (rewrite Hk; by destruct q).
    rewrite !(proj2 (Z.eqb_neq _ _)) by done. apply runs_get. intros c Hc.
    rewrite decide_False by (destruct Hc; tauto). rewrite Eh. unfold forwardRewritten. rewrite Eh.
    eapply runs_conseq; [|by intros ? <-|intros ? H; exact H].
    eapply runs_bind; [apply runs_wrap, ensureUpstream_runs|exact Hr].
  - destruct Hx as (Hno & Hnone & Hl). unfold own_key in Hno. rewrite !(proj2 (Z.eqb_neq _ _)) by tauto.
    apply runs_get. intros c Hc. rewrite decide_False by (destruct Hc; tauto). rewrite Hnone.
    eapply runs_conseq; [|by intros ? <-|intros ? H; exact H]. unfold forwardPassthrough.
    eapply runs_bind; [apply runs_wrap, ensureUpstream_runs|].
    eapply runs_bind; [apply runs_wrap, during_up, RoundTrip_runs; [by apply (parse_long f h)|exact Hl]|].
    apply during_client, WriteFrame_runs.
Qed.

(** One iteration of the loop, for a description [P] of the connection by what its
    client is going to send and has been sent. *)
Record describes (P : list byte -> list byte -> conn -> Prop) : Prop := MkDescribes {
  desc_client rc wc c : P rc wc c -> ctx c = [] /\ sock (ErrSent EOF) rc wc (client c);
  desc_set_client rc wc rc' wc' n c : P rc wc c -> sock (ErrSent EOF) rc' wc' n -> P rc' wc' (set_client n c);
  desc_set_ctx rc wc c : P rc wc c -> P rc wc (set_ctx [] c)
}.
Lemma desc_runs {A} P (m : M NetConn A) a rc wc rc' wc' :
  describes P -> runs (sock (ErrSent EOF) rc wc) m a (sock (ErrSent EOF) rc' wc') ->
  runs (P rc wc) (on_client m) a (P rc' wc').
Proof.
  intros HP H. eapply runs_zoom; [exact H|]. intros c Hc. split; [apply (desc_client P HP), Hc|].
  intros n. by apply (desc_set_client P HP rc wc).
Qed.
Lemma desc_ctxErr P rc wc : describes P -> runs (P rc wc) ctxErr None (P rc wc).
Proof.
  intros HP c Hc. exists (set_ctx [] c). unfold ctxErr. destruct (desc_client P HP _ _ _ Hc) as [-> _].
  split; [done|]. by apply (desc_set_ctx P HP).
Qed.

Lemma serveStep_frame P (Q : conn -> Prop) f h rc wc :
  describes P -> (forall m c, Q c -> Q (set_metrics m c)) -> parsed f h ->
  runs (P rc wc) (dispatch E h f (bodyOf f h)) tt Q ->
  runs (P (frame_bytes f ++ rc) wc) (serveStep E) tt Q.
Proof.
  intros HP HQ (Hl & Hp & Hh) Hd. unfold serveStep.
  eapply runs_bind; [apply desc_ctxErr, HP|]. simpl. apply runs_get. intros c Hc.
  eapply runs_conseq; [|by intros ? <-|intros ? H; exact H].
  eapply runs_bind; [apply runs_wrap, desc_runs, SetDeadline_runs; exact HP|].
  eapply runs_bind; [apply runs_attempt, desc_runs, ReadFrame_runs, Hl; exact HP|]. simpl. unfold serveFrame.
  eapply runs_bind; [apply runs_wrap, desc_runs, SetDeadline_runs; exact HP|].
  eapply runs_bind; [apply runs_wrap, runs_lift, Hp|].
  eapply runs_bind; [apply runs_lift, slice_from_Ok; lia|].
  eapply runs_bind; [apply runs_attempt, Hd|]. apply runs_get. intros c' Hc'.
  eapply runs_conseq; [|by intros ? <-|intros ? H; exact H].
  eapply runs_bind; [apply runs_modify; intros c2; apply HQ|]. apply runs_ret.
Qed.
(** When the client has closed the connection. *)
Lemma serveStep_eof P wc c :
  describes P -> P [] wc c -> exists c', serveStep E c = (Err (ErrSent errClientClosed), c') /\ P [] wc c'.
Proof.
  intros HP Hc. unfold serveStep. destruct (desc_ctxErr P [] wc HP c Hc) as (c1 & E1 & H1).
  unfold bind at 1. rewrite E1. unfold bind at 1, get.
  destruct (desc_runs P (SetDeadline (Some (readTimeout (state c1)))) tt [] wc [] wc HP
    (SetDeadline_runs _ _ _ _) c1 H1) as (c2 & E2 & H2).
  unfold bind at 1. rewrite (proj2 (wrap_Ok _ _ _ _ _) E2).
  destruct (ReadFrame_eof wc (client c2)) as (n & En & Hn); [apply (desc_client P HP), H2|].
  unfold bind, attempt, on_client, zoom. rewrite En. simpl. eexists. split; [done|].
  by apply (desc_set_client P HP [] wc).
Qed.

Lemma during_describes t live g e r w : describes (fun rc wc => during t rc wc live g e r w).
Proof. split; intros; [by destruct H|destruct H; by split..]. Qed.
Lemma serveStep_runs x t rc wc live g e r w :
  servable g x ->
  runs (during t (frame_bytes (frame x) ++ rc) wc live g e (fromBroker g x ++ r) w) (serveStep E) tt
    (during t rc (wc ++ frame_bytes (reply (TopicPrefix t) x)) (usesBroker x || live) (afterID g x) e r
       (w ++ toBroker (TopicPrefix t) g x)).
Proof.
  intros Hx. apply (serveStep_frame (fun rc wc => during t rc wc live g e (fromBroker g x ++ r) w) _ _ (hdr x)).
  - apply during_describes.
  - intros m c []. by split.
  - apply Hx.
  - by apply dispatch_runs.
Qed.

Lemma requests_cons x xs : requests (x :: xs) = frame_bytes (frame x) ++ requests xs.
Proof. done. Qed.
Lemma replies_cons p x xs : replies p (x :: xs) = frame_bytes (reply p x) ++ replies p xs.
Proof. done. Qed.
Lemma serveLoop_serves xs fuel t wc live g e r w c :
  servables g xs -> (length xs < fuel)%nat ->
  during t (requests xs) wc live g e (fromBrokers g xs ++ r) w c ->
  exists c', serveLoop E fuel c = (Err (ErrSent errClientClosed), c') /\
    during t [] (wc ++ replies (TopicPrefix t) xs) (existsb usesBroker xs || live) (afterIDs g xs) e r
      (w ++ toBrokers (TopicPrefix t) g xs) c'.
Proof.
  revert fuel wc live g w c. induction xs as [|x xs IH]; intros fuel wc live g w c Hx Hf Hc;
    (destruct fuel as [|fuel]; [simpl in Hf; lia|]); simpl serveLoop; unfold bind at 1.
  - destruct (serveStep_eof _ wc c (during_describes t live g e r w) Hc) as (c' & -> & Hc').
    exists c'. split; [done|]. unfold replies. simpl. by rewrite !app_nil_r.
  - destruct Hx as [Hx Hxs]. rewrite requests_cons in Hc. cbn [fromBrokers] in Hc. rewrite <-app_assoc in Hc.
    destruct (serveStep_runs x _ _ _ _ _ _ _ _ Hx c Hc) as (c1 & -> & Hc1).
    destruct (IH fuel _ _ _ _ _ Hxs ltac:(simpl in Hf; lia) Hc1) as (c' & -> & Hc').
    exists c'. split; [done|]. rewrite replies_cons. cbn [existsb toBrokers]. rewrite !app_assoc.
    rewrite orb_assoc, (orb_comm _ (usesBroker x)) in Hc'. exact Hc'.
Qed.

(** * Logging in *)
Record before (st : connState) (mech : string) (ds : list (error + NetConn)) (rc wc : list byte)
    (c : conn) : Prop := MkBefore {
  b_state : state c = st;
  b_mech : clientMechanism c = mech;
  b_ctx : ctx c = [];
  b_client : sock (ErrSent EOF) rc wc (client c);
  b_up : upstream c = None;
  b_dials : dials c = ds;
  b_gets : gets c = 0%nat;
  b_rounds : scramRoundsCompleted c = 0
}.
Lemma before_describes st mech ds : describes (before st mech ds).
Proof. split; intros; [by destruct H|destruct H; by split..]. Qed.

Definition ownReply (h : RequestHeader) (enc : list byte -> list byte) : list byte :=
  EncodeResponse enc (CorrelationID h) (APIKey h) (APIVersion h).
Definition handshakeReply (h : RequestHeader) : list byte :=
  ownReply h (AppendTo (k_SASLHandshakeResponse _ K) (APIVersion h)
    (SASLHandshakeResponse.Mk 0 [MechanismPlain; MechanismSCRAMSHA256; MechanismSCRAMSHA512])).
Definition authReply (h : RequestHeader) (msg : option string) (payload : list byte) : list byte :=
  ownReply h (AppendTo (k_SASLAuthenticateResponse _ K) (APIVersion h)
    (SASLAuthenticateResponse.Mk 0 msg payload)).

(** The client's SASL requests. *)
Definition handshakes (f : list byte) (h : RequestHeader) (mech : string) : Prop :=
  parsed f h /\ APIKey h = SaslHandshakeKey /\
  ReadFrom (k_SASLHandshakeRequest _ K) (APIVersion h) (bodyOf f h) = inr (SASLHandshakeRequest.Mk mech).
Definition authenticates (f : list byte) (h : RequestHeader) (payload : list byte) : Prop :=
  parsed f h /\ APIKey h = SaslAuthenticateKey /\
  ReadFrom (k_SASLAuthenticateRequest _ K) (APIVersion h) (bodyOf f h) =
    inr (SASLAuthenticateRequest.Mk payload).

Lemma writeResponse_runs P h enc rc wc :
  describes P ->
  runs (P rc wc) (writeResponse h enc) tt (P rc (wc ++ frame_bytes (ownReply h enc))).
Proof. intros HP. apply runs_wrap, desc_runs, WriteFrame_runs. exact HP. Qed.

Lemma handshake_runs f h mech ds rc wc :
  handshakes f h mech -> mech = MechanismPlain \/ IsSCRAMMechanism mech = true ->
  runs (before stateAwaitHandshake "" ds (frame_bytes f ++ rc) wc) (serveStep E) tt
    (before stateAwaitAuth mech ds rc (wc ++ frame_bytes (handshakeReply h))).
Proof.
  intros (Hp & Hk & Hr) Hm.
  apply (serveStep_frame (before stateAwaitHandshake "" ds) _ f h);
    [apply before_describes|by intros m c []; split|exact Hp|].
  unfold dispatch. rewrite Hk. simpl. unfold handleSaslHandshake. rewrite Hr. simpl.
  apply runs_get. intros c Hc. rewrite decide_False by (destruct Hc; tauto).
  assert (negb (mech =? MechanismPlain)%string && negb (IsSCRAMMechanism mech) = false) as ->.
  { destruct Hm as [->| ->]; [done|]. by rewrite andb_false_r. }
  eapply runs_conseq; [|by intros ? <-|intros ? H; exact H]. eapply runs_bind.
  - eapply runs_bind; [apply (runs_modify _ _ (before stateAwaitHandshake mech ds rc wc)); intros ? []; by split|].
    eapply runs_bind; [apply (runs_modify _ _ (before stateAwaitAuth mech ds rc wc)); intros ? []; by split|].
    apply runs_ret.
  - apply writeResponse_runs, before_describes.
Qed.

(** ** PLAIN *)
Definition dialFor (t : Tenant) (pw : string) (d : error + NetConn) : M (option Conn) unit :=
  if IsSCRAMMechanism (UpstreamSASLMechanism (cfg E))
  then upDialSCRAM E d (UpstreamSASLMechanism (cfg E)) (ID t) pw
  else upDial E d (ID t) pw.

Lemma plain_runs f h payload creds t d ds rc wc g e r w :
  authenticates f h payload -> ParsePlain payload = Ok creds ->
  (Get (store E) (Username creds) (history E 0)).1 = Ok t ->
  runs (eq None) (dialFor t (Password creds) d) tt (linked g e r w) ->
  runs (before stateAwaitAuth MechanismPlain (d :: ds) (frame_bytes f ++ rc) wc) (serveStep E) tt
    (during t rc (wc ++ frame_bytes (authReply h None [])) false g e r w).
Proof.
  intros (Hp & Hk & Hr) Hc Hg Hd.
  apply (serveStep_frame (before stateAwaitAuth MechanismPlain (d :: ds)) _ f h);
    [apply before_describes|by intros m c []; split|exact Hp|].
  unfold dispatch. rewrite Hk. simpl. intros c Hb. pose proof Hb as [Hs Hm Hx Hcl Hu Hds Hgt _].
  unfold handleSaslAuthenticate, bind at 1, get. rewrite Hm. simpl.
  unfold handleSaslAuthenticatePlain. rewrite Hr. simpl. unfold bind at 1, get.
  rewrite decide_False by tauto. unfold bind at 1, attempt, lift. rewrite Hc.
  unfold bind at 1, attempt, lookupTenant. rewrite Hgt, Hg. cbv beta iota.
  unfold observeHandshake, logs, meter, modify, bind. cbv beta iota.
  apply (writeResponse_runs (fun rc wc => during t rc wc false g e r w)); [apply during_describes|].
  split; [done..|]. right. split_and!; [done..|]. exists d, ds. split; [done|].
  unfold dialling, shouldTranslatePlainToSCRAM. simpl. by rewrite Hm.
Qed.

(** A broker that accepts the login of a tenant: its socket, and the id, what it is
    going to send and what it has been sent when the login is over. *)
Inductive welcomes (t : Tenant) (pw : string) (n : NetConn) : Z -> error -> list byte -> list byte -> Prop :=
| welcomes_plain b1 b2 b3 p e r w :
    IsSCRAMMechanism (UpstreamSASLMechanism (cfg E)) = false ->
    negotiable (k_SASLHandshakeResponse _ K) b1 b2 -> legal (response 3 SaslAuthenticateKey 1 b3) ->
    accepted (k_SASLAuthenticateResponse _ K) b3 p ->
    sock e (negotiation b1 b2 ++ frame_bytes (response 3 SaslAuthenticateKey 1 b3) ++ r) w n ->
    welcomes t pw n 3 e r
      (w ++ negotiating (AppendRequest E) (k_SASLHandshakeRequest _ K) (avRequest E) MechanismPlain ++
       loginRequest (AppendRequest E) (k_SASLAuthenticateRequest _ K) (ID t) pw)
| welcomes_scram b1 b2 s m rounds e r w :
    let mech := UpstreamSASLMechanism (cfg E) in
    IsSCRAMMechanism mech = true -> negotiable (k_SASLHandshakeResponse _ K) b1 b2 ->
    Authenticate E mech (ID t) pw = inr (s, m) ->
    scramExchange (k_SASLAuthenticateResponse _ K) (Challenge E) s m rounds -> scramLegal 2 rounds ->
    sock e (negotiation b1 b2 ++ scramIn 2 rounds ++ r) w n ->
    welcomes t pw n (idAfter 2 (length rounds)) e r
      (w ++ negotiating (AppendRequest E) (k_SASLHandshakeRequest _ K) (avRequest E) mech ++
       scramOut (AppendRequest E) (k_SASLAuthenticateRequest _ K) 2 rounds).
Lemma welcomes_dial t pw n g e r w :
  welcomes t pw n g e r w -> runs (eq None) (dialFor t pw (inr n)) tt (linked g e r w).
Proof.
  unfold dialFor. intros [b1 b2 b3 p e' r' w' Hm Hn Hl Ha Hs|b1 b2 s m rounds e' r' w' mech Hm Hn Hau Hx Hl Hs].
  - rewrite Hm. exact (Dial_runs _ _ _ _ _ _ b1 b2 b3 p _ _ _ _ _ _ Hn Hl Ha Hs).
  - fold mech. rewrite Hm. exact (DialSCRAM_runs _ _ _ _ _ _ _ _ b1 b2 _ _ _ s m rounds _ _ _ _ Hm Hn Hau Hx Hl Hs).
Qed.

(** ** SCRAM, relayed *)
Record relaying (t : Tenant) (mech : string) (k : Z) (g : Z) (e : error) (r w : list byte)
    (rc wc : list byte) (c : conn) : Prop := MkRelaying {
  r_state : state c = stateRelaySaslInFlight;
  r_mech : clientMechanism c = mech;
  r_tenant : tenant c = t;
  r_ctx : ctx c = [];
  r_client : sock (ErrSent EOF) rc wc (client c);
  r_rounds : scramRoundsCompleted c = k;
  r_up : exists u, upstream c = Some u /\ link g e r w u
}.
Lemma relaying_describes t mech k g e r w : describes (relaying t mech k g e r w).
Proof. split; intros; [by destruct H|destruct H; by split..]. Qed.

Definition message (msg : string) : option string := if (msg =? "")%string then None else Some msg.
Definition relayed (payload : list byte) (g : Z) : list byte :=
  AppendRequest E "kroxy" (authenticateRequest (k_SASLAuthenticateRequest _ K) payload) (nextID g).
(** The connection after [k] accepted rounds. *)
Definition afterRounds (k : Z) (t : Tenant) (mech : string) (g : Z) (e : error) (r w rc wc : list byte)
    (c : conn) : Prop :=
  if 2 <=? k then during t rc wc true g e r w c else relaying t mech k g e r w rc wc c.
Lemma afterRounds_describes k t mech g e r w : describes (afterRounds k t mech g e r w).
Proof. unfold afterRounds. destruct (2 <=? k); [apply during_describes|apply relaying_describes]. Qed.

Lemma scramRelay_runs h payload b p msg t mech k g e r w rc wc :
  legal (response (nextID g) SaslAuthenticateKey 1 b) ->
  acceptedWith (k_SASLAuthenticateResponse _ K) b p msg ->
  runs (relaying t mech k g e (frame_bytes (response (nextID g) SaslAuthenticateKey 1 b) ++ r) w rc wc)
    (scramRelay E h payload) tt
    (afterRounds (k + 1) t mech (nextID g) e r (w ++ relayed payload g) rc
       (wc ++ frame_bytes (authReply h (message msg) p))).
Proof.
  intros Hl Ha c [Hs Hm Ht Hx Hc Hk (u & Hu & Hlk)].
  destruct (RelaySASLAuthenticate_runs (AppendRequest E) (k_SASLAuthenticateRequest _ K)
    (k_SASLAuthenticateResponse _ K) payload b p msg g e r w Hl Ha u Hlk) as (u' & Eu & Hlk').
  unfold scramRelay, bind at 1, get. unfold bind at 1, attempt, on_up, upRelay. rewrite Hu, Eu. cbv beta iota.
  rewrite Z.eqb_refl. cbn [negb]. cbv iota. unfold bind at 1, modify, bind at 1, get. cbv beta iota.
  change (scramRoundsCompleted (set_upstream (Some u') c)) with (scramRoundsCompleted c). rewrite Hk.
  change (scramRoundsCompleted (set_scramRoundsCompleted (k + 1) (set_upstream (Some u') c))) with (k + 1).
  unfold afterRounds. destruct (2 <=? k + 1).
  - unfold observeHandshake, logs, meter, modify, bind. cbv beta iota.
    apply (writeResponse_runs (fun rc wc => during t rc wc true (nextID g) e r (w ++ relayed payload g)));
      [apply during_describes|]. split; [done..|]. left. by exists u'.
  - unfold bind, ret.
    apply (writeResponse_runs (relaying t mech (k + 1) (nextID g) e r (w ++ relayed payload g)));
      [apply relaying_describes|]. split; try done. by exists u'.
Qed.

Lemma scram_first_runs f h payload user t mech b1 b2 b p msg n ds rc wc e r w :
  IsSCRAMMechanism mech = true -> authenticates f h payload ->
  ParseSCRAMClientFirstUsername payload = Ok user -> (Get (store E) user (history E 0)).1 = Ok t ->
  negotiable (k_SASLHandshakeResponse _ K) b1 b2 ->
  legal (response 3 SaslAuthenticateKey 1 b) -> acceptedWith (k_SASLAuthenticateResponse _ K) b p msg ->
  sock e (negotiation b1 b2 ++ frame_bytes (response 3 SaslAuthenticateKey 1 b) ++ r) w n ->
  runs (before stateAwaitAuth mech (inr n :: ds) (frame_bytes f ++ rc) wc) (serveStep E) tt
    (afterRounds 1 t mech 3 e r
      (w ++ negotiating (AppendRequest E) (k_SASLHandshakeRequest _ K) (avRequest E) mech ++ relayed payload 2)
      rc (wc ++ frame_bytes (authReply h (message msg) p))).
Proof.
  intros Hm (Hp & Hk & Hr) Hpa Hg Hng Hl Ha Hn.
  apply (serveStep_frame (before stateAwaitAuth mech (inr n :: ds)) _ f h);
    [apply before_describes|by intros m c []; split|exact Hp|].
  unfold dispatch. rewrite Hk. simpl. intros c [Hs Hcm Hx Hcl Hu Hds Hgt Hro].
  unfold handleSaslAuthenticate, bind at 1, get. rewrite Hcm, Hm.
  unfold handleSaslAuthenticateSCRAM. rewrite Hr. simpl. unfold bind at 1, get.
  rewrite decide_False, decide_True by tauto.
  destruct (DialForSCRAM_runs (AppendRequest E) (k_SASLHandshakeRequest _ K) (k_SASLHandshakeResponse _ K)
    (avRequest E) b1 b2 mech n e _ w Hm Hng Hn None eq_refl) as (s & Es & u & -> & Hlk).
  unfold bind at 1, scramFirst, bind at 1, get. unfold bind at 1, attempt, lift. rewrite Hpa.
  unfold bind at 1, attempt, lookupTenant. rewrite Hgt, Hg. cbv beta iota.
  unfold meter, modify, bind, nextDial, attempt, runDial, upDialForSCRAM. simpl.
  rewrite Hds, Hcm. simpl. rewrite Es. unfold ret. cbv beta iota. rewrite app_assoc.
  apply (scramRelay_runs h payload b p msg t mech 0 2 e r _ rc wc Hl Ha). by split; simpl; eauto.
Qed.
Lemma scram_round_runs f h payload b p msg t mech k rc wc g e r w :
  IsSCRAMMechanism mech = true -> authenticates f h payload ->
  legal (response (nextID g) SaslAuthenticateKey 1 b) ->
  acceptedWith (k_SASLAuthenticateResponse _ K) b p msg ->
  runs (relaying t mech k g e (frame_bytes (response (nextID g) SaslAuthenticateKey 1 b) ++ r) w
          (frame_bytes f ++ rc) wc) (serveStep E) tt
    (afterRounds (k + 1) t mech (nextID g) e r (w ++ relayed payload g) rc
       (wc ++ frame_bytes (authReply h (message msg) p))).
Proof.
  intros Hm (Hp & Hk & Hr) Hl Ha.
  apply (serveStep_frame (relaying t mech k g e (frame_bytes (response (nextID g) SaslAuthenticateKey 1 b) ++ r) w) _ f h);
    [apply relaying_describes|by unfold afterRounds; intros m c; destruct (2 <=? k + 1); intros []; split|exact Hp|].
  unfold dispatch. rewrite Hk. simpl. intros c Hc. pose proof Hc as [Hs Hcm _ _ _ _ _].
  unfold handleSaslAuthenticate, bind at 1, get. rewrite Hcm, Hm.
  unfold handleSaslAuthenticateSCRAM. rewrite Hr. simpl. unfold bind at 1, get.
  rewrite decide_False, decide_False by (rewrite Hs; naive_solver).
  unfold bind, ret. by apply (scramRelay_runs h payload b p msg t mech k g e r w rc wc Hl Ha).
Qed.

(** * Theorems *)

(** A session that is over: the client has been sent [wc] and the broker, if a
    request needed it, [w]; of what the broker sent, [r] is left. *)
Definition ended (t : Tenant) (used : bool) (wc r w : list byte) (c : conn) : Prop :=
  state c = stateAuthenticated /\ tenant c = t /\ rx (client c) = [] /\ wire (client c) = wc /\
  (used = true -> exists u, upstream c = Some u /\ rx (nc u) = r /\ wire (nc u) = w).
Lemma during_ended t wc used g e r w c : during t [] wc used g e r w c -> ended t used wc r w c.
Proof.
  intros [Hs Ht _ (_ & _ & _ & Hr & Hw) Hup]. split_and!; try done. intros ->.
  destruct Hup as [(u & Hu & _ & _ & _ & _ & ? & ?)|[? _]]; [by exists u|done].
Qed.

Lemma frame_length f : (4 <= length (frame_bytes f))%nat.
Proof. unfold frame_bytes. rewrite length_app, be_encode_length. lia. Qed.
Lemma requests_length xs : (length xs <= length (requests xs))%nat.
Proof.
  induction xs as [|x xs IH]; [done|]. rewrite requests_cons, length_app. pose proof (frame_length (frame x)).
  simpl. lia.
Qed.
(** An iteration of the loop that goes on. *)
Lemma serveLoop_step (P Q : conn -> Prop) fuel c (R : conn -> Prop) e :
  P c -> runs P (serveStep E) tt Q ->
  (forall c1, Q c1 -> exists c', serveLoop E fuel c1 = (Err e, c') /\ R c') ->
  exists c', serveLoop E (S fuel) c = (Err e, c') /\ R c'.
Proof.
  intros Hc H Hk. destruct (H c Hc) as (c1 & E1 & H1). simpl. unfold bind. rewrite E1. by apply Hk.
Qed.
(** The rest of a session, once the client is authenticated. *)
Lemma session_rest xs fuel t wc live g e r w c :
  servables g xs -> (length (requests xs) < fuel)%nat ->
  during t (requests xs) wc live g e (fromBrokers g xs ++ r) w c ->
  exists c', serveLoop E fuel c = (Err (ErrSent errClientClosed), c') /\
    ended t (existsb usesBroker xs || live) (wc ++ replies (TopicPrefix t) xs) r
      (w ++ toBrokers (TopicPrefix t) g xs) c'.
Proof.
  intros Hx Hf Hc. pose proof (requests_length xs).
  destruct (serveLoop_serves xs fuel t wc live g e r w c Hx ltac:(lia) Hc) as (c' & Ec & Hc').
  exists c'. split; [done|]. exact (during_ended _ _ _ _ _ _ _ _ Hc').
Qed.

(** C3: a session of a PLAIN client, from its first byte to its last.  If the client
    handshakes, sends the credentials of a tenant of the store and then any
    sequence of ApiVersions requests, requests kroxy rewrites and requests it
    forwards, and the tenant's broker accepts the login (PLAIN, or SCRAM when kroxy
    translates) and answers each request under its id, then [serve] ends only
    because the client has closed the connection, every request was answered, and
    both sockets carry exactly the bytes of the reference session: on the broker's
    the login and the requests with the tenant's names under consecutive ids, on
    the client's the replies with its own names and ids. *)
Theorem plain_session_served nc m lg n ds f1 h1 f2 h2 payload creds t xs g e r w wc :
  sock (ErrSent EOF) (frame_bytes f1 ++ frame_bytes f2 ++ requests xs) wc nc ->
  handshakes f1 h1 MechanismPlain -> authenticates f2 h2 payload -> ParsePlain payload = Ok creds ->
  (Get (store E) (Username creds) (history E 0)).1 = Ok t ->
  welcomes t (Password creds) n g e (fromBrokers g xs ++ r) w -> servables g xs ->
  exists c, runConn E nc m lg (inr n :: ds) [] = (Err (ErrSent errClientClosed), c) /\
    ended t (existsb usesBroker xs)
      (wc ++ frame_bytes (handshakeReply h1) ++ frame_bytes (authReply h2 None []) ++
       replies (TopicPrefix t) xs) r (w ++ toBrokers (TopicPrefix t) g xs) c.
Proof.
  intros Hn H1 H2 Hc Hg Hw Hx. unfold runConn, serve.
  assert (before stateAwaitHandshake "" (inr n :: ds) (frame_bytes f1 ++ frame_bytes f2 ++ requests xs) wc
    (newConn nc m lg (inr n :: ds) [])) as Hb by (by split).
  destruct Hn as (_ & _ & _ & Hr & _). simpl client. rewrite Hr, !length_app.
  pose proof (frame_length f1). pose proof (frame_length f2).
  destruct (_ + _)%nat as [|[|fuel]] eqn:Ef; [lia..|].
  eapply serveLoop_step; [exact Hb|eapply (handshake_runs f1 h1 _ _ _ _ H1); by left|]. intros c1 Hc1.
  eapply serveLoop_step; [exact Hc1|exact (plain_runs f2 h2 payload creds t (inr n) ds _ _ _ _ _ _ H2 Hc Hg (welcomes_dial _ _ _ _ _ _ _ Hw))|]. intros c2 Hc2.
  destruct (session_rest xs (S fuel) t _ _ _ _ r _ c2 Hx ltac:(lia) Hc2) as (c & Ec & Hc').
  exists c. split; [exact Ec|]. by rewrite orb_false_r, <-!app_assoc in Hc'.
Qed.

(** C4: a session of a SCRAM client: the tenant's broker is dialled with the client's
    mechanism, the two SASL messages and the broker's answers are relayed
    unchanged, and from then on every request is served as in
    [plain_session_served]. *)
Theorem scram_session_served nc m lg n ds mech f1 h1 f2 h2 m1 f3 h3 m2 user t b1 b2 b3 p3 em3 b4 p4 em4 xs e r w wc :
  sock (ErrSent EOF) (frame_bytes f1 ++ frame_bytes f2 ++ frame_bytes f3 ++ requests xs) wc nc ->
  IsSCRAMMechanism mech = true -> handshakes f1 h1 mech -> authenticates f2 h2 m1 -> authenticates f3 h3 m2 ->
  ParseSCRAMClientFirstUsername m1 = Ok user -> (Get (store E) user (history E 0)).1 = Ok t ->
  negotiable (k_SASLHandshakeResponse _ K) b1 b2 ->
  legal (response 3 SaslAuthenticateKey 1 b3) -> acceptedWith (k_SASLAuthenticateResponse _ K) b3 p3 em3 ->
  legal (response 4 SaslAuthenticateKey 1 b4) -> acceptedWith (k_SASLAuthenticateResponse _ K) b4 p4 em4 ->
  sock e (negotiation b1 b2 ++ frame_bytes (response 3 SaslAuthenticateKey 1 b3) ++
          frame_bytes (response 4 SaslAuthenticateKey 1 b4) ++ fromBrokers 4 xs ++ r) w n ->
  servables 4 xs ->
  exists c, runConn E nc m lg (inr n :: ds) [] = (Err (ErrSent errClientClosed), c) /\
    ended t true
      (wc ++ frame_bytes (handshakeReply h1) ++ frame_bytes (authReply h2 (message em3) p3) ++
       frame_bytes (authReply h3 (message em4) p4) ++ replies (TopicPrefix t) xs) r
      (w ++ negotiating (AppendRequest E) (k_SASLHandshakeRequest _ K) (avRequest E) mech ++
       relayed m1 2 ++ relayed m2 3 ++ toBrokers (TopicPrefix t) 4 xs) c.
Proof.
  intros Hn Hm H1 H2 H3 Hp Hg Hng L3 A3 L4 A4 Hw Hx. unfold runConn, serve.
  assert (before stateAwaitHandshake "" (inr n :: ds)
    (frame_bytes f1 ++ frame_bytes f2 ++ frame_bytes f3 ++ requests xs) wc
    (newConn nc m lg (inr n :: ds) [])) as Hb by (by split).
  destruct Hn as (_ & _ & _ & Hr & _). simpl client. rewrite Hr, !length_app.
  pose proof (frame_length f1). pose proof (frame_length f2). pose proof (frame_length f3).
  destruct (_ + _)%nat as [|[|[|fuel]]] eqn:Ef; [lia..|].
  eapply serveLoop_step; [exact Hb|eapply (handshake_runs f1 h1 _ _ _ _ H1); by right|]. intros c1 Hc1.
  eapply serveLoop_step; [exact Hc1|exact (scram_first_runs f2 h2 m1 user t mech b1 b2 b3 p3 em3 n ds _ _ e _ w Hm H2 Hp Hg Hng L3 A3 Hw)|]. intros c2 Hc2.
  eapply serveLoop_step; [exact Hc2|exact (scram_round_runs f3 h3 m2 b4 p4 em4 t mech 1 _ _ 3 e _ _ Hm H3 L4 A4)|]. intros c3 Hc3.
  destruct (session_rest xs (S fuel) t _ _ _ _ r _ c3 Hx ltac:(lia) Hc3) as (c & Ec & Hc').
  exists c. split; [exact Ec|]. by rewrite orb_true_r, <-!app_assoc in Hc'.
Qed.
End Session.

(** * Witnesses: the demonstration client of ProxyDemo.v, and one that uses SCRAM *)
Module DemoSession.
Import DemoProxy.
Definition q : KRequest (X:=unit) :=
  QMetadata (MetadataRequest.Mk (Some [MkTopicPtr (Some "orders") tt]) tt).
Definition s : KResponse (X:=unit) := SMetadata (MetadataResponse.Mk [] 0 [] tt).
Definition header (key cid : Z) : RequestHeader := MkHeader key 1 cid "" 1 10.
Definition metadata : exchange (X:=unit) :=
  MkExchange (request MetadataKey 1 13 (bytes_of_string "orders")) (header MetadataKey 13)
    (Rewritten q [] s "proxy.example" 9092).
Definition forward : exchange (X:=unit) :=
  MkExchange (request OffsetForLeaderEpoch 1 14 []) (header OffsetForLeaderEpoch 14) (Forwarded [Byte.x07]).
Definition versions : exchange (X:=unit) :=
  MkExchange (request ApiVersionsKey 1 15 []) (header ApiVersionsKey 15) Versions.
Definition xs : list (exchange (X:=unit)) := [metadata; forward; versions].

Definition hs (mech : string) : list byte := request SaslHandshakeKey 1 11 (bytes_of_string mech).
Definition auth (m : list byte) : list byte := request SaslAuthenticateKey 1 12 m.
Definition plain_client : NetConn := DemoBroker.broker
  (hs MechanismPlain :: auth (plainPayload "bob" "pw") :: map frame xs).
Definition plain_broker : NetConn := DemoBroker.broker
  [be_encode 4 1; be_encode 4 2 ++ be_encode 2 0; be_encode 4 3 ++ be_encode 2 0;
   be_encode 4 4; be_encode 4 5 ++ [Byte.x07]].
Definition m1 : list byte := bytes_of_string "n,,n=bob,r=fyko".
Definition m2 : list byte := bytes_of_string "c=biws,r=fyko,p=AA".
Definition scram_client : NetConn := DemoBroker.broker
  (hs MechanismSCRAMSHA256 :: auth m1 :: auth m2 :: map frame xs).
Definition scram_broker : NetConn := DemoBroker.broker
  [be_encode 4 1; be_encode 4 2 ++ be_encode 2 0; be_encode 4 3 ++ be_encode 2 0 ++ [Byte.x01];
   be_encode 4 4 ++ be_encode 2 0 ++ [Byte.x02]; be_encode 4 5; be_encode 4 6 ++ [Byte.x07]].

Ltac check := repeat split; try (vm_compute; reflexivity || (intros; discriminate)); try (intros; discriminate).
Lemma xs_servable3 : servables env 3 xs.
Proof. check. intros [H|[H|H]]; discriminate H. Qed.
Lemma xs_servable4 : servables env 4 xs.
Proof. check. intros [H|[H|H]]; discriminate H. Qed.
End DemoSession.

Lemma plain_session_served_witness :
  exists c, runConn DemoProxy.env DemoSession.plain_client (Some NewMetrics) DemoProxy.logger [inr DemoSession.plain_broker] []
      = (Err (ErrSent errClientClosed), c) /\
    ended DemoTenants.bob true
      (frame_bytes (handshakeReply DemoProxy.env (DemoSession.header SaslHandshakeKey 11)) ++
       frame_bytes (authReply DemoProxy.env (DemoSession.header SaslAuthenticateKey 12) None []) ++
       replies DemoProxy.env "bob-" DemoSession.xs) []
      (negotiating DemoBroker.AppendRequest DemoBroker.hsReq DemoBroker.avReq MechanismPlain ++
       loginRequest DemoBroker.AppendRequest DemoBroker.authReq "bob" "pw" ++
       toBrokers DemoProxy.env "bob-" 3 DemoSession.xs) c.
Proof.
  apply (plain_session_served DemoProxy.env DemoSession.plain_client (Some NewMetrics) DemoProxy.logger DemoSession.plain_broker []
    (DemoSession.hs MechanismPlain) (DemoSession.header SaslHandshakeKey 11)
    (DemoSession.auth (plainPayload "bob" "pw")) (DemoSession.header SaslAuthenticateKey 12)
    (plainPayload "bob" "pw") (MkPlain "" "bob" "pw") DemoTenants.bob DemoSession.xs 3 (ErrSent EOF) []
    (negotiating DemoBroker.AppendRequest DemoBroker.hsReq DemoBroker.avReq MechanismPlain ++
     loginRequest DemoBroker.AppendRequest DemoBroker.authReq "bob" "pw") []).
  - DemoSession.check.
  - DemoSession.check.
  - DemoSession.check.
  - reflexivity.
  - vm_compute; reflexivity.
  - apply (welcomes_plain DemoProxy.env DemoTenants.bob "pw" DemoSession.plain_broker [] (be_encode 2 0) (be_encode 2 0) []
      (ErrSent EOF) _ []); DemoSession.check.
    + exists (SASLHandshakeResponse.Mk 0 []). by split.
    + exists ""%string, (SASLAuthenticateResponse.Mk 0 None []). by split_and!.
  - apply DemoSession.xs_servable3.
Defined.

Lemma scram_session_served_witness :
  exists c, runConn DemoProxy.env DemoSession.scram_client None DemoProxy.logger [inr DemoSession.scram_broker] []
      = (Err (ErrSent errClientClosed), c) /\
    ended DemoTenants.bob true
      (frame_bytes (handshakeReply DemoProxy.env (DemoSession.header SaslHandshakeKey 11)) ++
       frame_bytes (authReply DemoProxy.env (DemoSession.header SaslAuthenticateKey 12) None [Byte.x01]) ++
       frame_bytes (authReply DemoProxy.env (DemoSession.header SaslAuthenticateKey 12) None [Byte.x02]) ++
       replies DemoProxy.env "bob-" DemoSession.xs) []
      (negotiating DemoBroker.AppendRequest DemoBroker.hsReq DemoBroker.avReq MechanismSCRAMSHA256 ++
       relayed DemoProxy.env DemoSession.m1 2 ++ relayed DemoProxy.env DemoSession.m2 3 ++
       toBrokers DemoProxy.env "bob-" 4 DemoSession.xs) c.
Proof.
  apply (scram_session_served DemoProxy.env DemoSession.scram_client None DemoProxy.logger DemoSession.scram_broker []
    MechanismSCRAMSHA256 (DemoSession.hs MechanismSCRAMSHA256) (DemoSession.header SaslHandshakeKey 11)
    (DemoSession.auth DemoSession.m1) (DemoSession.header SaslAuthenticateKey 12) DemoSession.m1
    (DemoSession.auth DemoSession.m2) (DemoSession.header SaslAuthenticateKey 12) DemoSession.m2
    "bob" DemoTenants.bob [] (be_encode 2 0) (be_encode 2 0 ++ [Byte.x01]) [Byte.x01] ""
    (be_encode 2 0 ++ [Byte.x02]) [Byte.x02] "" DemoSession.xs (ErrSent EOF) [] [] []);
    try (DemoSession.check; fail).
  - DemoSession.check. exists (SASLHandshakeResponse.Mk 0 []). by split.
  - exists (SASLAuthenticateResponse.Mk 0 None [Byte.x01]). by split_and!.
  - exists (SASLAuthenticateResponse.Mk 0 None [Byte.x02]). by split_and!.
  - apply DemoSession.xs_servable4.
Defined.
