(* ===== verification/Confinement.v ===== *)
(** The passwords of PLAIN clients stay between the client and its broker.

    Two clients whose requests agree except for the passwords of their PLAIN
    SaslAuthenticate requests are served in lockstep: kroxy logs the same
    records, counts the same metrics, answers with the same bytes, dials the same
    addresses and ends with the same outcome; the only bytes of the two runs that
    differ are the SaslAuthenticate requests sent to the broker.  The statement is
    about pairs of runs, so it covers every way in which a password could reach
    the log: directly, in an error, in a length or through a branch. *)
From Stdlib Require Import ZArith Lia Ascii.
From stdpp Require Import base list strings tactics.
From S2P Require Import Prelude GoStrings GoNet Protocol ProtocolFacts Kmsg Auth Resolver.
From S2P Require Import Upstream UpstreamTheorems Completion Observability ProxyConn Handlers Serve Messages ProxyFacts.
From S2P Require Import ProxyDemo ProxyTheorems ScramLogin Session.
Local Open Scope Z_scope.

(** * Sockets *)

(** The two sockets have been used alike: the bytes to come are related by [Q] and
    the writes, one by one, by [W]. *)
Record twinSock (W Q : list byte -> list byte -> Prop) (n n' : NetConn) : Prop := MkTwinSock {
  s_rx : Q (rx n) (rx n');
  s_end : rx_end n = rx_end n';
  s_tx : Forall2 W (tx n) (tx n');
  s_faults : faults n = faults n';
  s_deadline : deadline n = deadline n';
  s_reads : reads n = reads n';
  s_closed : closed n = closed n'
}.

Section Sockets.
Context (W Q : list byte -> list byte -> Prop).

Lemma next_fault_agree : agree (twinSock W Q) next_fault next_fault.
Proof.
  intros n n' [? ? ? Hf ? ? Hc]. unfold next_fault. rewrite <-Hc, <-Hf.
  destruct (closed n) eqn:E; [|destruct (faults n) eqn:F]; simpl; (split; [done|]); split; simpl; congruence || done.
Qed.
Lemma Write_agree b b' :
  (forall k, W (take k b) (take k b')) -> agree (twinSock W Q) (Write b) (Write b').
Proof.
  intros HW. apply agree_bind; [apply next_fault_agree|]. intros [[k e]|].
  - apply agree_bind; [|intros _; apply agree_fail]. apply agree_modify.
    intros n n' []. split; try done. simpl. by apply Forall2_app; [|constructor].
  - apply agree_modify. intros n n' []. split; try done. simpl. apply Forall2_app; [done|].
    constructor; [|done]. specialize (HW (length b `max` length b')%nat). by rewrite !take_ge in HW by lia.
Qed.
Lemma Write_same b : (forall x, W x x) -> agree (twinSock W Q) (Write b) (Write b).
Proof. intros HW. by apply Write_agree. Qed.
Lemma SetDeadline_agree d : agree (twinSock W Q) (SetDeadline d) (SetDeadline d).
Proof.
  apply agree_bind; [apply next_fault_agree|]. intros [[k e]|]; [apply agree_fail|].
  apply agree_modify. intros n n' []. by split.
Qed.
Lemma WriteFrame_same b : (forall x, W x x) -> agree (twinSock W Q) (WriteFrame b) (WriteFrame b).
Proof. intros HW. unfold WriteFrame. pair_with (by apply Write_same). Qed.
End Sockets.

Section Reads.
Context (W : list byte -> list byte -> Prop).

Lemma ReadFull_agree k : agree (twinSock W eq) (ReadFull k) (ReadFull k).
Proof.
  intros n n' [Hr He ? ? Hd Hrs Hc]. unfold ReadFull. simpl. rewrite <-Hr, <-He, <-Hc, <-Hd, <-Hrs.
  destruct (closed n) eqn:E; [|case_decide]; simpl; (split; [done|]); split; simpl; congruence || done.
Qed.
Lemma ReadFrame_agree : agree (twinSock W eq) ReadFrame ReadFrame.
Proof. unfold ReadFrame. pair_with (apply ReadFull_agree). Qed.

(** Reading a frame both peers have sent, each its own. *)
Lemma ReadFrame_frame f r n :
  closed n = false -> rx n = frame_bytes f ++ r -> legal f ->
  ReadFrame n = (Ok f, set_rx r (set_reads (reads n ++ [deadline n; deadline n]) n)).
Proof.
  intros Hc Hrx Hf. unfold legal in Hf. unfold frame_bytes in Hrx. rewrite <-app_assoc in Hrx.
  unfold ReadFrame, bind, attempt.
  pose proof (ReadFull_app _ _ _ Hc Hrx) as E. rewrite be_encode_length in E. rewrite E.
  unfold MaxFrameSize in *. rewrite uwrap_id by lia.
  rewrite be_decode_encode. change (8 * Z.of_nat 4) with 32. rewrite Z.mod_small by lia.
  rewrite (proj2 (Z.eqb_neq _ 0)), (proj2 (Z.ltb_ge _ _)) by lia. unfold wrap.
  unfold len. rewrite Nat2Z.id. erewrite ReadFull_app; [|done..]. simpl. by rewrite <-app_assoc.
Qed.
Lemma ReadFrame_closed n :
  closed n = true -> ReadFrame n = (Err (ErrSent ErrClosed), set_reads (reads n ++ [deadline n]) n).
Proof. intros Hc. unfold ReadFrame, bind, attempt, ReadFull. simpl. by rewrite Hc. Qed.
End Reads.

(** * The connection to the broker *)
Section Broker.
Context {X Session St : Type} (E : Env X Session St).
Abbreviation K := (codecs E).

(** Two SaslAuthenticate requests, or as much of them as was written, that are the
    PLAIN logins of one user with two passwords. *)
Definition logins (x x' : list byte) : Prop :=
  exists user pw pw' id k,
    let login pw := AppendRequest E "kroxy"
      (authenticateRequest (k_SASLAuthenticateRequest _ K) (plainPayload user pw)) id in
    x = take k (login pw) /\ x' = take k (login pw').
Definition sameOrLogins (x x' : list byte) : Prop := x = x' \/ logins x x'.
Lemma sameOrLogins_refl x : sameOrLogins x x.
Proof. by left. Qed.

Definition twinConn (u u' : Conn) : Prop :=
  twinSock sameOrLogins eq (nc u) (nc u') /\ corrIDGen u = corrIDGen u' /\ reqTO u = reqTO u'.

Lemma on_nc_agree {A} (m m' : M NetConn A) :
  agree (twinSock sameOrLogins eq) m m' -> agree twinConn (on_nc m) (on_nc m').
Proof. intros H. eapply agree_zoom; [exact H|]. intros u u' (? & ? & ?). split; [done|]. intros ? ? ?. by split_and!. Qed.
Lemma deadline_agree : agree twinConn applyRequestDeadline applyRequestDeadline.
Proof.
  apply agree_get. intros u u' (_ & _ & ->). case_match; apply on_nc_agree, SetDeadline_agree.
Qed.
Lemma nextCorrelationID_agree : agree twinConn nextCorrelationID nextCorrelationID.
Proof.
  apply agree_get. intros u u' (_ & -> & _).
  apply agree_bind; [|intros _; apply agree_ret]. apply agree_modify. by intros ? ? (? & ? & ?).
Qed.
Ltac leafB := idtac; match goal with
  | |- agree _ (on_nc ReadFrame) _ => apply on_nc_agree, ReadFrame_agree
  | |- agree _ (on_nc (SetDeadline _)) _ => apply on_nc_agree, SetDeadline_agree
  | |- agree _ (on_nc (WriteFrame _)) _ => apply on_nc_agree, WriteFrame_same, sameOrLogins_refl
  | |- agree _ (on_nc (Write _)) _ => apply on_nc_agree, Write_same, sameOrLogins_refl
  | |- agree _ applyRequestDeadline _ => apply deadline_agree
  | |- agree _ nextCorrelationID _ => apply nextCorrelationID_agree
  end.
Ltac pairB := pair_with leafB.

Lemma RoundTrip_agree f cid hv rhv : agree twinConn (RoundTrip f cid hv rhv) (RoundTrip f cid hv rhv).
Proof. unfold RoundTrip. pairB. Qed.
Lemma RoundTripRequest_agree req id :
  agree twinConn (RoundTripRequest (AppendRequest E) req id) (RoundTripRequest (AppendRequest E) req id).
Proof. unfold RoundTripRequest, readResponse. pairB. Qed.
Lemma directRoundTrip_agree req req' key version :
  (forall cid k, sameOrLogins (take k (AppendRequest E "kroxy" req cid)) (take k (AppendRequest E "kroxy" req' cid))) ->
  agree twinConn (directRoundTrip (AppendRequest E) req key version) (directRoundTrip (AppendRequest E) req' key version).
Proof.
  intros H. apply agree_bind; [apply nextCorrelationID_agree|intros cid].
  apply agree_bind; [by apply agree_wrap, on_nc_agree, Write_agree|intros _]. unfold readResponse. pairB.
Qed.
Lemma directRoundTrip_same req key version :
  agree twinConn (directRoundTrip (AppendRequest E) req key version) (directRoundTrip (AppendRequest E) req key version).
Proof. apply directRoundTrip_agree. by left. Qed.

Abbreviation upAuthenticate := (plainAuthenticate (AppendRequest E) (k_SASLAuthenticateRequest _ K)
  (k_SASLAuthenticateResponse _ K)).
Lemma plainAuthenticate_agree user pw pw' : agree twinConn (upAuthenticate user pw) (upAuthenticate user pw').
Proof.
  unfold plainAuthenticate. apply agree_bind; [|intros body; pairB].
  apply agree_wrap, directRoundTrip_agree. intros cid k. right. by exists user, pw, pw', cid, k.
Qed.
Lemma upRelay_agree p : agree twinConn (upRelay E p) (upRelay E p).
Proof. unfold upRelay, RelaySASLAuthenticate. pairB. apply directRoundTrip_same. Qed.

(** Dialling. *)
Abbreviation twinOpt := (option_Forall2 twinConn).
Lemma on_conn_agree {A} (m m' : M Conn A) : agree twinConn m m' -> agree twinOpt (on_conn m) (on_conn m').
Proof.
  intros H s s' [u u' Hu|]; [|by split; [|constructor]]. destruct (H u u' Hu) as [Er Hr]. unfold on_conn.
  destruct (m u), (m' u'). simpl in *. split; [done|]. by constructor.
Qed.
Lemma CloseConn_twin u u' : twinConn u u' -> twinConn (CloseConn u) (CloseConn u').
Proof. intros ([] & ? & ?). split_and!; [|done..]. by split. Qed.
Lemma closing_agree {A} (m m' : M Conn A) msg :
  agree twinConn m m' -> agree twinOpt (closing (wrap msg (on_conn m))) (closing (wrap msg (on_conn m'))).
Proof.
  intros H. apply agree_on_err; [by apply agree_wrap, on_conn_agree|].
  intros s s' []; constructor. by apply CloseConn_twin.
Qed.
Lemma twinSock_refl n : twinSock sameOrLogins eq n n.
Proof. split; try done. apply Forall_Forall2_diag, Forall_true. by left. Qed.

Lemma negotiate_agree d mech :
  let m := dialAndNegotiate (AppendRequest E) (k_SASLHandshakeRequest _ K) (k_SASLHandshakeResponse _ K)
             (avRequest E) d mech in agree twinOpt m m.
Proof.
  simpl. unfold dialAndNegotiate. destruct d as [e|n]; [apply agree_fail|].
  apply agree_bind; [apply agree_modify; intros ? ? _; constructor; split_and!; [apply twinSock_refl|done..]|intros _].
  apply agree_bind; [apply closing_agree; pairB|intros _].
  apply agree_bind; [apply closing_agree; unfold apiVersions; pairB; apply directRoundTrip_same|intros _].
  apply closing_agree. unfold saslHandshake. pairB. apply directRoundTrip_same.
Qed.
Lemma upDial_agree d user pw pw' : agree twinOpt (upDial E d user pw) (upDial E d user pw').
Proof.
  unfold upDial, Dial. apply agree_bind; [apply agree_wrap, negotiate_agree|intros _].
  apply agree_bind; [apply closing_agree, plainAuthenticate_agree|intros _]. apply closing_agree. pairB.
Qed.
Lemma upDialForSCRAM_agree d mech : agree twinOpt (upDialForSCRAM E d mech) (upDialForSCRAM E d mech).
Proof.
  unfold upDialForSCRAM, DialForSCRAM. case_match; [apply agree_fail|].
  apply agree_bind; [apply agree_wrap, negotiate_agree|intros _]. apply closing_agree. pairB.
Qed.
End Broker.

(** * The connection of the client *)
Section Lockstep.
Context {X Session St : Type} (E : Env X Session St).
Abbreviation K := (codecs E).

(** Two connections in lockstep: they differ at most in the bytes their clients are
    going to send, related by [Q], in the passwords they hold and in the logins
    their brokers were sent.  [J] holds of the mechanism. *)
Record alike (Q : list byte -> list byte -> Prop) (J : string -> Prop) (c c' : conn) : Prop := MkAlike {
  a_client : twinSock eq Q (client c) (client c');
  a_state : state c = state c';
  a_mech : clientMechanism c = clientMechanism c';
  a_J : J (clientMechanism c);
  a_tenant : tenant c = tenant c';
  a_up : option_Forall2 (twinConn E) (upstream c) (upstream c');
  a_rounds : scramRoundsCompleted c = scramRoundsCompleted c';
  a_metrics : metrics c = metrics c';
  a_log : log c = log c';
  a_gets : gets c = gets c';
  a_dials : dials c = dials c';
  a_dialed : dialed c = dialed c';
  a_dropped : Forall2 (twinConn E) (dropped c) (dropped c');
  a_ctx : ctx c = ctx c'
}.
Lemma alike_mono (Q Q' : list byte -> list byte -> Prop) (J J' : string -> Prop) c c' :
  (forall x x', Q x x' -> Q' x x') -> (forall m, J m -> J' m) -> alike Q J c c' -> alike Q' J' c c'.
Proof. intros HQ HJ [[] ? ? ? ? ? ? ? ? ? ? ? ? ?]. split; auto. split; auto. Qed.

Section Steps.
Context (Q : list byte -> list byte -> Prop) (J : string -> Prop).
Abbreviation same m := (agree (alike Q J) m m).

Lemma on_client_agree {A} (m m' : M NetConn A) :
  agree (twinSock eq Q) m m' -> agree (alike Q J) (on_client m) (on_client m').
Proof. intros H. eapply agree_zoom; [exact H|]. intros c c' []. split; [done|]. intros n n' ?. by split. Qed.
Lemma on_up_agree {A} (m m' : M Conn A) :
  agree (twinConn E) m m' -> agree (alike Q J) (on_up m) (on_up m').
Proof.
  intros H c c' Hc. pose proof (a_up _ _ _ _ Hc) as Hu. unfold on_up. destruct Hu as [u u' Hu|]; [|done].
  destruct (H u u' Hu) as [Er Hr]. destruct (m u), (m' u'). simpl in *. split; [done|].
  destruct Hc. split; try done. by constructor.
Qed.
(** What goes on after a dial has the two connections. *)
Lemma runDial_agree {A} (m m' : M (option Conn) unit) (k k' : error + Conn -> M conn A) :
  agree (option_Forall2 (twinConn E)) m m' ->
  (forall e, agree (alike Q J) (k (inl e)) (k' (inl e))) ->
  (forall u u', twinConn E u u' -> agree (alike Q J) (k (inr u)) (k' (inr u'))) ->
  agree (alike Q J) (bind (attempt (runDial m)) k) (bind (attempt (runDial m')) k').
Proof.
  intros Hm He Hk c c' Hc. destruct (Hm None None ltac:(constructor)) as [Er Hr].
  unfold bind, attempt, runDial. destruct (m None) as [r s], (m' None) as [r' s']. simpl in Er, Hr. subst r'.
  assert (alike Q J (set_dropped (dropped c ++ option_list s) c)
                    (set_dropped (dropped c' ++ option_list s') c')) as Hd.
  { destruct Hc. split; try done. simpl. apply Forall2_app; [done|]. destruct Hr; [by apply Forall2_cons|constructor]. }
  destruct r as [a|e|]; [|by apply He|done]. destruct Hr as [u u' Hu|]; [by apply Hk|done].
Qed.

Lemma modify_agree f f' :
  (forall c c', alike Q J c c' -> alike Q J (f c) (f' c')) -> agree (alike Q J) (modify f) (modify f').
Proof. apply agree_modify. Qed.
Lemma meter_agree f : same (meter f).
Proof. apply agree_modify. intros c c' []. split; simpl; congruence || done. Qed.
Lemma logs_agree l msg args : same (logs l msg args).
Proof. apply agree_modify. intros c c' []. split; simpl; congruence || done. Qed.
Lemma lookupTenant_agree id : same (lookupTenant E id).
Proof.
  intros c c' Hc. unfold lookupTenant. simpl. rewrite (a_gets _ _ _ _ Hc). split; [done|].
  destruct Hc. by split.
Qed.
Lemma nextDial_agree a : same (nextDial a).
Proof.
  intros c c' []. unfold nextDial. simpl. split; [congruence|]. split; simpl; congruence || done.
Qed.
Lemma ctxErr_agree : same ctxErr.
Proof. intros c c' []. unfold ctxErr. simpl. split; [congruence|]. split; simpl; congruence || done. Qed.
Lemma WriteFrame_alike b : same (on_client (WriteFrame b)).
Proof. by apply on_client_agree, WriteFrame_same. Qed.
Lemma writeResponse_agree h enc : same (writeResponse h enc).
Proof. apply agree_wrap, WriteFrame_alike. Qed.

(** Fields of the second connection are those of the first. *)
Ltac sync := match goal with
  | H : alike _ _ ?c ?c' |- context [state ?c'] => rewrite <-(a_state _ _ _ _ H)
  | H : alike _ _ ?c ?c' |- context [clientMechanism ?c'] => rewrite <-(a_mech _ _ _ _ H)
  | H : alike _ _ ?c ?c' |- context [tenant ?c'] => rewrite <-(a_tenant _ _ _ _ H)
  | H : alike _ _ ?c ?c' |- context [scramRoundsCompleted ?c'] => rewrite <-(a_rounds _ _ _ _ H)
  | H : alike _ _ ?c ?c' |- context [log ?c'] => rewrite <-(a_log _ _ _ _ H)
  end.
Ltac leafA := idtac; first [progress sync|match goal with
  | |- agree _ (on_client (WriteFrame _)) _ => apply WriteFrame_alike
  | |- agree _ (writeResponse _ _) _ => apply writeResponse_agree
  | |- agree _ (replyAuth _ _ _ _ _) _ => apply writeResponse_agree
  | |- agree _ (meter _) _ => apply meter_agree
  | |- agree _ (observeHandshake _ _) _ => apply meter_agree
  | |- agree _ (logs _ _ _) _ => apply logs_agree
  | |- agree _ (lookupTenant _ _) _ => apply lookupTenant_agree
  | |- agree _ (nextDial _) _ => apply nextDial_agree
  | |- agree _ (modify _) _ => apply agree_modify; intros ? ? []; split; simpl; congruence || done
  end].
Ltac pairA := pair_with leafA.

Lemma debug_agree msg args : same (debug msg args).
Proof. unfold debug. pairA. Qed.
Lemma debugReq_agree {Q' R'} (d : option (Summaries Q' R')) h id req : same (debugReq d h id req).
Proof. destruct d; [apply debug_agree|apply agree_ret]. Qed.
Lemma debugResp_agree {Q' R'} (d : option (Summaries Q' R')) resp : same (debugResp d resp).
Proof. destruct d; [apply debug_agree|apply agree_ret]. Qed.

Hypothesis no_translation : IsSCRAMMechanism (UpstreamSASLMechanism (cfg E)) = false.

Lemma ensureUpstream_agree : same (ensureUpstream E).
Proof.
  apply agree_get. intros c c' Hc. destruct (a_up _ _ _ _ Hc); [apply agree_ret|].
  unfold shouldTranslatePlainToSCRAM. rewrite no_translation, !andb_false_r. repeat sync.
  apply agree_bind; [apply nextDial_agree|intros d].
  apply runDial_agree; [apply upDial_agree|intros e; pairA|intros u u' Hu].
  apply agree_bind; [|intros _; apply logs_agree]. apply agree_modify. intros ? ? []. split; try done.
  by constructor.
Qed.
Lemma cycle_agree {Q' R'} fn key (kq : Codec Q') (kr : Codec R') rin guard dbg out h body :
  same (cycle E fn key kq kr rin guard dbg out h body).
Proof.
  unfold cycle, roundTripTyped, writeTypedResponse. pairA.
  all: first [apply debugReq_agree|apply debugResp_agree|apply on_up_agree, RoundTripRequest_agree].
Qed.
Lemma rewriteHandler_agree key h hdr body : rewriteHandler E key = Some h -> same (h hdr body).
Proof.
  unfold rewriteHandler. intros H.
  repeat match type of H with (if ?b then _ else _) = _ => destruct b end; [..|done];
    injection H as <-; apply cycle_agree.
Qed.
Lemma handshake_agree h body :
  (forall req, ReadFrom (k_SASLHandshakeRequest _ K) (APIVersion h) body = inr req ->
     J (SASLHandshakeRequest.Mechanism req)) ->
  same (handleSaslHandshake E h body).
Proof.
  intros HJ. unfold handleSaslHandshake. destruct (ReadFrom _ _ _) as [e|req]; [apply agree_fail|].
  specialize (HJ req eq_refl). pairA.
Qed.
Lemma scramFirst_agree h p : same (scramFirst E h p).
Proof.
  unfold scramFirst. apply agree_get. intros c c' Hc. repeat sync.
  apply agree_bind; [pairA|intros [e|user]]; [pairA|].
  apply agree_bind; [pairA|intros [e|t]]; [pairA|].
  apply agree_bind; [pairA|intros _]. apply agree_bind; [pairA|intros _]. apply agree_bind; [pairA|intros d].
  apply runDial_agree; [apply upDialForSCRAM_agree|intros e; pairA|intros u u' Hu].
  apply agree_bind; [|intros _; pairA]. apply agree_modify. intros ? ? []. split; try done. by constructor.
Qed.
Lemma scramRelay_agree h p : same (scramRelay E h p).
Proof. unfold scramRelay. pairA. apply on_up_agree, upRelay_agree. Qed.
Lemma authenticate_agree h body : same (handleSaslAuthenticate E h body).
Proof.
  unfold handleSaslAuthenticate, handleSaslAuthenticateSCRAM, handleSaslAuthenticatePlain. pairA.
  all: first [apply scramFirst_agree|apply scramRelay_agree].
Qed.
Lemma dispatch_agree h frame body :
  (APIKey h = SaslHandshakeKey -> forall req,
     ReadFrom (k_SASLHandshakeRequest _ K) (APIVersion h) body = inr req -> J (SASLHandshakeRequest.Mechanism req)) ->
  same (dispatch E h frame body).
Proof.
  intros HJ. unfold dispatch. destruct (_ =? ApiVersionsKey); [apply writeResponse_agree|].
  destruct (Z.eqb_spec (APIKey h) SaslHandshakeKey) as [Hk|]; [by apply handshake_agree, HJ|].
  destruct (_ =? SaslAuthenticateKey); [apply authenticate_agree|].
  apply agree_get. intros c c' Hc. repeat sync. case_decide; [pairA|].
  destruct (rewriteHandler E (APIKey h)) as [hd|] eqn:Eh.
  - unfold forwardRewritten. rewrite Eh. pairA; [apply ensureUpstream_agree|by eapply rewriteHandler_agree].
  - unfold forwardPassthrough. pairA; [apply ensureUpstream_agree|apply on_up_agree, RoundTrip_agree].
Qed.

(** Two PLAIN payloads that differ at most in the password (and the
    authorization identity, which kroxy ignores). *)
Definition samePlain (p p' : list byte) : Prop :=
  match ParsePlain p, ParsePlain p' with
  | Ok creds, Ok creds' => Username creds = Username creds'
  | Err _, Err _ => True
  | _, _ => False
  end.
(** The two outcomes of a parser, with what goes on from each. *)
Lemma attempt_results {A B} (r r' : res A) (k k' : error + A -> M conn B) :
  match r, r' with
  | Ok a, Ok a' => agree (alike Q J) (k (inr a)) (k' (inr a'))
  | Err e, Err e' => agree (alike Q J) (k (inl e)) (k' (inl e'))
  | _, _ => False
  end -> agree (alike Q J) (bind (attempt (lift r)) k) (bind (attempt (lift r')) k').
Proof. intros H c c' Hc. destruct r, r'; try done; exact (H c c' Hc). Qed.
Lemma plain_agree h body body' p p' :
  (forall m, J m -> IsSCRAMMechanism m = false) -> samePlain p p' ->
  ReadFrom (k_SASLAuthenticateRequest _ K) (APIVersion h) body = inr (SASLAuthenticateRequest.Mk p) ->
  ReadFrom (k_SASLAuthenticateRequest _ K) (APIVersion h) body' = inr (SASLAuthenticateRequest.Mk p') ->
  agree (alike Q J) (handleSaslAuthenticate E h body) (handleSaslAuthenticate E h body').
Proof.
  intros HJ Hp Hb Hb'. unfold handleSaslAuthenticate, handleSaslAuthenticatePlain. rewrite Hb, Hb'.
  apply agree_get. intros c c' Hc. repeat sync. rewrite (HJ _ (a_J _ _ _ _ Hc)).
  apply agree_get. intros c1 c1' Hc1. repeat sync. case_decide; [pairA|]. simpl.
  unfold samePlain in Hp. destruct (ParsePlain p) as [cr|e|], (ParsePlain p') as [cr'|e'|]; try done.
  - apply attempt_results. rewrite Hp. pairA.
  - apply attempt_results. pairA.
Qed.

Lemma wrap_lift_Ok {A B} msg (a : A) (k k' : A -> M conn B) :
  agree (alike Q J) (k a) (k' a) ->
  agree (alike Q J) (bind (wrap msg (lift (Ok a))) k) (bind (wrap msg (lift (Ok a))) k').
Proof. intros H c c' Hc. exact (H c c' Hc). Qed.
Lemma lift_Ok2 {A B} (a a' : A) (k k' : A -> M conn B) :
  agree (alike Q J) (k a) (k' a') -> agree (alike Q J) (bind (lift (Ok a)) k) (bind (lift (Ok a')) k').
Proof. intros H c c' Hc. exact (H c c' Hc). Qed.

(** What follows the read of a frame: the same one, or two that differ in a
    password. *)
Lemma serveFrame_same f :
  (forall h req, ParseRequestHeader f = Ok h -> APIKey h = SaslHandshakeKey ->
     ReadFrom (k_SASLHandshakeRequest _ K) (APIVersion h) (bodyOf f h) = inr req ->
     J (SASLHandshakeRequest.Mechanism req)) ->
  same (serveFrame E f).
Proof.
  intros HJ. unfold serveFrame. apply agree_bind; [apply agree_wrap, on_client_agree, SetDeadline_agree|intros _].
  destruct (ParseRequestHeader f) as [h|e|] eqn:Eh; [|by intros c c' Hc..]. apply wrap_lift_Ok.
  destruct (slice_from f (HeaderSize h)) as [body|e|] eqn:Eb; [|by intros c c' Hc..]. apply lift_Ok2.
  apply slice_from_inv in Eb as [_ ->].
  apply agree_bind; [apply agree_attempt, dispatch_agree; eauto|intros r]. pairA.
Qed.
Definition twins (f f' : list byte) : Prop :=
  exists h p p', authenticates E f h p /\ authenticates E f' h p' /\ samePlain p p'.
Lemma serveFrame_twins f f' :
  (forall m, J m -> IsSCRAMMechanism m = false) -> twins f f' ->
  agree (alike Q J) (serveFrame E f) (serveFrame E f').
Proof.
  intros HJ (h & p & p' & ((_ & Eh & Hs) & Hk & Hb) & ((_ & Eh' & Hs') & _ & Hb') & Hp). unfold serveFrame.
  apply agree_bind; [apply agree_wrap, on_client_agree, SetDeadline_agree|intros _].
  rewrite Eh, Eh'. apply wrap_lift_Ok. rewrite !slice_from_Ok by done. apply lift_Ok2.
  apply agree_bind; [apply agree_attempt|intros r; pairA].
  unfold dispatch. rewrite Hk. by apply (plain_agree h _ _ p p').
Qed.
End Steps.

(** * The loop *)
Abbreviation anyRx := (fun _ _ : list byte => True) (only parsing).
Abbreviation anyMech := (fun _ : string => True) (only parsing).
Hypothesis no_translation : IsSCRAMMechanism (UpstreamSASLMechanism (cfg E)) = false.

(** Clients that are going to send the same. *)
Lemma serveStep_agree : agree (alike eq anyMech) (serveStep E) (serveStep E).
Proof.
  unfold serveStep. apply agree_bind; [apply ctxErr_agree|intros [e|]]; [apply agree_fail|].
  apply agree_get. intros c c' Hc. rewrite <-(a_state _ _ _ _ Hc).
  apply agree_bind; [apply agree_wrap, on_client_agree, SetDeadline_agree|intros _].
  apply agree_bind; [apply agree_attempt, on_client_agree, ReadFrame_agree|intros [e|f]].
  - case_match; apply agree_fail.
  - by apply serveFrame_same.
Qed.
Lemma serveLoop_agree fuel : agree (alike eq anyMech) (serveLoop E fuel) (serveLoop E fuel).
Proof.
  induction fuel as [|fuel IH]; [apply agree_fail|]. by apply agree_bind; [apply serveStep_agree|intros _].
Qed.

(** Clients that differ in their next frame. *)
Definition noScramHandshake (f : list byte) : Prop :=
  forall h req, ParseRequestHeader f = Ok h -> APIKey h = SaslHandshakeKey ->
    ReadFrom (k_SASLHandshakeRequest _ K) (APIVersion h) (bodyOf f h) = inr req ->
    IsSCRAMMechanism (SASLHandshakeRequest.Mechanism req) = false.
Definition sameButPassword (f f' : list byte) : Prop :=
  legal f /\ f = f' /\ noScramHandshake f \/ twins f f'.
Abbreviation noSCRAM := (fun m => IsSCRAMMechanism m = false) (only parsing).
Abbreviation pending r r' := (fun x x' : list byte => x = r /\ x' = r') (only parsing).

Lemma alike_any Q J c c' : alike Q J c c' -> alike anyRx anyMech c c'.
Proof. by apply alike_mono. Qed.
Lemma sameButPassword_legal f f' : sameButPassword f f' -> legal f /\ legal f'.
Proof. intros [(? & <- & _)|(h & p & p' & ((? & _) & _) & ((? & _) & _) & _)]; done. Qed.
Lemma serveFrame_next Q f f' :
  sameButPassword f f' -> agree (alike Q noSCRAM) (serveFrame E f) (serveFrame E f').
Proof.
  intros [(_ & <- & Hn)|Ht]; [by apply serveFrame_same|by apply serveFrame_twins].
Qed.
(** The read of the next frames; on a socket kroxy has closed both fail. *)
Lemma read_next f f' r r' c c' :
  sameButPassword f f' -> alike (pending (frame_bytes f ++ r) (frame_bytes f' ++ r')) noSCRAM c c' ->
  let m := attempt (on_client ReadFrame) in
  (m c).1 = Ok (inr f) /\ (m c').1 = Ok (inr f') /\ alike (pending r r') noSCRAM (m c).2 (m c').2 \/
  exists e, (m c).1 = Ok (inl e) /\ (m c').1 = Ok (inl e) /\ alike anyRx anyMech (m c).2 (m c').2.
Proof.
  intros [Hl Hl']%sameButPassword_legal Hc. pose proof Hc as [[[Hr Hr'] ? ? ? ? ? Hcl] ? ? ? ? ? ? ? ? ? ? ? ? ?].
  unfold attempt, on_client, zoom. destruct (closed (client c)) eqn:Eo.
  - rewrite !ReadFrame_closed by congruence. right. eexists. split_and!; [done..|]. simpl.
    split; try done. split; simpl; congruence || done.
  - rewrite (ReadFrame_frame f r), (ReadFrame_frame f' r') by congruence. left. split_and!; [done..|].
    split; try done. split; simpl; congruence || done.
Qed.
(** As [agree], with another relation between the states if the loop goes on. *)
Definition leads (P R : conn -> conn -> Prop) (m m' : M conn unit) : Prop :=
  forall c c', P c c' -> (m c).1 = (m' c').1 /\ alike anyRx anyMech (m c).2 (m' c').2 /\
    ((m c).1 = Ok tt -> R (m c).2 (m' c').2).
Lemma leads_bind {A} Q J R (m m' : M conn A) k k' :
  agree (alike Q J) m m' -> (forall a, leads (alike Q J) R (k a) (k' a)) ->
  leads (alike Q J) R (bind m k) (bind m' k').
Proof.
  intros Hm Hk c c' Hc. destruct (Hm c c' Hc) as [Er Hr]. unfold bind.
  destruct (m c) as [r c1], (m' c') as [r' c1']. simpl in *. subst r'.
  destruct r; [by apply Hk|split_and!; [done|by eapply alike_any|done]..].
Qed.
Lemma leads_get Q J R k k' :
  (forall c c', alike Q J c c' -> leads (alike Q J) R (k c) (k' c')) ->
  leads (alike Q J) R (bind get k) (bind get k').
Proof. intros H c c' Hc. exact (H c c' Hc c c' Hc). Qed.
Lemma leads_agree Q J m m' : agree (alike Q J) m m' -> leads (alike Q J) (alike Q J) m m'.
Proof. intros Hm c c' Hc. destruct (Hm c c' Hc). split_and!; [done|by eapply alike_any|done]. Qed.

Lemma serveStep_next f f' r r' :
  sameButPassword f f' ->
  leads (alike (pending (frame_bytes f ++ r) (frame_bytes f' ++ r')) noSCRAM) (alike (pending r r') noSCRAM)
    (serveStep E) (serveStep E).
Proof.
  intros Hf. unfold serveStep. apply leads_bind; [apply ctxErr_agree|intros [e|]].
  { intros c c' Hc. split_and!; [done|by eapply alike_any|done]. }
  apply leads_get. intros c c' Hc. rewrite <-(a_state _ _ _ _ Hc). clear Hc.
  apply leads_bind; [apply agree_wrap, on_client_agree, SetDeadline_agree|intros _]. clear c c'.
  intros c c' Hc. pose proof (read_next f f' r r' c c' Hf Hc) as Hr. cbv zeta in Hr. unfold bind.
  destruct (attempt (on_client ReadFrame) c) as [x c1], (attempt (on_client ReadFrame) c') as [x' c1'].
  simpl in Hr. destruct Hr as [(-> & -> & H1)|(e & -> & -> & H1)].
  - exact (leads_agree _ _ _ _ (serveFrame_next _ _ _ Hf) c1 c1' H1).
  - by destruct (Is e EOF).
Qed.

(** The rest of the stream. *)
Abbreviation frames fs := (concat (map frame_bytes fs)).
Lemma serveLoop_next fs fs' tl fuel c c' :
  Forall2 sameButPassword fs fs' -> alike (pending (frames fs ++ tl) (frames fs' ++ tl)) noSCRAM c c' ->
  (serveLoop E fuel c).1 = (serveLoop E fuel c').1 /\
  alike anyRx anyMech (serveLoop E fuel c).2 (serveLoop E fuel c').2.
Proof.
  intros H. revert fuel c c'. induction H as [|f f' fs fs' Hf _ IH]; intros fuel c c' Hc.
  { destruct (serveLoop_agree fuel c c') as [? ?]; [|split; [done|by eapply alike_any]].
    eapply alike_mono; [| |exact Hc]; [by intros x x' [-> ->]|done]. }
  destruct fuel as [|fuel]; [split; [done|by eapply alike_any]|]. simpl in Hc. rewrite <-!app_assoc in Hc.
  destruct (serveStep_next _ _ _ _ Hf c c' Hc) as (Er & Ha & Hn). simpl. unfold bind.
  destruct (serveStep E c) as [x c1], (serveStep E c') as [x' c1']. simpl in *. subst x'.
  destruct x as [[]|e|]; [by apply IH, Hn|done..].
Qed.
End Lockstep.

(** * Theorems *)
Section Theorems.
Context {X Session St : Type} (E : Env X Session St).

(** The connections to brokers a client's connection has made. *)
Definition brokers (c : conn) : list Conn := option_list (upstream c) ++ dropped c.
(** The writes to a broker in two runs, one by one the same or logins. *)
Definition sentAlike (u u' : Conn) : Prop := Forall2 (sameOrLogins E) (tx (nc u)) (tx (nc u')).

Lemma serve_next c c' fs fs' tl :
  IsSCRAMMechanism (UpstreamSASLMechanism (cfg E)) = false -> Forall2 (sameButPassword E) fs fs' ->
  alike E (fun x x' => x = concat (map frame_bytes fs) ++ tl /\ x' = concat (map frame_bytes fs') ++ tl)
    (fun m => IsSCRAMMechanism m = false) c c' ->
  (serve E c).1 = (serve E c').1 /\ alike E (fun _ _ => True) (fun _ => True) (serve E c).2 (serve E c').2.
Proof.
  intros Ht Hf Hc. set (n := S (length (rx (client c)) + length (rx (client c')))).
  unfold serve. destruct (serveLoop_fuel E n (S (length (rx (client c)))) n c) as [-> _]; [lia..|].
  destruct (serveLoop_fuel E n (S (length (rx (client c')))) n c') as [-> _]; [lia..|].
  by apply (serveLoop_next E Ht fs fs' tl).
Qed.
(** What [handle] does when the loop has ended. *)
Lemma close_alike c c' :
  alike E (fun _ _ => True) (fun _ => True) c c' -> alike E (fun _ _ => True) (fun _ => True) (close c) (close c').
Proof.
  intros [[] ? ? ? ? Hu ? ? ? ? ? ? ? ?]. split; try done. simpl.
  destruct Hu; constructor. by apply CloseConn_twin.
Qed.
Lemma handle_next c c' fs fs' tl :
  IsSCRAMMechanism (UpstreamSASLMechanism (cfg E)) = false -> Forall2 (sameButPassword E) fs fs' ->
  alike E (fun x x' => x = concat (map frame_bytes fs) ++ tl /\ x' = concat (map frame_bytes fs') ++ tl)
    (fun m => IsSCRAMMechanism m = false) c c' ->
  (handle E c).1 = (handle E c').1 /\ alike E (fun _ _ => True) (fun _ => True) (handle E c).2 (handle E c').2.
Proof.
  intros Ht Hf Hc.
  assert (forall Q J c c' f, alike E Q J c c' ->
    alike E Q J (set_metrics (f <$> metrics c) c) (set_metrics (f <$> metrics c') c')) as Hm.
  { intros Q J d d' f []. split; simpl; congruence || done. }
  destruct (serve_next _ _ _ _ _ Ht Hf (Hm _ _ _ _ incConnections Hc)) as [Er Ha]. unfold handle.
  destruct (serve E _) as [r d], (serve E _) as [r' d']. simpl in Er, Ha. subst r'. split; [done|].
  simpl. apply close_alike, Hm. destruct r as [|e|]; [done| |done]. destruct (Is e errClientClosed); [done|].
  destruct Ha. split; simpl; congruence || done.
Qed.
Lemma alike_brokers Q J c c' : alike E Q J c c' -> Forall2 sentAlike (brokers c) (brokers c').
Proof.
  intros Hc. unfold brokers. apply Forall2_app.
  - destruct (a_up _ _ _ _ _ Hc) as [u u' [[] _]|]; [by apply Forall2_cons|constructor].
  - eapply Forall2_impl; [|exact (a_dropped _ _ _ _ _ Hc)]. intros u u' [Hs _]. exact (s_tx _ _ _ _ Hs).
Qed.

(** C5: no PLAIN password leaves the connection except to the broker.  Take two
    clients whose requests agree except that the PLAIN SaslAuthenticate requests
    may carry different passwords (and that ask for no SCRAM exchange), served by
    a kroxy that does not translate PLAIN to SCRAM.  Then the two runs of the
    handler log the same records, update the metrics alike, send the clients the
    same bytes, dial the same brokers and end with the same outcome; their writes
    to the brokers agree one by one, except for the PLAIN logins. *)
Theorem password_confined nc0 m lg ds cx fs fs' tl :
  IsSCRAMMechanism (UpstreamSASLMechanism (cfg E)) = false -> Forall2 (sameButPassword E) fs fs' ->
  let sending fs := newConn (set_rx (concat (map frame_bytes fs) ++ tl) nc0) m lg ds cx in
  let c := (handle E (sending fs)).2 in
  let c' := (handle E (sending fs')).2 in
  (handle E (sending fs)).1 = (handle E (sending fs')).1 /\ log c = log c' /\ metrics c = metrics c' /\ tx (client c) = tx (client c') /\
  dialed c = dialed c' /\ state c = state c' /\ tenant c = tenant c' /\
  Forall2 sentAlike (brokers c) (brokers c').
Proof.
  intros Ht Hf sending. assert (alike E
    (fun x x' => x = concat (map frame_bytes fs) ++ tl /\ x' = concat (map frame_bytes fs') ++ tl)
    (fun m => IsSCRAMMechanism m = false) (sending fs) (sending fs')) as H0.
  { split; try done. constructor. }
  destruct (handle_next _ _ _ _ _ Ht Hf H0) as [Er Ha]. intros c c'. fold c c' in Ha.
  pose proof (alike_brokers _ _ _ _ Ha). destruct Ha as [[_ _ Htx _ _ _ _] ? ? ? ? ? ? ? ? ? ? ? ? ?].
  split_and!; try done. by apply list_eq_Forall2.
Qed.

(** The restriction to clients that ask for no SCRAM exchange is needed.  The first
    message of a SCRAM client is logged up to its first comma when it does not
    parse: a client that chose a SCRAM mechanism and then sends its PLAIN
    credentials has them logged, if the password has a comma up to there. *)
Lemma scram_message_logged h body payload cb rest c :
  ReadFrom (k_SASLAuthenticateRequest _ (codecs E)) (APIVersion h) body = inr (SASLAuthenticateRequest.Mk payload) ->
  state c = stateAwaitAuth -> IsSCRAMMechanism (clientMechanism c) = true ->
  cutByte (string_of_bytes payload) ","%char = (cb, rest, true) ->
  (cb =? "n")%string || (cb =? "y")%string || HasPrefix cb "p=" = false -> Enabled LevelInfo (log c) = true ->
  log (handleSaslAuthenticate E h body c).2 =
    Log LevelInfo "sasl scram parse failed"
      [("err", AErr (ErrNew "ParseSCRAMClientFirstUsername: invalid gs2 cbind-flag %q" [FStr cb]))]%string (log c).
Proof.
  intros Hr Hs Hm Hc Hn Hl. apply orb_false_elim in Hn as [[Hn Hy]%orb_false_elim Hp].
  assert (ParseSCRAMClientFirstUsername payload =
    Err (ErrNew "ParseSCRAMClientFirstUsername: invalid gs2 cbind-flag %q" [FStr cb])) as Ep.
  { unfold ParseSCRAMClientFirstUsername. rewrite Hc. simpl. by rewrite Hn, Hy, Hp. }
  unfold handleSaslAuthenticate, bind at 1, get. rewrite Hm. unfold handleSaslAuthenticateSCRAM. rewrite Hr.
  unfold bind at 1, get. cbn [SASLAuthenticateRequest.SASLAuthBytes]. cbv zeta.
  rewrite decide_False, decide_True by tauto. unfold bind at 1, scramFirst, bind at 1, get.
  unfold bind at 1, attempt, lift. rewrite Ep. unfold bind, observeHandshake, meter, logs, modify, replyAuth.
  unfold writeResponse, wrap, on_client, zoom. by destruct (WriteFrame _ _) as [[[]| |] n].
Qed.
End Theorems.

(** * Witness: two clients that log in as bob, with different passwords *)
Module DemoConfinement.
Import DemoProxy.
Definition handshake : list byte := request SaslHandshakeKey 1 11 (bytes_of_string MechanismPlain).
Definition login (pw : string) : list byte := request SaslAuthenticateKey 1 12 (plainPayload "bob" pw).
Definition metadata : list byte := request MetadataKey 1 13 (bytes_of_string "orders").
Definition sent (pw : string) : list (list byte) := [handshake; login pw; metadata].
Definition socket : NetConn := DemoBroker.broker [].
Definition run (pw : string) : res unit * conn :=
  handle env (newConn (set_rx (concat (map frame_bytes (sent pw)) ++ []) socket) (Some NewMetrics) logger
    [inr broker] []).

Lemma handshake_plain : noScramHandshake env handshake.
Proof.
  intros h req Hh _ Hr.
  assert (ParseRequestHeader handshake = Ok (MkHeader SaslHandshakeKey 1 11 "" 1 10)) as E
    by (vm_compute; reflexivity).
  rewrite E in Hh. injection Hh as <-.
  assert (ReadFrom (k_SASLHandshakeRequest _ (ProxyConn.codecs env)) 1
    (bodyOf handshake (MkHeader SaslHandshakeKey 1 11 "" 1 10)) = inr (SASLHandshakeRequest.Mk MechanismPlain)) as F
    by (vm_compute; reflexivity).
  simpl APIVersion in Hr. rewrite F in Hr. by injection Hr as <-.
Qed.
Lemma metadata_plain : noScramHandshake env metadata.
Proof.
  intros h req Hh Hk _.
  assert (ParseRequestHeader metadata = Ok (MkHeader MetadataKey 1 13 "" 1 10)) as E
    by (vm_compute; reflexivity).
  rewrite E in Hh. by injection Hh as <-.
Qed.
Lemma login_twins pw pw' :
  authenticates env (login pw) (MkHeader SaslAuthenticateKey 1 12 "" 1 10) (plainPayload "bob" pw) ->
  authenticates env (login pw') (MkHeader SaslAuthenticateKey 1 12 "" 1 10) (plainPayload "bob" pw') ->
  samePlain (plainPayload "bob" pw) (plainPayload "bob" pw') -> twins env (login pw) (login pw').
Proof. intros. by eexists _, _, _. Qed.
Lemma sent_alike : Forall2 (sameButPassword env) (sent "pw") (sent "hunter2").
Proof.
  constructor; [left; split_and!; [by vm_compute|done|apply handshake_plain]|].
  constructor; [right|].
  { apply login_twins; by repeat split; vm_compute. }
  constructor; [|constructor]. left. split_and!; [by vm_compute|done|apply metadata_plain].
Qed.
End DemoConfinement.

Lemma password_confined_witness :
  log (DemoConfinement.run "pw").2 = log (DemoConfinement.run "hunter2").2 /\
  map recordMsg (records (log (DemoConfinement.run "hunter2").2)) =
    ["sasl auth ok"; "upstream connected"; "metadata -> broker"; "metadata <- broker"]%string /\
  tx (client (DemoConfinement.run "pw").2) = tx (client (DemoConfinement.run "hunter2").2).
Proof.
  destruct (password_confined DemoProxy.env DemoConfinement.socket (Some NewMetrics) DemoProxy.logger
    [inr DemoProxy.broker] [] _ _ [] eq_refl DemoConfinement.sent_alike) as (_ & Hl & _ & Ht & _).
  split; [exact Hl|]. split; [vm_compute; reflexivity|exact Ht].
Defined.

(** A user "bob" with the password "s3cret,word" whose client mixes the mechanisms up. *)
Example scram_message_logged_demo :
  map recordAttrs (records (log (handleSaslAuthenticate DemoProxy.env DemoScram.hdr
    (plainPayload "bob" "s3cret,word") DemoScram.c).2)) =
  [[("err", AErr (ErrNew "ParseSCRAMClientFirstUsername: invalid gs2 cbind-flag %q"
      [FStr (string_of_bytes (Byte.x00 :: bytes_of_string "bob" ++ Byte.x00 :: bytes_of_string "s3cret"))]))]]%string.
Proof.
  rewrite (scram_message_logged DemoProxy.env DemoScram.hdr _ (plainPayload "bob" "s3cret,word")
    (string_of_bytes (Byte.x00 :: bytes_of_string "bob" ++ Byte.x00 :: bytes_of_string "s3cret"))
    "word" DemoScram.c); reflexivity.
Qed.
