(* ===== verification/Crashes.v ===== *)
(** When kroxy crashes: a panic in the goroutine of a connection is not recovered
    and ends the process, for the clients of every tenant.

    Only two inputs make [serve] panic: a request with a flexible header whose
    declared lengths make the parser leave the frame, and a broker response of
    exactly four bytes.  Both are defects of the code ([tag_length_underflow],
    [short_flexible_response_panics]); here it is shown that there is no third. *)
From Stdlib Require Import ZArith Lia Ascii.
From stdpp Require Import base list gmap strings tactics.
From S2P Require Import Prelude GoStrings GoNet Protocol ProtocolFacts Kmsg Auth AuthFacts.
From S2P Require Import Resolver Upstream UpstreamTheorems Completion Observability ProxyConn Handlers Serve.
From S2P Require Import ProxyDemo ProxyTheorems Session.
Local Open Scope Z_scope.

(** * net.SplitHostPort does not panic *)
Section HostPort.
Local Open Scope nat_scope.
Lemma IndexByte_lt s c i : IndexByte s c = Some i -> i < String.length s.
Proof.
  revert i. induction s as [|a s IH]; simpl; [done|]. intros i. destruct (Ascii.eqb a c); [intros [= <-]; lia|].
  destruct (IndexByte s c) as [j|]; [|done]. intros [= <-]. specialize (IH j eq_refl). lia.
Qed.
Lemma LastIndexByte_lt s c i : LastIndexByte s c = Some i -> i < String.length s.
Proof.
  revert i. induction s as [|a s IH]; simpl; [done|]. intros i. destruct (LastIndexByte s c) as [j|].
  - intros [= <-]. specialize (IH j eq_refl). lia.
  - destruct (Ascii.eqb a c); [intros [= <-]; lia|done].
Qed.
Lemma sslice_safe s lo hi : lo <= hi -> hi <= String.length s -> exists t, sslice s lo hi = Ok t.
Proof. intros. unfold sslice. rewrite !(proj2 (Nat.leb_le _ _)) by lia. by eexists. Qed.
Lemma sindex_safe s i : i < String.length s -> exists c, sindex s i = Ok c.
Proof.
  unfold sindex. revert i. induction s as [|a s IH]; simpl; intros i Hi; [lia|].
  destruct i as [|i]; [by eexists|]. apply IH. lia.
Qed.
Lemma IndexByte_pos s a c i : sindex s 0 = Ok a -> a <> c -> IndexByte s c = Some i -> 1 <= i.
Proof.
  destruct s as [|b s]; [done|]. cbn. intros [= ->] Hn. destruct (Ascii.eqb_spec a c); [done|].
  destruct (IndexByte s c); [|done]. intros [= <-]. lia.
Qed.
Lemma SplitHostPort_no_panic s : SplitHostPort s <> Panic.
Proof.
  unfold SplitHostPort. destruct (LastIndexByte s ":") as [i|] eqn:Ei; [|done]. apply LastIndexByte_lt in Ei.
  destruct (sindex_safe s 0) as [c0 E0]; [lia|]. rewrite E0. cbn [rbind].
  assert (forall j k (h : string), j <= String.length s -> k <= String.length s ->
    (let? hj := sslice s j (String.length s) in
     match IndexByte hj "[" with
     | Some _ => Err (addrErr "unexpected '[' in address" s)
     | None =>
         let? hk := sslice s k (String.length s) in
         match IndexByte hk "]" with
         | Some _ => Err (addrErr "unexpected ']' in address" s)
         | None => let? port := sslice s (i + 1) (String.length s) in Ok (h, port)
         end
     end) <> Panic) as Htail.
  { intros j k h Hj Hk. destruct (sslice_safe s j (String.length s)) as [t ->]; [lia..|]. cbn [rbind].
    destruct (IndexByte t "["); [done|].
    destruct (sslice_safe s k (String.length s)) as [t' ->]; [lia..|]. cbn [rbind].
    destruct (IndexByte t' "]"); [done|].
    by destruct (sslice_safe s (i + 1) (String.length s)) as [t'' ->]; [lia..|]. }
  destruct (Ascii.eqb_spec c0 "[") as [Hc0|].
  - destruct (IndexByte s "]") as [e|] eqn:Ee; [|done]. pose proof (IndexByte_lt _ _ _ Ee).
    destruct (Nat.eqb_spec (e + 1) (String.length s)); [done|].
    destruct (Nat.eqb_spec (e + 1) i); cbn [rbind].
    + pose proof (IndexByte_pos s c0 "]" e E0 ltac:(by rewrite Hc0) Ee).
      destruct (sslice_safe s 1 e) as [t ->]; [lia..|]. cbn [rbind]. apply Htail; lia.
    + destruct (sindex_safe s (e + 1)) as [c ->]; [lia|]. cbn [rbind]. by destruct (Ascii.eqb c ":").
  - destruct (sslice_safe s 0 i) as [t ->]; [lia..|]. cbn [rbind].
    destruct (IndexByte t ":"); [done|]. cbn [rbind]. apply Htail; lia.
Qed.
End HostPort.

Section Advertised.
Context {X Session St : Type} (E : Env X Session St).
Lemma advertised_no_panic : advertised E <> Panic.
Proof.
  unfold advertised. pose proof (SplitHostPort_no_panic (Advertised (cfg E))) as H.
  destruct (SplitHostPort _) as [[h p]|e|]; [|done|done]. cbn [rwrap rbind].
  destruct (Atoi p) as [z|e|] eqn:Ea; [done|done|]. exfalso. revert Ea. unfold Atoi.
  by repeat case_match.
Qed.
End Advertised.

(** * Frames *)

(** Every frame of the stream satisfies [G]. *)
Definition allFrames (G : list byte -> Prop) (bs : list byte) : Prop :=
  forall fs f r, Forall legal fs -> legal f -> bs = concat (map frame_bytes fs) ++ frame_bytes f ++ r -> G f.
Lemma allFrames_cons G f r : legal f -> allFrames G (frame_bytes f ++ r) -> G f /\ allFrames G r.
Proof.
  intros Hf H. split; [by apply (H [] f r)|]. intros fs f' r' Hfs Hf' ->.
  apply (H (f :: fs) f' r'); [by constructor|done|]. simpl. by rewrite <-!app_assoc.
Qed.

Lemma allFrames_frames (G : list byte -> Prop) fs :
  Forall (fun f => legal f /\ G f) fs -> allFrames G (concat (map frame_bytes fs)).
Proof.
  intros Hfs gs g r Hgs Hg. revert fs Hfs. induction Hgs as [|h gs Hh _ IH]; intros fs Hfs H.
  - destruct Hfs as [|f fs [Hf HG] _]; [by destruct g|]. simpl in H.
    by apply frame_bytes_inj in H as [<- _].
  - destruct Hfs as [|f fs [Hf HG] Hfs]; [done|]. simpl in H. rewrite <-app_assoc in H.
    apply frame_bytes_inj in H as [_ H]; [|done..]. by apply (IH fs).
Qed.

(** A response the broker may send, and a request the client may. *)
Definition notFour (f : list byte) : Prop := len f <> 4.
Definition headed (f : list byte) : Prop :=
  match ParseRequestHeader f with
  | Ok h => 0 <= HeaderSize h <= len f
  | Err _ => True
  | Panic => False
  end.
(** Requests with the header of version 1 always are. *)
Lemma headed_v1 f : RequestHeaderVersion (frameKey f) (frameVersion f) = 1 -> headed f.
Proof.
  intros [Hp Hs]%parse_v1_safe. unfold headed. destruct (ParseRequestHeader f) as [h|e|]; [|done|done].
  destruct (Hs h eq_refl) as [? _]. lia.
Qed.

(** A fact about a value that a precondition holds. *)
Lemma safely_assume {S A} (V : Prop) (P : S -> Prop) (m : M S A) Q F :
  (V -> safely P m Q F) -> safely (fun s => V /\ P s) m Q F.
Proof. intros H s [HV Hs]. by apply H. Qed.

Abbreviation anything := (fun _ => True) (only parsing).
Section Sockets.
Context (G : list byte -> Prop).
Abbreviation I := (fun n => allFrames G (rx n)).

Lemma quiet_socket {A} (m : M NetConn A) :
  (forall n, rx (m n).2 = rx n /\ (m n).1 <> Panic) -> safely I m (fun _ => I) anything.
Proof. intros H n Hn. destruct (H n) as [Hr Hp]. destruct (m n) as [[a|e|] n']; simpl in *; [by rewrite Hr|done|done]. Qed.
Lemma Write_safely b : safely I (Write b) (fun _ => I) anything.
Proof. apply quiet_socket. intros n. destruct (Write_spec b n) as (k & _ & _ & ? & ? & _). done. Qed.
Lemma WriteFrame_safely b : safely I (WriteFrame b) (fun _ => I) anything.
Proof. apply quiet_socket. intros n. destruct (WriteFrame_spec b n) as (? & ? & _). done. Qed.
Lemma SetDeadline_safely d : safely I (SetDeadline d) (fun _ => I) anything.
Proof. apply quiet_socket. intros n. destruct (SetDeadline_spec d n) as (_ & ? & _ & _ & _ & ?). done. Qed.
Lemma ReadFrame_safely : safely I ReadFrame (fun f n => G f /\ allFrames G (rx n)) anything.
Proof.
  intros n Hn. pose proof (ReadFrame_no_panic n) as Hp. pose proof (fun f => ReadFrame_sound f n) as Hs.
  destruct (ReadFrame n) as [[f|e|] n']; [|done|done]. destruct (Hs f eq_refl) as [Hl Hr]. cbn [snd] in Hr.
  apply allFrames_cons; [done|]. by rewrite <-Hr.
Qed.
End Sockets.

(** * The connection to the broker *)
Definition responsive (u : Conn) : Prop := allFrames notFour (rx (nc u)).

Lemma on_nc_safely {A} (m : M NetConn A) (Q : A -> Prop) :
  safely (fun n => allFrames notFour (rx n)) m (fun a n => Q a /\ allFrames notFour (rx n)) anything ->
  safely responsive (on_nc m) (fun a u => Q a /\ responsive u) anything.
Proof.
  intros Hm u Hu. unfold on_nc, zoom. specialize (Hm (nc u) Hu). by destruct (m (nc u)) as [[a|e|] n].
Qed.
Lemma on_nc_keeps {A} (m : M NetConn A) :
  (forall G, safely (fun n => allFrames G (rx n)) m (fun _ n => allFrames G (rx n)) anything) ->
  safely responsive (on_nc m) (fun _ => responsive) anything.
Proof.
  intros Hm u Hu. unfold on_nc, zoom. specialize (Hm notFour (nc u) Hu). by destruct (m (nc u)) as [[a|e|] n].
Qed.
Lemma ReadFrame_responsive : safely responsive (on_nc ReadFrame) (fun f u => notFour f /\ responsive u) anything.
Proof. apply on_nc_safely, ReadFrame_safely. Qed.
Lemma deadline_safely : safely responsive applyRequestDeadline (fun _ => responsive) anything.
Proof.
  apply safely_get_inv. intros u _. destruct (reqTO u <=? 0); apply on_nc_keeps; intros; apply SetDeadline_safely.
Qed.
Lemma nextCorrelationID_safely : safely responsive nextCorrelationID (fun _ => responsive) anything.
Proof. by intros u Hu. Qed.

Lemma readResponse_safely fn cid key version :
  safely responsive (readResponse fn cid key version) (fun _ => responsive) anything.
Proof.
  eapply safely_bind; [apply safely_wrap, ReadFrame_responsive|]. intros f.
  destruct (Z.ltb_spec (len f) 4); [by apply safely_fail|].
  apply (safely_bind _ _ _ (fun _ u => notFour f /\ responsive u)).
  { apply safely_lift; [by rewrite slice_Ok by lia|done|done]. }
  intros h. cbv zeta. destruct (negb (_ =? cid)); [by apply safely_fail|]. intros u [Hf Hu]. unfold lift, notFour in *.
  rewrite slice_from_Ok; [done|]. destruct (1 <=? _); lia.
Qed.
Ltac leafU := first [apply nextCorrelationID_safely|apply deadline_safely|apply readResponse_safely
  |apply on_nc_keeps; intros; first [apply Write_safely|apply WriteFrame_safely|apply SetDeadline_safely]].
Ltac seqU := repeat match goal with
  | |- safely _ (bind _ _) _ _ => eapply safely_bind; [first [leafU|apply safely_wrap; leafU]|intros ?]
  | |- safely _ _ _ _ => leafU
  end.

Lemma RoundTrip_safely f cid hv rhv : safely responsive (RoundTrip f cid hv rhv) (fun _ => responsive) anything.
Proof.
  unfold RoundTrip. case_match; [by apply safely_fail|]. do 3 (eapply safely_bind; [first [leafU|apply safely_wrap; leafU]|intros ?]).
  eapply safely_bind; [apply safely_wrap, ReadFrame_responsive|]. intros g.
  destruct (Z.ltb_spec (len g) 4); [by apply safely_fail|].
  apply (safely_bind _ _ _ (fun _ => responsive)).
  { apply safely_lift; [by rewrite slice_Ok by lia|by intros ? ? _ []|done]. }
  intros h. case_match; [by apply safely_fail|by apply safely_ret].
Qed.

Section Broker.
Context {X Session St : Type} (E : Env X Session St).
Abbreviation K := (codecs E).

Lemma RoundTripRequest_safely req id :
  safely responsive (RoundTripRequest (AppendRequest E) req id) (fun _ => responsive) anything.
Proof. unfold RoundTripRequest. seqU. Qed.
Lemma directRoundTrip_safely req key version :
  safely responsive (directRoundTrip (AppendRequest E) req key version) (fun _ => responsive) anything.
Proof. unfold directRoundTrip. seqU. Qed.
Lemma upRelay_safely p : safely responsive (upRelay E p) (fun _ => responsive) anything.
Proof.
  unfold upRelay, RelaySASLAuthenticate. eapply safely_bind; [apply safely_wrap, deadline_safely|intros ?].
  eapply safely_bind; [apply safely_wrap, directRoundTrip_safely|intros body].
  case_match; [by apply safely_fail|by apply safely_ret].
Qed.

(** Dialling, once the connection is there. *)
Definition dialled (s : option Conn) : Prop := exists u, s = Some u /\ responsive u.
Lemma closing_safely {A} (m : M Conn A) msg :
  safely responsive m (fun _ => responsive) anything ->
  safely dialled (closing (wrap msg (on_conn m))) (fun _ => dialled) anything.
Proof.
  intros Hm. apply safely_on_err; [|done]. apply safely_wrap. intros s (u & -> & Hu). unfold on_conn.
  specialize (Hm u Hu). destruct (m u) as [[a|e|] u']; [by exists u'|done..].
Qed.
Definition goodDial (d : error + NetConn) : Prop :=
  match d with inl _ => True | inr n => allFrames notFour (rx n) end.

Lemma negotiate_safely d mech :
  goodDial d ->
  safely (fun s => s = None) (dialAndNegotiate (AppendRequest E) (k_SASLHandshakeRequest _ K)
    (k_SASLHandshakeResponse _ K) (avRequest E) d mech) (fun _ => dialled) anything.
Proof.
  intros Hd. destruct d as [e|n]; [by apply safely_fail|].
  apply (safely_bind _ _ _ (fun _ => dialled)); [apply safely_modify; intros s _; by eexists|intros ?].
  eapply safely_bind; [apply closing_safely; leafU|intros ?].
  eapply safely_bind; [apply closing_safely|intros ?].
  { unfold apiVersions. eapply safely_bind; [apply safely_wrap, directRoundTrip_safely|intros ?]. by apply safely_ret. }
  apply closing_safely. unfold saslHandshake.
  eapply safely_bind; [apply safely_wrap, directRoundTrip_safely|intros body].
  repeat case_match; first [by apply safely_fail|by apply safely_ret].
Qed.
Lemma upDial_safely d user pw :
  goodDial d -> safely (fun s => s = None) (upDial E d user pw) (fun _ => dialled) anything.
Proof.
  intros Hd. unfold upDial, Dial. eapply safely_bind; [by apply safely_wrap, negotiate_safely|intros ?].
  eapply safely_bind; [apply closing_safely|intros ?; apply closing_safely; leafU].
  unfold plainAuthenticate. eapply safely_bind; [apply safely_wrap, directRoundTrip_safely|intros body].
  repeat case_match; first [by apply safely_fail|by apply safely_ret].
Qed.
Lemma upDialForSCRAM_safely d mech :
  goodDial d -> safely (fun s => s = None) (upDialForSCRAM E d mech) (fun _ => dialled) anything.
Proof.
  intros Hd. unfold upDialForSCRAM, DialForSCRAM. case_match; [by apply safely_fail|].
  eapply safely_bind; [by apply safely_wrap, negotiate_safely|intros ?; apply closing_safely; leafU].
Qed.
Lemma scramLoop_safely fuel session msg :
  safely responsive (scramLoop (AppendRequest E) (k_SASLAuthenticateRequest _ K) (k_SASLAuthenticateResponse _ K)
    (Challenge E) fuel session msg) (fun _ => responsive) anything.
Proof.
  revert session msg. induction fuel as [|fuel IH]; intros session msg; [by apply safely_fail|]. simpl.
  eapply safely_bind; [apply safely_wrap, upRelay_safely|intros [[b code] txt]].
  case_match; [by apply safely_fail|]. destruct (Challenge E session b) as [e|[[dn next] session']];
    [by apply safely_fail|]. destruct dn; [|apply IH]. case_match; [|by apply safely_ret].
  eapply safely_bind; [apply safely_wrap, upRelay_safely|intros [[b' code'] txt']].
  case_match; first [by apply safely_fail|by apply safely_ret].
Qed.
Lemma upDialSCRAM_safely d mech user pw :
  goodDial d -> safely (fun s => s = None) (upDialSCRAM E d mech user pw) (fun _ => dialled) anything.
Proof.
  intros Hd. unfold upDialSCRAM, DialSCRAM. case_match; [by apply safely_fail|].
  eapply safely_bind; [by apply safely_wrap, negotiate_safely|intros ?].
  eapply safely_bind; [apply closing_safely|intros ?; apply closing_safely; leafU].
  unfold scramAuthenticate. case_match; [by apply safely_fail|].
  destruct (Authenticate E mech user pw) as [e|[session msg]]; [by apply safely_fail|].
  apply safely_get_inv. intros u _. apply scramLoop_safely.
Qed.
End Broker.

(** * The connection of the client *)
Section Client.
Context {X Session St : Type} (E : Env X Session St).
Abbreviation K := (codecs E).

(** What the peers are going to send is harmless, and the broker connection is there
    when the SASL relay needs it, or ([b]) now. *)
Record harmless (b : bool) (c : conn) : Prop := MkHarmless {
  h_client : allFrames headed (rx (client c));
  h_dials : Forall goodDial (dials c);
  h_up : forall u, upstream c = Some u -> responsive u;
  h_relay : state c = stateRelaySaslInFlight -> is_Some (upstream c);
  h_now : b = true -> is_Some (upstream c)
}.
Lemma harmless_true c b : harmless true c -> harmless b c.
Proof. intros []. by split; auto. Qed.
Lemma harmless_false c b : harmless b c -> harmless false c.
Proof. intros []. by split. Qed.

Section Effects.
Context (b : bool).
Abbreviation fine m := (safely (harmless b) m (fun _ => harmless b) anything).

Lemma on_client_fine {A} (m : M NetConn A) :
  (forall G, safely (fun n => allFrames G (rx n)) m (fun _ n => allFrames G (rx n)) anything) -> fine (on_client m).
Proof.
  intros Hm c Hc. unfold on_client, zoom. specialize (Hm headed (client c) (h_client _ _ Hc)).
  destruct (m (client c)) as [[a|e|] n]; [|done..]. destruct Hc. by split.
Qed.
Lemma WriteFrame_fine f : fine (on_client (WriteFrame f)).
Proof. apply on_client_fine. intros. apply WriteFrame_safely. Qed.
Lemma writeResponse_fine h enc : fine (writeResponse h enc).
Proof. apply safely_wrap, WriteFrame_fine. Qed.
Lemma meter_fine f : fine (meter f).
Proof. apply safely_modify. intros c []. by split. Qed.
Lemma logs_fine m : only_logs m -> fine m.
Proof. intros Hm c Hc. destruct (Hm c) as [lg ->]. destruct Hc. by split. Qed.
Lemma lookupTenant_fine id :
  (forall k, (Get (store E) id (history E k)).1 <> Panic) ->
  safely (harmless b) (lookupTenant E id) (fun _ => harmless b) (harmless b).
Proof.
  intros Hg c Hc. unfold lookupTenant. specialize (Hg (gets c)).
  destruct (Get _ _ _).1; [| |done]; destruct Hc; by split.
Qed.
Lemma nextDial_fine a : safely (harmless b) (nextDial a) (fun d c => goodDial d /\ harmless b c) anything.
Proof.
  intros c [? Hd ? ? ?]. unfold nextDial. simpl. split.
  - destruct (dials c); [done|]. by apply Forall_cons_1 in Hd as [? _].
  - split; try done. simpl. destruct (dials c); [done|]. by apply Forall_cons_1 in Hd as [_ ?].
Qed.
Lemma runDial_fine m :
  safely (fun s => s = None) m (fun _ => dialled) anything ->
  safely (harmless b) (attempt (runDial m))
    (fun r c => harmless b c /\ match r with inl _ => True | inr u => responsive u end) anything.
Proof.
  intros Hm c Hc. unfold attempt, runDial. specialize (Hm None eq_refl).
  destruct (m None) as [[a|e|] s]; [|split; [destruct Hc; by split|done]|done].
  by destruct Hm as (u & -> & Hu).
Qed.
Lemma on_up_fine {A} (m : M Conn A) :
  safely responsive m (fun _ => responsive) anything ->
  safely (harmless true) (on_up m) (fun _ => harmless true) anything.
Proof.
  intros Hm c Hc. unfold on_up. destruct (h_now _ _ Hc eq_refl) as [u Hu]. rewrite Hu.
  specialize (Hm u (h_up _ _ Hc u Hu)). destruct (m u) as [[a|e|] u']; [|done..].
  destruct Hc. split; simpl; eauto. by intros ? [= <-].
Qed.
End Effects.

Lemma set_upstream_harmless b u c : harmless b c -> responsive u -> harmless true (set_upstream (Some u) c).
Proof. intros [] Hu. split; simpl; eauto. by intros ? [= <-]. Qed.
Lemma ensureUpstream_fine :
  safely (harmless false) (ensureUpstream E) (fun _ => harmless true) anything.
Proof.
  apply safely_get. intros c Hc. destruct (upstream c) as [u|] eqn:Eu.
  { apply safely_ret. intros ? ->. destruct Hc. split; try done. }
  apply (safely_conseq _ (harmless false) _ _ (fun _ => harmless true) _ anything);
    [|by intros ? ->; exact Hc|done|done]. clear Eu.
  eapply safely_bind; [apply nextDial_fine|intros d].
  apply safely_assume. intros Hd. eapply safely_bind.
  { apply runDial_fine. case_match; [by apply upDialSCRAM_safely|by apply upDial_safely]. }
  intros [e|u].
  - by intros c1 _.
  - apply (safely_bind _ _ _ (fun _ => harmless true)); [|intros ?; apply logs_fine, logs_only].
    apply safely_modify. intros c1 [? ?]. by eapply set_upstream_harmless.
Qed.

(** ** Requests *)
Lemma cycle_fine {Q R} fn key (kq : Codec Q) (kr : Codec R) rin guard dbg out h body :
  (forall q, guard q <> Panic) -> (forall p r, out p r <> Panic) ->
  safely (harmless true) (cycle E fn key kq kr rin guard dbg out h body) (fun _ => harmless true) anything.
Proof.
  intros Hg Ho. unfold cycle. destruct (ReadFrom _ _ _) as [e|req]; [by apply safely_fail|].
  apply safely_get_inv. intros c _.
  apply (safely_bind _ _ _ (fun _ => harmless true)); [by apply safely_lift|intros ?].
  eapply safely_bind; [apply logs_fine, debugReq_only|intros ?].
  eapply safely_bind; [|intros resp].
  { apply safely_wrap. unfold roundTripTyped. eapply safely_bind; [|intros b].
    - apply safely_wrap, on_up_fine, RoundTripRequest_safely.
    - instantiate (1 := fun _ => harmless true). case_match; [by apply safely_fail|by apply safely_ret]. }
  eapply safely_bind; [apply logs_fine, debugResp_only|intros ?].
  apply (safely_bind _ _ _ (fun _ => harmless true)); [by apply safely_lift|intros ?]. apply WriteFrame_fine.
Qed.
Lemma addr_out_safe {R} fn (f : string -> string -> Z -> R -> R) p r : addr_out E fn f p r <> Panic.
Proof.
  unfold addr_out. pose proof (advertised_no_panic E). by destruct (advertised E) as [[]| |].
Qed.
Lemma rejectAcks0_safe (req : ProduceRequest.t X) : rejectAcks0 req <> Panic.
Proof. unfold rejectAcks0. by case_match. Qed.
Lemma rewriteHandler_fine key h hdr body :
  rewriteHandler E key = Some h -> safely (harmless true) (h hdr body) (fun _ => harmless true) anything.
Proof.
  unfold rewriteHandler. intros H.
  repeat match type of H with (if ?b then _ else _) = _ => destruct b end; [..|done];
    injection H as <-; (apply cycle_fine; [|intros; first [apply addr_out_safe|done]]);
    first [apply rejectAcks0_safe|done].
Qed.

(** ** SASL *)
Hypothesis Hget : forall id k, (Get (store E) id (history E k)).1 <> Panic.
Abbreviation fine m := (safely (harmless false) m (fun _ => harmless false) anything).

Ltac leafF := match goal with
  | |- safely _ (meter _) _ _ => apply meter_fine
  | |- safely _ (observeHandshake _ _) _ _ => apply meter_fine
  | |- safely _ (logs _ _ _) _ _ => apply logs_fine, logs_only
  | |- safely _ (writeResponse _ _) _ _ => apply writeResponse_fine
  | |- safely _ (replyAuth _ _ _ _ _) _ _ => apply writeResponse_fine
  | |- safely _ (modify _) _ _ => apply safely_modify; intros ? []; by split
  | |- safely _ (ret _) _ _ => by apply safely_ret
  | |- safely _ (fail _) _ _ => by apply safely_fail
  end.
Ltac walkF := repeat match goal with
  | |- safely _ (bind _ _) _ _ => apply (safely_bind _ _ _ (fun _ => harmless false)); [leafF|intros ?]
  | |- safely _ _ _ _ => first [leafF|progress case_match]
  end.
(** A parser's result, and a lookup's. *)
Lemma attempt_lift_fine {A B} (r : res A) (k : error + A -> M conn B) Q :
  r <> Panic -> (forall x, safely (harmless false) (k x) Q anything) ->
  safely (harmless false) (bind (attempt (lift r)) k) Q anything.
Proof. intros Hr Hk c Hc. destruct r as [a|e|]; [by apply (Hk (inr a))|by apply (Hk (inl e))|done]. Qed.
Lemma attempt_lookup_fine {B} id (k : error + Tenant -> M conn B) Q :
  (forall x, safely (harmless false) (k x) Q anything) ->
  safely (harmless false) (bind (attempt (lookupTenant E id)) k) Q anything.
Proof.
  intros Hk. eapply safely_bind; [apply safely_attempt, lookupTenant_fine, Hget|]. intros [e|t]; apply Hk.
Qed.

Lemma handshake_fine h body : fine (handleSaslHandshake E h body).
Proof.
  unfold handleSaslHandshake. destruct (ReadFrom _ _ _) as [e|req]; [by apply safely_fail|].
  apply safely_get_inv. intros c _. apply (safely_bind _ _ _ (fun _ => harmless false)); [walkF|intros ?]. walkF.
Qed.
Lemma plain_fine h body : fine (handleSaslAuthenticatePlain E h body).
Proof.
  unfold handleSaslAuthenticatePlain. destruct (ReadFrom _ _ _) as [e|req]; [by apply safely_fail|].
  apply safely_get_inv. intros c _. case_decide; [walkF|].
  apply attempt_lift_fine; [apply ParsePlain_no_panic|]. intros [e|creds]; [walkF|].
  apply attempt_lookup_fine. intros [e|t]; walkF.
Qed.
Lemma scramFirst_fine h p : safely (harmless false) (scramFirst E h p) harmless anything.
Proof.
  unfold scramFirst. apply safely_get_inv. intros c _.
  apply attempt_lift_fine; [apply ParseSCRAM_no_panic|]. intros [e|user]; [walkF|].
  apply attempt_lookup_fine. intros [e|t]; [walkF|].
  do 2 (apply (safely_bind _ _ _ (fun _ => harmless false)); [leafF|intros ?]).
  eapply safely_bind; [apply nextDial_fine|intros d]. apply safely_assume. intros Hd.
  eapply safely_bind; [by apply runDial_fine, upDialForSCRAM_safely|].
  intros [e|u].
  { eapply (safely_conseq _ (harmless false)); [|by intros ? [? _]|intros ? ? H; exact H|done]. walkF. }
  apply (safely_bind _ _ _ (fun _ => harmless true)).
  { apply safely_modify. intros c1 [? ?]. by eapply set_upstream_harmless. }
  intros ?. apply (safely_bind _ _ _ (fun _ => harmless true)); [|intros ?; by apply safely_ret].
  apply safely_modify. intros c1 []. split; auto.
Qed.
Lemma scramRelay_fine h p : safely (harmless true) (scramRelay E h p) (fun _ => harmless false) anything.
Proof.
  unfold scramRelay. apply safely_get_inv. intros c _.
  eapply safely_bind; [eapply safely_attempt, on_up_fine, upRelay_safely|].
  intros [e|[[rb code] msg]].
  { by intros c1 _. }
  eapply (safely_conseq _ (harmless false)); [|by intros ? ?%harmless_false|intros ? ? H; exact H|done].
  case_match; [walkF|]. apply (safely_bind _ _ _ (fun _ => harmless false)); [leafF|intros ?].
  apply safely_get_inv. intros c2 _. apply (safely_bind _ _ _ (fun _ => harmless false)); [|intros ?; walkF].
  walkF.
Qed.
Lemma authenticate_fine h body : fine (handleSaslAuthenticate E h body).
Proof.
  unfold handleSaslAuthenticate. apply safely_get_inv. intros c _. case_match; [|apply plain_fine].
  unfold handleSaslAuthenticateSCRAM. destruct (ReadFrom _ _ _) as [e|req]; [by apply safely_fail|].
  apply safely_get. intros c1 Hc1. case_decide as Hs.
  { eapply (safely_conseq _ (harmless false)); [|by intros ? ->|intros ? ? H'; exact H'|done]. walkF. }
  apply (safely_bind _ _ _ harmless).
  - case_decide as Ha.
    + eapply safely_conseq; [apply scramFirst_fine|by intros ? ->|done|done].
    + apply safely_ret. intros ? ->. destruct Hc1 as [? ? ? Hr ?]. split; try done. intros _. apply Hr.
      destruct (decide (state c1 = stateRelaySaslInFlight)); [done|]. by destruct Hs.
  - intros [|]; [apply scramRelay_fine|by apply safely_ret].
Qed.

(** ** The loop *)
Lemma dispatch_fine h f body : fine (dispatch E h f body).
Proof.
  unfold dispatch. destruct (_ =? ApiVersionsKey); [apply writeResponse_fine|].
  destruct (_ =? SaslHandshakeKey); [apply handshake_fine|].
  destruct (_ =? SaslAuthenticateKey); [apply authenticate_fine|].
  apply safely_get_inv. intros c _. case_decide; [walkF|].
  destruct (rewriteHandler E (APIKey h)) as [hd|] eqn:Eh.
  - unfold forwardRewritten. rewrite Eh. eapply safely_bind; [apply safely_wrap, ensureUpstream_fine|intros ?].
    eapply safely_conseq; [by eapply rewriteHandler_fine|done|by intros ? ? ?%harmless_false|done].
  - unfold forwardPassthrough. eapply safely_bind; [apply safely_wrap, ensureUpstream_fine|intros ?].
    eapply safely_bind; [apply safely_wrap, on_up_fine, RoundTrip_safely|intros ?].
    eapply safely_conseq; [apply WriteFrame_fine|done|by intros ? ? ?%harmless_false|done].
Qed.
Lemma serveFrame_fine f : headed f -> fine (serveFrame E f).
Proof.
  intros Hf. unfold serveFrame. eapply safely_bind.
  { apply safely_wrap, on_client_fine. intros. apply SetDeadline_safely. }
  intros ?. unfold headed in Hf. destruct (ParseRequestHeader f) as [h|e|]; [|by intros c1 ?|done].
  apply (safely_bind _ _ _ (fun h' c => h' = h /\ harmless false c)); [by intros c1 ?|intros h'].
  apply safely_assume. intros ->.
  apply (safely_bind _ _ _ (fun _ => harmless false)); [by apply safely_lift; [rewrite slice_from_Ok|..]|intros body].
  apply (safely_bind _ _ _ (fun r c => match r with inl _ => True | inr _ => harmless false c end)).
  { eapply safely_attempt, dispatch_fine. }
  intros [e|[]]; [by intros c1 _|]. apply safely_get_inv. intros c1 _. walkF.
Qed.
Lemma serveStep_fine : fine (serveStep E).
Proof.
  unfold serveStep. apply (safely_bind _ _ _ (fun _ => harmless false)); [by intros c []|].
  intros [e|]; [by apply safely_fail|]. apply safely_get_inv. intros c _. eapply safely_bind.
  { apply safely_wrap, on_client_fine. intros. apply SetDeadline_safely. }
  intros ?. apply (safely_bind _ _ _ (fun r c => match r with
    | inl _ => True | inr f => headed f /\ harmless false c end)).
  { intros c1 Hc1. unfold attempt, on_client, zoom.
    pose proof (ReadFrame_safely headed (client c1) (h_client _ _ Hc1)) as Hr.
    destruct (ReadFrame (client c1)) as [[f|e|] n]; [|done|done]. destruct Hr as [Hf Hn].
    split; [done|]. destruct Hc1. by split. }
  intros [e|f]; [by intros c1 _; destruct (Is e EOF)|]. apply safely_assume. apply serveFrame_fine.
Qed.
Lemma serveLoop_fine fuel : fine (serveLoop E fuel).
Proof.
  induction fuel as [|fuel IH]; [by apply safely_fail|]. by eapply safely_bind; [apply serveStep_fine|].
Qed.
End Client.

(** * The theorem *)
Section Theorem_.
Context {X Session St : Type} (E : Env X Session St).
Context (table : St -> gmap string Tenant) (StInv : St -> Prop).
Context `{!ResolverLaws (store E) table StInv}.
Context (Hhist : forall k, StInv (history E k)).

(** C6: kroxy crashes on two inputs only.  Unless the client sends a request with a
    flexible header that the parser cannot keep inside the frame, or a broker
    kroxy dials sends a response frame of exactly four bytes, the handler of the
    connection returns: whatever else the peers send, in whatever state and order,
    no slice is out of range and no nil connection is used. *)
Theorem crash_causes nc0 m lg ds cx :
  allFrames (fun f => RequestHeaderVersion (frameKey f) (frameVersion f) = 2 -> headed f) (rx nc0) ->
  Forall goodDial ds ->
  (handle E (newConn nc0 m lg ds cx)).1 <> Panic.
Proof.
  intros Hc Hd. unfold handle. set (c0 := set_metrics _ _).
  assert (harmless false c0) as H0.
  { split; try done. intros fs f r Hfs Hf Hr.
    destruct (RequestHeaderVersion_cases (frameKey f) (frameVersion f)) as [|]; [by apply headed_v1|].
    by apply (Hc fs f r). }
  assert (forall id k, (Get (store E) id (history E k)).1 <> Panic) as Hg.
  { intros id k. rewrite (Get_law _ _ (Hhist k)). by case_match. }
  unfold serve. pose proof (serveLoop_fine E Hg (S (length (rx (client c0)))) c0 H0) as H.
  by destruct (serveLoop E _ c0) as [[a|e|] c1].
Qed.
End Theorem_.

(** The demonstration client, which sends an ApiVersions request with a flexible
    header first, and its broker. *)
Module DemoCrash.
Import DemoProxy.
Definition sent : list (list byte) :=
  [be_encode 2 ApiVersionsKey ++ be_encode 2 3 ++ be_encode 4 10 ++ be_encode 2 (2^16 - 1) ++ [Byte.x00];
   request SaslHandshakeKey 1 11 (bytes_of_string MechanismPlain);
   request SaslAuthenticateKey 1 12 (plainPayload "bob" "pw"); request MetadataKey 1 13 (bytes_of_string "orders")].
Definition answered : list (list byte) :=
  [be_encode 4 1 ++ be_encode 2 0; be_encode 4 2 ++ be_encode 2 0; be_encode 4 3 ++ be_encode 2 0;
   be_encode 4 4 ++ [Byte.x00]].
End DemoCrash.
Lemma crash_causes_witness :
  (handle DemoProxy.env (newConn (DemoBroker.broker DemoCrash.sent) (Some NewMetrics) DemoProxy.logger
     [inr (DemoBroker.broker DemoCrash.answered)] [])).1 <> Panic.
Proof.
  apply (crash_causes DemoProxy.env tenants (fun s => well_formed (tenants s)) DemoProxy.store_well_formed).
  - apply allFrames_frames. repeat (apply list.Forall_cons; split); [..|by apply list.Forall_nil].
    all: split; [split; vm_compute; [reflexivity|discriminate]|intros _; vm_compute; split; discriminate].
  - apply list.Forall_cons; split; [|by apply list.Forall_nil].
    apply allFrames_frames. repeat (apply list.Forall_cons; split); [..|by apply list.Forall_nil].
    all: split; [split; vm_compute; [reflexivity|discriminate]|vm_compute; discriminate].
Defined.
