(* ===== verification/Process.v ===== *)
(** The life of the process (cmd/kroxy/main.go), with the two HTTP servers it runs
    beside the proxy (admin/server.go, observability/metrics.go) and the drain of
    [Server.Wait] (proxy/listener.go).

    Each server function is a labelled transition system of its own: where its
    [select] is, whether the goroutine that serves is still running, and the
    channel of capacity one between the two.  [Proc] composes them with the accept
    loop (Listener.v) and the final select of [run]; an event is a step of any of
    the goroutines.  Of net/http the documented behaviour is kept: [Serve] returns
    a non-nil error, which is [ErrServerClosed] only after [Shutdown]. *)
From Stdlib Require Import ZArith Lia.
From stdpp Require Import base list gmap sets strings tactics.
From S2P Require Import Prelude Resolver ResolverFacts Upstream Observability Listener Config.

(** A channel of capacity one for results ([None]: nil); [send] fails where the
    sender would block. *)
Definition chan : Type := option (option error).
Definition send (r : option error) (ch : chan) : option chan :=
  match ch with None => Some (Some r) | Some _ => None end.

(** What the goroutine that serves makes of the error of [http.Server.Serve]. *)
Definition served (ctx : option string) (err : error) : option error :=
  if Is err ErrServerClosed then None
  else Some (match ctx with Some msg => Wrap err msg | None => err end).

(** * admin.Serve *)
Module AdminServe.
Inductive phase : Set :=
| Listen                      (* before net.Listen returns *)
| Select
| Shutdown                    (* in httpServer.Shutdown *)
| Join                        (* <-errCh *)
| Done (r : option error).
Record t : Type := Mk { at_ : phase; serving : bool; shut : bool; errCh : chan }.
Definition init : t := Mk Listen false false None.

Inductive event : Type :=
| EListen (r : option error)
| EServe (err : error)        (* httpServer.Serve returns err; the send *)
| ECtxDone
| EShutdown (r : option error)
| ERecv.
Definition act (cancelled : bool) (e : event) (s : t) : option t :=
  match e, at_ s with
  | EListen (Some err), Listen => Some (Mk (Done (Some (Wrap err "Serve"))) false false None)
  | EListen None, Listen => Some (Mk Select true false None)
  | EServe err, _ =>
      if serving s && (negb (Is err ErrServerClosed) || shut s) then
        ch ← send (served (Some "Serve"%string) err) (errCh s);
        Some (Mk (at_ s) false (shut s) ch)
      else None
  | ECtxDone, Select => if cancelled then Some (Mk Shutdown (serving s) true (errCh s)) else None
  | EShutdown (Some err), Shutdown =>
      Some (Mk (Done (Some (Wrap err "Serve"))) (serving s) (shut s) (errCh s))
  | EShutdown None, Shutdown => Some (Mk Join (serving s) (shut s) (errCh s))
  | ERecv, Select => r ← errCh s; Some (Mk (Done r) (serving s) (shut s) None)
  | ERecv, Join => _ ← errCh s; Some (Mk (Done None) (serving s) (shut s) None)
  | _, _ => None
  end.

(** The channel is empty while the goroutine serves; a shutdown was cancelled for;
    a nil result is that of a finished shutdown. *)
Record Inv (cancelled : bool) (s : t) : Prop := MkInv {
  inv_chan : serving s = true -> errCh s = None;
  inv_shut : shut s = true -> cancelled = true;
  inv_phase : match at_ s with
              | Listen => serving s = false /\ errCh s = None /\ shut s = false
              | Select => (serving s = false -> is_Some (errCh s)) /\ (errCh s = Some None -> shut s = true) /\
                          shut s = false
              | Shutdown | Join => shut s = true /\ (serving s = false -> is_Some (errCh s))
              | Done None => shut s = true /\ serving s = false
              | Done (Some _) => True
              end;
  inv_wrapped : forall err, at_ s = Done (Some err) \/ errCh s = Some (Some err) ->
    exists err0, err = Wrap err0 "Serve"
}.
Lemma init_Inv c : Inv c init.
Proof. split; try done. by intros err [?|?]. Qed.
Lemma Inv_cancel c s : Inv c s -> Inv true s.
Proof. intros [H1 H2 H3 H4]. by split. Qed.
Lemma act_Inv c e s s' : Inv c s -> act c e s = Some s' -> Inv c s'.
Proof.
  intros [H1 H2 H3 H4] H. destruct s as [p sv sh ch]. unfold act, send, served in H.
  destruct e as [[err|]|err| |[err|]|], p as [| | | |[r|]], sv, sh, ch as [[err'|]|]; simplify_eq/=;
    try done; repeat case_match; simplify_eq/=; try done; split; simpl in *; naive_solver.
Qed.
Lemma act_Done c e s s' r : act c e s = Some s' -> at_ s = Done r -> at_ s' = Done r.
Proof. intros H Hd. unfold act in H. rewrite Hd in H. repeat case_match; simplify_eq/=; try done. all: destruct (send _ _); by simplify_eq/=. Qed.
End AdminServe.

(** * observability.ServeMetrics *)
Module MetricsServe.
Inductive phase : Set :=
| Select
| Shutdown
| Done (r : option error).
Record t : Type := Mk { at_ : phase; serving : bool; shut : bool; errCh : chan }.
Definition init : t := Mk Select true false None.

Inductive event : Type :=
| EServe (err : error)        (* srv.ListenAndServe returns err; the send *)
| ECtxDone
| EShutdown (r : option error) (* its error is ignored *)
| ERecv.
Definition act (cancelled : bool) (e : event) (s : t) : option t :=
  match e, at_ s with
  | EServe err, _ =>
      if serving s && (negb (Is err ErrServerClosed) || shut s) then
        ch ← send (served None err) (errCh s); Some (Mk (at_ s) false (shut s) ch)
      else None
  | ECtxDone, Select => if cancelled then Some (Mk Shutdown (serving s) true (errCh s)) else None
  | EShutdown _, Shutdown => Some (Mk (Done None) (serving s) (shut s) (errCh s))
  | ERecv, Select => r ← errCh s; Some (Mk (Done r) (serving s) (shut s) None)
  | _, _ => None
  end.

Record Inv (cancelled : bool) (s : t) : Prop := MkInv {
  inv_chan : serving s = true -> errCh s = None;
  inv_shut : shut s = true -> cancelled = true;
  inv_phase : match at_ s with
              | Select => (errCh s = Some None -> shut s = true) /\ shut s = false
              | Shutdown | Done None => shut s = true
              | Done (Some _) => True
              end
}.
Lemma minit_Inv c : Inv c init.
Proof. by split. Qed.
Lemma mInv_cancel c s : Inv c s -> Inv true s.
Proof. intros [H1 H2 H3]. by split. Qed.
Lemma mact_Inv c e s s' : Inv c s -> act c e s = Some s' -> Inv c s'.
Proof.
  intros [H1 H2 H3] H. destruct s as [p sv sh ch]. unfold act, send, served in H.
  destruct e as [err| |r0|], p as [| |[r|]], sv, sh, ch as [[err'|]|]; simplify_eq/=;
    try done; repeat case_match; simplify_eq/=; try done; split; simpl in *; naive_solver.
Qed.
Lemma mact_Done c e s s' r : act c e s = Some s' -> at_ s = Done r -> at_ s' = Done r.
Proof. intros H Hd. unfold act in H. rewrite Hd in H. repeat case_match; simplify_eq/=; try done. all: destruct (send _ _); by simplify_eq/=. Qed.
End MetricsServe.

(** * run *)

(** What [Server.Wait] waits for: the drain or its timeout of 30 s. *)
Definition drainTimeout : Z := 30 * Second.

Inductive mainPhase : Set :=
| MainSelect
| MainWait                    (* in srv.Wait() *)
| MainDone (r : option error).

Record Proc : Type := MkProc {
  main : mainPhase;
  srv : Server;                                   (* with the context *)
  errCh : chan;
  runSent : bool;
  metrics : option MetricsServe.t;
  metricsErrCh : chan;
  metricsSent : bool;
  admin : option AdminServe.t;
  adminErrCh : chan;
  adminSent : bool;
  drained : option nat;       (* [done] is closed; connections accepted by then *)
  timedOut : bool
}.
Definition set_main (v : mainPhase) (s : Proc) : Proc :=
  MkProc v (srv s) (errCh s) (runSent s) (metrics s) (metricsErrCh s) (metricsSent s) (admin s)
    (adminErrCh s) (adminSent s) (drained s) (timedOut s).
Definition set_srv (v : Server) (s : Proc) : Proc :=
  MkProc (main s) v (errCh s) (runSent s) (metrics s) (metricsErrCh s) (metricsSent s) (admin s)
    (adminErrCh s) (adminSent s) (drained s) (timedOut s).
Definition set_errCh (v : chan) (b : bool) (s : Proc) : Proc :=
  MkProc (main s) (srv s) v b (metrics s) (metricsErrCh s) (metricsSent s) (admin s)
    (adminErrCh s) (adminSent s) (drained s) (timedOut s).
Definition set_metrics (v : option MetricsServe.t) (s : Proc) : Proc :=
  MkProc (main s) (srv s) (errCh s) (runSent s) v (metricsErrCh s) (metricsSent s) (admin s)
    (adminErrCh s) (adminSent s) (drained s) (timedOut s).
Definition set_metricsErrCh (v : chan) (b : bool) (s : Proc) : Proc :=
  MkProc (main s) (srv s) (errCh s) (runSent s) (metrics s) v b (admin s)
    (adminErrCh s) (adminSent s) (drained s) (timedOut s).
Definition set_admin (v : option AdminServe.t) (s : Proc) : Proc :=
  MkProc (main s) (srv s) (errCh s) (runSent s) (metrics s) (metricsErrCh s) (metricsSent s) v
    (adminErrCh s) (adminSent s) (drained s) (timedOut s).
Definition set_adminErrCh (v : chan) (b : bool) (s : Proc) : Proc :=
  MkProc (main s) (srv s) (errCh s) (runSent s) (metrics s) (metricsErrCh s) (metricsSent s) (admin s)
    v b (drained s) (timedOut s).
Definition set_drained (v : option nat) (s : Proc) : Proc :=
  MkProc (main s) (srv s) (errCh s) (runSent s) (metrics s) (metricsErrCh s) (metricsSent s) (admin s)
    (adminErrCh s) (adminSent s) v (timedOut s).
Definition set_timedOut (s : Proc) : Proc :=
  MkProc (main s) (srv s) (errCh s) (runSent s) (metrics s) (metricsErrCh s) (metricsSent s) (admin s)
    (adminErrCh s) (adminSent s) (drained s) true.

(** [run] from the start of the goroutines. *)
Definition launch {Certificate} (p : Process (Certificate:=Certificate)) : Proc :=
  MkProc MainSelect NewServer None false
    (if metricsServer p then Some MetricsServe.init else None) None false
    (if adminServer p then Some AdminServe.init else None) None false None false.

Definition ctxDone (s : Proc) : bool := cancelled (srv s).

(** What [Run] returned. *)
Definition runResult (s : Server) : option (option error) :=
  match Listener.at_ s with
  | Failed err => Some (Some err)
  | Returned => Some None
  | _ => None
  end.
Definition adminResult (a : AdminServe.t) : option (option error) :=
  match AdminServe.at_ a with AdminServe.Done r => Some r | _ => None end.
Definition metricsResult (m : MetricsServe.t) : option (option error) :=
  match MetricsServe.at_ m with MetricsServe.Done r => Some r | _ => None end.

(** [Server.Wait]: the goroutine that waits for the handlers and closes [done], and
    the two cases of the select. *)
Inductive wevent : Set :=
| WDrained
| WDone
| WTimeout.
Definition Wait (e : wevent) (s : Proc) : option Proc :=
  match e with
  | WDrained =>
      if decide (drained s = None /\ spawned (srv s) = ∅ /\ running (srv s) = ∅)
      then Some (set_drained (Some (accepted (srv s))) s) else None
  | WDone => _ ← drained s; Some (set_main (MainDone None) s)
  | WTimeout => Some (set_main (MainDone None) (set_timedOut s))
  end.

Inductive pevent : Type :=
| PServer (e : Listener.event)          (* a step of Run, of a handler, a signal *)
| PRunSend                              (* errCh <- srv.Run(ctx) *)
| PMetrics (e : MetricsServe.event)
| PMetricsSend
| PAdmin (e : AdminServe.event)
| PAdminSend
| PCtxDone                              (* the cases of the select *)
| PRecvRun
| PRecvMetrics
| PRecvAdmin
| PWait (e : wevent).

(** A received result: an error is returned, nil goes on to [srv.Wait()]. *)
Definition received (r : option error) (s : Proc) : Proc :=
  set_main (match r with Some err => MainDone (Some err) | None => MainWait end) s.

Definition pact_live (e : pevent) (s : Proc) : option Proc :=
  match e with
  | PServer e => v ← act e (srv s); Some (set_srv v s)
  | PRunSend =>
      if runSent s then None
      else r ← runResult (srv s); ch ← send r (errCh s); Some (set_errCh ch true s)
  | PMetrics e => m ← metrics s; v ← MetricsServe.act (ctxDone s) e m; Some (set_metrics (Some v) s)
  | PMetricsSend =>
      if metricsSent s then None
      else m ← metrics s; r ← metricsResult m; ch ← send r (metricsErrCh s);
           Some (set_metricsErrCh ch true s)
  | PAdmin e => a ← admin s; v ← AdminServe.act (ctxDone s) e a; Some (set_admin (Some v) s)
  | PAdminSend =>
      if adminSent s then None
      else a ← admin s; r ← adminResult a; ch ← send r (adminErrCh s);
           Some (set_adminErrCh ch true s)
  | PCtxDone =>
      match main s with
      | MainSelect => if ctxDone s then Some (set_main MainWait s) else None
      | _ => None
      end
  | PRecvRun =>
      match main s with
      | MainSelect => r ← errCh s; Some (received r (set_errCh None (runSent s) s))
      | _ => None
      end
  | PRecvMetrics =>
      match main s with
      | MainSelect => r ← metricsErrCh s; Some (received r (set_metricsErrCh None (metricsSent s) s))
      | _ => None
      end
  | PRecvAdmin =>
      match main s with
      | MainSelect => r ← adminErrCh s; Some (received r (set_adminErrCh None (adminSent s) s))
      | _ => None
      end
  | PWait e =>
      match main s with
      | MainWait => Wait e s
      | _ => None
      end
  end.
(** When [run] has returned the process exits, with its goroutines. *)
Definition pact (e : pevent) (s : Proc) : option Proc :=
  match main s with MainDone _ => None | _ => pact_live e s end.
Fixpoint pacts (es : list pevent) (s : Proc) : option Proc :=
  match es with
  | [] => Some s
  | e :: es => s1 ← pact e s; pacts es s1
  end.

(** The exit status of [main]. *)
Definition exitStatus (r : option error) : Z := match r with Some _ => 1 | None => 0 end.

(** * The invariant of the process *)

(** What the accept loop does to the connections. *)
Lemma act_conns e s s' :
  act e s = Some s' -> (accepted s <= accepted s')%nat /\
  forall n, n ∈ spawned s' ∪ running s' -> n ∈ spawned s ∪ running s \/ n = accepted s.
Proof.
  intros H. unfold act in H. destruct e; repeat case_match; simplify_eq/=; try (split; [lia|set_solver]).
Qed.
Lemma act_result e s s' r : act e s = Some s' -> runResult s = Some r -> runResult s' = Some r.
Proof.
  intros H Hr. unfold act in H.
  assert (runResult s' = runResult s) as ->; [|done]. unfold runResult in *.
  destruct (Listener.at_ s) eqn:Ea; simplify_eq; destruct e; repeat case_match; simplify_eq/=; naive_solver.
Qed.
Lemma act_cancelled e s s' : act e s = Some s' -> cancelled s = true -> cancelled s' = true.
Proof. intros H Hc. unfold act in H. destruct e; repeat case_match; simplify_eq/=; done. Qed.
Lemma act_Failed e s s' err :
  act e s = Some s' -> Listener.at_ s' = Failed err ->
  Listener.at_ s = Failed err \/ exists err0, err = Wrap err0 "Run".
Proof. intros H Hf. unfold act in H. destruct e; repeat case_match; simplify_eq/=; eauto. Qed.

(** One of the three servers has returned [r]. *)
Definition returned (s : Proc) (r : option error) : Prop :=
  runResult (srv s) = Some r \/
  (exists m, metrics s = Some m /\ metricsResult m = Some r) \/
  exists a, admin s = Some a /\ adminResult a = Some r.

Record PInv (s : Proc) : Prop := MkPInv {
  p_srv : SInv (srv s);
  p_failed : forall err, Listener.at_ (srv s) = Failed err -> exists err0, err = Wrap err0 "Run";
  p_metrics : forall m, metrics s = Some m -> MetricsServe.Inv (ctxDone s) m;
  p_admin : forall a, admin s = Some a -> AdminServe.Inv (ctxDone s) a;
  p_errCh : forall r, errCh s = Some r -> runSent s = true /\ runResult (srv s) = Some r;
  p_metricsErrCh : forall r, metricsErrCh s = Some r -> metricsSent s = true /\
    exists m, metrics s = Some m /\ metricsResult m = Some r;
  p_adminErrCh : forall r, adminErrCh s = Some r -> adminSent s = true /\
    exists a, admin s = Some a /\ adminResult a = Some r;
  p_wait : main s = MainWait \/ main s = MainDone None -> ctxDone s = true;
  p_exit : main s = MainDone None -> timedOut s = true \/ is_Some (drained s);
  p_error : forall err, main s = MainDone (Some err) -> returned s (Some err);
  p_drained : forall k, drained s = Some k -> (k <= accepted (srv s))%nat /\
    forall n, (n < k)%nat -> n ∉ spawned (srv s) ∪ running (srv s)
}.

Lemma launch_PInv {C} (p : Process (Certificate:=C)) : PInv (launch p).
Proof.
  split; simpl; try done.
  - apply NewServer_SInv.
  - intros m. destruct (metricsServer p); [|done]. intros [= <-]. apply MetricsServe.minit_Inv.
  - intros a. destruct (adminServer p); [|done]. intros [= <-]. apply AdminServe.init_Inv.
  - by intros [?|?].
Qed.

(** A server returns nil only when the context was cancelled. *)
Lemma returned_nil s : PInv s -> returned s None -> ctxDone s = true.
Proof.
  intros HI [H|[(m & Hm & H)|(a & Ha & H)]].
  - apply (inv_stopped _ (p_srv s HI)). unfold runResult in H. destruct (Listener.at_ (srv s)); naive_solver.
  - pose proof (p_metrics s HI m Hm) as [_ Hs Hp]. unfold metricsResult in H.
    destruct (MetricsServe.at_ m); simplify_eq. auto.
  - pose proof (p_admin s HI a Ha) as [_ Hs Hp _]. unfold adminResult in H.
    destruct (AdminServe.at_ a); simplify_eq. destruct Hp. auto.
Qed.
(** Receiving a result a server returned. *)
Lemma received_PInv s r :
  PInv s -> main s = MainSelect -> returned s r -> PInv (received r s).
Proof.
  intros HI Hm Hr. pose proof (returned_nil s HI) as Hnil. destruct HI. unfold received.
  destruct r as [err|]; split; simpl; try done.
  - by intros [?|?].
  - by intros err' [= <-].
  - intros _. by apply Hnil.
Qed.
Lemma recvRun_PInv s r :
  PInv s -> main s = MainSelect -> errCh s = Some r -> PInv (received r (set_errCh None (runSent s) s)).
Proof.
  intros HI Hm He. apply received_PInv; [by destruct HI; split|done|]. left. by apply (p_errCh s HI).
Qed.
Lemma recvMetrics_PInv s r :
  PInv s -> main s = MainSelect -> metricsErrCh s = Some r ->
  PInv (received r (set_metricsErrCh None (metricsSent s) s)).
Proof.
  intros HI Hm He. apply received_PInv; [by destruct HI; split|done|]. right. left. by apply (p_metricsErrCh s HI).
Qed.
Lemma recvAdmin_PInv s r :
  PInv s -> main s = MainSelect -> adminErrCh s = Some r ->
  PInv (received r (set_adminErrCh None (adminSent s) s)).
Proof.
  intros HI Hm He. apply received_PInv; [by destruct HI; split|done|]. right. right. by apply (p_adminErrCh s HI).
Qed.

Lemma server_PInv e s v :
  PInv s -> main s = MainSelect \/ main s = MainWait -> act e (srv s) = Some v -> PInv (set_srv v s).
Proof.
  intros HI Hm H. pose proof (act_conns e _ _ H) as [Hacc Hconn].
  assert (ctxDone s = true -> cancelled v = true) as Hc by (by eapply act_cancelled).
  destruct HI as [P1 P2 P3 P4 P5 P6 P7 P8 P9 P10 P11]. split; simpl; try done.
  - by eapply act_SInv.
  - intros err Hf. destruct (act_Failed _ _ _ _ H Hf); eauto.
  - intros m Hme. specialize (P3 m Hme). unfold ctxDone in *. simpl.
    destruct (cancelled v) eqn:Ev; [by eapply MetricsServe.mInv_cancel|].
    destruct (cancelled (srv s)); [by discriminate Hc|done].
  - intros a Had. specialize (P4 a Had). unfold ctxDone in *. simpl.
    destruct (cancelled v) eqn:Ev; [by eapply AdminServe.Inv_cancel|].
    destruct (cancelled (srv s)); [by discriminate Hc|done].
  - intros r Hr. destruct (P5 r Hr). split; [done|]. by eapply act_result.
  - intros Hw. apply Hc, P8, Hw.
  - destruct Hm as [-> | ->]; discriminate.
  - intros k Hk. destruct (P11 k Hk) as [Hle Hn]. split; [lia|]. intros n Hlt Hin.
    destruct (Hconn n Hin) as [Hin'| ->]; [by apply (Hn n Hlt)|lia].
Qed.

Lemma metrics_PInv e s m v :
  PInv s -> main s = MainSelect \/ main s = MainWait -> metrics s = Some m ->
  MetricsServe.act (ctxDone s) e m = Some v -> PInv (set_metrics (Some v) s).
Proof.
  intros [P1 P2 P3 P4 P5 P6 P7 P8 P9 P10 P11] Hm Eme Ea. split; simpl; try done.
  - intros m' [= <-]. by eapply MetricsServe.mact_Inv; [apply P3|].
  - intros r Hr. destruct (P6 r Hr) as (Hs & m' & Em' & Hres). split; [done|]. exists v. split; [done|].
    simplify_eq. unfold metricsResult in *. destruct (MetricsServe.at_ m) eqn:Ed; simplify_eq.
    by rewrite (MetricsServe.mact_Done _ _ _ _ _ Ea Ed).
  - destruct Hm as [-> | ->]; discriminate.
Qed.
Lemma admin_PInv e s a v :
  PInv s -> main s = MainSelect \/ main s = MainWait -> admin s = Some a ->
  AdminServe.act (ctxDone s) e a = Some v -> PInv (set_admin (Some v) s).
Proof.
  intros [P1 P2 P3 P4 P5 P6 P7 P8 P9 P10 P11] Hm Ead Ea. split; simpl; try done.
  - intros a' [= <-]. by eapply AdminServe.act_Inv; [apply P4|].
  - intros r Hr. destruct (P7 r Hr) as (Hs & a' & Ea' & Hres). split; [done|]. exists v. split; [done|].
    simplify_eq. unfold adminResult in *. destruct (AdminServe.at_ a) eqn:Ed; simplify_eq.
    by rewrite (AdminServe.act_Done _ _ _ _ _ Ea Ed).
  - destruct Hm as [-> | ->]; discriminate.
Qed.
Lemma wait_PInv e s s' : PInv s -> main s = MainWait -> Wait e s = Some s' -> PInv s'.
Proof.
  intros HI Em H. destruct e; simpl in H.
  - case_decide as Hd; [|done]. injection H as <-.
    destruct Hd as (_ & Es & Er). destruct HI; split; simpl; try done; [by rewrite Em|].
    intros k [= <-]. split; [lia|]. rewrite Es, Er. set_solver.
  - destruct (drained s) as [k|] eqn:Ed; [|done]. injection H as <-.
    destruct HI; split; simpl; try done; [by eauto|]. intros _. right. by rewrite Ed.
  - injection H as <-. destruct HI; split; simpl; try done; by eauto.
Qed.

Lemma pact_PInv e s s' : PInv s -> pact e s = Some s' -> PInv s'.
Proof.
  intros HI H. unfold pact in H.
  assert (main s = MainSelect \/ main s = MainWait) as Hm by (destruct (main s); [by left|by right|done]).
  assert (pact_live e s = Some s') as H' by (by destruct (main s)). clear H.
  destruct e; simpl in H'.
  - destruct (act e (srv s)) as [v|] eqn:Ea; [|done]. injection H' as <-. by eapply server_PInv.
  - destruct (runSent s); [done|]. destruct (runResult (srv s)) as [r|] eqn:Er; [|done]. simpl in H'.
    destruct (errCh s) eqn:Ec; [done|]. injection H' as <-. destruct HI; split; simpl; try done.
    intros r' [= <-]. done.
  - destruct (metrics s) as [m|] eqn:Eme; [|done]. simpl in H'.
    destruct (MetricsServe.act _ e m) as [v|] eqn:Ea; [|done]. injection H' as <-. by eapply metrics_PInv.
  - destruct (metricsSent s); [done|]. destruct (metrics s) as [m|] eqn:Eme; [|done]. simpl in H'.
    destruct (metricsResult m) as [r|] eqn:Er; [|done]. simpl in H'.
    destruct (metricsErrCh s) eqn:Ec; [done|]. injection H' as <-. destruct HI; split; simpl; try done.
    intros r' [= <-]. eauto.
  - destruct (admin s) as [a|] eqn:Ead; [|done]. simpl in H'.
    destruct (AdminServe.act _ e a) as [v|] eqn:Ea; [|done]. injection H' as <-. by eapply admin_PInv.
  - destruct (adminSent s); [done|]. destruct (admin s) as [a|] eqn:Ead; [|done]. simpl in H'.
    destruct (adminResult a) as [r|] eqn:Er; [|done]. simpl in H'.
    destruct (adminErrCh s) eqn:Ec; [done|]. injection H' as <-. destruct HI; split; simpl; try done.
    intros r' [= <-]. eauto.
  - destruct (main s) eqn:Em; [|done..]. destruct (ctxDone s) eqn:Ec; [|done]. injection H' as <-.
    destruct HI; split; simpl; done.
  - destruct (main s) eqn:Em; [|done..]. destruct (errCh s) as [r|] eqn:Ec; [|done]. injection H' as <-.
    by apply recvRun_PInv.
  - destruct (main s) eqn:Em; [|done..]. destruct (metricsErrCh s) as [r|] eqn:Ec; [|done]. injection H' as <-.
    by apply recvMetrics_PInv.
  - destruct (main s) eqn:Em; [|done..]. destruct (adminErrCh s) as [r|] eqn:Ec; [|done]. injection H' as <-.
    by apply recvAdmin_PInv.
  - destruct (main s) eqn:Em; [done| |done]. by eapply wait_PInv.
Qed.
Lemma pacts_PInv es s s' : PInv s -> pacts es s = Some s' -> PInv s'.
Proof.
  revert s. induction es as [|e es IH]; intros s HI H; simpl in H; [by simplify_eq|].
  destruct (pact e s) as [s1|] eqn:E; [|done]. simpl in H. eauto using pact_PInv.
Qed.
Lemma pacts_app es1 es2 s : pacts (es1 ++ es2) s = (s1 ← pacts es1 s; pacts es2 s1).
Proof. revert s. induction es1 as [|e es IH]; intros s; simpl; [done|]. by destruct (pact e s); simpl; [apply IH|]. Qed.

(** The optional servers are those that were started. *)
Definition same_servers (s s' : Proc) : Prop :=
  (is_Some (metrics s') -> is_Some (metrics s)) /\ (is_Some (admin s') -> is_Some (admin s)).
Lemma pact_servers e s s' : pact e s = Some s' -> same_servers s s'.
Proof.
  intros H. unfold pact in H. destruct (main s) eqn:Em; [..|done]; unfold pact_live, Wait, received in H; rewrite ?Em in H;
    destruct e; repeat (case_match; simplify_eq/=); simplify_option_eq; done.
Qed.
Lemma pacts_servers es s s' : pacts es s = Some s' -> same_servers s s'.
Proof.
  revert s. induction es as [|e es IH]; intros s H; simpl in H; [by simplify_eq|].
  destruct (pact e s) as [s1|] eqn:E; [|done]. apply pact_servers in E as [H1 H2].
  destruct (IH s1 H) as [H3 H4]. split; auto.
Qed.

(** ** Shutdown *)
Lemma pact_alive e s : (forall r, main s <> MainDone r) -> pact e s = pact_live e s.
Proof. intros H. unfold pact. destruct (main s); [done..|]. by destruct (H r). Qed.
(** The accept loop and the handlers run on beside [run]. *)
Lemma pacts_server es s v :
  (forall r, main s <> MainDone r) -> acts es (srv s) = Some v ->
  pacts (PServer <$> es) s = Some (set_srv v s).
Proof.
  revert s. induction es as [|e es IH]; intros s Hm H; simpl in *.
  - injection H as <-. by destruct s.
  - rewrite pact_alive by done. simpl. destruct (act e (srv s)) as [v1|] eqn:Ea; [|done]. simpl.
    by apply (IH (set_srv v1 s)).
Qed.

(** The drain, from [srv.Wait()] on. *)
Lemma drain_now s :
  main s = MainWait -> drained s = None -> spawned (srv s) = ∅ -> running (srv s) = ∅ ->
  pacts [PWait WDrained; PWait WDone] s =
    Some (set_main (MainDone None) (set_drained (Some (accepted (srv s))) s)).
Proof.
  intros Hm Hd Hs Hr. cbn [pacts]. rewrite pact_alive by congruence. unfold pact_live, Wait. rewrite Hm.
  rewrite decide_True by done. cbn [mbind option_bind]. unfold pact, pact_live. cbn [main set_drained].
  by rewrite Hm.
Qed.
Lemma can_drain s :
  main s = MainWait -> exists es s', pacts es s = Some s' /\ main s' = MainDone None /\ timedOut s' = timedOut s.
Proof.
  intros Hm. destruct (drained s) as [k|] eqn:Ed.
  - exists [PWait WDone], (set_main (MainDone None) s). simpl. unfold pact. rewrite Hm. simpl. by rewrite Hm, Ed.
  - destruct (start_all _ (srv s) eq_refl) as (e1 & s1 & H1 & _ & _ & S1).
    destruct (finish_all _ s1 eq_refl) as (e2 & s2 & H2 & _ & S2 & R2).
    exists ((PServer <$> (e1 ++ e2)) ++ [PWait WDrained; PWait WDone]). eexists.
    rewrite pacts_app, (pacts_server (e1 ++ e2) s s2); [|congruence|by rewrite acts_app, H1].
    cbn [mbind option_bind]. rewrite drain_now; [done|done|done|simpl; congruence|done].
Qed.
Lemma can_exit s :
  (forall r, main s <> MainDone r) -> ctxDone s = true ->
  exists es s', pacts es s = Some s' /\ main s' = MainDone None /\ timedOut s' = timedOut s.
Proof.
  intros Hm Hc. destruct (main s) as [| |r] eqn:Em; [|by apply can_drain|by destruct (Hm r)].
  destruct (can_drain (set_main MainWait s) eq_refl) as (es & s' & H & ? & ?).
  exists (PCtxDone :: es), s'. split; [|done]. simpl. unfold pact. rewrite Em. simpl. by rewrite Em, Hc.
Qed.

(** * Theorems *)
Section Theorems.
Context {Certificate : Type} (p : Process (Certificate:=Certificate)).

(** C23: the exit of the process, whatever its servers, clients and the system do.
    [run] returns nil only after a shutdown signal, and then every connection
    accepted before the drain ended was handled to its end, or the drain timed
    out.  It returns an error only when the proxy could not listen, having accepted
    nothing, or when an enabled metrics or admin server failed with that error. *)
Theorem process_exit es s r :
  pacts es (launch p) = Some s -> main s = MainDone r ->
  match r with
  | None =>
      exitStatus r = 0%Z /\ ctxDone s = true /\
      (timedOut s = true \/ exists k, drained s = Some k /\ (k <= accepted (srv s))%nat /\
         forall n, (n < k)%nat -> n ∉ spawned (srv s) ∪ running (srv s))
  | Some err =>
      exitStatus r = 1%Z /\
      ((exists err0, err = Wrap err0 "Run" /\ Listener.at_ (srv s) = Failed err /\ accepted (srv s) = 0%nat) \/
       (is_Some (metricsServer p) /\ exists m, metrics s = Some m /\ MetricsServe.at_ m = MetricsServe.Done (Some err)) \/
       (is_Some (adminServer p) /\ exists err0, err = Wrap err0 "Serve"))
  end.
Proof.
  intros H Hm. pose proof (pacts_PInv es _ s (launch_PInv p) H) as HI.
  pose proof (pacts_servers es _ s H) as Hsv. destruct r as [err|]; (split; [done|]).
  - destruct (p_error s HI err Hm) as [Hr|[(m & Em & Hr)|(a & Ea & Hr)]].
    + left. unfold runResult in Hr. destruct (Listener.at_ (srv s)) eqn:Ef; simplify_eq.
      destruct (p_failed s HI err Ef) as [err0 ->]. exists err0. split_and!; [done..|].
      apply (inv_unopened _ (p_srv s HI)). unfold has_listener. by rewrite Ef.
    + right. left. destruct (proj1 Hsv) as [x Hx]; [by eauto|]. split; [|exists m; split; [done|]].
      * simpl in Hx. destruct (metricsServer p); [by eauto|done].
      * unfold metricsResult in Hr. by destruct (MetricsServe.at_ m); simplify_eq.
    + right. right. destruct (proj2 Hsv) as [x Hx]; [by eauto|]. split.
      * simpl in Hx. destruct (adminServer p); [by eauto|done].
      * apply (AdminServe.inv_wrapped _ _ (p_admin s HI a Ea)). left. unfold adminResult in Hr.
        by destruct (AdminServe.at_ a); simplify_eq.
  - split; [apply (p_wait s HI); by right|]. destruct (p_exit s HI Hm) as [|[k Hk]]; [by left|right].
    exists k. split; [done|]. by apply (p_drained s HI).
Qed.

(** C24: the process can always be shut down in order: no goroutine ever blocks on
    its result channel, and from every state that is reached after a shutdown
    signal, before [run] has returned, there is a continuation in which the
    handlers end, the drain completes without its timeout, and the process exits
    with status 0. *)
Theorem process_shutdown es s :
  pacts es (launch p) = Some s -> (forall r, main s <> MainDone r) ->
  (forall r, runResult (srv s) = Some r -> runSent s = false -> is_Some (pact PRunSend s)) /\
  (forall m, metrics s = Some m -> (MetricsServe.serving m = true -> MetricsServe.errCh m = None) /\
     (forall r, metricsResult m = Some r -> metricsSent s = false -> is_Some (pact PMetricsSend s))) /\
  (forall a, admin s = Some a -> (AdminServe.serving a = true -> AdminServe.errCh a = None) /\
     (forall r, adminResult a = Some r -> adminSent s = false -> is_Some (pact PAdminSend s))) /\
  (ctxDone s = true -> exists es' s',
     pacts es' s = Some s' /\ main s' = MainDone None /\ timedOut s' = timedOut s).
Proof.
  intros H Hm. pose proof (pacts_PInv es _ s (launch_PInv p) H) as HI. split_and!.
  - intros r Hr Hs. rewrite pact_alive by done. simpl. rewrite Hs, Hr. simpl.
    destruct (errCh s) as [r'|] eqn:Ec; [|by eauto]. destruct (p_errCh s HI r' Ec). congruence.
  - intros m Eme. split; [apply (MetricsServe.inv_chan _ _ (p_metrics s HI m Eme))|]. intros r Hr Hs.
    rewrite pact_alive by done. simpl. rewrite Hs, Eme. simpl. rewrite Hr. simpl.
    destruct (metricsErrCh s) as [r'|] eqn:Ec; [|by eauto]. destruct (p_metricsErrCh s HI r' Ec). congruence.
  - intros a Ead. split; [apply (AdminServe.inv_chan _ _ (p_admin s HI a Ead))|]. intros r Hr Hs.
    rewrite pact_alive by done. simpl. rewrite Hs, Ead. simpl. rewrite Hr. simpl.
    destruct (adminErrCh s) as [r'|] eqn:Ec; [|by eauto]. destruct (p_adminErrCh s HI r' Ec). congruence.
  - by apply can_exit.
Qed.
End Theorems.

(** * Witnesses *)
Module DemoProcess.
(** The deployment of DemoConfig, with metrics and administration. *)
Definition process : Process (Certificate:=unit) :=
  MkProcess (JSONHandler, quietLogger LevelInfo) DemoTenants.m0 (Some NewMetrics) None
    (ProxyConn.MkServerConfig "kroxy:9092" "") ":9092" (Some ":9100"%string) (Some ":9200"%string).
(** A connection is being served when the signal arrives; the metrics server is
    faster than [run]. *)
Definition signalled : list pevent :=
  [PServer (EListen None); PAdmin (AdminServe.EListen None); PServer EAccept; PServer (EHandle 0);
   PServer ECancel; PMetrics MetricsServe.ECtxDone; PMetrics (MetricsServe.EServe (ErrSent ErrServerClosed));
   PMetrics (MetricsServe.EShutdown None); PMetricsSend; PRecvMetrics; PAdmin AdminServe.ECtxDone].
Definition whole : list pevent :=
  signalled ++ [PServer ECloseListener; PServer (EFinish 0); PWait WDrained; PWait WDone].
End DemoProcess.

Lemma process_exit_witness :
  exists s, pacts DemoProcess.whole (launch DemoProcess.process) = Some s /\
    main s = MainDone None /\ ctxDone s = true.
Proof.
  destruct (pacts DemoProcess.whole (launch DemoProcess.process)) as [s|] eqn:E; [|by vm_compute in E].
  exists s. split; [done|].
  assert (main s = MainDone None) as Hm.
  { assert (main <$> pacts DemoProcess.whole (launch DemoProcess.process) = Some (MainDone None)) as H
      by (vm_compute; reflexivity). rewrite E in H. by injection H. }
  pose proof (process_exit DemoProcess.process _ s None E Hm) as (_ & Hc & _). done.
Defined.
Lemma process_shutdown_witness :
  exists s, pacts DemoProcess.signalled (launch DemoProcess.process) = Some s /\
    exists es' s', pacts es' s = Some s' /\ main s' = MainDone None /\ timedOut s' = timedOut s.
Proof.
  destruct (pacts DemoProcess.signalled (launch DemoProcess.process)) as [s|] eqn:E; [|by vm_compute in E].
  exists s. split; [done|].
  assert ((fun s => (main s, ctxDone s)) <$> pacts DemoProcess.signalled (launch DemoProcess.process)
          = Some (MainWait, true)) as H by (vm_compute; reflexivity).
  rewrite E in H. injection H as Hm Hc.
  apply (process_shutdown DemoProcess.process _ s E); [rewrite Hm; discriminate|exact Hc].
Defined.
