(* ===== verification/Deployment.v ===== *)
(** The whole program: the process (Process.v: [run], its servers, the accept loop, the
    drain) together with what its handlers do (System.v: connections and RPCs over
    the shared store).

    Process.v knows of a handler only that it starts and ends; here handler [n]
    starts with the [n]-th accepted connection and ends when [handle] has returned
    for it.  An RPC arrives only while the admin server serves.  That the context is
    cancelled reaches a connection through the results of its [ctx.Err()], which
    its script leaves open. *)
From Stdlib Require Import ZArith Lia.
From stdpp Require Import base list gmap sets strings relations tactics.
From S2P Require Import Prelude GoNet Resolver ResolverFacts Upstream Observability Http Admin Listener.
From S2P Require Import ProxyConn Config Serve Writes ProxyFacts ProxyDemo Lifecycle ProxyTheorems Lookups System Process.

Record Deploy (St : Type) : Type := MkDeploy { proc : Proc; sys : System St }.
Arguments MkDeploy {St} proc sys.
Arguments proc {St} _.
Arguments sys {St} _.

Inductive devent : Type :=
| DProc (e : pevent)                 (* anything but the start and the end of a handler *)
| DHandle (n : nat) (nc : NetConn) (m : option Metrics) (lg : Logger) (ds : list (error + NetConn))
    (cx : list (option sentinel))
| DGet (n : nat)
| DServe (n : nat)
| DFinish (n : nat)
| DRpc (i : nat) (method : string) (ps : Params)
| DReply (i : nat).

(** The start and the end of a handler. *)
Definition of_handler (e : pevent) : bool :=
  match e with
  | PServer (EHandle _) | PServer (EFinish _) => true
  | _ => false
  end.
Definition admin_serving (p : Proc) : bool :=
  match admin p with Some a => AdminServe.serving a | None => false end.
(** Neither has [run] returned, nor has a handler panicked. *)
Definition exited (p : Proc) : bool := match main p with MainDone _ => true | _ => false end.

Section Deployment.
Context {X Session St : Type} (E : Env X Session St) (Error : error -> string).
Context (BindSet : Params -> error + SetParams.t) (BindDelete : Params -> error + DeleteParams.t).
Abbreviation sys_act := (sys_act E Error BindSet BindDelete).
Abbreviation sys_acts := (sys_acts E Error BindSet BindDelete).

Definition dact (e : devent) (d : Deploy St) : option (Deploy St) :=
  if exited (proc d) || negb (up (sys d)) then None
  else match e with
  | DProc e => if of_handler e then None else p ← pact e (proc d); Some (MkDeploy p (sys d))
  | DHandle n nc m lg ds cx =>
      p ← pact (PServer (EHandle n)) (proc d);
      s ← sys_act (EConnect n nc m lg ds cx) (sys d);
      Some (MkDeploy p s)
  | DGet n => s ← sys_act (EGet n) (sys d); Some (MkDeploy (proc d) s)
  | DServe n => s ← sys_act (EServe n) (sys d); Some (MkDeploy (proc d) s)
  | DFinish n =>
      _ ← ended (sys d) !! n;
      p ← pact (PServer (EFinish n)) (proc d);
      Some (MkDeploy p (sys d))
  | DRpc i method ps =>
      if admin_serving (proc d) then
        s ← sys_act (ERpc i method ps) (sys d); Some (MkDeploy (proc d) s)
      else None
  | DReply i => s ← sys_act (EReply i) (sys d); Some (MkDeploy (proc d) s)
  end.
Fixpoint dacts (es : list devent) (d : Deploy St) : option (Deploy St) :=
  match es with
  | [] => Some d
  | e :: es => d1 ← dact e d; dacts es d1
  end.
Definition deploy {Certificate} (p : Process (Certificate:=Certificate)) (sv : Service St) : Deploy St :=
  MkDeploy (launch p) (boot sv).

(** ** Projections *)

(** What a step of the deployment is in its two parts. *)
Lemma dact_parts e d d' :
  dact e d = Some d' ->
  exited (proc d) = false /\ up (sys d) = true /\
  (exists pes, pacts pes (proc d) = Some (proc d')) /\ exists ses, sys_acts ses (sys d) = Some (sys d').
Proof.
  assert (forall e' p, pact e' (proc d) = Some p -> exists pes, pacts pes (proc d) = Some p) as HP.
  { intros e' p Ep. exists [e']. simpl. by rewrite Ep. }
  assert (forall e' s, sys_act e' (sys d) = Some s -> exists ses, sys_acts ses (sys d) = Some s) as HS.
  { intros e' s Es. exists [e']. cbn [System.sys_acts]. by rewrite Es. }
  assert (exists pes, pacts pes (proc d) = Some (proc d)) as HP0 by (by exists []).
  assert (exists ses, sys_acts ses (sys d) = Some (sys d)) as HS0 by (by exists []).
  unfold dact. intros H. destruct (exited (proc d)), (up (sys d)); try done. cbn [orb negb] in H.
  split; [done|]. split; [done|].
  destruct e; cbn [option_bind mbind] in H; repeat (case_match; try done); simplify_option_eq; eauto.
Qed.
Lemma dacts_parts es d d' :
  dacts es d = Some d' ->
  (exists pes, pacts pes (proc d) = Some (proc d')) /\ exists ses, sys_acts ses (sys d) = Some (sys d').
Proof.
  revert d. induction es as [|e es IH]; intros d H; simpl in H.
  - injection H as <-. split; by exists [].
  - destruct (dact e d) as [d1|] eqn:Ed; [|done]. apply dact_parts in Ed as (_ & _ & [p1 H1] & [s1 H2]).
    destruct (IH d1 H) as [[p2 H3] [s2 H4]]. split; [exists (p1 ++ p2)|exists (s1 ++ s2)].
    + by rewrite pacts_app, H1.
    + by rewrite sys_acts_app, H2.
Qed.

(** ** Handlers *)
(** The server after a step that is not of a handler. *)
Definition not_handler (v v' : Server) : Prop :=
  running v' = running v /\
  (accepted v' = accepted v /\ spawned v' = spawned v \/
   accepted v' = S (accepted v) /\ spawned v' = spawned v ∪ {[accepted v]}).
Lemma act_other e v v' : act e v = Some v' -> of_handler (PServer e) = false -> not_handler v v'.
Proof.
  intros H Hh. unfold act in H. unfold not_handler. destruct e; repeat case_match; simplify_eq/=; auto.
  naive_solver.
Qed.
Lemma pact_other e p p' : pact e p = Some p' -> of_handler e = false -> not_handler (srv p) (srv p').
Proof.
  intros H Hh. assert (not_handler (srv p) (srv p)) as H0 by (split; auto).
  unfold pact in H. destruct (main p) eqn:Em; [..|done]; destruct e; cbn [pact_live] in H; rewrite ?Em in H;
    try (destruct (act e (srv p)) as [v|] eqn:Ea; [|done]; injection H as <-; by eapply act_other);
    unfold Wait, received in H; repeat (case_match; try done); simplify_option_eq; done.
Qed.
Lemma pact_handle n p p' :
  pact (PServer (EHandle n)) p = Some p' ->
  n ∈ spawned (srv p) /\ spawned (srv p') = spawned (srv p) ∖ {[n]} /\
  running (srv p') = running (srv p) ∪ {[n]} /\ accepted (srv p') = accepted (srv p).
Proof.
  intros H. unfold pact in H. destruct (main p); [..|done]; cbn [pact_live act] in H; by simplify_option_eq.
Qed.
Lemma pact_finish n p p' :
  pact (PServer (EFinish n)) p = Some p' ->
  n ∈ running (srv p) /\ spawned (srv p') = spawned (srv p) /\
  running (srv p') = running (srv p) ∖ {[n]} /\ accepted (srv p') = accepted (srv p).
Proof.
  intros H. unfold pact in H. destruct (main p); [..|done]; cbn [pact_live act] in H; by simplify_option_eq.
Qed.

(** The handlers the process counts are those the system runs. *)
Record DInv (d : Deploy St) : Prop := MkDInv {
  d_serving : forall n, n ∈ dom (serving (sys d)) -> n ∈ running (srv (proc d));
  d_running : forall n, n ∈ running (srv (proc d)) -> n ∈ dom (serving (sys d)) ∪ dom (ended (sys d));
  d_known : forall n, n ∈ dom (serving (sys d)) ∪ dom (ended (sys d)) ->
    (n < accepted (srv (proc d)))%nat /\ n ∉ spawned (srv (proc d));
  d_gone : forall n, (n < accepted (srv (proc d)))%nat -> n ∉ spawned (srv (proc d)) ->
    n ∉ running (srv (proc d)) -> n ∈ dom (ended (sys d));
  d_panic : up (sys d) = true -> forall n r c, ended (sys d) !! n = Some (r, c) -> r <> Panic;
  d_up : exited (proc d) = true -> up (sys d) = true;
  d_disjoint : dom (serving (sys d)) ## dom (ended (sys d))
}.
Lemma deploy_DInv {C} (p : Process (Certificate:=C)) sv : DInv (deploy p sv).
Proof. split; simpl; try set_solver; try lia; try done. Qed.

(** What the system does to its connections. *)
Lemma sys_rpc e s s' :
  sys_act e s = Some s' -> match e with ERpc _ _ _ | EReply _ | EGet _ => True | _ => False end ->
  serving s' = serving s /\ ended s' = ended s /\ up s' = true.
Proof.
  intros H He. unfold System.sys_act in H. destruct (up s); [|done]. cbn [negb] in H.
  destruct e as [i method ps|i| |n|]; try done.
  - destruct (rpcs s !! i), (begin_ E Error BindSet BindDelete method ps) as [b|]; try done. destruct (b _) as [[] ?]; try done.
    by injection H as <-.
  - destruct (rpcs s !! i); [|done]. by injection H as <-.
  - destruct (serving s !! n), (looked s !! n); try done. by injection H as <-.
Qed.
Lemma sys_connect n nc m lg ds cx s s' :
  sys_act (EConnect n nc m lg ds cx) s = Some s' ->
  (exists c, serving s' = <[n := c]> (serving s)) /\ ended s' = ended s /\ up s' = true /\ n ∉ dom (ended s).
Proof.
  intros H. unfold System.sys_act in H. destruct (up s); [|done]. cbn [negb] in H.
  destruct (serving s !! n), (ended s !! n) eqn:En; try done. injection H as <-. rewrite not_elem_of_dom. eauto.
Qed.
Lemma sys_serve n s s' :
  sys_act (EServe n) s = Some s' ->
  n ∈ dom (serving s) /\
  ((exists c, serving s' = <[n := c]> (serving s)) /\ ended s' = ended s /\ up s' = true \/
   exists r c, serving s' = delete n (serving s) /\ ended s' = <[n := (r, c)]> (ended s) /\
     (up s' = true -> r <> Panic)).
Proof.
  intros H. unfold System.sys_act in H. destruct (up s); [|done]. cbn [negb] in H.
  destruct (serving s !! n) as [c|] eqn:Ec; [|done]. split; [by eapply elem_of_dom_2|].
  destruct (looked s !! n) as [st|]; [|done]. simpl in H.
  destruct (serveStep _ c) as [[a|e|] c']; injection H as <-; simpl; [left; by eauto|right..].
  - eexists _, _. by split_and!.
  - eexists _, _. by split_and!.
Qed.

Lemma other_DInv e d q : DInv d -> of_handler e = false -> pact e (proc d) = Some q -> up (sys d) = true ->
  DInv (MkDeploy q (sys d)).
Proof.
  intros [D1 D2 D3 D4 D5 D6 D7] Eh Eq Eu.
  destruct (pact_other _ _ _ Eq Eh) as [Hr [[Ha Hs]|[Ha Hs]]]; split; simpl; rewrite ?Hr, ?Ha, ?Hs; auto.
  - intros n Hn. destruct (D3 n Hn). split; [lia|]. rewrite elem_of_union, elem_of_singleton. intros [?| ->]; [done|lia].
  - intros n Hn Hn' Hr'. apply D4; [|set_solver..]. assert (n <> accepted (srv (proc d))); [set_solver|lia].
Qed.
Lemma handle_DInv n nc m lg ds cx d q s :
  SInv (srv (proc d)) -> DInv d -> up (sys d) = true -> pact (PServer (EHandle n)) (proc d) = Some q ->
  sys_act (EConnect n nc m lg ds cx) (sys d) = Some s -> DInv (MkDeploy q s).
Proof.
  intros HS [D1 D2 D3 D4 D5 D6 D7] Eu Eq Es. specialize (D5 Eu).
  apply pact_handle in Eq as (Hn & Hs & Hr & Ha). apply sys_connect in Es as ([c Hc] & He & Hu & Hne).
  assert (n < accepted (srv (proc d)))%nat by (apply (inv_known _ HS); set_solver).
  split; simpl; rewrite ?Hr, ?Ha, ?Hs, ?Hc, ?He, ?dom_insert_L; [..|done|done|clear -D7 Hne; set_solver].
  - clear -D1. set_solver.
  - clear -D2. set_solver.
  - intros n' [[->%elem_of_singleton|Hn']%elem_of_union|Hn']%elem_of_union.
    + split; [done|]. clear. set_solver.
    + destruct (D3 n') as [? Hsp]; [by apply elem_of_union_l|]. split; [done|]. clear -Hsp. set_solver.
    + destruct (D3 n') as [? Hsp]; [by apply elem_of_union_r|]. split; [done|]. clear -Hsp. set_solver.
  - intros n' H1 H2 H3. apply D4; [done| |]; clear -H2 H3; set_solver.
Qed.
Lemma serve_DInv n d s :
  DInv d -> exited (proc d) = false -> up (sys d) = true -> sys_act (EServe n) (sys d) = Some s ->
  DInv (MkDeploy (proc d) s).
Proof.
  intros [D1 D2 D3 D4 D5 D6 D7] Ex Eu Es. specialize (D5 Eu).
  apply sys_serve in Es as (Hn & [([c Hc] & He & Hu)|(r & c & Hc & He & Hu)]).
  - assert (dom (serving s) = dom (serving (sys d))) as Hd by (rewrite Hc, dom_insert_L; set_solver).
    split; simpl; rewrite ?Hd, ?He; auto.
  - assert (dom (serving s) = dom (serving (sys d)) ∖ {[n]}) as Hds by (by rewrite Hc, dom_delete_L).
    assert (dom (ended s) = {[n]} ∪ dom (ended (sys d))) as Hde by (by rewrite He, dom_insert_L).
    assert (dom (serving s) ∪ dom (ended s) = dom (serving (sys d)) ∪ dom (ended (sys d))) as Hu'.
    { rewrite Hds, Hde. apply set_eq. intros n'. destruct (decide (n' = n)); set_solver. }
    split; simpl; rewrite ?Hu'; [|done|done| | |congruence|].
    + intros n' Hn'. apply D1. rewrite Hds in Hn'. set_solver.
    + intros n' H1 H2 H3. rewrite Hde. apply elem_of_union_r. by apply D4.
    + intros Hup n' r' c'. rewrite He. intros [[<- [= <- <-]]|[_ Hl]]%lookup_insert_Some; eauto.
    + rewrite Hds, Hde. set_solver.
Qed.
Lemma finish_DInv n d q :
  DInv d -> exited (proc d) = false -> is_Some (ended (sys d) !! n) ->
  pact (PServer (EFinish n)) (proc d) = Some q -> up (sys d) = true -> DInv (MkDeploy q (sys d)).
Proof.
  intros [D1 D2 D3 D4 D5 D6 D7] Ex En%elem_of_dom Eq Eu. apply pact_finish in Eq as (Hn & Hs & Hr & Ha).
  split; simpl; rewrite ?Hr, ?Ha, ?Hs; [..|done|done|done].
  - intros n' Hn'. apply elem_of_difference. split; [by apply D1|]. clear -D7 En Hn'. set_solver.
  - intros n' [Hn' _]%elem_of_difference. by apply D2.
  - exact D3.
  - intros n' H1 H2 H3. destruct (decide (n' = n)) as [->|Hd]; [done|]. apply D4; [done..|].
    clear -H3 Hd. set_solver.
Qed.
Lemma rpc_DInv e d s :
  DInv d -> match e with ERpc _ _ _ | EReply _ | EGet _ => True | _ => False end -> up (sys d) = true ->
  sys_act e (sys d) = Some s -> DInv (MkDeploy (proc d) s).
Proof.
  intros [D1 D2 D3 D4 D5 D6 D7] He Eu Es. apply sys_rpc in Es as (Hc & Hd & Hu); [|done].
  split; simpl; rewrite ?Hc, ?Hd; [done|done|done|done|intros _; by apply D5|done|done].
Qed.
Lemma dact_DInv e d d' : SInv (srv (proc d)) -> DInv d -> dact e d = Some d' -> DInv d'.
Proof.
  intros HS HD H. unfold dact in H.
  destruct (exited (proc d)) eqn:Ex; [done|]. destruct (up (sys d)) eqn:Eu; [|done]. cbn [orb negb] in H.
  destruct e as [e|n nc m lg ds cx|n|n|n|i method ps|i].
  - destruct (of_handler e) eqn:Eh; [done|]. destruct (pact e _) as [q|] eqn:Eq; [|done]. injection H as <-.
    by eapply other_DInv.
  - destruct (pact _ _) as [q|] eqn:Eq; [|done]. destruct (sys_act _ _) as [s|] eqn:Es; [|done]. injection H as <-.
    by eapply handle_DInv.
  - destruct (sys_act _ _) as [s|] eqn:Es; [|done]. injection H as <-. by eapply (rpc_DInv (EGet n)).
  - destruct (sys_act _ _) as [s|] eqn:Es; [|done]. injection H as <-. by eapply serve_DInv.
  - destruct (ended _ !! n) as [x|] eqn:En; [|done]. destruct (pact _ _) as [q|] eqn:Eq; [|done]. injection H as <-.
    by eapply finish_DInv.
  - destruct (admin_serving _); [|done]. destruct (sys_act _ _) as [s|] eqn:Es; [|done]. injection H as <-.
    by eapply (rpc_DInv (ERpc i method ps)).
  - destruct (sys_act _ _) as [s|] eqn:Es; [|done]. injection H as <-. by eapply (rpc_DInv (EReply i)).
Qed.

(** What holds of every state the deployment reaches. *)
Definition Good (d : Deploy St) : Prop := DInv d /\ PInv (proc d).
Lemma dacts_Good es d d' : dacts es d = Some d' -> Good d -> Good d'.
Proof.
  revert d. induction es as [|e es IH]; intros d H [HD HP]; simpl in H; [by simplify_eq|].
  destruct (dact e d) as [d1|] eqn:Ed; [|done]. apply (IH d1 H). split.
  - eapply dact_DInv; [apply (p_srv _ HP)|done..].
  - apply dact_parts in Ed as (_ & _ & [pes Hp] & _). by eapply pacts_PInv.
Qed.
Lemma deploy_Good {C} (p : Process (Certificate:=C)) sv : Good (deploy p sv).
Proof. split; [apply deploy_DInv|apply launch_PInv]. Qed.

(** ** Shutdown *)

(** The clients: what connection [n] will be and do. *)
Definition Script : Type :=
  nat -> NetConn * option Metrics * Logger * list (error + NetConn) * list (option sentinel).
Definition follows (script : Script) (e : devent) : Prop :=
  match e with DHandle n nc m lg ds cx => script n = (nc, m, lg, ds, cx) | _ => True end.
Context (script : Script).
Abbreviation scripted := (Forall (follows script)).
Definition alive (d : Deploy St) : Prop := exited (proc d) = false /\ up (sys d) = true.
Lemma dacts_app es1 es2 d : dacts (es1 ++ es2) d = (d1 ← dacts es1 d; dacts es2 d1).
Proof. revert d. induction es1 as [|e es IH]; intros d; simpl; [done|]. by destruct (dact e d); simpl; [apply IH|]. Qed.
Lemma pact_server e p v : exited p = false -> act e (srv p) = Some v -> pact (PServer e) p = Some (set_srv v p).
Proof. unfold exited, pact. intros Hx Ha. destruct (main p); [..|done]; simpl; by rewrite Ha. Qed.
Lemma dact_alive e d : alive d ->
  dact e d = match e with
  | DProc e => if of_handler e then None else p ← pact e (proc d); Some (MkDeploy p (sys d))
  | DHandle n nc m lg ds cx =>
      p ← pact (PServer (EHandle n)) (proc d);
      s ← sys_act (EConnect n nc m lg ds cx) (sys d); Some (MkDeploy p s)
  | DGet n => s ← sys_act (EGet n) (sys d); Some (MkDeploy (proc d) s)
  | DServe n => s ← sys_act (EServe n) (sys d); Some (MkDeploy (proc d) s)
  | DFinish n =>
      _ ← ended (sys d) !! n; p ← pact (PServer (EFinish n)) (proc d); Some (MkDeploy p (sys d))
  | DRpc i method ps =>
      if admin_serving (proc d) then s ← sys_act (ERpc i method ps) (sys d); Some (MkDeploy (proc d) s) else None
  | DReply i => s ← sys_act (EReply i) (sys d); Some (MkDeploy (proc d) s)
  end.
Proof. intros [Hx Hu]. unfold dact. by rewrite Hx, Hu. Qed.

(** An iteration makes its lookup, if it has not yet, and completes. *)
Lemma can_look n c d :
  alive d -> serving (sys d) !! n = Some c ->
  exists es s st, dacts es d = Some (MkDeploy (proc d) s) /\ scripted es /\ up s = true /\
    serving s = serving (sys d) /\ ended s = ended (sys d) /\ looked s !! n = Some st.
Proof.
  intros Ha Hc. destruct (looked (sys d) !! n) as [st|] eqn:El.
  - exists [], (sys d), st. split_and!; [by destruct d|constructor|apply Ha|done..].
  - eexists [DGet n], _, (svcStore (svc (sys d))). split_and!.
    + cbn [dacts]. rewrite dact_alive by done. unfold System.sys_act. rewrite (proj2 Ha), Hc, El. reflexivity.
    + by repeat constructor.
    + done.
    + done.
    + done.
    + simpl. apply lookup_insert_eq.
Qed.
Lemma can_complete n c d :
  alive d -> serving (sys d) !! n = Some c ->
  exists es st r c' d', serveStep (env_at E st) c = (r, c') /\ dacts es d = Some d' /\ scripted es /\
    proc d' = proc d /\ up (sys d') = match r with Panic => false | _ => true end /\
    (r = Ok tt -> serving (sys d') = <[n := c']> (serving (sys d))) /\
    (r <> Ok tt -> serving (sys d') = delete n (serving (sys d)) /\ is_Some (ended (sys d') !! n)).
Proof.
  intros Ha Hc. destruct (can_look n c d Ha Hc) as (es & s & st & H & Hf & Hu & Hs & He & Hl).
  destruct (serveStep (env_at E st) c) as [r c'] eqn:Es.
  assert (exists s', sys_act (EServe n) s = Some s' /\ up s' = match r with Panic => false | _ => true end /\
    (r = Ok tt -> serving s' = <[n := c']> (serving s)) /\
    (r <> Ok tt -> serving s' = delete n (serving s) /\ is_Some (ended s' !! n))) as (s' & H1 & H2 & H3 & H4).
  { unfold System.sys_act. rewrite Hu, Hs, Hc, Hl. simpl. rewrite Es.
    destruct r as [[]|e|]; (eexists; split; [reflexivity|]); simpl; rewrite ?lookup_insert_eq; naive_solver. }
  exists (es ++ [DServe n]), st, r, c', (MkDeploy (proc d) s'). rewrite Hs in *. split_and!; [done| | |done..].
  - rewrite dacts_app, H. cbn [mbind option_bind dacts]. rewrite dact_alive by (destruct Ha; by split).
    simpl. by rewrite H1.
  - apply Forall_app. split; [done|by repeat constructor].
Qed.

(** A connection is served to its end, or crashes the process: its client's script is
    finite. *)
Lemma can_end k n c d :
  alive d -> serving (sys d) !! n = Some c -> (length (rx (client c)) < k)%nat ->
  exists es d', dacts es d = Some d' /\ scripted es /\ proc d' = proc d /\
    (up (sys d') = false \/
     alive d' /\ serving (sys d') = delete n (serving (sys d)) /\ is_Some (ended (sys d') !! n)).
Proof.
  revert c d. induction k as [|k IH]; intros c d Ha Hc Hk; [lia|].
  destruct (can_complete n c d Ha Hc) as (es & st & r & c' & d1 & Es & H1 & Hf & Hp & Hu & Hok & Hend).
  destruct r as [[]|e|].
  - pose proof (serveStep_spec _ _ _ _ Es) as (_ & Hlt & _). specialize (Hlt eq_refl). specialize (Hok eq_refl).
    destruct (IH c' d1) as (es' & d' & H & Hf' & Hp' & Hd);
      [unfold alive; rewrite Hp; by destruct Ha|by rewrite Hok, lookup_insert_eq|lia|].
    exists (es ++ es'), d'. rewrite dacts_app, H1, Forall_app. split_and!; [done..|congruence|].
    destruct Hd as [|(? & Hd & ?)]; [by left|right]. split_and!; [done| |done]. by rewrite Hd, Hok, delete_insert_eq.
  - destruct Hend as [Hs He]; [done|]. exists es, d1. split_and!; [done..|]. right.
    split_and!; [unfold alive; rewrite Hp; by destruct Ha|done..].
  - exists es, d1. split_and!; [done..|by left].
Qed.

Lemma can_end_all k d :
  alive d -> (size (serving (sys d)) < k)%nat ->
  exists es d', dacts es d = Some d' /\ scripted es /\ proc d' = proc d /\
    (up (sys d') = false \/ alive d' /\ serving (sys d') = ∅).
Proof.
  revert d. induction k as [|k IH]; intros d Ha Hk; [lia|].
  destruct (decide (serving (sys d) = ∅)) as [He|(n & c & Hn)%map_choose]; [exists [], d; split_and!; [done|constructor|done|by right]|].
  destruct (can_end _ n c d Ha Hn (Nat.lt_succ_diag_r _)) as (es1 & d1 & H1 & Hf1 & Hp1 & [Hu|(Ha1 & Hs1 & _)]); [by eauto 8|].
  destruct (IH d1 Ha1) as (es2 & d2 & H2 & Hf2 & Hp2 & Hd2).
  { rewrite Hs1, map_size_delete, Hn. assert (size (serving (sys d)) <> 0); [|lia].
    apply map_size_ne_0_lookup. by exists n, c. }
  exists (es1 ++ es2), d2. rewrite dacts_app, H1, Forall_app. split_and!; [done..|congruence|done].
Qed.

(** Only the server of the process changes, and its context does not. *)
Definition at_server (p p' : Proc) : Prop :=
  exists v, p' = set_srv v p /\ (cancelled (srv p) = true -> cancelled v = true).
Lemma at_server_trans p1 p2 p3 : at_server p1 p2 -> at_server p2 p3 -> at_server p1 p3.
Proof. intros (v & -> & Hv) (w & -> & Hw). exists w. split; [done|]. simpl in *. auto. Qed.
Lemma pact_at_server e p p' : pact (PServer e) p = Some p' -> at_server p p'.
Proof.
  intros H. unfold pact in H. destruct (main p); [..|done]; cbn [pact_live] in H;
    (destruct (act e (srv p)) as [v|] eqn:Ea; [|done]); injection H as <-; exists v;
    (split; [done|]); by eapply act_cancelled.
Qed.

Lemma can_start_all k d :
  Good d -> alive d -> (size (spawned (srv (proc d))) < k)%nat ->
  exists es d', dacts es d = Some d' /\ scripted es /\ at_server (proc d) (proc d') /\ alive d' /\
    spawned (srv (proc d')) = ∅.
Proof.
  revert d. induction k as [|k IH]; intros d HG Ha Hk; [lia|].
  destruct (decide (spawned (srv (proc d)) = ∅)) as [He|[n Hn]%set_choose_L].
  { exists [], d. split_and!; [done|constructor| |done|done]. exists (srv (proc d)). split; [by destruct (proc d)|done]. }
  destruct (pact (PServer (EHandle n)) (proc d)) as [q|] eqn:Eq.
  2: { unfold pact, exited in *. destruct Ha as [Hx _]. unfold exited in Hx.
       destruct (main (proc d)); [..|done]; simpl in Eq; by rewrite decide_True in Eq. }
  assert (n ∉ dom (serving (sys d)) ∪ dom (ended (sys d))) as Hf.
  { intros Hin. by destruct (d_known _ (proj1 HG) n Hin). }
  destruct (script n) as [[[[nc m] lg] ds] cx] eqn:En. set (e := DHandle n nc m lg ds cx).
  destruct (dact e d) as [d1|] eqn:Ed.
  2: { rewrite dact_alive in Ed by done. simpl in Ed. rewrite Eq in Ed. simpl in Ed.
       unfold System.sys_act in Ed. rewrite (proj2 Ha) in Ed. cbn [negb] in Ed.
       assert (serving (sys d) !! n = None) as E1 by (apply not_elem_of_dom; set_solver).
       assert (ended (sys d) !! n = None) as E2 by (apply not_elem_of_dom; set_solver).
       by rewrite E1, E2 in Ed. }
  assert (dacts [e] d = Some d1) as Ed' by (simpl; by rewrite Ed).
  pose proof Ed as Ed2. rewrite dact_alive in Ed2 by done. simpl in Ed2. rewrite Eq in Ed2. simpl in Ed2.
  destruct (sys_act _ _) as [s|] eqn:Es; [|done]. injection Ed2 as <-.
  apply sys_connect in Es as (_ & _ & Hu & _). pose proof (pact_at_server _ _ _ Eq) as Hat.
  pose proof (pact_handle _ _ _ Eq) as (_ & Hsp & _).
  destruct (IH (MkDeploy q s)) as (es & d' & H & Hf' & Hp & Ha' & Hs).
  { by eapply dacts_Good. }
  { split; [|done]. destruct Hat as (v & -> & _). apply Ha. }
  { simpl. rewrite Hsp, size_difference, size_singleton by set_solver.
    assert (size (spawned (srv (proc d))) <> 0); [|lia]. intros H0%size_empty_inv. set_solver. }
  exists (e :: es), d'. split_and!; [cbn [dacts]; by rewrite Ed|by constructor|by eapply at_server_trans|done|done].
Qed.

Lemma can_finish_all k d :
  Good d -> alive d -> serving (sys d) = ∅ -> spawned (srv (proc d)) = ∅ ->
  (size (running (srv (proc d))) < k)%nat ->
  exists es d', dacts es d = Some d' /\ scripted es /\ at_server (proc d) (proc d') /\ sys d' = sys d /\
    spawned (srv (proc d')) = ∅ /\ running (srv (proc d')) = ∅.
Proof.
  revert d. induction k as [|k IH]; intros d HG Ha Hs Hsp Hk; [lia|].
  destruct (decide (running (srv (proc d)) = ∅)) as [He|[n Hn]%set_choose_L].
  { exists [], d. split_and!; [done|constructor| |done|done|done]. exists (srv (proc d)). split; [by destruct (proc d)|done]. }
  destruct (pact (PServer (EFinish n)) (proc d)) as [q|] eqn:Eq.
  2: { destruct Ha as [Hx _]. unfold pact, exited in *.
       destruct (main (proc d)); [..|done]; simpl in Eq; by rewrite decide_True in Eq. }
  assert (is_Some (ended (sys d) !! n)) as [x Hx].
  { apply elem_of_dom. pose proof (d_running _ (proj1 HG) n Hn) as Hin. rewrite Hs, dom_empty_L in Hin. set_solver. }
  assert (dact (DFinish n) d = Some (MkDeploy q (sys d))) as Ed.
  { rewrite dact_alive by done. cbn iota beta. rewrite Hx. simpl. by rewrite Eq. }
  pose proof (pact_at_server _ _ _ Eq) as Hat. pose proof (pact_finish _ _ _ Eq) as (_ & Hsp' & Hr' & _).
  destruct (IH (MkDeploy q (sys d))) as (es & d' & H & Hf & Hp & Hsys & H1 & H2).
  { eapply (dacts_Good [DFinish n]); [|done]. simpl. by rewrite Ed. }
  { split; [|apply Ha]. destruct Hat as (v & -> & _). apply Ha. }
  { done. }
  { simpl. congruence. }
  { simpl. rewrite Hr', size_difference, size_singleton by set_solver.
    assert (size (running (srv (proc d))) <> 0); [|lia]. intros H0%size_empty_inv. set_solver. }
  exists (DFinish n :: es), d'. split_and!; [cbn [dacts]; by rewrite Ed|by constructor|by eapply at_server_trans|done|done|done].
Qed.

(** Steps of the process alone. *)
Lemma dacts_proc pes p p' s :
  Forall (fun e => of_handler e = false) pes -> up s = true -> pacts pes p = Some p' ->
  dacts (DProc <$> pes) (MkDeploy p s) = Some (MkDeploy p' s).
Proof.
  intros Hf Hu. revert p. induction Hf as [|e pes He _ IH]; intros p H; simpl in H; [by simplify_eq|].
  destruct (pact e p) as [p1|] eqn:Ep; [|done]. simpl in H. cbn [fmap list_fmap dacts].
  rewrite dact_alive; [|split; [|done]; unfold pact in Ep; unfold exited; simpl; by destruct (main p)].
  rewrite He. simpl. rewrite Ep. simpl. by apply IH.
Qed.
Lemma can_exit_now p :
  exited p = false -> ctxDone p = true -> spawned (srv p) = ∅ -> running (srv p) = ∅ ->
  exists pes p', Forall (fun e => of_handler e = false) pes /\ pacts pes p = Some p' /\
    main p' = MainDone None /\ timedOut p' = timedOut p.
Proof.
  intros Hx Hc Hs Hr.
  assert (forall q, main q = MainWait -> spawned (srv q) = ∅ -> running (srv q) = ∅ ->
    exists pes p', Forall (fun e => of_handler e = false) pes /\ pacts pes q = Some p' /\
      main p' = MainDone None /\ timedOut p' = timedOut q) as Hw.
  { intros q Hm Hsq Hrq. destruct (drained q) as [k|] eqn:Ed.
    - exists [PWait WDone], (set_main (MainDone None) q). split_and!; [by repeat constructor| |done|done].
      simpl. unfold pact. rewrite Hm. simpl. by rewrite Hm, Ed.
    - eexists [PWait WDrained; PWait WDone], _. split_and!; [by repeat constructor|by apply drain_now|done|done]. }
  unfold exited in Hx. destruct (main p) eqn:Em; [|by apply Hw|done].
  destruct (Hw (set_main MainWait p) eq_refl Hs Hr) as (pes & p' & Hf & H & ? & ?).
  exists (PCtxDone :: pes), p'. split_and!; [by constructor| |done|done]. simpl. unfold pact. rewrite Em. simpl.
  by rewrite Em, Hc.
Qed.

(** * Theorems *)
Section Theorems.
Context {Certificate : Type} (p : Process (Certificate:=Certificate)) (sv : Service St).

(** C17: what a clean exit of the whole program means.  When [run] has returned nil and the
    drain did not time out, a shutdown was requested, and for every connection
    accepted before the drain ended [handle] has returned, without a panic, and
    left no socket open: not the client's, not the broker's, not one of a dial
    that was given up. *)
Theorem orderly_exit es d :
  dacts es (deploy p sv) = Some d -> main (proc d) = MainDone None -> timedOut (proc d) = false ->
  ctxDone (proc d) = true /\
  exists k, drained (proc d) = Some k /\ forall n, (n < k)%nat ->
    exists r c, ended (sys d) !! n = Some (r, c) /\ r <> Panic /\ closed (client c) = true /\
      (forall u, upstream c = Some u -> closed (Upstream.nc u) = true) /\
      Forall (fun u => closed (Upstream.nc u) = true) (dropped c).
Proof.
  intros H Hm Ht. destruct (dacts_Good es _ d H (deploy_Good p sv)) as [HD HP].
  split; [apply (p_wait _ HP); by right|].
  destruct (p_exit _ HP Hm) as [?|[k Hk]]; [congruence|]. exists k. split; [done|]. intros n Hn.
  destruct (p_drained _ HP k Hk) as [Hle Hno]. specialize (Hno n Hn).
  assert (n ∈ dom (ended (sys d))) as [[r c] Hr]%elem_of_dom by (apply (d_gone _ HD); [lia|set_solver..]).
  assert (r <> Panic) as Hp.
  { eapply (d_panic _ HD); [|exact Hr]. apply (d_up _ HD). unfold exited. by rewrite Hm. }
  apply dacts_parts in H as [_ [ses Hs]]. simpl in Hs.
  destruct (si_ended _ _ _ _ _ _ _ (sys_acts_SysInv _ _ _ _ ses sv _ Hs) n r c Hr)
    as (nc & m & lg & ds & cx & t & _ & _ & c1 & c2 & H1 & H2 & H3 & ->).
  assert (handle (with_history E (fun k => store_at E Error BindSet BindDelete ses (boot sv) (t k)))
    (newConn nc m lg ds cx) = (r, finished r c2)) as Hh by (apply handle_parts; by eapply steps_serve).
  destruct (handle_leaves_nothing _ _ _ _ _ _ _ _ Hh Hp) as (Hc & Hu & Hd & _). by exists r, (finished r c2).
Qed.

(** C18: the whole program can always be shut down in order: in every state it reaches after
    a shutdown signal, before it has exited, whatever the clients that are accepted
    and not yet handled will do, there is a continuation in which every connection
    is served to the end of what its client sends, the drain completes without its
    timeout and [run] returns nil, unless a handler panics on the way. *)
Theorem shutdown_completes es d :
  dacts es (deploy p sv) = Some d -> alive d -> ctxDone (proc d) = true ->
  exists es' d', dacts es' d = Some d' /\ scripted es' /\
    (up (sys d') = false \/
     main (proc d') = MainDone None /\ timedOut (proc d') = timedOut (proc d) /\ serving (sys d') = ∅).
Proof.
  intros H Ha Hc. pose proof (dacts_Good es _ d H (deploy_Good p sv)) as HG.
  destruct (can_start_all _ d HG Ha (Nat.lt_succ_diag_r _)) as (es1 & d1 & H1 & Hf1 & (v1 & Hp1 & Hc1) & Ha1 & Hs1).
  pose proof (dacts_Good _ _ _ H1 HG) as HG1.
  destruct (can_end_all _ d1 Ha1 (Nat.lt_succ_diag_r _)) as (es2 & d2 & H2 & Hf2 & Hp2 & [Hu|(Ha2 & Hs2)]).
  { exists (es1 ++ es2), d2. rewrite dacts_app, H1, Forall_app. split_and!; [done..|by left]. }
  pose proof (dacts_Good _ _ _ H2 HG1) as HG2.
  destruct (can_finish_all _ d2 HG2 Ha2 Hs2 ltac:(congruence) (Nat.lt_succ_diag_r _))
    as (es3 & d3 & H3 & Hf3 & (v3 & Hp3 & Hc3) & Hy3 & Hs3 & Hr3).
  destruct (can_exit_now (proc d3)) as (pes & q & Hf & Hq & Hm & Ht).
  { rewrite Hp3. apply Ha2. }
  { rewrite Hp3. unfold ctxDone in *. simpl. apply Hc3. rewrite Hp2, Hp1. by apply Hc1. }
  { done. }
  { done. }
  exists (es1 ++ es2 ++ es3 ++ (DProc <$> pes)), (MkDeploy q (sys d3)). split_and!.
  - rewrite dacts_app, H1. cbn [mbind option_bind]. rewrite dacts_app, H2. cbn [mbind option_bind].
    rewrite dacts_app, H3. cbn [mbind option_bind]. destruct d3 as [p3 s3]. apply dacts_proc; [done| |done].
    simpl in Hy3. rewrite Hy3. apply Ha2.
  - rewrite !Forall_app. split_and!; [done..|]. by apply Forall_fmap, Forall_true.
  - right. split_and!; [done| |simpl; by rewrite Hy3]. simpl. rewrite Ht, Hp3, Hp2, Hp1. done.
Qed.
End Theorems.
End Deployment.

(** * Witnesses *)
Module DemoDeployment.
Abbreviation acts := (dacts DemoProxy.env DemoWire.Error DemoWire.BindSet DemoWire.BindDelete).
Definition start_ : Deploy memoryResolver := deploy DemoProcess.process DemoSystem.service.
(** Bob is served, alice is deleted meanwhile, and the signal arrives. *)
Definition signalled : list devent :=
  [DProc (PServer (EListen None)); DProc (PAdmin (AdminServe.EListen None)); DProc (PServer EAccept);
   DHandle 0 (DemoProxy.client_of "bob") (Some NewMetrics) DemoProxy.logger [inr DemoProxy.broker] [];
   DGet 0; DServe 0; DGet 0; DServe 0; DGet 0; DRpc 0 "Tenants.Delete" (PDelete (DeleteParams.Mk "alice"));
   DServe 0; DReply 0;
   DProc (PServer ECancel)].
(** His connection ends, and the process with it. *)
Definition whole : list devent :=
  signalled ++ [DGet 0; DServe 0; DFinish 0; DProc PCtxDone; DProc (PWait WDrained); DProc (PWait WDone)].
End DemoDeployment.

Lemma orderly_exit_witness :
  exists d r c, DemoDeployment.acts DemoDeployment.whole DemoDeployment.start_ = Some d /\
    ended (sys d) !! 0%nat = Some (r, c) /\ closed (client c) = true.
Proof.
  destruct (DemoDeployment.acts DemoDeployment.whole DemoDeployment.start_) as [d|] eqn:E; [|by vm_compute in E].
  assert ((fun d => (main (proc d), timedOut (proc d), drained (proc d))) <$>
    DemoDeployment.acts DemoDeployment.whole DemoDeployment.start_ = Some (MainDone None, false, Some 1%nat)) as H
    by (vm_compute; reflexivity).
  rewrite E in H. injection H as Hm Ht Hd.
  destruct (orderly_exit DemoProxy.env DemoWire.Error DemoWire.BindSet DemoWire.BindDelete DemoProcess.process
    DemoSystem.service DemoDeployment.whole d E Hm Ht) as (_ & k & Hk & H).
  rewrite Hd in Hk. injection Hk as <-. destruct (H 0%nat Nat.lt_0_1) as (r & c & H1 & _ & H2 & _).
  exists d, r, c. split; [reflexivity|]. split; [exact H1|exact H2].
Defined.
Lemma shutdown_completes_witness :
  exists d es' d', DemoDeployment.acts DemoDeployment.signalled DemoDeployment.start_ = Some d /\
    DemoDeployment.acts es' d = Some d'.
Proof.
  destruct (DemoDeployment.acts DemoDeployment.signalled DemoDeployment.start_) as [d|] eqn:E; [|by vm_compute in E].
  assert ((fun d => (exited (proc d), up (sys d), ctxDone (proc d))) <$>
    DemoDeployment.acts DemoDeployment.signalled DemoDeployment.start_ = Some (false, true, true)) as H
    by (vm_compute; reflexivity).
  rewrite E in H. injection H as Hx Hu Hc.
  destruct (shutdown_completes DemoProxy.env DemoWire.Error DemoWire.BindSet DemoWire.BindDelete
    (fun _ => (DemoProxy.client, None, DemoProxy.logger, [], [])) DemoProcess.process
    DemoSystem.service DemoDeployment.signalled d E (conj Hx Hu) Hc) as (es' & d' & H & _).
  exists d, es', d'. split; [reflexivity|exact H].
Defined.
