(* ===== verification/Command.v ===== *)
(** The command (cmd/kroxy/main.go): its flags, [-version], and how [main] ends before
    or by starting the servers, whose life Process.v models.

    Of package [flag] the parser is modelled as it treats the two flags [run]
    declares, on [flag.CommandLine], which exits on an error. *)
From Stdlib Require Import ZArith Lia Ascii.
From stdpp Require Import base list gmap strings tactics.
From S2P Require Import Prelude GoStrings Resolver ResolverFacts Observability Admin Config Process System.

(** [strconv.ParseBool] *)
Definition ParseBool (s : string) : option bool :=
  if bool_decide (s ∈ ["1"; "t"; "T"; "TRUE"; "true"; "True"]) then Some true
  else if bool_decide (s ∈ ["0"; "f"; "F"; "FALSE"; "false"; "False"]) then Some false
  else None.

(** An argument: not a flag (the end of the flags), a flag with its value if it has one
    after an equals sign, or malformed. *)
Inductive argument : Set :=
| NoFlag
| Flag (name : string) (value : option string)
| BadFlag.
(** The name and the value; the equals sign cannot be first. *)
Definition named_flag (name : string) : argument :=
  match name with
  | EmptyString | String "-" _ | String "=" _ => BadFlag
  | String a rest =>
      match IndexByte rest "=" with
      | Some i => Flag (String a (stake i rest)) (Some (sdrop (S i) rest))
      | None => Flag name None
      end
  end.
Definition argument_of (s : string) : argument :=
  match s with
  | String "-" EmptyString => NoFlag
  | String "-" (String "-" EmptyString) => NoFlag
  | String "-" (String "-" name) => named_flag name
  | String "-" name => named_flag name
  | _ => NoFlag
  end.

(** The flags, or the status the process exits with. *)
Inductive flags : Set :=
| Flags (cfgPath : string) (showVersion : bool)
| FlagExit (status : Z).

Fixpoint parseFlags (args : list string) (cfgPath : string) (showVersion : bool) : flags :=
  match args with
  | [] => Flags cfgPath showVersion
  | s :: args =>
      match argument_of s with
      | NoFlag => Flags cfgPath showVersion
      | BadFlag => FlagExit 2
      | Flag name value =>
          if (name =? "config")%string then
            match value, args with
            | Some v, _ => parseFlags args v showVersion
            | None, v :: args => parseFlags args v showVersion
            | None, [] => FlagExit 2
            end
          else if (name =? "version")%string then
            match ParseBool (default "true"%string value) with
            | Some b => parseFlags args cfgPath b
            | None => FlagExit 2
            end
          else if (name =? "help")%string || (name =? "h")%string then FlagExit 0
          else FlagExit 2
      end
  end.

Section Run.
Context (ReadFile : string -> error + list byte).
Context (Unmarshal : list byte -> error + Config.t).
Context {Certificate : Type} (LoadX509KeyPair : string -> string -> error + Certificate).
Abbreviation start := (start ReadFile Unmarshal LoadX509KeyPair).

(** How [main] goes: it exits, having printed lines to the standard output, or runs
    the process it started. *)
Inductive command : Type :=
| Exits (status : Z) (stdout : list string)
| Runs (p : Proc)
| Panics.
Definition main_ (args : list string) : command :=
  match parseFlags args "config.yaml" false with
  | FlagExit status => Exits status []
  | Flags _ true => Exits (exitStatus None) [version]
  | Flags path false =>
      match start path with
      | Ok p => Runs (launch p)
      | Err err => Exits (exitStatus (Some err)) []
      | Panic => Panics
      end
  end.

(** The spellings of a flag. *)
Lemma config_flag s path args cfgPath v :
  s ∈ ["-config"; "--config"]%string -> parseFlags (s :: path :: args) cfgPath v = parseFlags args path v.
Proof. intros [-> |[-> |[]%elem_of_nil]%elem_of_cons]%elem_of_cons; reflexivity. Qed.
Lemma config_flag_equals s path args cfgPath v :
  s ∈ ["-config="; "--config="]%string ->
  parseFlags ((s +:+ path)%string :: args) cfgPath v = parseFlags args path v.
Proof. intros [-> |[-> |[]%elem_of_nil]%elem_of_cons]%elem_of_cons; reflexivity. Qed.

(** Without flags, or with one that names a file, the process is started from it. *)
Lemma main_starts path args p :
  args = [] /\ path = "config.yaml"%string \/ args = ["-config"%string; path] \/
  args = [("--config=" +:+ path)%string] ->
  start path = Ok p -> main_ args = Runs (launch p).
Proof.
  unfold main_. intros [[-> ->]|[-> | ->]] Hs;
    [|rewrite config_flag by set_solver|rewrite config_flag_equals by set_solver];
    cbn [parseFlags]; by rewrite Hs.
Qed.
(** The connections and the RPCs of a process that was started share its store: the
    system of System.v starts in a state its theorems are about. *)
Definition system (Default : Logger) (p : Config.Process (Certificate:=Certificate)) : System memoryResolver :=
  boot (NewService Default (tenantStore p) (Some (logger p).2)).
Lemma system_well_formed Default path p :
  start path = Ok p -> well_formed (tenants (svcStore (svc (system Default p)))).
Proof.
  unfold Config.start. intros (cfg & _ & H)%rbind_Ok. destruct (NewLogger _ _) as [level kind].
  apply rbind_Ok in H as (m & Hm & H). apply rbind_Ok in H as (tls & _ & [= <-]). simpl. unfold New in Hm.
  destruct (_ || _); [|done]. by eapply newMemoryResolver_wf.
Qed.
(** The version is printed without looking at any configuration. *)
Lemma main_version args path : parseFlags args "config.yaml" false = Flags path true -> main_ args = Exits 0 ["dev"%string].
Proof. unfold main_. by intros ->. Qed.
End Run.

Example version_after_config :
  parseFlags ["-config"; "a.yaml"; "--version=T"; "rest"; "-version=0"]%string "config.yaml" false = Flags "a.yaml" true.
Proof. reflexivity. Qed.
Example flags_end : parseFlags ["--"; "-version"]%string "config.yaml" false = Flags "config.yaml" false.
Proof. reflexivity. Qed.
Example flag_errors :
  map (fun args => parseFlags args "config.yaml" false)
    [["-config"]; ["-h"]; ["---x"]; ["-=x"]; ["-port"; "1"]; ["-version=yes"]]%string =
  [FlagExit 2; FlagExit 0; FlagExit 2; FlagExit 2; FlagExit 2; FlagExit 2].
Proof. reflexivity. Qed.
